(* ===== verification/_CoqProject ===== *)
-Q . S2P
Prelude.v
Text.v
Characters.v
Peg.v
Config.v
ConfigLines.v
ConfigTokens.v
Directives.v
DirectivesProps.v
Wire.v
Codec.v
Message.v
ChannelErrors.v
Channel.v
Progress.v
SessionMsg.v
ForwardMsg.v
Conversation.v
Global.v
GlobalProofs.v
GlobalPairs.v
GlobalTorn.v
GlobalWake.v
GlobalCancel.v
GlobalProps.v
GlobalLive.v
GlobalPipeline.v
GlobalServe.v
WireTypes.v
ForwardSpec.v
Net.v
ByteChannel.v
Tunnels.v
Reverse.v
ForwardClient.v
Terminal.v
PtyFd.v
Setup.v
Dispatch.v
Accounts.v
Handshake.v
Bootstrap.v
Command.v
Process.v
SessionRelay.v
SessionClient.v
SessionTask.v
