(* ===== verification/Prelude.v ===== *)
(** * DShell: a verification development

    DShell carries an SSH-like protocol over WebTransport sessions: a client
    opens channels for sessions and for forwarded connections, both sides send
    global requests on one pair of control streams, the server authenticates
    the user, runs the command and relays its input and output. This library
    models the crate's own code, all of [src/src/] except what the last part
    of this header lists, and proves what makes each part correct.

    ** The parts of the program and the files that model them

    Foundations, shared by all files:
    - Prelude: outcomes ([result]: a value, an error, a panic), the state and
      error monad [Io] (what a failing function has already read or written
      stays read or written), machine integers, generic lemmas and tactics;
    - Text: the operations of [str] the parsers use; Characters: the characters
      of a text; Peg: the meaning of parsing expression grammars, for the two grammars the crate generates
      its parsers from.

    The protocol:
    - Wire, Codec: byte streams with every way they can fail, h3x's varint as
      an interface, [codec.rs];
    - Message: [message.rs], [channel.rs], [constants.rs] and the request
      traits of [conversation.rs], as classes;
    - ChannelErrors, Channel: [conversation/channel.rs]; Progress: what its
      readers consume, for the loops over a channel;
    - SessionMsg, ForwardMsg: the messages of [session/mod.rs] and of
      [forward/mod.rs]; WireTypes: what their decoders return is well typed;
    - Conversation: opening and accepting a channel ([conversation.rs] and the
      streams of [webtransport.rs]);
    - Global: the ordered access to the control streams and the global requests
      ([conversation.rs], [conversation/global.rs]), as a concurrent program
      with one atomic operation per step, in which a future may be dropped
      where it waits; GlobalProofs, GlobalPairs, GlobalTorn and GlobalWake hold
      its invariants, GlobalProps its theorems, GlobalLive its termination,
      GlobalPipeline the callers' side and GlobalServe the other side and both
      together, GlobalCancel what a dropped future leaves behind;
    - Handshake: [auth.rs], [client.rs], [version.rs], [error.rs] and the
      opening handshake of [webtransport.rs]; Bootstrap: the messages between
      the parent and the process of a session ([session/mod.rs]);
    - ByteChannel: [byte_channel.rs].

    Configuration:
    - Config: [config.rs] and [config/parser.rs]; ConfigLines and ConfigTokens:
      its reference readings; Directives, DirectivesProps:
      [config/directives.rs].

    Forwarding:
    - ForwardSpec: [forward/spec.rs]; Net: addresses, connections and the pair
      of relay tasks; Tunnels: [forward/direct.rs], [forward/socks5.rs];
      Reverse: [forward/reverse.rs]; ForwardClient: [forward/client.rs].

    Sessions:
    - Terminal: the sizes and modes of [session/pty.rs]; PtyFd: its
      descriptor; Accounts:
      [session/signal.rs], [session/privilege.rs], [session/pam.rs] and the
      accounts of [session/mod.rs];
    - Setup, SessionTask, Dispatch: [session/dispatcher.rs], the setup
      requests of a session channel, the task that serves it, and the loop
      that accepts channels and global requests;
    - Command, Process, SessionRelay: [session/process.rs], the command and its
      environment, the process, the relays;
    - SessionClient: [session/client.rs].

    ** How the parts interact

    A conversation is agreed (Handshake); its control streams become the shared
    state of Global, its further streams become channels (Conversation). The
    loop of Dispatch takes the branches of the program's [select!]: an accepted
    channel goes to SessionTask or Tunnels by its type, a global request to the
    tables of forwards and Reverse, and each finished task is reaped. The
    client's half is SessionClient and ForwardClient. Theorems about both sides
    run the two programs on the bytes the other one wrote.

    ** What the theorems show

    - Control streams, over every schedule of any number of tasks whose futures
      may be dropped: exclusion ([guards_exclusive]), order ([global_order]),
      silence after a torn message ([torn_silence]), no lost wake-up
      ([no_lost_wakeup]); when no future is dropped, every request is answered
      and the streams do not wait for ever, all tasks return under every fair
      schedule ([requests_finish]); a future dropped while it waits for its turn blocks
      those behind it ([dropped_turn_blocks]). Both sides together refine a
      queue: concurrent callers get the answers to their own requests
      ([global_calls_answered], whose premises [request_op_ok] and
      [request_served] show of the crate's requests).
    - Codecs and channels: every payload survives the wire and is refused when
      cut short ([ssh_string_roundtrip], [session_payloads_roundtrip],
      [forward_payloads_roundtrip]); whatever the bytes, what is decoded is in
      its type's range ([decoded_well_typed]); any sequence of frames is read back, and a
      transport that fails anywhere delivers a prefix
      ([channel_stream_roundtrip], [channel_stream_cut]); requests and channel
      openings reach the peer with their answers ([channel_request_roundtrip],
      [channel_open_handshake]).
    - Sessions: a session does what its client asked for, to the exit
      ([session_serves]); input and output from end to end
      ([session_input_carried], and [session_output_carried] in SessionClient);
      when it returns its process is ended, in bounded time, and was not
      signalled once reaped ([session_process_ended], [terminate_ends]), but it
      waits for an input relay that is held up ([shutdown_held_up]); its loops
      end with their
      streams ([session_loops_end]), and so do the polls of the terminal's
      descriptor ([poll_io_ends]); privileges are dropped and a login
      is made in order ([drop_privileges_order], [login_order]); terminal modes
      and sizes ([terminal_modes_applied], [winsize_bounds]); the environment
      ([build_env_precedence], [environment_roundtrip]).
    - The dispatcher: the tables of forwards refine an abstract table
      ([forwards_refine]), each forwarding request is answered once, all
      else poisons the session ([dispatch_answers]),
      what is left when a session ends ([session_ending]).
    - Forwarding: a direct channel refines a tunnel ([direct_tunnel]), the proxy
      only connects where a valid request says ([socks5_dials_requested],
      [socks5_serves]), a remote forward reaches its target
      ([remote_forward_reaches]) and its connections are carried
      ([forwarded_connection_carried]); rules are read as documented
      ([local_forward_reads]).
    - Handshake: both sides have the same version ([handshake_agrees],
      [handshake_sound]), credentials ([basic_auth_roundtrip]).
    - Configuration: the grammar against a reading by lines ([parse_by_lines])
      and against the grammar of arguments ([tokenize_grammar]), locations
      ([locations_refer]), written directives ([written_directive_read]), glob
      patterns, read by bytes and by characters ([glob_match_spec]).
    - Where the code does not do what it means to, a theorem shows the run, for
      example [auto_failure_lost_wakeup], [crossing_requests_fail],
      [socks5_failure_panics], [displaced_listener_awaited],
      [extended_input_misread], [pending_write_duplicates].

    ** Interfaces to code outside the crate

    Each is a class whose laws are documented behaviour, with an instance where
    a theorem is applied: [VarIntLaws] (h3x's varint), [IoCopyLaws] (tokio's
    copy), [Base64Laws], [HttpLaws] and [H3x] (http and h3x), [SinkWriterLaws]
    (the sink adapter), [TermiosConstants] and [SignalNumbers] (libc). The
    operating system, the user database, PAM and the network answer through
    oracles over the calls made so far; the calls are recorded, so that theorems
    can speak of which were made and in which order.

    ** Bounds and fuel

    - Ticket counters wrap at 2^64. The theorems about schedules assume fewer
      than 2^64 steps, since the code takes tickets to be fresh.
    - The loops over a text or a stream ([tokenize_loop], [glob_match_fuel],
      [many_fuel], the setup loop, the relays of a session, the mode list) have the length of what is
      left as fuel, plus one; each round consumes at least a byte. Lemmas show
      that more fuel does not change the result, or that it does not run out.
    - The wait for a process polls each 25 ms ([wait_fuel]): 42 rounds for the
      grace of a second. [terminate_ends] shows that it never runs out.
    - [requests_finish] counts fair rounds, in which every task has a turn; as
      many as [rounds_needed] are enough, a product of the number of tasks and
      of the steps each has before it.
    - The loops around a [select!] (Dispatch, SessionRelay, the client's input)
      are functions of the branches taken, in their order: every interleaving
      of the events is such a list. A branch that is disabled is passed over.

    ** Not modelled

    - What the system does with a command (the fork, the descriptors, [setsid],
      the controlling terminal): the command asks for it, spawning it is a
      parameter. A shutdown while a session is set up, which drops its channel.
    - [test_support.rs], the tests and [lib.rs] (module declarations), the
      accessors of fields, and [AuthScheme], which nothing uses.
    - The wording of parse errors of forwarding rules and of log messages.
    - Cancellation in the middle of a message or of a write inside a relay,
      which the peer sees as a transport that fails there, and time, except for
      the deadlines of Process. *)
From Stdlib Require Import ZArith Lia Strings.Byte.
From stdpp Require Import base list strings gmap fin_maps relations.

Declare Scope io_scope.
Delimit Scope io_scope with io.
Declare Scope result_scope.
Delimit Scope result_scope with result.

(** ** Outcomes

    A Rust computation ends with a value, with an error of its [Result] type,
    or by unwinding ([expect], [unwrap], [unreachable!], a polled completed
    future). *)
Inductive result (A E : Type) : Type :=
| Ok (a : A)
| Err (e : E)
| Panic.
Arguments Ok {A E} a.
Arguments Err {A E} e.
Arguments Panic {A E}.

Definition is_ok {A E} (x : result A E) : bool :=
  match x with Ok _ => true | _ => false end.

(** [Result::map_err], and what snafu's [.context(..)] does to the error. *)
Definition result_map_err {A E E'} (f : E → E') (x : result A E) : result A E' :=
  match x with Ok a => Ok a | Err e => Err (f e) | Panic => Panic end.

(** [Result::ok()]. *)
Definition result_ok {A E} (x : result A E) : option A :=
  match x with Ok a => Some a | _ => None end.

(** [e?] in a function that is not [async]. *)
Definition and_then {A B E} (x : result A E) (k : A → result B E) : result B E :=
  match x with Ok a => k a | Err e => Err e | Panic => Panic end.
Notation "'let?' x ':=' e 'in' k" := (and_then e (λ x, k))
  (at level 10, x pattern, e at level 100, k at level 200) : result_scope.

Lemma and_then_Ok {A B E} (x : result A E) (k : A → result B E) b :
  and_then x k = Ok b ↔ ∃ a, x = Ok a ∧ k a = Ok b.
Proof. destruct x; simpl; naive_solver. Qed.

#[export] Instance result_eq_dec A E `{EqDecision A, EqDecision E} :
  EqDecision (result A E).
Proof. solve_decision. Defined.

(** ** The state and error monad

    An [async fn] that owns or borrows a stream is a function of the state of
    that stream. The state is threaded through failures too: a decoder that
    fails has consumed the bytes it read, an encoder that fails has left the
    bytes it wrote. *)
Definition Io (S E A : Type) : Type := S → S * result A E.

Definition io_ret {S E A} (a : A) : Io S E A := λ s, (s, Ok a).
Definition io_fail {S E A} (e : E) : Io S E A := λ s, (s, Err e).
Definition io_panic {S E A} : Io S E A := λ s, (s, Panic).
Definition io_lift {S E A} (x : result A E) : Io S E A := λ s, (s, x).

Definition io_bind {S E A B} (c : Io S E A) (k : A → Io S E B) : Io S E B := λ s,
  match c s with
  | (s', Ok a) => k a s'
  | (s', Err e) => (s', Err e)
  | (s', Panic) => (s', Panic)
  end.

Definition map_err {S E E' A} (c : Io S E A) (f : E → E') : Io S E' A := λ s,
  let '(s', x) := c s in (s', result_map_err f x).

(** [c?] on a value the caller inspects instead of propagating:
    [let r = c.await;] binds the [Result] itself. *)
Definition io_try {S E E' A} (c : Io S E A) : Io S E' (result A E) := λ s,
  let '(s', x) := c s in
  match x with Panic => (s', Panic) | _ => (s', Ok x) end.

(** Run [c] on a component of the state: a borrow of one field. *)
Definition io_zoom {S S' E A} (get : S → S') (put : S' → S → S) (c : Io S' E A) :
  Io S E A := λ s, let '(s', x) := c (get s) in (put s' s, x).

Notation "'let!' x ':=' c 'in' k" := (io_bind c (λ x, k))
  (at level 10, x pattern, c at level 100, k at level 200) : io_scope.
Notation "c1 ;;; c2" := (io_bind c1 (λ _, c2))
  (at level 100, right associativity) : io_scope.
Notation "c '<?>' f" := (map_err c f) (at level 60, f at next level) : io_scope.

Section io_laws.
Context {S E : Type}.
Open Scope io_scope.

Lemma io_bind_ret {A B} (a : A) (k : A → Io S E B) s :
  io_bind (io_ret a) k s = k a s.
Proof. done. Qed.

Lemma io_bind_assoc {A B C} (c : Io S E A) (k : A → Io S E B) (h : B → Io S E C) s :
  io_bind (io_bind c k) h s = io_bind c (λ a, io_bind (k a) h) s.
Proof. unfold io_bind. destruct (c s) as [s' [a|e|]]; done. Qed.

Lemma io_bind_ok {A B} (c : Io S E A) (k : A → Io S E B) s s' a :
  c s = (s', Ok a) → io_bind c k s = k a s'.
Proof. unfold io_bind. by intros ->. Qed.

Lemma io_bind_err {A B} (c : Io S E A) (k : A → Io S E B) s s' e :
  c s = (s', Err e) → io_bind c k s = (s', Err e).
Proof. unfold io_bind. by intros ->. Qed.

Lemma map_err_ok {E' A} (c : Io S E A) (f : E → E') s s' a :
  c s = (s', Ok a) → (c <?> f) s = (s', Ok a).
Proof. unfold map_err. by intros ->. Qed.

Lemma map_err_err {E' A} (c : Io S E A) (f : E → E') s s' e :
  c s = (s', Err e) → (c <?> f) s = (s', Err (f e)).
Proof. unfold map_err. by intros ->. Qed.

Lemma io_zoom_run {S' A} (get : S → S') put (c : Io S' E A) s s' x :
  c (get s) = (s', x) → io_zoom get put c s = (put s' s, x).
Proof. unfold io_zoom. by intros ->. Qed.

Lemma io_bind_inv_ok {A B} (c : Io S E A) (k : A → Io S E B) s s' b :
  io_bind c k s = (s', Ok b) → ∃ s1 a, c s = (s1, Ok a) ∧ k a s1 = (s', Ok b).
Proof. unfold io_bind. destruct (c s) as [s1 [a|e|]]; intros; simplify_eq; eauto. Qed.

Lemma map_err_inv_ok {E' A} (c : Io S E A) (f : E → E') s s' a :
  (c <?> f) s = (s', Ok a) → c s = (s', Ok a).
Proof. unfold map_err. destruct (c s) as [s1 [?|?|]]; intros; by simplify_eq/=. Qed.
End io_laws.

(** Split a run that is known to have returned into the runs of its steps. *)
Ltac io_inv :=
  repeat match goal with
  | H : io_bind _ _ _ = (_, Ok _) |- _ =>
    apply io_bind_inv_ok in H; destruct H as (? & ? & ? & H)
  | H : map_err _ _ _ = (_, Ok _) |- _ => apply map_err_inv_ok in H
  | H : io_ret _ _ = (_, _) |- _ => unfold io_ret in H
  | H : io_fail _ _ = (_, _) |- _ => unfold io_fail in H
  | H : io_lift _ _ = (_, _) |- _ => unfold io_lift in H
  | H : (_, _) = (_, _) |- _ => injection H; clear H; intros; subst
  | H : Err _ = Ok _ |- _ => discriminate H
  | H : Panic = Ok _ |- _ => discriminate H
  end.

(** ** Machine integers *)

Definition U8_MAX : Z := 255.
Definition U16_MAX : Z := 65535.
Definition U32_MAX : Z := 4294967295.
Definition U64_MOD : Z := 18446744073709551616.

Definition wrap_u8 (z : Z) : Z := (z mod 256)%Z.
Definition wrap_u16 (z : Z) : Z := (z mod 65536)%Z.
Definition wrap_u32 (z : Z) : Z := (z mod 4294967296)%Z.
Definition wrap_u64 (z : Z) : Z := (z mod U64_MOD)%Z.

(** [u16::try_from] on a [u64]. *)
Definition u16_try_from (z : Z) : option Z := if (z <=? U16_MAX)%Z then Some z else None.

Lemma u16_try_from_Some z p :
  (0 ≤ z)%Z → u16_try_from z = Some p ↔ p = z ∧ (0 ≤ z ≤ U16_MAX)%Z.
Proof.
  unfold u16_try_from. intros Hz. destruct (Z.leb_spec z U16_MAX); split; intros; simplify_eq; naive_solver lia.
Qed.

(** ** Bytes *)

#[export] Instance byte_eq_dec : EqDecision byte := Byte.byte_eq_dec.

Definition b2z (b : byte) : Z := Z.of_N (Byte.to_N b).
Definition z2b (z : Z) : byte :=
  match Byte.of_N (Z.to_N (wrap_u8 z)) with Some b => b | None => x00 end.

Lemma b2z_range b : (0 ≤ b2z b < 256)%Z.
Proof. unfold b2z. pose proof (Byte.to_N_bounded b). lia. Qed.

Lemma z2b_b2z b : z2b (b2z b) = b.
Proof.
  unfold z2b, wrap_u8. rewrite Z.mod_small by apply b2z_range.
  unfold b2z. by rewrite N2Z.id, Byte.of_to_N.
Qed.

Lemma b2z_z2b z : b2z (z2b z) = wrap_u8 z.
Proof.
  unfold z2b, wrap_u8. pose proof (Z.mod_pos_bound z 256 eq_refl).
  destruct (Byte.of_N (Z.to_N (z mod 256))) eqn:Hb.
  - apply Byte.to_of_N in Hb. unfold b2z. rewrite Hb. lia.
  - apply Byte.of_N_None_iff in Hb. lia.
Qed.

Lemma b2z_z2b_small z : (0 ≤ z < 256)%Z → b2z (z2b z) = z.
Proof. intros. rewrite b2z_z2b. unfold wrap_u8. by apply Z.mod_small. Qed.

#[export] Instance b2z_inj : Inj (=) (=) b2z.
Proof. intros b1 b2 H. by rewrite <- (z2b_b2z b1), H, z2b_b2z. Qed.

(** Big-endian reading and writing, as [to_be_bytes] and [from_be_bytes]. *)
Fixpoint be_bytes (n : nat) (z : Z) : list byte :=
  match n with
  | O => []
  | S n => be_bytes n (z / 256) ++ [z2b z]
  end.

Fixpoint be_value_acc (acc : Z) (bs : list byte) : Z :=
  match bs with
  | [] => acc
  | b :: bs => be_value_acc (acc * 256 + b2z b)%Z bs
  end.
Definition be_value (bs : list byte) : Z := be_value_acc 0 bs.

Lemma length_be_bytes n z : length (be_bytes n z) = n.
Proof.
  revert z. induction n as [|n IH]; intros z; [done|].
  cbn [be_bytes]. rewrite length_app, IH. simpl. lia.
Qed.

Lemma be_value_acc_app acc bs cs :
  be_value_acc acc (bs ++ cs) = be_value_acc (be_value_acc acc bs) cs.
Proof. revert acc. induction bs as [|b bs IH]; intros acc; [done|]. apply IH. Qed.

Lemma be_value_snoc bs b : be_value (bs ++ [b]) = (be_value bs * 256 + b2z b)%Z.
Proof. unfold be_value. by rewrite be_value_acc_app. Qed.

Lemma be_value_bytes n z :
  (0 ≤ z < 256 ^ Z.of_nat n)%Z → be_value (be_bytes n z) = z.
Proof.
  revert z. induction n as [|n IH]; intros z Hz.
  { cbn. simpl in Hz. lia. }
  cbn [be_bytes]. rewrite be_value_snoc, IH, b2z_z2b; unfold wrap_u8.
  - pose proof (Z.div_mod z 256 ltac:(lia)). lia.
  - rewrite Nat2Z.inj_succ, Z.pow_succ_r in Hz by lia.
    split; [apply Z.div_pos; lia|]. apply Z.div_lt_upper_bound; lia.
Qed.

Lemma be_value_range bs : (0 ≤ be_value bs < 256 ^ Z.of_nat (length bs))%Z.
Proof.
  induction bs as [|b bs IH] using rev_ind; [cbn; lia|].
  rewrite be_value_snoc, length_app, Nat2Z.inj_add, Z.pow_add_r by lia.
  pose proof (b2z_range b). simpl (length [b]). lia.
Qed.

(** ** Byte strings and text

    A Rust [str] or [String] is the sequence of its UTF-8 bytes, which is what
    a Rocq [string] is; [Bytes] and [Vec<u8>] are lists of bytes. *)
Definition str_bytes (s : string) : list byte := String.list_byte_of_string s.
Definition bytes_str (bs : list byte) : string := String.string_of_list_byte bs.

Lemma bytes_str_bytes s : bytes_str (str_bytes s) = s.
Proof. apply String.string_of_list_byte_of_string. Qed.
Lemma str_bytes_str bs : str_bytes (bytes_str bs) = bs.
Proof. apply String.list_byte_of_string_of_list_byte. Qed.

#[export] Instance str_bytes_inj : Inj (=) (=) str_bytes.
Proof. intros s1 s2 H. by rewrite <- (bytes_str_bytes s1), H, bytes_str_bytes. Qed.

Lemma length_str_bytes s : length (str_bytes s) = String.length s.
Proof.
  induction s as [|c s IH]; [done|]. unfold str_bytes in *. cbn. by rewrite <- IH.
Qed.

(** UTF-8 well-formedness, as [str::from_utf8] decides it: no overlong forms,
    no surrogates, nothing above U+10FFFF. *)
Definition utf8_cont (b : byte) : bool := ((128 <=? b2z b) && (b2z b <=? 191))%Z.
Definition byte_in (lo hi : Z) (b : byte) : bool := ((lo <=? b2z b) && (b2z b <=? hi))%Z.

Fixpoint utf8_valid (bs : list byte) : bool :=
  match bs with
  | [] => true
  | b0 :: t0 =>
    if byte_in 0 127 b0 then utf8_valid t0 else
    match t0 with
    | [] => false
    | b1 :: t1 =>
      if byte_in 194 223 b0 then utf8_cont b1 && utf8_valid t1 else
      match t1 with
      | [] => false
      | b2 :: t2 =>
        if byte_in 224 224 b0 then byte_in 160 191 b1 && utf8_cont b2 && utf8_valid t2
        else if byte_in 237 237 b0 then byte_in 128 159 b1 && utf8_cont b2 && utf8_valid t2
        else if byte_in 225 239 b0 then utf8_cont b1 && utf8_cont b2 && utf8_valid t2 else
        match t2 with
        | [] => false
        | b3 :: t3 =>
          if byte_in 240 240 b0 then
            byte_in 144 191 b1 && utf8_cont b2 && utf8_cont b3 && utf8_valid t3
          else if byte_in 241 243 b0 then
            utf8_cont b1 && utf8_cont b2 && utf8_cont b3 && utf8_valid t3
          else if byte_in 244 244 b0 then
            byte_in 128 143 b1 && utf8_cont b2 && utf8_cont b3 && utf8_valid t3
          else false
        end
      end
    end
  end.

Lemma utf8_valid_ascii bs : forallb (byte_in 0 127) bs = true → utf8_valid bs = true.
Proof.
  induction bs as [|b bs IH]; [done|]. cbn [forallb]. intros [Hb Hbs]%andb_true_iff.
  cbn. rewrite Hb. auto.
Qed.

(** ** Prefixes *)

Lemma prefix_app_full {A} (l k p : list A) : p `prefix_of` k → (l ++ p) `prefix_of` (l ++ k).
Proof. apply prefix_app. Qed.
