(* ===== verification/Text.v ===== *)
(** * Text: the string operations of the Rust standard library

    The operations on [str] the parsers use, on the UTF-8 bytes of the text:
    trimming, splitting, ASCII case, and the decimal form of integers. *)
From Stdlib Require Import ZArith Lia Strings.Byte Arith.Wf_nat.
From stdpp Require Import base list strings gmap fin_maps relations.
From S2P Require Import Prelude.
Local Open Scope Z_scope.

(** ** Bytes of text *)

Definition is_blank (b : byte) : bool := byte_in 32 32 b || byte_in 9 9 b.
Definition is_digit (b : byte) : bool := byte_in 48 57 b.
Definition is_letter (b : byte) : bool := byte_in 65 90 b || byte_in 97 122 b.
Definition is_eol (b : byte) : bool := byte_in 10 10 b || byte_in 13 13 b.

(** [u8::to_ascii_lowercase], [u8::eq_ignore_ascii_case]. *)
Definition ascii_lowercase (b : byte) : byte :=
  if byte_in 65 90 b then z2b (b2z b + 32) else b.
Definition to_ascii_lowercase (s : list byte) : list byte := map ascii_lowercase s.
Definition eq_ignore_ascii_case (a b : byte) : bool :=
  bool_decide (ascii_lowercase a = ascii_lowercase b).

(** ** Trimming

    [str::trim_start] and [trim_end] remove the characters with the Unicode
    property White_Space, by their encodings: U+0009-U+000D and U+0020; U+0085
    and U+00A0; U+1680; U+2000-U+200A, U+2028, U+2029, U+202F; U+205F; U+3000. *)
Definition ascii_whitespace (b : byte) : bool := byte_in 9 13 b || byte_in 32 32 b.
Definition whitespace2 (b0 b1 : byte) : bool :=
  byte_in 194 194 b0 && (byte_in 133 133 b1 || byte_in 160 160 b1).
Definition whitespace3 (b0 b1 b2 : byte) : bool :=
  byte_in 225 225 b0 && byte_in 154 154 b1 && byte_in 128 128 b2 ||
  byte_in 226 226 b0 && byte_in 128 128 b1 &&
    (byte_in 128 138 b2 || byte_in 168 169 b2 || byte_in 175 175 b2) ||
  byte_in 226 226 b0 && byte_in 129 129 b1 && byte_in 159 159 b2 ||
  byte_in 227 227 b0 && byte_in 128 128 b1 && byte_in 128 128 b2.

Fixpoint trim_start (s : list byte) : list byte :=
  match s with
  | [] => []
  | b0 :: t0 =>
    if ascii_whitespace b0 then trim_start t0 else
    match t0 with
    | b1 :: t1 =>
      if whitespace2 b0 b1 then trim_start t1 else
      match t1 with
      | b2 :: t2 => if whitespace3 b0 b1 b2 then trim_start t2 else s
      | [] => s
      end
    | [] => s
    end
  end.

(** On the reversed bytes. *)
Fixpoint trim_rev (s : list byte) : list byte :=
  match s with
  | [] => []
  | b0 :: t0 =>
    if ascii_whitespace b0 then trim_rev t0 else
    match t0 with
    | b1 :: t1 =>
      if whitespace2 b1 b0 then trim_rev t1 else
      match t1 with
      | b2 :: t2 => if whitespace3 b2 b1 b0 then trim_rev t2 else s
      | [] => s
      end
    | [] => s
    end
  end.
Definition trim_end (s : list byte) : list byte := reverse (trim_rev (reverse s)).
Definition trim (s : list byte) : list byte := trim_end (trim_start s).

(** ** Prefixes and splitting *)

(** The longest prefix of bytes with a property, and the rest. *)
Fixpoint span_while (p : byte → bool) (s : list byte) : list byte * list byte :=
  match s with
  | [] => ([], [])
  | b :: t => if p b then let '(u, r) := span_while p t in (b :: u, r) else ([], s)
  end.

(** [str::strip_prefix]. *)
Fixpoint strip_prefix (p s : list byte) : option (list byte) :=
  match p, s with
  | [], _ => Some s
  | a :: p, b :: s => if bool_decide (a = b) then strip_prefix p s else None
  | _ :: _, [] => None
  end.

(** [str::split] on one ASCII character; ["".split(c)] is one empty part. *)
Fixpoint split_on (c : byte) (s : list byte) : list (list byte) :=
  match s with
  | [] => [[]]
  | b :: t =>
    if bool_decide (b = c) then [] :: split_on c t
    else match split_on c t with
         | p :: ps => (b :: p) :: ps
         | [] => [[b]]
         end
  end.

(** [str::split_once] on one ASCII character. *)
Definition split_once (c : byte) (s : list byte) : option (list byte * list byte) :=
  let '(u, r) := span_while (λ b, negb (bool_decide (b = c))) s in
  match r with [] => None | _ :: r => Some (u, r) end.

Fixpoint join_with (sep : list byte) (ps : list (list byte)) : list byte :=
  match ps with
  | [] => []
  | [p] => p
  | p :: ps => p ++ sep ++ join_with sep ps
  end.

(** ** Integers in decimal *)

(** [std::num::ParseIntError], by its kind. *)
Inductive ParseIntError := IntEmpty | InvalidDigit | PosOverflow.
#[export] Instance ParseIntError_eq_dec : EqDecision ParseIntError.
Proof. solve_decision. Defined.

Definition digit_value (b : byte) : option Z :=
  if is_digit b then Some (b2z b - 48) else None.

(** The loop of [from_str_radix], for an unsigned type with maximum [max]. *)
Fixpoint parse_digits (max acc : Z) (s : list byte) : result Z ParseIntError :=
  match s with
  | [] => Ok acc
  | b :: t =>
    match digit_value b with
    | None => Err InvalidDigit
    | Some x =>
      if max <? acc * 10 then Err PosOverflow
      else if max <? acc * 10 + x then Err PosOverflow
      else parse_digits max (acc * 10 + x) t
    end
  end.

(** [uN::from_str]: an optional [+], at least one digit. *)
Definition parse_unsigned (max : Z) (s : list byte) : result Z ParseIntError :=
  match s with
  | [] => Err IntEmpty
  | [b] => if byte_in 43 43 b || byte_in 45 45 b then Err InvalidDigit else parse_digits max 0 s
  | b :: t => if byte_in 43 43 b then parse_digits max 0 t else parse_digits max 0 s
  end.

(** [Display] of an unsigned integer, of at most [n] digits. *)
Definition digit_byte (d : Z) : byte := z2b (48 + d).
Fixpoint dec_digits (n : nat) (z : Z) : list byte :=
  match n with
  | O => []
  | S n => (if z <? 10 then [] else dec_digits n (z / 10)) ++ [digit_byte (z mod 10)]
  end.
Definition dec (z : Z) : list byte := dec_digits 20 z.

(** ** Lemmas *)

Lemma byte_in_spec lo hi b : byte_in lo hi b = true ↔ lo ≤ b2z b ≤ hi.
Proof. unfold byte_in. rewrite andb_true_iff, !Z.leb_le. done. Qed.

Lemma byte_in_single b c : byte_in (b2z c) (b2z c) b = true ↔ b = c.
Proof.
  rewrite byte_in_spec. split; [|intros ->; lia].
  intros ?. apply (inj b2z). lia.
Qed.

Lemma span_while_app p s u r : span_while p s = (u, r) → s = u ++ r.
Proof.
  revert u r. induction s as [|b t IH]; intros u r; simpl; [intros; by simplify_eq|].
  destruct (p b); [|intros; by simplify_eq].
  destruct (span_while p t) as [u' r'] eqn:E. intros. simplify_eq. simpl. by rewrite (IH u' r).
Qed.

Lemma span_while_all p s u r : span_while p s = (u, r) → forallb p u = true.
Proof.
  revert u r. induction s as [|b t IH]; intros u r; simpl; [intros; by simplify_eq|].
  destruct (p b) eqn:Hb; [|intros; by simplify_eq].
  destruct (span_while p t) as [u' r'] eqn:E. intros. simplify_eq. simpl. rewrite Hb. by eapply IH.
Qed.

Lemma span_while_stop p s u r b t : span_while p s = (u, r) → r = b :: t → p b = false.
Proof.
  revert u r. induction s as [|a s IH]; intros u r; simpl; [intros; by simplify_eq|].
  destruct (p a) eqn:Ha; [|intros; by simplify_eq].
  destruct (span_while p s) as [u' r'] eqn:E. intros. simplify_eq. by eapply IH.
Qed.

(** What [span_while] returns on a run of [p] that ends. *)
Lemma span_while_run p u r :
  forallb p u = true → (∀ b t, r = b :: t → p b = false) → span_while p (u ++ r) = (u, r).
Proof.
  induction u as [|a u IH]; simpl.
  - intros _ Hr. destruct r as [|b t]; [done|]. simpl. by rewrite (Hr b t).
  - intros [-> Hu]%andb_prop Hr. by rewrite IH.
Qed.

(** A run ends at the first byte the class refuses. *)
Lemma span_while_app_stop p l b t :
  p b = false →
  span_while p (l ++ b :: t) = ((span_while p l).1, (span_while p l).2 ++ b :: t).
Proof.
  intros Hb. induction l as [|a l IH]; simpl; [by rewrite Hb|].
  destruct (p a); [|done]. rewrite IH. by destruct (span_while p l).
Qed.

Lemma strip_prefix_Some p s r : strip_prefix p s = Some r ↔ s = p ++ r.
Proof.
  revert s. induction p as [|a p IH]; intros s; simpl; [split; congruence|].
  destruct s as [|b s]; simpl; [done|]. case_bool_decide; [subst; rewrite IH|]; naive_solver.
Qed.

Lemma split_once_Some c s u r : split_once c s = Some (u, r) ↔ s = u ++ c :: r ∧ c ∉ u.
Proof.
  unfold split_once. split.
  - destruct (span_while _ s) as [u' r'] eqn:Hs. pose proof (span_while_app _ _ _ _ Hs) as ->.
    pose proof (span_while_all _ _ _ _ Hs) as Hall.
    destruct r' as [|b r']; [done|]. intros ?. simplify_eq.
    pose proof (span_while_stop _ _ _ _ b r Hs eq_refl) as Hstop.
    apply negb_false_iff, bool_decide_eq_true in Hstop as ->.
    split; [done|]. intros Hin. rewrite forallb_forall in Hall.
    apply list_elem_of_In in Hin. specialize (Hall _ Hin). simpl in Hall.
    by rewrite bool_decide_eq_true_2 in Hall.
  - intros [-> Hu]. rewrite span_while_run; [done| |].
    + apply forallb_forall. intros x Hx%list_elem_of_In. apply negb_true_iff, bool_decide_eq_false.
      intros ->. done.
    + intros b t ?. simplify_eq. by rewrite bool_decide_eq_true_2.
Qed.

Lemma split_on_nonempty c s : split_on c s ≠ [].
Proof. destruct s; simpl; [done|]. repeat case_match; done. Qed.

Lemma split_on_run c u r :
  c ∉ u → split_on c (u ++ c :: r) = u :: split_on c r.
Proof.
  induction u as [|a u IH]; simpl; intros Hu; [by rewrite bool_decide_eq_true_2|].
  rewrite bool_decide_eq_false_2 by set_solver. by rewrite IH by set_solver.
Qed.

Lemma split_on_last c u : c ∉ u → split_on c u = [u].
Proof.
  induction u as [|a u IH]; simpl; intros Hu; [done|].
  rewrite bool_decide_eq_false_2 by set_solver. by rewrite IH by set_solver.
Qed.

Lemma split_on_join c s : join_with [c] (split_on c s) = s.
Proof.
  induction s as [|b t IH]; [done|]. cbn [split_on]. case_bool_decide as Hb.
  - subst. destruct (split_on c t) as [|p ps] eqn:E; [by destruct (split_on_nonempty c t)|].
    transitivity (c :: join_with [c] (p :: ps)); [done|by rewrite IH].
  - destruct (split_on c t) as [|p ps] eqn:E; [by destruct (split_on_nonempty c t)|].
    rewrite <- IH. by destruct ps.
Qed.

Lemma split_on_parts c s : Forall (λ p, c ∉ p) (split_on c s).
Proof.
  induction s as [|b t IH]; simpl; [repeat constructor; set_solver|].
  case_bool_decide as Hb; [constructor; [set_solver|done]|].
  destruct (split_on c t) as [|p ps]; [repeat constructor; set_solver|].
  inversion IH; subst. constructor; [set_solver|done].
Qed.

(** A decimal form is read back, and nothing else follows it. *)
Lemma parse_digits_app max acc s t v :
  parse_digits max acc s = Ok v → parse_digits max acc (s ++ t) = parse_digits max v t.
Proof.
  revert acc. induction s as [|b s IH]; intros acc; simpl; [intros; by simplify_eq|].
  destruct (digit_value b); [|done]. repeat case_match; try done. apply IH.
Qed.

Lemma digit_byte_value d : 0 ≤ d < 10 → digit_value (digit_byte d) = Some d.
Proof.
  intros Hd. unfold digit_value, digit_byte, is_digit, byte_in.
  rewrite b2z_z2b_small by lia.
  rewrite (proj2 (Z.leb_le 48 (48 + d))), (proj2 (Z.leb_le (48 + d) 57)) by lia. simpl.
  f_equal. lia.
Qed.

Lemma parse_dec_digits max n z :
  0 ≤ z ≤ max → z < 10 ^ Z.of_nat n → parse_digits max 0 (dec_digits n z) = Ok z.
Proof.
  revert z. induction n as [|n IH]; intros z Hz Hn; [simpl in *; f_equal; lia|].
  cbn [dec_digits]. pose proof (Z.div_mod z 10 ltac:(lia)) as Hdm.
  pose proof (Z.mod_pos_bound z 10 ltac:(lia)).
  assert (parse_digits max 0 (if z <? 10 then [] else dec_digits n (z / 10)) = Ok (z / 10)) as Hp.
  { destruct (Z.ltb_spec z 10); [simpl; by rewrite Z.div_small by lia|].
    apply IH; [lia|]. rewrite Nat2Z.inj_succ, Z.pow_succ_r in Hn by lia.
    apply Z.div_lt_upper_bound; lia. }
  rewrite (parse_digits_app _ _ _ _ _ Hp). cbn [parse_digits].
  rewrite digit_byte_value by lia.
  rewrite !(proj2 (Z.ltb_ge _ _)) by lia. f_equal. lia.
Qed.

(** Digits have the value they denote, or are too large. *)
Fixpoint digits_value (acc : Z) (s : list byte) : Z :=
  match s with [] => acc | b :: t => digits_value (acc * 10 + (b2z b - 48)) t end.

Lemma digits_value_ge acc s : 0 ≤ acc → forallb is_digit s = true → acc ≤ digits_value acc s.
Proof.
  revert acc. induction s as [|b s IH]; intros acc Hacc; simpl; [lia|].
  intros [Hb Hs]%andb_prop. apply byte_in_spec in Hb.
  etransitivity; [|apply IH; [lia|done]]. lia.
Qed.

Lemma parse_digits_value max acc s :
  0 ≤ acc ≤ max → forallb is_digit s = true →
  parse_digits max acc s =
  if max <? digits_value acc s then Err PosOverflow else Ok (digits_value acc s).
Proof.
  revert acc. induction s as [|b s IH]; intros acc Hacc.
  { intros _. simpl. by rewrite (proj2 (Z.ltb_ge _ _)) by lia. }
  simpl. intros [Hb Hs]%andb_prop. unfold digit_value. rewrite Hb. apply byte_in_spec in Hb.
  pose proof (digits_value_ge (acc * 10 + (b2z b - 48)) s ltac:(lia) Hs).
  destruct (Z.ltb_spec max (acc * 10)); [by rewrite (proj2 (Z.ltb_lt _ _)) by lia|].
  destruct (Z.ltb_spec max (acc * 10 + (b2z b - 48)));
    [by rewrite (proj2 (Z.ltb_lt _ _)) by lia|].
  apply IH; [lia|done].
Qed.

Lemma dec_digits_all n z : 0 ≤ z → forallb is_digit (dec_digits n z) = true.
Proof.
  revert z. induction n as [|n IH]; intros z Hz; [done|]. cbn [dec_digits].
  rewrite forallb_app. simpl. rewrite andb_true_r. apply andb_true_intro. split.
  - destruct (z <? 10); [done|]. apply IH. apply Z.div_pos; lia.
  - pose proof (digit_byte_value (z mod 10) (Z.mod_pos_bound z 10 ltac:(lia))) as Hd.
    unfold digit_value in Hd. by destruct (is_digit _).
Qed.

Lemma dec_digits_nonempty n z : (0 < n)%nat → dec_digits n z ≠ [].
Proof. destruct n; [lia|]. intros _ H. by apply app_eq_nil in H as [_ ?]. Qed.

Lemma length_dec_digits n z : (length (dec_digits n z) ≤ n)%nat.
Proof.
  revert z. induction n as [|n IH]; intros z; [done|]. cbn [dec_digits]. rewrite length_app.
  destruct (z <? 10); [simpl; lia|]. specialize (IH (z / 10)). simpl. lia.
Qed.
Lemma dec_nonempty z : dec z ≠ [].
Proof. apply dec_digits_nonempty. lia. Qed.
Lemma dec_all z : 0 ≤ z → forallb is_digit (dec z) = true.
Proof. apply dec_digits_all. Qed.

Lemma is_digit_range b : is_digit b = true → 48 ≤ b2z b ≤ 57.
Proof. apply byte_in_spec. Qed.

Lemma parse_unsigned_digits max s :
  s ≠ [] → forallb is_digit s = true → parse_unsigned max s = parse_digits max 0 s.
Proof.
  intros Hs Hd. destruct s as [|b t]; [done|]. simpl in Hd.
  apply andb_prop in Hd as [Hb _]. apply is_digit_range in Hb.
  assert (byte_in 43 43 b = false) as H1
    by (apply not_true_is_false; rewrite byte_in_spec; lia).
  assert (byte_in 45 45 b = false) as H2
    by (apply not_true_is_false; rewrite byte_in_spec; lia).
  unfold parse_unsigned. rewrite H1, H2. by destruct t.
Qed.

Lemma parse_unsigned_dec max z :
  0 ≤ z ≤ max → z < 10 ^ 20 → parse_unsigned max (dec z) = Ok z.
Proof.
  intros Hz Hlt. rewrite parse_unsigned_digits; [|apply dec_nonempty|apply dec_all; lia].
  by apply parse_dec_digits.
Qed.

Lemma parse_digits_bounds max acc s v :
  0 ≤ acc ≤ max → parse_digits max acc s = Ok v → acc ≤ v ≤ max.
Proof.
  revert acc. induction s as [|b s IH]; intros acc Hacc; simpl; [intros; simplify_eq; lia|].
  unfold digit_value. destruct (is_digit b) eqn:Hb; [|done]. apply is_digit_range in Hb.
  destruct (Z.ltb_spec max (acc * 10)); [done|].
  destruct (Z.ltb_spec max (acc * 10 + (b2z b - 48))); [done|].
  intros Hp. apply IH in Hp; lia.
Qed.

Lemma digits_value_app acc s t : digits_value acc (s ++ t) = digits_value (digits_value acc s) t.
Proof. revert acc. induction s as [|b s IH]; intros acc; [done|]. apply IH. Qed.

Lemma dec_digits_value n z : 0 ≤ z < 10 ^ Z.of_nat n → digits_value 0 (dec_digits n z) = z.
Proof.
  revert z. induction n as [|n IH]; intros z Hz; [simpl in *; lia|]. cbn [dec_digits].
  pose proof (Z.div_mod z 10 ltac:(lia)). pose proof (Z.mod_pos_bound z 10 ltac:(lia)).
  rewrite digits_value_app.
  assert (digits_value 0 (if z <? 10 then [] else dec_digits n (z / 10)) = z / 10) as ->.
  { destruct (Z.ltb_spec z 10); [simpl; by rewrite Z.div_small by lia|].
    apply IH. rewrite Nat2Z.inj_succ, Z.pow_succ_r in Hz by lia.
    split; [apply Z.div_pos; lia|apply Z.div_lt_upper_bound; lia]. }
  cbn [digits_value]. unfold digit_byte. rewrite b2z_z2b_small by lia. lia.
Qed.

(** The decimal form of a number is read as that number or refused. *)
Lemma parse_unsigned_dec_value max z :
  0 ≤ max → 0 ≤ z < 10 ^ 20 →
  parse_unsigned max (dec z) = if max <? z then Err PosOverflow else Ok z.
Proof.
  intros Hm Hz. rewrite parse_unsigned_digits; [|apply dec_nonempty|apply dec_all; lia].
  rewrite parse_digits_value; [|lia|apply dec_all; lia]. unfold dec.
  by rewrite dec_digits_value by (change (Z.of_nat 20) with 20; lia).
Qed.

Lemma parse_unsigned_no_panic max s : parse_unsigned max s ≠ Panic.
Proof.
  assert (∀ acc t, parse_digits max acc t ≠ Panic) as Hp.
  { intros acc t. revert acc. induction t as [|b t IH]; intros acc; simpl; [done|].
    by repeat case_match. }
  unfold parse_unsigned. repeat case_match; done.
Qed.

Lemma parse_unsigned_bounds max s v : 0 ≤ max → parse_unsigned max s = Ok v → 0 ≤ v ≤ max.
Proof.
  intros Hm. unfold parse_unsigned. repeat case_match; intros Hp; simplify_eq;
    eapply parse_digits_bounds in Hp; lia.
Qed.

(** Trimming removes a suffix, and leaves text without white space alone. *)
Lemma trim_rev_suffix s : ∃ p, s = p ++ trim_rev s.
Proof.
  induction s as [s IH] using (induction_ltof1 _ length). unfold ltof in IH.
  destruct s as [|b0 t0]; [by exists []|]. cbn [trim_rev].
  destruct (ascii_whitespace b0).
  { destruct (IH t0) as [p Hp]; [simpl; lia|]. exists (b0 :: p). simpl. by rewrite <- Hp. }
  destruct t0 as [|b1 t1]; [by exists []|]. destruct (whitespace2 b1 b0).
  { destruct (IH t1) as [p Hp]; [simpl; lia|]. exists (b0 :: b1 :: p). simpl. by rewrite <- Hp. }
  destruct t1 as [|b2 t2]; [by exists []|]. destruct (whitespace3 b2 b1 b0); [|by exists []].
  destruct (IH t2) as [p Hp]; [simpl; lia|]. exists (b0 :: b1 :: b2 :: p). simpl. by rewrite <- Hp.
Qed.

Lemma trim_end_prefix s : ∃ r, s = trim_end s ++ r.
Proof.
  unfold trim_end. destruct (trim_rev_suffix (reverse s)) as [p Hp].
  exists (reverse p). rewrite <- reverse_app, <- Hp. by rewrite reverse_involutive.
Qed.

Lemma trim_rev_stop b t :
  byte_in 33 126 b = true → trim_rev (b :: t) = b :: t.
Proof.
  rewrite byte_in_spec. intros Hb.
  assert (∀ lo hi, hi < 33 ∨ 126 < lo → byte_in lo hi b = false) as Hn
    by (intros lo hi Hr; apply not_true_is_false; rewrite byte_in_spec; lia).
  cbn [trim_rev]. unfold ascii_whitespace, whitespace2, whitespace3.
  rewrite !Hn by lia. simpl. destruct t as [|b1 t1]; [done|].
  rewrite andb_false_r. simpl. destruct t1 as [|b2 t2]; [done|].
  by rewrite !andb_false_r.
Qed.

(** Trailing blanks go; a visible ASCII character stops the trimming. *)
Lemma trim_end_blanks s b ws :
  byte_in 33 126 b = true → forallb ascii_whitespace ws = true →
  trim_end (s ++ [b] ++ ws) = s ++ [b].
Proof.
  intros Hb Hws. unfold trim_end. rewrite !reverse_app.
  assert (∀ t u, forallb ascii_whitespace t = true → trim_rev (t ++ u) = trim_rev u) as Hskip.
  { induction t as [|a t IH]; intros u Ht; [done|]. simpl in *.
    apply andb_prop in Ht as [-> Ht]. auto. }
  rewrite <- (assoc_L (++)), Hskip.
  - cbn [reverse app rev_append rev']. rewrite trim_rev_stop by done.
    rewrite reverse_cons, reverse_involutive. done.
  - rewrite forallb_forall in *. intros x Hx. apply Hws.
    apply list_elem_of_In. apply list_elem_of_In in Hx. revert Hx. by rewrite elem_of_reverse.
Qed.
