(* ===== verification/Characters.v ===== *)
(** * The characters of a text

    A text is the UTF-8 encoding of its characters, which start at its bytes
    that are not continuation bytes. For the documentation that speaks of
    characters where the code works on bytes. *)
From Stdlib Require Import ZArith Lia Strings.Byte.
From stdpp Require Import base list strings gmap fin_maps relations.
From S2P Require Import Prelude Text.
Local Open Scope Z_scope.

Fixpoint characters (bs : list byte) : list (list byte) :=
  match bs with
  | [] => []
  | b :: bs =>
    match characters bs with
    | (k :: c) :: cs => if utf8_cont k then (b :: k :: c) :: cs else [b] :: (k :: c) :: cs
    | cs => [b] :: cs
    end
  end.

(** The continuation bytes that follow a leading byte. *)
Definition tail_length (b : byte) : nat :=
  if byte_in 194 223 b then 1 else if byte_in 224 239 b then 2 else if byte_in 240 244 b then 3 else 0.
Definition char_ok (c : list byte) : Prop :=
  match c with
  | [] => False
  | b :: ks => utf8_cont b = false ∧ length ks = tail_length b ∧ Forall (λ k, utf8_cont k = true) ks
  end.

Lemma characters_cont ks s :
  Forall (λ k, utf8_cont k = true) ks → ks ≠ [] →
  match characters s with (k :: _) :: _ => utf8_cont k = false | _ => True end →
  characters (ks ++ s) = ks :: characters s.
Proof.
  intros Hks Hn Hs. induction Hks as [|k ks Hk Hks IH]; [done|]. cbn [app characters].
  destruct ks as [|k' ks].
  - cbn [app]. destruct (characters s) as [|[|x c] cs]; [done..|]. by rewrite Hs.
  - rewrite IH by done. inversion Hks as [|? ? Hk']. by rewrite Hk'.
Qed.

Lemma characters_concat cs : Forall char_ok cs → characters (concat cs) = cs.
Proof.
  induction 1 as [|c cs Hc Hcs IH]; [done|]. destruct c as [|b ks]; [done|].
  destruct Hc as (Hb & _ & Hks).
  assert (match cs with (k :: _) :: _ => utf8_cont k = false | _ => True end) as Hhead
    by (destruct cs as [|[|k c] cs]; [done..|]; apply Forall_cons in Hcs as [[? _] _]; done).
  cbn [concat app characters]. destruct ks as [|k ks].
  - cbn [app]. rewrite IH. destruct cs as [|[|k c] cs]; [done..|]. by rewrite Hhead.
  - rewrite characters_cont by (try done; by rewrite IH). inversion Hks as [|? ? Hk].
    by rewrite Hk, IH.
Qed.

(** Well-formed text is a sequence of well-formed characters. *)
Lemma utf8_valid_first b t :
  utf8_valid (b :: t) = true →
  ∃ ks rest, t = ks ++ rest ∧ char_ok (b :: ks) ∧ utf8_valid rest = true.
Proof.
  assert (∀ lo hi k, 128 ≤ lo → hi ≤ 191 → byte_in lo hi k = true → utf8_cont k = true) as Hin
    by (intros lo hi k; unfold byte_in, utf8_cont; lia).
  cbn [utf8_valid]. unfold char_ok, tail_length. destruct (byte_in 0 127 b) eqn:H0.
  { intros Ht. exists [], t. repeat case_match; try (unfold byte_in, utf8_cont in *; lia).
    split_and!; try done. unfold byte_in, utf8_cont in *; lia. }
  destruct t as [|b1 t1]; [done|]. destruct (byte_in 194 223 b) eqn:H1.
  { intros [Hk Ht]%andb_prop. exists [b1], t1. split_and!; try done; [|by repeat constructor].
    unfold byte_in, utf8_cont in *; lia. }
  destruct t1 as [|b2 t2]; [done|]. intros Hv.
  assert (byte_in 224 239 b = true → utf8_cont b1 = true ∧ utf8_cont b2 = true ∧ utf8_valid t2 = true) as H2.
  { intros Hb. repeat case_match; try (unfold byte_in in *; lia);
      apply andb_prop in Hv as [[Hv1 Hv2]%andb_prop Hv3]; split_and!; try done;
      (eapply Hin; [| |exact Hv1]; lia). }
  destruct (byte_in 224 239 b) eqn:H3.
  { destruct (H2 eq_refl) as (? & ? & ?). exists [b1; b2], t2. split_and!; try done; [|by repeat constructor].
    unfold byte_in, utf8_cont in *; lia. }
  repeat (case_match; try (unfold byte_in in *; lia); try done);
    apply andb_prop in Hv as [[[Hv1 Hv2]%andb_prop Hv3]%andb_prop Hv4];
    (eexists [b1; b2; _], _; split_and!; [reflexivity|unfold byte_in, utf8_cont in *; lia|done| |exact Hv4]);
    (repeat constructor; try done; first [exact Hv1|eapply Hin; [| |exact Hv1]; lia]).
Qed.

Lemma utf8_valid_characters bs :
  utf8_valid bs = true → Forall char_ok (characters bs) ∧ concat (characters bs) = bs.
Proof.
  intros Hv. enough (∃ cs, Forall char_ok cs ∧ concat cs = bs) as (cs & Hcs & <-)
    by by rewrite (characters_concat cs Hcs).
  remember (length bs) as n eqn:Hn. assert (length bs ≤ n)%nat as Hle by lia. clear Hn.
  revert bs Hv Hle. induction n as [|n IH]; intros [|b t] Hv Hle; try (by exists []); [simpl in Hle; lia|].
  destruct (utf8_valid_first b t Hv) as (ks & rest & -> & Hc & Hr).
  destruct (IH rest Hr) as (cs & Hcs & <-); [simpl in Hle; rewrite length_app in Hle; lia|].
  exists ((b :: ks) :: cs). split; [by constructor|done].
Qed.

Lemma ascii_characters cs :
  Forall char_ok cs → forallb (byte_in 0 127) (concat cs) = true → Forall (λ c, length c = 1%nat) cs.
Proof.
  induction 1 as [|[|b ks] cs Hc Hcs IH]; intros Ha; [constructor|done|].
  cbn [concat app forallb] in Ha. apply andb_prop in Ha as [Hb Ha]. rewrite forallb_app in Ha.
  apply andb_prop in Ha as [_ Ha]. constructor; [|auto]. destruct Hc as (_ & Hl & _).
  cbn [length]. rewrite Hl. unfold tail_length. repeat case_match; try done; unfold byte_in in *; lia.
Qed.

(** The case of a byte does not change where characters start. *)
Lemma lowercase_cont b : utf8_cont (ascii_lowercase b) = utf8_cont b.
Proof. by destruct b. Qed.
Lemma lowercase_tail b : tail_length (ascii_lowercase b) = tail_length b.
Proof. by destruct b. Qed.
Lemma cont_lowercase b : utf8_cont b = true → ascii_lowercase b = b ∧ b ≠ x2a ∧ b ≠ x3f.
Proof. by destruct b. Qed.
