(* ===== verification/Peg.v ===== *)
(** * Parsing expression grammars

    The meaning of the grammars in [config/parser.rs] and [forward/spec.rs]:
    ordered choice, greedy repetition without backtracking into it, lookahead.
    A rule maps the position (in bytes) and the remaining input to its value,
    the new position and the remaining input; character classes are given on
    bytes, and every character a class names is ASCII. *)
From Stdlib Require Import ZArith Lia Strings.Byte Arith.Wf_nat.
From stdpp Require Import base list strings gmap fin_maps relations.
From S2P Require Import Prelude Text.
Local Open Scope Z_scope.

Declare Scope peg_scope.
Delimit Scope peg_scope with peg.

Record Cursor := MkCursor { cur_pos : Z; cur_rest : list byte }.
Definition Peg (A : Type) : Type := Cursor → option (A * Cursor).

(** A sequence. *)
Definition peg_ret {A} (a : A) : Peg A := λ c, Some (a, c).
Definition peg_fail {A} : Peg A := λ c, None.
Definition peg_seq {A B} (e : Peg A) (k : A → Peg B) : Peg B := λ c,
  match e c with Some (a, c') => k a c' | None => None end.

Notation "x '<-' e ';;' k" := (peg_seq e (λ x, k))
  (at level 100, e at next level, k at level 200, right associativity) : peg_scope.
Notation "e ';;' k" := (peg_seq e (λ _, k))
  (at level 100, k at level 200, right associativity) : peg_scope.

(** [e1 / e2]. *)
Definition peg_or {A} (e1 e2 : Peg A) : Peg A := λ c,
  match e1 c with Some x => Some x | None => e2 c end.
Notation "e1 '//' e2" := (peg_or e1 e2)
  (at level 110, right associativity, only parsing) : peg_scope.

(** [position!()], [&e], [![_]], [e?]. *)
Definition position : Peg Z := λ c, Some (cur_pos c, c).
Definition ahead {A} (e : Peg A) : Peg () := λ c,
  match e c with Some _ => Some ((), c) | None => None end.
Definition end_of_input : Peg () := λ c,
  match cur_rest c with [] => Some ((), c) | _ => None end.
Definition optional {A} (e : Peg A) : Peg (option A) := λ c,
  match e c with Some (a, c') => Some (Some a, c') | None => Some (None, c) end.

Definition advance (c : Cursor) (n : nat) (rest : list byte) : Cursor :=
  MkCursor (cur_pos c + Z.of_nat n) rest.

(** A literal. *)
Definition literal (s : string) : Peg () := λ c,
  match strip_prefix (str_bytes s) (cur_rest c) with
  | Some r => Some ((), advance c (length (str_bytes s)) r)
  | None => None
  end.

(** One character of a class, and the text a repeated class matches: any
    number of characters, at least one. *)
Definition one (p : byte → bool) : Peg byte := λ c,
  match cur_rest c with
  | b :: r => if p b then Some (b, advance c 1 r) else None
  | [] => None
  end.
Definition class_star (p : byte → bool) : Peg (list byte) := λ c,
  let '(u, r) := span_while p (cur_rest c) in Some (u, advance c (length u) r).
Definition class_plus (p : byte → bool) : Peg (list byte) := λ c,
  let '(u, r) := span_while p (cur_rest c) in
  match u with [] => None | _ => Some (u, advance c (length u) r) end.

(** [e*], for a rule that consumes: as many rounds as there is input left. *)
Fixpoint many_fuel {A} (fuel : nat) (e : Peg A) : Peg (list A) := λ c,
  match fuel with
  | O => Some ([], c)
  | S fuel =>
    match e c with
    | None => Some ([], c)
    | Some (a, c') =>
      match many_fuel fuel e c' with
      | Some (l, c'') => Some (a :: l, c'')
      | None => None
      end
    end
  end.
Definition many {A} (e : Peg A) : Peg (list A) := λ c,
  many_fuel (S (length (cur_rest c))) e c.

(** [$(e)] and [{? f}]. *)
Definition peg_try {A B} (e : Peg A) (f : A → option B) : Peg B := λ c,
  match e c with
  | Some (a, c') => match f a with Some b => Some (b, c') | None => None end
  | None => None
  end.

(** A [pub rule] parses the whole input or fails. *)
Definition run_rule {A} (e : Peg A) (s : list byte) : option A :=
  match e (MkCursor 0 s) with
  | Some (a, c) => match cur_rest c with [] => Some a | _ => None end
  | None => None
  end.

(** ** Laws *)

Local Open Scope peg_scope.

Lemma peg_seq_Some {A B} (e : Peg A) (k : A → Peg B) c x :
  (a <- e ;; k a) c = Some x ↔ ∃ a c', e c = Some (a, c') ∧ k a c' = Some x.
Proof. unfold peg_seq. destruct (e c) as [[a c']|]; naive_solver. Qed.

Lemma peg_or_Some {A} (e1 e2 : Peg A) c x :
  (e1 // e2) c = Some x ↔ e1 c = Some x ∨ e1 c = None ∧ e2 c = Some x.
Proof. unfold peg_or. destruct (e1 c); naive_solver. Qed.

Lemma literal_Some s c x c' :
  literal s c = Some (x, c') ↔
  ∃ r, cur_rest c = str_bytes s ++ r ∧ c' = advance c (length (str_bytes s)) r.
Proof.
  unfold literal. destruct (strip_prefix _ _) as [r|] eqn:E.
  - apply strip_prefix_Some in E. rewrite E. destruct x. split; [naive_solver|].
    intros (r' & Hr & ->). apply app_inv_head in Hr. by subst.
  - split; [done|]. intros (r & Hr & _). apply strip_prefix_Some in Hr. congruence.
Qed.

Lemma class_plus_Some p c u c' :
  class_plus p c = Some (u, c') ↔
  ∃ r, span_while p (cur_rest c) = (u, r) ∧ u ≠ [] ∧ c' = advance c (length u) r.
Proof.
  unfold class_plus. destruct (span_while p (cur_rest c)) as [v r].
  destruct v; split; intros; naive_solver.
Qed.

(** Fuel beyond the input changes nothing for a rule that consumes. *)
Definition consumes {A} (e : Peg A) : Prop := ∀ c a c',
  e c = Some (a, c') → (length (cur_rest c') < length (cur_rest c))%nat.

Lemma many_fuel_enough {A} (e : Peg A) n m c :
  consumes e → (length (cur_rest c) < n)%nat → (length (cur_rest c) < m)%nat →
  many_fuel n e c = many_fuel m e c.
Proof.
  intros He. revert m c. induction n as [|n IH]; intros m c Hn Hm; [lia|].
  destruct m as [|m]; [lia|]. cbn [many_fuel].
  destruct (e c) as [[a c']|] eqn:E; [|done]. apply He in E as Hlt.
  by rewrite (IH m c') by lia.
Qed.

Lemma many_unfold {A} (e : Peg A) c :
  consumes e →
  many e c = match e c with
             | None => Some ([], c)
             | Some (a, c') =>
               match many e c' with Some (l, c'') => Some (a :: l, c'') | None => None end
             end.
Proof.
  intros He. unfold many at 1. cbn [many_fuel].
  destruct (e c) as [[a c']|] eqn:E; [|done]. apply He in E as Hlt. unfold many.
  by rewrite (many_fuel_enough e _ (S (length (cur_rest c')))) by (done || lia).
Qed.

(** ** Matching a text and failing on one *)

(** [e] matches exactly [u] in front of [r], and its value is [a]. *)
Definition eats {A} (e : Peg A) (u r : list byte) (a : A) : Prop :=
  ∀ n, e (MkCursor n (u ++ r)) = Some (a, MkCursor (n + Z.of_nat (length u)) r).
Definition fails {A} (e : Peg A) (s : list byte) : Prop := ∀ n, e (MkCursor n s) = None.

Lemma eats_seq {A B} (e : Peg A) (k : A → Peg B) u v r a b :
  eats e u (v ++ r) a → eats (k a) v r b → eats (x <- e ;; k x) (u ++ v) r b.
Proof.
  intros He Hk n. unfold peg_seq. rewrite <- (assoc_L (++)), He, Hk, length_app.
  do 2 f_equal. f_equal. lia.
Qed.

Lemma eats_ret {A} (a : A) r : eats (peg_ret a) [] r a.
Proof. intros n. unfold peg_ret. simpl. by rewrite Z.add_0_r. Qed.

Lemma eats_or_l {A} (e1 e2 : Peg A) u r a : eats e1 u r a → eats (e1 // e2) u r a.
Proof. intros H n. unfold peg_or. by rewrite H. Qed.
Lemma eats_or_r {A} (e1 e2 : Peg A) u r a :
  fails e1 (u ++ r) → eats e2 u r a → eats (e1 // e2) u r a.
Proof. intros Hf H n. unfold peg_or. by rewrite Hf, H. Qed.

Lemma fails_or {A} (e1 e2 : Peg A) s : fails e1 s → fails e2 s → fails (e1 // e2) s.
Proof. intros H1 H2 n. unfold peg_or. by rewrite H1, H2. Qed.
Lemma fails_seq {A B} (e : Peg A) (k : A → Peg B) s : fails e s → fails (x <- e ;; k x) s.
Proof. intros H n. unfold peg_seq. by rewrite H. Qed.
Lemma fails_seq_r {A B} (e : Peg A) (k : A → Peg B) u r a :
  eats e u r a → fails (k a) r → fails (x <- e ;; k x) (u ++ r).
Proof. intros He H n. unfold peg_seq. by rewrite He, H. Qed.

Lemma eats_literal s r : eats (literal s) (str_bytes s) r ().
Proof.
  intros n. unfold literal. cbn [cur_rest].
  by rewrite (proj2 (strip_prefix_Some _ _ _) eq_refl).
Qed.
Lemma fails_literal s t : strip_prefix (str_bytes s) t = None → fails (literal s) t.
Proof. intros H n. unfold literal. simpl. by rewrite H. Qed.

Lemma eats_class_star p u r :
  forallb p u = true → (∀ b t, r = b :: t → p b = false) → eats (class_star p) u r u.
Proof. intros Hu Hr n. unfold class_star. cbn [cur_rest]. by rewrite span_while_run. Qed.
Lemma eats_class_plus p u r :
  u ≠ [] → forallb p u = true → (∀ b t, r = b :: t → p b = false) → eats (class_plus p) u r u.
Proof.
  intros Hne Hu Hr n. unfold class_plus. cbn [cur_rest]. rewrite span_while_run by done.
  by destruct u.
Qed.
Lemma fails_class_plus p s : (∀ b t, s = b :: t → p b = false) → fails (class_plus p) s.
Proof. intros Hs n. unfold class_plus. cbn [cur_rest]. destruct s as [|b t]; [done|]. simpl. by rewrite (Hs b t). Qed.

Lemma eats_try {A B} (e : Peg A) (f : A → option B) u r a b :
  eats e u r a → f a = Some b → eats (peg_try e f) u r b.
Proof. intros He Hf n. unfold peg_try. by rewrite He, Hf. Qed.
Lemma fails_try {A B} (e : Peg A) (f : A → option B) s : fails e s → fails (peg_try e f) s.
Proof. intros He n. unfold peg_try. by rewrite He. Qed.

(** A rule that matches the whole input, and one that fails on it. *)
Lemma run_rule_eats {A} (e : Peg A) s a : eats e s [] a → run_rule e s = Some a.
Proof. intros H. unfold run_rule. specialize (H 0). rewrite app_nil_r in H. by rewrite H. Qed.
Lemma run_rule_fails {A} (e : Peg A) s : fails e s → run_rule e s = None.
Proof. intros H. unfold run_rule. by rewrite H. Qed.
