(* ===== verification/Config.v ===== *)
(** * The configuration file: syntax and locations

    [src/src/config.rs] and [src/src/config/parser.rs]: the grammar of the
    file, source locations, tokenizing and splitting of arguments.

    Offsets, lines and columns are [usize]; a text is at most [isize::MAX]
    bytes long, so that no sum here overflows. *)
From Stdlib Require Import ZArith Lia Strings.Byte Arith.Wf_nat.
From stdpp Require Import base list strings gmap fin_maps relations.
From S2P Require Import Prelude Text Peg.
Local Open Scope Z_scope.

(** ** Locations *)

Definition text := list byte.
Definition text_len (s : list byte) : Z := Z.of_nat (length s).

Record Span := MkSpan { span_start : Z; span_end : Z }.

Record Location := MkLocation {
  loc_path : string;
  loc_span : Span;
  loc_line : Z;
  loc_column : Z;
}.

Record Located (T : Type) := MkLocated { value : T; location_of : Location }.
Arguments MkLocated {T}.
Arguments value {T}.
Arguments location_of {T}.

Definition with_value {T U} (self : Located T) (v : U) : Located U :=
  MkLocated v (location_of self).
Definition located_map {T U} (f : T → U) (self : Located T) : Located U :=
  MkLocated (f (value self)) (location_of self).

(** The location [tokenize] and [split_comma] build for the part of [self] that
    starts at [offset] and is [len] bytes long. *)
Definition part_location {T} (self : Located T) (offset len : Z) : Location :=
  let base := span_start (loc_span (location_of self)) in
  MkLocation (loc_path (location_of self)) (MkSpan (base + offset) (base + offset + len))
    (loc_line (location_of self)) (loc_column (location_of self) + offset).
Definition part (self : Located text) (offset : Z) (v : text) : Located text :=
  MkLocated v (part_location self offset (text_len v)).

(** [Located::tokenize]: [i] is the index of the loop, [rest] the text from
    there on. *)
Definition is_quote (b : byte) : bool := byte_in 34 34 b.
Definition ends_word (b : byte) : bool := is_blank b || is_quote b.

Fixpoint tokenize_loop (fuel : nat) (self : Located text) (i : Z) (rest : text)
    : list (Located text) :=
  match fuel with
  | O => []
  | S fuel =>
    let '(blanks, rest) := span_while is_blank rest in
    let i := i + text_len blanks in
    match rest with
    | [] => []
    | b :: t =>
      if is_quote b then
        let content_start := i + 1 in
        let '(content, after) := span_while (λ b, negb (is_quote b)) t in
        let content_end := content_start + text_len content in
        part self content_start content ::
        match after with
        | [] => tokenize_loop fuel self content_end []
        | _ :: after => tokenize_loop fuel self (content_end + 1) after
        end
      else
        let '(word, after) := span_while (λ b, negb (ends_word b)) rest in
        part self i word :: tokenize_loop fuel self (i + text_len word) after
    end
  end.
Definition tokenize (self : Located text) : list (Located text) :=
  tokenize_loop (S (length (value self))) self 0 (value self).

(** [Located::split_comma]. *)
Definition comma : byte := x2c.
Fixpoint split_comma_loop (self : Located text) (offset : Z) (parts : list text)
    : list (Located text) :=
  match parts with
  | [] => []
  | p :: parts => part self offset p :: split_comma_loop self (offset + text_len p + 1) parts
  end.
Definition split_comma (self : Located text) : list (Located text) :=
  split_comma_loop self 0 (split_on comma (value self)).

(** ** [parser.rs] *)

Record Spanned (T : Type) := MkSpanned { spanned_value : T; spanned_span : Span }.
Arguments MkSpanned {T}.
Arguments spanned_value {T}.
Arguments spanned_span {T}.

Record RawDirective := MkRawDirective {
  raw_keyword : Spanned text;
  raw_args : Spanned text;
}.
Inductive RawEntry :=
| REmpty (s : Span)
| RComment (s : Spanned text)
| RDirective (d : RawDirective)
| RUnknown (s : Spanned text).

Section grammar.
Local Open Scope peg_scope.

Definition not_eol (b : byte) : bool := negb (is_eol b).
Definition is_alnum (b : byte) : bool := is_letter b || is_digit b.

Definition blanks : Peg () := class_star is_blank ;; peg_ret ().      (* [_] *)
Definition blanks1 : Peg () := class_plus is_blank ;; peg_ret ().     (* [__] *)

Definition newline : Peg () :=
  literal (bytes_str [x0d; x0a]) // literal (bytes_str [x0a]) // literal (bytes_str [x0d]).

Definition keyword : Peg (Spanned text) :=
  s <- position ;; b <- one is_letter ;; k <- class_star is_alnum ;; e <- position ;;
  peg_ret (MkSpanned (b :: k) (MkSpan s e)).

Definition raw_arguments : Peg (Spanned text) :=
  arg_s <- position ;; v <- class_star not_eol ;;
  let trimmed := trim_end v in
  peg_ret (MkSpanned trimmed (MkSpan arg_s (arg_s + text_len trimmed))).

Definition separator : Peg () := (blanks ;; literal "=" ;; blanks) // blanks1.

Definition directive : Peg RawEntry :=
  (blanks ;; kw <- keyword ;; separator ;; args <- raw_arguments ;;
   peg_ret (RDirective (MkRawDirective kw args))) //
  (blanks ;; kw <- keyword ;; blanks ;; e <- position ;;
   peg_ret (RDirective (MkRawDirective kw (MkSpanned [] (MkSpan e e))))).

Definition comment : Peg RawEntry :=
  s <- position ;; blanks ;; literal "#" ;; v <- class_star not_eol ;; e <- position ;;
  peg_ret (RComment (MkSpanned (trim v) (MkSpan s e))).

Definition line_end : Peg () := ahead (newline // end_of_input).

Definition empty_line : Peg RawEntry :=
  (s <- position ;; line_end ;; e <- position ;; peg_ret (REmpty (MkSpan s e))) //
  (s <- position ;; blanks1 ;; line_end ;; e <- position ;; peg_ret (REmpty (MkSpan s e))).

Definition unknown_line : Peg RawEntry :=
  s <- position ;; v <- class_plus not_eol ;; e <- position ;;
  peg_ret (RUnknown (MkSpanned v (MkSpan s e))).

Definition line : Peg RawEntry := empty_line // comment // directive // unknown_line.

Definition config : Peg (list RawEntry) :=
  first <- line ;; rest <- many (newline ;; line) ;; optional newline ;;
  peg_ret (first :: rest).
End grammar.

Definition parse_raw (input : text) : list RawEntry :=
  match run_rule config input with
  | Some entries => entries
  | None => [RUnknown (MkSpanned input (MkSpan 0 (text_len input)))]
  end.

(** ** [SourceFile] *)

Record SourceFile := MkSourceFile {
  sf_path : string;
  sf_content : text;
  sf_line_starts : list Z;
}.

Fixpoint line_starts_from (i : Z) (content : text) : list Z :=
  match content with
  | [] => []
  | b :: t => (if byte_in 10 10 b then [i + 1] else []) ++ line_starts_from (i + 1) t
  end.
Definition compute_line_starts (content : text) : list Z := 0 :: line_starts_from 0 content.

Definition new_source (path : string) (content : text) : SourceFile :=
  MkSourceFile path content (compute_line_starts content).

(** [slice::partition_point] on a slice the predicate partitions. *)
Fixpoint partition_point {A} (p : A → bool) (l : list A) : nat :=
  match l with
  | [] => O
  | a :: l => if p a then S (partition_point p l) else O
  end.

(** [line_starts] is not empty and starts with 0: the index is in range. *)
Definition line_col (self : SourceFile) (offset : Z) : Z * Z :=
  let line_idx := Nat.pred (partition_point (λ start, start <=? offset) (sf_line_starts self)) in
  let col := offset - nth line_idx (sf_line_starts self) 0 + 1 in
  (Z.of_nat line_idx + 1, col).

Definition location (self : SourceFile) (span : Span) : Location :=
  let '(line, column) := line_col self (span_start span) in
  MkLocation (sf_path self) span line column.

Record Directive := MkDirective {
  directive_keyword : Located text;
  directive_arguments : Located text;
}.
Inductive Entry :=
| Empty (l : Location)
| Comment (s : Located text)
| EDirective (d : Directive)
| Unknown (s : Located text).

Definition locate {T} (self : SourceFile) (s : Spanned T) : Located T :=
  MkLocated (spanned_value s) (location self (spanned_span s)).
Definition locate_entry (self : SourceFile) (raw : RawEntry) : Entry :=
  match raw with
  | REmpty s => Empty (location self s)
  | RComment s => Comment (locate self s)
  | RDirective d =>
    EDirective (MkDirective (locate self (raw_keyword d)) (locate self (raw_args d)))
  | RUnknown s => Unknown (locate self s)
  end.
Definition parse (self : SourceFile) : list Entry :=
  map (locate_entry self) (parse_raw (sf_content self)).

(** [Display for Location]. *)
Definition location_fmt (self : Location) : text :=
  str_bytes (loc_path self) ++ [x3a] ++ dec (loc_line self) ++ [x3a] ++ dec (loc_column self).

(** The interface of the typed second layer. *)
Class ParseArguments (T E : Type) :=
  parse_arguments : Located text → result (Located T) (Located E).
Definition parse_args {T E} `{ParseArguments T E} (self : Directive)
    : result (Located T) (Located E) := parse_arguments (directive_arguments self).
