(* ===== verification/ConfigLines.v ===== *)
(** * The grammar of the configuration file, line by line

    A reference reading of the file that splits it into lines and classifies
    each line alone, and its equivalence with the grammar of [Config]. *)
From Stdlib Require Import ZArith Lia Strings.Byte Arith.Wf_nat.
From stdpp Require Import base list strings gmap fin_maps relations.
From S2P Require Import Prelude Text Peg Config.
Local Open Scope Z_scope.
Local Open Scope peg_scope.

(** ** The reference *)

(** The lines of a text with their offsets; a line ends at CR LF, LF or CR. *)
Fixpoint split_lines (pos : Z) (s : text) : list (Z * text) :=
  match s with
  | [] => [(pos, [])]
  | b :: t =>
    if byte_in 10 10 b then (pos, []) :: split_lines (pos + 1) t
    else if byte_in 13 13 b then
      (pos, []) ::
      match t with
      | b' :: t' => if byte_in 10 10 b' then split_lines (pos + 2) t' else split_lines (pos + 1) t
      | [] => split_lines (pos + 1) t
      end
    else
      match split_lines (pos + 1) t with
      | (_, l) :: ls => (pos, b :: l) :: ls
      | [] => []
      end
  end.

(** The arguments that start at [pos], after blanks. *)
Definition read_args (pos : Z) (r : text) : Spanned text :=
  let '(ws, v) := span_while is_blank r in
  let p := pos + text_len ws in
  MkSpanned (trim_end v) (MkSpan p (p + text_len (trim_end v))).

(** One line; [None] for a keyword that neither a blank, [=] nor the end of
    the line follows. *)
Definition read_line (pos : Z) (l : text) : option RawEntry :=
  let '(ws, r) := span_while is_blank l in
  let p := pos + text_len ws in
  match r with
  | [] => Some (REmpty (MkSpan pos p))
  | b :: t =>
    if byte_in 35 35 b then Some (RComment (MkSpanned (trim t) (MkSpan pos (pos + text_len l))))
    else if is_letter b then
      let '(k, r1) := span_while is_alnum t in
      let e := p + 1 + text_len k in
      let kw := MkSpanned (b :: k) (MkSpan p e) in
      let '(ws1, r2) := span_while is_blank r1 in
      match r2 with
      | [] => Some (RDirective (MkRawDirective kw (read_args (e + text_len ws1) [])))
      | b2 :: r3 =>
        if byte_in 61 61 b2
        then Some (RDirective (MkRawDirective kw (read_args (e + text_len ws1 + 1) r3)))
        else match ws1 with
             | [] => None
             | _ => Some (RDirective (MkRawDirective kw (read_args e r1)))
             end
      end
    else Some (RUnknown (MkSpanned l (MkSpan pos (pos + text_len l))))
  end.

Definition read_lines (ls : list (Z * text)) : option (list RawEntry) :=
  mapM (λ x, read_line x.1 x.2) ls.

(** ** Running the rules on a line *)

(** What follows a line: the end of the input or an end of line. *)
Definition line_tail (t : text) : Prop := ∀ b r, t = b :: r → is_eol b = true.

Lemma span_while_tail p l t :
  (∀ b, p b = true → is_eol b = false) → line_tail t →
  span_while p (l ++ t) = ((span_while p l).1, (span_while p l).2 ++ t).
Proof.
  intros Hp Ht. induction l as [|a l IH]; simpl.
  - destruct t as [|b r]; [done|]. simpl. destruct (p b) eqn:Hb; [|done].
    apply Hp in Hb. by rewrite (Ht b r) in Hb.
  - destruct (p a); [|done]. rewrite IH. by destruct (span_while p l).
Qed.

Ltac byte_cases :=
  unfold is_blank, is_letter, is_digit, is_eol, is_quote, byte_in in *;
  repeat match goal with
  | H : context [Z.leb ?a ?b] |- _ => destruct (Z.leb_spec a b)
  | |- context [Z.leb ?a ?b] => destruct (Z.leb_spec a b)
  end; simpl in *; try done; try lia.

Lemma blank_not_eol b : is_blank b = true → is_eol b = false.
Proof. byte_cases. Qed.
Lemma alnum_not_eol b : is_alnum b = true → is_eol b = false.
Proof. unfold is_alnum. byte_cases. Qed.
Lemma not_eol_not_eol b : not_eol b = true → is_eol b = false.
Proof. apply negb_true_iff. Qed.

Lemma literal_one x p r :
  literal (bytes_str [x]) (MkCursor p r) =
  match r with
  | b :: t => if byte_in (b2z x) (b2z x) b then Some ((), MkCursor (p + 1) t) else None
  | [] => None
  end.
Proof.
  unfold literal. rewrite str_bytes_str. cbn [cur_rest strip_prefix].
  destruct r as [|b t]; [done|]. case_bool_decide as Hb.
  - rewrite (proj2 (byte_in_single b x) (eq_sym Hb)). done.
  - destruct (byte_in _ _ b) eqn:E; [|done]. by apply byte_in_single in E as ->.
Qed.

Lemma newline_run p r :
  newline (MkCursor p r) =
  match r with
  | b :: t =>
    if byte_in 10 10 b then Some ((), MkCursor (p + 1) t)
    else if byte_in 13 13 b then
      match t with
      | b' :: t' => if byte_in 10 10 b' then Some ((), MkCursor (p + 2) t')
                    else Some ((), MkCursor (p + 1) t)
      | [] => Some ((), MkCursor (p + 1) t)
      end
    else None
  | [] => None
  end.
Proof.
  unfold newline, peg_or. rewrite !literal_one.
  unfold literal. rewrite str_bytes_str. cbn [cur_rest strip_prefix].
  destruct r as [|b t]; [done|]. change (b2z x0a) with 10. change (b2z x0d) with 13.
  case_bool_decide as Hb.
  - subst b. change (byte_in 10 10 x0d) with false. cbv iota.
    change (byte_in 13 13 x0d) with true. cbv iota.
    destruct t as [|b' t']; [done|]. case_bool_decide as Hb'; [by subst b'|].
    destruct (byte_in 10 10 b') eqn:E; [|done].
    by apply (byte_in_single b' x0a) in E as ->.
  - destruct (byte_in 10 10 b) eqn:E1; [done|]. destruct (byte_in 13 13 b) eqn:E2; [|done].
    by apply (byte_in_single b x0d) in E2 as ->.
Qed.

Lemma line_end_run p t :
  line_end (MkCursor p t) =
  match t with [] => Some ((), MkCursor p t) | b :: _ => if is_eol b then Some ((), MkCursor p t) else None end.
Proof.
  unfold line_end, ahead, peg_or. rewrite newline_run. destruct t as [|b t]; [done|].
  unfold is_eol, end_of_input. cbn [cur_rest].
  destruct (byte_in 10 10 b); [done|]. destruct (byte_in 13 13 b); [|done].
  simpl. by repeat case_match.
Qed.

Lemma line_end_tail p t : line_tail t → line_end (MkCursor p t) = Some ((), MkCursor p t).
Proof. intros Ht. rewrite line_end_run. destruct t as [|b r]; [done|]. by rewrite (Ht b r). Qed.

Lemma line_end_text p b r : is_eol b = false → line_end (MkCursor p (b :: r)) = None.
Proof. intros Hb. rewrite line_end_run. simpl. by rewrite Hb. Qed.

(** Split the runs of [span_while] over the line and its tail. *)
Ltac span_tail Ht :=
  rewrite (span_while_tail is_blank) by (exact blank_not_eol || exact Ht) ||
  rewrite (span_while_tail is_alnum) by (exact alnum_not_eol || exact Ht) ||
  rewrite (span_while_tail not_eol) by (exact not_eol_not_eol || exact Ht).

Lemma class_star_tail p pos l t :
  (∀ b, p b = true → is_eol b = false) → line_tail t →
  class_star p (MkCursor pos (l ++ t)) =
  let '(u, r) := span_while p l in Some (u, MkCursor (pos + text_len u) (r ++ t)).
Proof.
  intros Hp Ht. unfold class_star. cbn [cur_rest]. rewrite span_while_tail by done.
  by destruct (span_while p l).
Qed.

Lemma class_plus_tail p pos l t :
  (∀ b, p b = true → is_eol b = false) → line_tail t →
  class_plus p (MkCursor pos (l ++ t)) =
  let '(u, r) := span_while p l in
  match u with [] => None | _ => Some (u, MkCursor (pos + text_len u) (r ++ t)) end.
Proof.
  intros Hp Ht. unfold class_plus. cbn [cur_rest]. rewrite span_while_tail by done.
  destruct (span_while p l) as [[|a u] r]; done.
Qed.

Lemma blanks_run pos l t :
  line_tail t →
  blanks (MkCursor pos (l ++ t)) =
  let '(u, r) := span_while is_blank l in Some ((), MkCursor (pos + text_len u) (r ++ t)).
Proof.
  intros Ht. unfold blanks, peg_seq. rewrite class_star_tail by (exact blank_not_eol || done).
  by destruct (span_while is_blank l).
Qed.

Lemma blanks1_run pos l t :
  line_tail t →
  blanks1 (MkCursor pos (l ++ t)) =
  let '(u, r) := span_while is_blank l in
  match u with [] => None | _ => Some ((), MkCursor (pos + text_len u) (r ++ t)) end.
Proof.
  intros Ht. unfold blanks1, peg_seq. rewrite class_plus_tail by (exact blank_not_eol || done).
  by destruct (span_while is_blank l) as [[|] ?].
Qed.

Lemma span_not_eol l : forallb not_eol l = true → span_while not_eol l = (l, []).
Proof.
  intros Hl. rewrite <- (app_nil_r l) at 1. by apply span_while_run.
Qed.

Lemma rest_of_line_run pos l t :
  line_tail t → forallb not_eol l = true →
  class_star not_eol (MkCursor pos (l ++ t)) = Some (l, MkCursor (pos + text_len l) t).
Proof.
  intros Ht Hl. rewrite class_star_tail by (exact not_eol_not_eol || done).
  by rewrite span_not_eol.
Qed.

Lemma raw_arguments_run pos l t :
  line_tail t → forallb not_eol l = true →
  raw_arguments (MkCursor pos (l ++ t)) =
  Some (MkSpanned (trim_end l) (MkSpan pos (pos + text_len (trim_end l))),
        MkCursor (pos + text_len l) t).
Proof.
  intros Ht Hl. unfold raw_arguments, peg_seq, position. cbn [cur_pos].
  by rewrite rest_of_line_run.
Qed.

Lemma keyword_run pos b l t :
  line_tail t → is_letter b = true →
  keyword (MkCursor pos ((b :: l) ++ t)) =
  let '(k, r) := span_while is_alnum l in
  Some (MkSpanned (b :: k) (MkSpan pos (pos + 1 + text_len k)),
        MkCursor (pos + 1 + text_len k) (r ++ t)).
Proof.
  intros Ht Hb. unfold keyword, peg_seq, position, one. cbn [cur_pos cur_rest app].
  rewrite Hb. unfold advance at 1. cbn [cur_pos].
  change (Z.of_nat 1) with 1. rewrite class_star_tail by (exact alnum_not_eol || done).
  by destruct (span_while is_alnum l) as [k r].
Qed.

Lemma literal_tail x pos l t :
  line_tail t → is_eol x = false →
  literal (bytes_str [x]) (MkCursor pos (l ++ t)) =
  match l with
  | b :: l' => if byte_in (b2z x) (b2z x) b then Some ((), MkCursor (pos + 1) (l' ++ t)) else None
  | [] => None
  end.
Proof.
  intros Ht Hx. rewrite literal_one. destruct l as [|b l]; [|done].
  destruct t as [|b t]; [done|]. simpl. destruct (byte_in _ _ b) eqn:E; [|done].
  apply byte_in_single in E as ->. by rewrite (Ht x t) in Hx.
Qed.

(** The end of a line that was split keeps its bytes. *)
Lemma not_eol_rest p l u r :
  forallb not_eol l = true → span_while p l = (u, r) → forallb not_eol r = true.
Proof.
  intros Hl Hs. apply span_while_app in Hs as ->. rewrite forallb_app in Hl.
  by apply andb_prop in Hl as [_ ?].
Qed.

Lemma text_len_app a b : text_len (a ++ b) = text_len a + text_len b.
Proof. unfold text_len. rewrite length_app. lia. Qed.
Lemma text_len_cons b l : text_len (b :: l) = 1 + text_len l.
Proof. unfold text_len. simpl. lia. Qed.
Lemma text_len_nonneg l : 0 ≤ text_len l.
Proof. unfold text_len. lia. Qed.

(** What [separator] and [raw_arguments] make of the rest of a line. *)
Definition read_rest (pos : Z) (r1 : text) : option (Spanned text) :=
  let '(ws1, r2) := span_while is_blank r1 in
  match r2 with
  | [] => match ws1 with [] => None | _ => Some (read_args pos r1) end
  | b2 :: r3 =>
    if byte_in 61 61 b2 then Some (read_args (pos + text_len ws1 + 1) r3)
    else match ws1 with [] => None | _ => Some (read_args pos r1) end
  end.

Lemma args_after_blanks pos r ws v t :
  line_tail t → forallb not_eol r = true → span_while is_blank r = (ws, v) →
  raw_arguments (MkCursor (pos + text_len ws) (v ++ t)) =
  Some (read_args pos r, MkCursor (pos + text_len r) t).
Proof.
  intros Ht Hr Hs. rewrite raw_arguments_run by (done || by eapply not_eol_rest).
  unfold read_args. rewrite Hs. apply span_while_app in Hs as ->. rewrite text_len_app.
  do 2 f_equal. f_equal. lia.
Qed.

Lemma separator_args_run {A} pos r1 t (k : Spanned text → Peg A) :
  line_tail t → forallb not_eol r1 = true →
  (separator ;; args <- raw_arguments ;; k args) (MkCursor pos (r1 ++ t)) =
  match read_rest pos r1 with
  | Some args => k args (MkCursor (pos + text_len r1) t)
  | None => None
  end.
Proof.
  intros Ht Hr. unfold separator, read_rest. unfold peg_seq at 1, peg_or.
  unfold peg_seq at 1. rewrite blanks_run, blanks1_run by done.
  destruct (span_while is_blank r1) as [ws1 r2] eqn:Hs.
  pose proof (not_eol_rest _ _ _ _ Hr Hs) as Hr2.
  unfold peg_seq at 1. rewrite (literal_tail x3d) by done.
  assert (match match ws1 with [] => None
                | _ :: _ => Some ((), MkCursor (pos + text_len ws1) (r2 ++ t)) end with
          | Some (_, c') => (args <- raw_arguments ;; k args) c'
          | None => None
          end = match ws1 with [] => None | _ :: _ => Some (read_args pos r1) end ≫= λ args,
                k args (MkCursor (pos + text_len r1) t)) as Hplain.
  { destruct ws1 as [|w ws1]; [done|]. unfold peg_seq.
    by rewrite (args_after_blanks pos r1 _ _ _ Ht Hr Hs). }
  destruct r2 as [|b2 r3].
  - etransitivity; [exact Hplain|]. by destruct ws1.
  - change (b2z x3d) with 61. destruct (byte_in 61 61 b2) eqn:Hb2.
    + rewrite blanks_run by done. destruct (span_while is_blank r3) as [ws2 v] eqn:Hs2.
      simpl in Hr2. apply andb_prop in Hr2 as [_ Hr3].
      unfold peg_seq. rewrite (args_after_blanks (pos + text_len ws1 + 1) r3 _ _ _ Ht Hr3 Hs2).
      apply span_while_app in Hs as ->. rewrite text_len_app, text_len_cons.
      do 2 f_equal. lia.
    + etransitivity; [exact Hplain|]. by destruct ws1.
Qed.

Lemma empty_line_text pos b l t :
  line_tail t → is_blank b = false → is_eol b = false →
  ∀ ws, forallb is_blank ws = true → empty_line (MkCursor pos ((ws ++ b :: l) ++ t)) = None.
Proof.
  intros Ht Hb Hb' ws Hws. unfold empty_line, peg_or, peg_seq, position.
  assert (span_while is_blank (ws ++ b :: l) = (ws, b :: l)) as Hs.
  { apply span_while_run; [done|]. intros ? ? Heq. by simplify_eq. }
  destruct ws as [|w ws].
  - change (line_end (MkCursor pos (([] ++ b :: l) ++ t))) with
      (line_end (MkCursor pos (b :: (l ++ t)))).
    rewrite line_end_text by done. by rewrite blanks1_run, Hs.
  - simpl in Hws. apply andb_prop in Hws as [Hw _]. apply blank_not_eol in Hw.
    change (line_end (MkCursor pos (((w :: ws) ++ b :: l) ++ t))) with
      (line_end (MkCursor pos (w :: ((ws ++ b :: l) ++ t)))).
    rewrite line_end_text by done. rewrite blanks1_run, Hs by done.
    change (line_end (MkCursor (pos + text_len (w :: ws)) ((b :: l) ++ t))) with
      (line_end (MkCursor (pos + text_len (w :: ws)) (b :: (l ++ t)))).
    by rewrite line_end_text.
Qed.

Lemma empty_line_blank pos ws t :
  line_tail t → forallb is_blank ws = true →
  empty_line (MkCursor pos (ws ++ t)) =
  Some (REmpty (MkSpan pos (pos + text_len ws)), MkCursor (pos + text_len ws) t).
Proof.
  intros Ht Hws. unfold empty_line, peg_or, peg_seq, position.
  destruct ws as [|w ws].
  - cbn [app]. rewrite line_end_tail by done. cbn [cur_pos]. change (text_len []) with 0.
    by rewrite Z.add_0_r.
  - pose proof Hws as Hw. simpl in Hw. apply andb_prop in Hw as [Hw _].
    apply blank_not_eol in Hw.
    change (line_end (MkCursor pos ((w :: ws) ++ t))) with
      (line_end (MkCursor pos (w :: (ws ++ t)))).
    rewrite line_end_text by done. rewrite blanks1_run by done.
    rewrite <- (app_nil_r (w :: ws)) at 1. rewrite span_while_run by done. cbn [app].
    by rewrite line_end_tail.
Qed.

Lemma comment_run pos b l t ws :
  line_tail t → is_blank b = false → forallb is_blank ws = true → forallb not_eol l = true →
  comment (MkCursor pos ((ws ++ b :: l) ++ t)) =
  if byte_in 35 35 b
  then Some (RComment (MkSpanned (trim l) (MkSpan pos (pos + text_len (ws ++ b :: l)))),
             MkCursor (pos + text_len (ws ++ b :: l)) t)
  else None.
Proof.
  intros Ht Hb Hws Hl. unfold comment, peg_seq, position. cbn [cur_pos].
  rewrite blanks_run by done. rewrite span_while_run; [|done|intros ? ? Heq; by simplify_eq].
  change (literal "#") with (literal (bytes_str [x23])).
  rewrite (literal_tail x23) by done. change (b2z x23) with 35.
  destruct (byte_in 35 35 b); [|done]. rewrite rest_of_line_run by done. cbn [cur_pos].
  rewrite text_len_app, text_len_cons.
  by replace (pos + text_len ws + 1 + text_len l) with (pos + (text_len ws + (1 + text_len l))) by lia.
Qed.

Lemma directive_run pos b l t ws :
  line_tail t → is_letter b = true → forallb is_blank ws = true → forallb not_eol l = true →
  let p := pos + text_len ws in
  let '(k, r1) := span_while is_alnum l in
  let e := p + 1 + text_len k in
  let kw := MkSpanned (b :: k) (MkSpan p e) in
  directive (MkCursor pos ((ws ++ b :: l) ++ t)) =
  match read_rest e r1 with
  | Some args => Some (RDirective (MkRawDirective kw args),
                       MkCursor (pos + text_len (ws ++ b :: l)) t)
  | None =>
    let '(ws1, r2) := span_while is_blank r1 in
    let e1 := e + text_len ws1 in
    Some (RDirective (MkRawDirective kw (MkSpanned [] (MkSpan e1 e1))), MkCursor e1 (r2 ++ t))
  end.
Proof.
  intros Ht Hb Hws Hl p. destruct (span_while is_alnum l) as [k r1] eqn:Hk. intros e kw.
  assert (is_blank b = false) as Hb' by (clear -Hb; byte_cases).
  assert (span_while is_blank (ws ++ b :: l) = (ws, b :: l)) as Hs.
  { apply span_while_run; [done|]. intros ? ? Heq. by simplify_eq. }
  unfold directive, peg_or. unfold peg_seq at 1 2. rewrite blanks_run by done. rewrite Hs.
  rewrite keyword_run by done. rewrite Hk. fold p.
  rewrite separator_args_run by (done || by eapply not_eol_rest).
  pose proof (span_while_app _ _ _ _ Hk) as Hl'.
  fold e kw. destruct (read_rest e r1) as [args|].
  - unfold peg_ret. f_equal. f_equal. f_equal. subst l.
    rewrite text_len_app, text_len_cons, text_len_app. unfold e, p. lia.
  - unfold peg_seq. rewrite blanks_run by done. rewrite Hs. rewrite keyword_run by done.
    rewrite Hk. fold p e kw. rewrite blanks_run by done.
    destruct (span_while is_blank r1) as [ws1 r2]. done.
Qed.

Lemma unknown_run pos l t :
  line_tail t → forallb not_eol l = true → l ≠ [] →
  unknown_line (MkCursor pos (l ++ t)) =
  Some (RUnknown (MkSpanned l (MkSpan pos (pos + text_len l))), MkCursor (pos + text_len l) t).
Proof.
  intros Ht Hl Hne. unfold unknown_line, peg_seq, position. cbn [cur_pos].
  rewrite class_plus_tail by (exact not_eol_not_eol || done). rewrite span_not_eol by done.
  by destruct l.
Qed.

Lemma directive_other pos b l t ws :
  line_tail t → is_letter b = false → is_blank b = false → forallb is_blank ws = true →
  directive (MkCursor pos ((ws ++ b :: l) ++ t)) = None.
Proof.
  intros Ht Hb Hb' Hws. unfold directive, peg_or, peg_seq.
  assert (span_while is_blank (ws ++ b :: l) = (ws, b :: l)) as Hs.
  { apply span_while_run; [done|]. intros ? ? Heq. by simplify_eq. }
  rewrite blanks_run, Hs by done. unfold keyword, peg_seq, position, one. simpl. by rewrite Hb.
Qed.

Lemma peg_or_left {A} (e1 e2 : Peg A) c x : e1 c = Some x → (e1 // e2) c = Some x.
Proof. unfold peg_or. by intros ->. Qed.
Lemma peg_or_right {A} (e1 e2 : Peg A) c : e1 c = None → (e1 // e2) c = e2 c.
Proof. unfold peg_or. by intros ->. Qed.

Lemma read_args_end p r ws :
  span_while is_blank r = (ws, []) → read_args p r = read_args (p + text_len ws) [].
Proof.
  intros Hs. unfold read_args. rewrite Hs. cbn [span_while]. change (text_len []) with 0.
  by rewrite (Z.add_0_r (p + text_len ws)).
Qed.

(** Every line is read; where the reference refuses it, the rule stops in the
    middle of the line. *)
Lemma line_run pos l t :
  line_tail t → forallb not_eol l = true →
  match read_line pos l with
  | Some e => line (MkCursor pos (l ++ t)) = Some (e, MkCursor (pos + text_len l) t)
  | None => ∃ e p b r, line (MkCursor pos (l ++ t)) = Some (e, MkCursor p (b :: r)) ∧
                       is_eol b = false ∧ (length (b :: r) ≤ length (l ++ t))%nat
  end.
Proof.
  intros Ht Hl. unfold read_line. destruct (span_while is_blank l) as [ws r] eqn:Hs.
  pose proof (span_while_all _ _ _ _ Hs) as Hws.
  pose proof (not_eol_rest _ _ _ _ Hl Hs) as Hr.
  pose proof (span_while_app _ _ _ _ Hs) as ->.
  destruct r as [|b r].
  { rewrite app_nil_r. apply peg_or_left. by apply empty_line_blank. }
  pose proof (span_while_stop _ _ _ _ _ _ Hs eq_refl) as Hb.
  simpl in Hr. apply andb_prop in Hr as [Hb' Hr]. apply negb_true_iff in Hb'.
  assert (line (MkCursor pos ((ws ++ b :: r) ++ t)) =
          (comment // directive // unknown_line) (MkCursor pos ((ws ++ b :: r) ++ t))) as Hline
    by (apply peg_or_right, empty_line_text; done).
  rewrite Hline. clear Hline.
  pose proof (comment_run pos b r t ws Ht Hb Hws Hr) as Hc.
  destruct (byte_in 35 35 b) eqn:Hhash; [by apply peg_or_left|].
  rewrite peg_or_right by done. destruct (is_letter b) eqn:Hletter.
  - pose proof (directive_run pos b r t ws Ht Hletter Hws Hr) as Hd. simpl in Hd.
    destruct (span_while is_alnum r) as [k r1] eqn:Hk.
    unfold read_rest in Hd. destruct (span_while is_blank r1) as [ws1 r2] eqn:Hs1.
    destruct r2 as [|b2 r3].
    + rewrite (peg_or_left _ _ _ _ Hd) || idtac.
      apply span_while_app in Hk as Hr1. apply span_while_app in Hs1 as Hr2.
      destruct ws1 as [|w ws1].
      * apply peg_or_left. rewrite Hd. subst. unfold read_args. simpl.
        rewrite !text_len_app, !text_len_cons, !text_len_app.
        change (text_len []) with 0. rewrite !Z.add_0_r. do 3 f_equal. lia.
      * apply peg_or_left. rewrite Hd. by rewrite (read_args_end _ _ _ Hs1).
    + destruct (byte_in 61 61 b2) eqn:Heq; [by apply peg_or_left|].
      destruct ws1 as [|w ws1]; [|by apply peg_or_left].
      eexists _, _, b2, (r3 ++ t). split; [apply peg_or_left, Hd|].
      apply span_while_app in Hk as Hk'. subst r.
      apply span_while_app in Hs1 as Hr1. simpl in Hr1. subst r1.
      split; [|rewrite !length_app; simpl; rewrite !length_app; simpl; rewrite ?length_app; lia].
      rewrite forallb_app in Hr. apply andb_prop in Hr as [_ Hne]. simpl in Hne.
      apply andb_prop in Hne as [Hne _]. by apply negb_true_iff.
  - rewrite peg_or_right by (by apply directive_other).
    apply unknown_run; [done|done|]. by destruct ws.
Qed.

(** The lines of a text that starts with the line [l]. *)
Lemma split_lines_app pos l t :
  line_tail t → forallb not_eol l = true →
  split_lines pos (l ++ t) =
  (pos, l) :: match newline (MkCursor (pos + text_len l) t) with
              | Some (_, c) => split_lines (cur_pos c) (cur_rest c)
              | None => []
              end.
Proof.
  revert pos. induction l as [|b l IH]; intros pos Ht Hl.
  - cbn [app]. change (text_len []) with 0. rewrite Z.add_0_r, newline_run.
    destruct t as [|b t]; [done|]. pose proof (Ht b t eq_refl) as Hb. cbn [split_lines].
    unfold is_eol in Hb. destruct (byte_in 10 10 b); [done|]. simpl in Hb. rewrite Hb.
    destruct t as [|b' t']; [done|]. by destruct (byte_in 10 10 b').
  - simpl in Hl. apply andb_prop in Hl as [Hb Hl]. apply negb_true_iff in Hb.
    apply orb_false_iff in Hb as [Hb1 Hb2]. cbn [app split_lines]. rewrite Hb1, Hb2.
    rewrite IH by done. rewrite text_len_cons. by replace (pos + 1 + text_len l) with (pos + (1 + text_len l)) by lia.
Qed.

Lemma newline_None pos t : line_tail t → newline (MkCursor pos t) = None → t = [].
Proof.
  intros Ht. rewrite newline_run. destruct t as [|b t]; [done|].
  pose proof (Ht b t eq_refl) as Hb. unfold is_eol in Hb.
  destruct (byte_in 10 10 b); [done|]. simpl in Hb. rewrite Hb. by repeat case_match.
Qed.

Lemma newline_shorter c x c' :
  newline c = Some (x, c') → (length (cur_rest c') < length (cur_rest c))%nat.
Proof.
  destruct c as [p t]. rewrite newline_run. destruct t as [|b t]; [done|].
  repeat case_match; intros; simplify_eq; simpl; lia.
Qed.

Lemma cut_line (s : text) : ∃ l t, s = l ++ t ∧ forallb not_eol l = true ∧ line_tail t.
Proof.
  destruct (span_while not_eol s) as [l t] eqn:E. exists l, t. split; [by apply span_while_app in E|].
  split; [by apply span_while_all in E|]. intros b r ->.
  pose proof (span_while_stop _ _ _ _ _ _ E eq_refl) as Hb. by apply negb_false_iff.
Qed.

Lemma line_total c : ∃ e c', line c = Some (e, c') ∧
  (length (cur_rest c') ≤ length (cur_rest c))%nat.
Proof.
  destruct c as [p s]. destruct (cut_line s) as (l & t & -> & Hl & Ht).
  pose proof (line_run p l t Ht Hl) as H. destruct (read_line p l).
  - eexists _, _. split; [exact H|]. simpl. rewrite length_app. lia.
  - destruct H as (e & p' & b & r & H & _ & Hlen). eexists _, _. split; [exact H|done].
Qed.

Lemma next_line_consumes : consumes (newline ;; line).
Proof.
  intros c e c' (x & c1 & Hn & Hl)%peg_seq_Some. apply newline_shorter in Hn.
  destruct (line_total c1) as (e' & c2 & Hl' & Hlen). rewrite Hl' in Hl. simplify_eq. lia.
Qed.

(** A line and the lines after it. *)
Definition lines_from : Peg (list RawEntry) :=
  first <- line ;; rest <- many (newline ;; line) ;; peg_ret (first :: rest).

Lemma lines_from_unfold c :
  lines_from c =
  match line c with
  | None => None
  | Some (e, c') =>
    match newline c' with
    | None => Some ([e], c')
    | Some (_, c1) =>
      match lines_from c1 with Some (l, c2) => Some (e :: l, c2) | None => None end
    end
  end.
Proof.
  unfold lines_from. unfold peg_seq at 1 2. destruct (line c) as [[e c']|]; [|done].
  rewrite (many_unfold _ _ next_line_consumes). unfold peg_seq at 1.
  destruct (newline c') as [[? c1]|]; [|done].
  unfold peg_seq. destruct (line_total c1) as (e1 & c2 & -> & _).
  by destruct (many _ c2) as [[l c3]|].
Qed.

Lemma lines_from_spec pos s :
  match read_lines (split_lines pos s) with
  | Some es => ∃ p, lines_from (MkCursor pos s) = Some (es, MkCursor p [])
  | None => ∃ es p b r, lines_from (MkCursor pos s) = Some (es, MkCursor p (b :: r)) ∧
                        is_eol b = false
  end.
Proof.
  revert pos. induction s as [s IH] using (induction_ltof1 _ length). unfold ltof in IH.
  intros pos. destruct (cut_line s) as (l & t & -> & Hl & Ht).
  rewrite split_lines_app by done. cbn [read_lines mapM mapM]. unfold read_lines. cbn [mapM fst snd].
  rewrite lines_from_unfold. pose proof (line_run pos l t Ht Hl) as Hline.
  destruct (read_line pos l) as [e|].
  - rewrite Hline. destruct (newline (MkCursor (pos + text_len l) t)) as [[? c1]|] eqn:Hn.
    + apply newline_shorter in Hn as Hlt. cbn [cur_rest] in Hlt.
      specialize (IH (cur_rest c1) ltac:(rewrite length_app; lia) (cur_pos c1)).
      destruct c1 as [p1 s1]. cbn [cur_pos cur_rest] in *. unfold read_lines in IH.
      destruct (mapM _ (split_lines p1 s1)) as [es|]; simpl.
      * destruct IH as [p ->]. by exists p.
      * destruct IH as (es & p & b & r & -> & Hb). by exists (e :: es), p, b, r.
    + apply newline_None in Hn as ->; [|done]. by exists (pos + text_len l).
  - destruct Hline as (e & p & b & r & -> & Hb & _). simpl.
    rewrite newline_run. unfold is_eol in Hb. apply orb_false_iff in Hb as [Hb1 Hb2].
    rewrite Hb1, Hb2. exists [e], p, b, r. split; [done|]. unfold is_eol. by rewrite Hb1, Hb2.
Qed.

Lemma config_lines_from c :
  config c = match lines_from c with
             | Some (es, c') =>
               match optional newline c' with Some (_, c'') => Some (es, c'') | None => None end
             | None => None
             end.
Proof.
  unfold config, lines_from, peg_seq. destruct (line c) as [[e c']|]; [|done].
  destruct (many _ c') as [[l c'']|]; [|done]. unfold peg_ret.
  by destruct (optional newline c'') as [[? ?]|].
Qed.

Lemma parse_raw_lines (input : text) :
  parse_raw input =
  match read_lines (split_lines 0 input) with
  | Some entries => entries
  | None => [RUnknown (MkSpanned input (MkSpan 0 (text_len input)))]
  end.
Proof.
  unfold parse_raw, run_rule. rewrite config_lines_from.
  pose proof (lines_from_spec 0 input) as H. destruct (read_lines _) as [es|].
  - destruct H as [p ->]. done.
  - destruct H as (es & p & b & r & -> & Hb). unfold optional. rewrite newline_run.
    unfold is_eol in Hb. apply orb_false_iff in Hb as [Hb1 Hb2]. by rewrite Hb1, Hb2.
Qed.

Lemma parse_raw_line (l : text) :
  forallb not_eol l = true →
  parse_raw l = match read_line 0 l with
                | Some e => [e]
                | None => [RUnknown (MkSpanned l (MkSpan 0 (text_len l)))]
                end.
Proof.
  intros Hl. rewrite parse_raw_lines, <- (app_nil_r l) at 1.
  rewrite split_lines_app by done. rewrite newline_run. unfold read_lines. simpl.
  by destruct (read_line 0 l).
Qed.

(** ** Property *)

(** C11: The file is read line by line. The grammar returns exactly what
    classifying each line alone gives, one entry per line; when one line is
    refused (a keyword that neither a blank, [=] nor the end of the line
    follows), all entries are lost and the whole text becomes one unknown
    entry. *)
Theorem parse_by_lines (path : string) (content : text) :
  let sf := new_source path content in
  let lines := split_lines 0 content in
  match read_lines lines with
  | Some entries => parse sf = map (locate_entry sf) entries ∧ length entries = length lines
  | None => parse sf = [Unknown (MkLocated content (location sf (MkSpan 0 (text_len content))))]
  end.
Proof.
  intros sf lines. pose proof (parse_raw_lines content) as H. fold lines in H.
  unfold parse, sf in *. cbn [sf_content new_source].
  destruct (read_lines lines) as [es|] eqn:Hes; rewrite H; [|done]. split; [done|].
  apply mapM_Some, Forall2_length in Hes. by rewrite Hes.
Qed.
