(* ===== verification/ConfigTokens.v ===== *)
(** * Tokens and locations of the configuration file

    The grammar of the arguments [tokenize] reads, the line and column of an
    offset, and that every location refers to the text it annotates. *)
From Stdlib Require Import ZArith Lia Strings.Byte Arith.Wf_nat.
From stdpp Require Import base list strings gmap fin_maps relations.
From S2P Require Import Prelude Text Peg Config ConfigLines.
Local Open Scope Z_scope.

(** ** The grammar of arguments

    [Tokens i s ts]: the text [s] at offset [i] has the tokens [ts], each with
    the offset of its first byte. A quoted token is the text between quotes,
    which may be missing at the end; a word ends at a blank or a quote. *)
Inductive Tokens : Z → text → list (Z * text) → Prop :=
| tokens_end i ws :
    forallb is_blank ws = true → Tokens i ws []
| tokens_quoted i ws c rest ts :
    forallb is_blank ws = true → x22 ∉ c →
    Tokens (i + text_len ws + 1 + text_len c + 1) rest ts →
    Tokens i (ws ++ x22 :: c ++ x22 :: rest) ((i + text_len ws + 1, c) :: ts)
| tokens_open i ws c :
    forallb is_blank ws = true → x22 ∉ c →
    Tokens i (ws ++ x22 :: c) [(i + text_len ws + 1, c)]
| tokens_word i ws w rest ts :
    forallb is_blank ws = true → w ≠ [] → forallb (λ b, negb (ends_word b)) w = true →
    (∀ b r, rest = b :: r → ends_word b = true) →
    Tokens (i + text_len ws + text_len w) rest ts →
    Tokens i (ws ++ w ++ rest) ((i + text_len ws, w) :: ts).

Lemma is_quote_spec b : is_quote b = true ↔ b = x22.
Proof. apply (byte_in_single b x22). Qed.

Lemma no_quote_spec c : forallb (λ b, negb (is_quote b)) c = true ↔ x22 ∉ c.
Proof.
  rewrite forallb_forall. split.
  - intros Hc Hin. apply list_elem_of_In, Hc in Hin. done.
  - intros Hc b Hb. apply list_elem_of_In in Hb. apply negb_true_iff, not_true_is_false.
    rewrite is_quote_spec. by intros ->.
Qed.

Lemma quote_not_blank : is_blank x22 = false.
Proof. reflexivity. Qed.

(** One round of the loop, with enough fuel. *)
Lemma tokenize_loop_fuel self n m i s :
  (length s < n)%nat → (length s < m)%nat →
  tokenize_loop n self i s = tokenize_loop m self i s.
Proof.
  revert m i s. induction n as [|n IH]; intros m i s Hn Hm; [lia|].
  destruct m as [|m]; [lia|]. cbn [tokenize_loop].
  destruct (span_while is_blank s) as [ws r] eqn:Hs. apply span_while_app in Hs as Hs'.
  assert (length s = length ws + length r)%nat as Hlen by (subst s; apply length_app).
  destruct r as [|b t]; [done|]. simpl in Hlen. destruct (is_quote b) eqn:Hq.
  - destruct (span_while _ t) as [c a] eqn:Hc. apply span_while_app in Hc.
    assert (length t = length c + length a)%nat by (subst t; apply length_app).
    f_equal. destruct a as [|b' a]; simpl in *; apply IH; simpl; lia.
  - destruct (span_while _ (b :: t)) as [w a] eqn:Hw. cbn [span_while] in Hw.
    f_equal. pose proof (span_while_stop _ _ _ _ _ _ Hs eq_refl) as Hb.
    assert (ends_word b = false) as Hb' by (unfold ends_word; by rewrite Hb, Hq).
    rewrite Hb' in Hw. simpl in Hw. destruct (span_while _ t) as [w' a'] eqn:Hw'. simplify_eq.
    apply span_while_app in Hw'.
    assert (length t = length w' + length a)%nat by (subst t; apply length_app).
    apply IH; lia.
Qed.

(** The loop finds the tokens of the grammar. *)
Lemma tokenize_loop_tokens self i s ts :
  Tokens i s ts →
  ∀ n, (length s < n)%nat → tokenize_loop n self i s = map (λ t, part self t.1 t.2) ts.
Proof.
  induction 1 as [i ws Hws|i ws c rest ts Hws Hc _ IH|i ws c Hws Hc|i ws w rest ts Hws Hne Hw Hr _ IH];
    intros n Hn; (destruct n as [|n]; [lia|]); cbn [tokenize_loop].
  - rewrite <- (app_nil_r ws). by rewrite span_while_run.
  - rewrite span_while_run; [|done|intros ? ? Heq; by simplify_eq].
    change (is_quote x22) with true. cbv iota.
    rewrite span_while_run; [|by apply no_quote_spec|intros ? ? Heq; by simplify_eq].
    cbn [map fst snd]. f_equal. apply IH. rewrite !length_app in Hn. simpl in Hn.
    rewrite length_app in Hn. simpl in Hn. lia.
  - rewrite span_while_run; [|done|intros ? ? Heq; by simplify_eq].
    change (is_quote x22) with true. cbv iota.
    rewrite <- (app_nil_r c) at 1. rewrite span_while_run; [|by apply no_quote_spec|done].
    cbn [map fst snd]. f_equal. by destruct n.
  - destruct w as [|b w]; [done|]. rewrite <- app_comm_cons.
    pose proof Hw as Hb. simpl in Hb. apply andb_prop in Hb as [Hb _].
    apply negb_true_iff in Hb. unfold ends_word in Hb. apply orb_false_iff in Hb as [Hb1 Hb2].
    rewrite span_while_run; [|done|intros ? ? Heq; by simplify_eq].
    rewrite Hb2. rewrite app_comm_cons. rewrite span_while_run; [|done|].
    + cbn [map fst snd]. f_equal. apply IH. rewrite !length_app in Hn. simpl in Hn. lia.
    + intros b' r' Heq. apply negb_false_iff. by eapply Hr.
Qed.

(** Every text has tokens. *)
Lemma tokens_exist i s : ∃ ts, Tokens i s ts.
Proof.
  revert i. induction s as [s IH] using (induction_ltof1 _ length). unfold ltof in IH. intros i.
  destruct (span_while is_blank s) as [ws r] eqn:Hs.
  pose proof (span_while_all _ _ _ _ Hs) as Hws. pose proof (span_while_app _ _ _ _ Hs) as ->.
  destruct r as [|b t]; [rewrite app_nil_r; eexists; by constructor|].
  pose proof (span_while_stop _ _ _ _ _ _ Hs eq_refl) as Hb. rewrite length_app in IH.
  destruct (is_quote b) eqn:Hq.
  - apply is_quote_spec in Hq as ->.
    destruct (span_while (λ b, negb (is_quote b)) t) as [c a] eqn:Hc.
    pose proof (span_while_all _ _ _ _ Hc) as Hc'. apply no_quote_spec in Hc'.
    pose proof (span_while_app _ _ _ _ Hc) as ->.
    destruct a as [|b a]; [rewrite app_nil_r; eexists; by constructor|].
    pose proof (span_while_stop _ _ _ _ _ _ Hc eq_refl) as Hq.
    apply negb_false_iff, is_quote_spec in Hq as ->.
    destruct (IH a ltac:(simpl; rewrite length_app; simpl; lia)
                (i + text_len ws + 1 + text_len c + 1)) as [ts Hts].
    eexists. by constructor.
  - destruct (span_while (λ b, negb (ends_word b)) (b :: t)) as [w a] eqn:Hw.
    pose proof (span_while_all _ _ _ _ Hw) as Hw'. pose proof (span_while_app _ _ _ _ Hw) as Heq.
    assert (w ≠ []) as Hne.
    { intros ->. simpl in Heq. subst a.
      pose proof (span_while_stop _ _ _ _ _ _ Hw eq_refl) as He. apply negb_false_iff in He.
      unfold ends_word in He. by rewrite Hb, Hq in He. }
    rewrite Heq in *.
    destruct (IH a ltac:(rewrite length_app; destruct w; simpl; [done|lia])
                (i + text_len ws + text_len w)) as [ts Hts].
    eexists. eapply tokens_word; [done..| |exact Hts]. intros b' r ->.
    pose proof (span_while_stop _ _ _ _ _ _ Hw eq_refl) as He. by apply negb_false_iff in He.
Qed.

Lemma map_part_inj self ts us :
  map (λ t, part self t.1 t.2) ts = map (λ t, part self t.1 t.2) us → us = ts.
Proof.
  revert us. induction ts as [|[a v] ts IH]; intros [|[b u] us]; simpl; intros Heq;
    simplify_eq; [done|].
  assert (a = b) as -> by lia. f_equal. by apply IH.
Qed.

(** C29: [tokenize] reads the grammar of arguments. Every argument text has
    exactly one sequence of tokens, and [tokenize] returns it, with the location
    of each token. *)
Theorem tokenize_grammar (self : Located text) :
  ∃ ts, Tokens 0 (value self) ts ∧ tokenize self = map (λ t, part self t.1 t.2) ts ∧
    ∀ ts', Tokens 0 (value self) ts' → ts' = ts.
Proof.
  destruct (tokens_exist 0 (value self)) as [ts Hts]. exists ts. split; [done|].
  assert (∀ us, Tokens 0 (value self) us → tokenize self = map (λ t, part self t.1 t.2) us) as Htok.
  { intros us Hus. apply (tokenize_loop_tokens _ _ _ _ Hus). lia. }
  split; [by apply Htok|]. intros us Hus. apply Htok in Hts, Hus. rewrite Hts in Hus.
  apply (map_part_inj self). done.
Qed.

(** ** Where a text occurs *)

Definition occurs (s : text) (pos : Z) (v : text) : Prop :=
  ∃ pre post, s = pre ++ v ++ post ∧ pos = text_len pre.

Lemma occurs_here s : occurs s 0 s.
Proof. exists [], []. by rewrite app_nil_r. Qed.

Lemma occurs_trans s p l q v : occurs s p l → occurs l q v → occurs s (p + q) v.
Proof.
  intros (pre & post & -> & ->) (pre' & post' & -> & ->). exists (pre ++ pre'), (post' ++ post).
  rewrite text_len_app. split; [by rewrite !(assoc_L (++))|done].
Qed.

Lemma occurs_app s pre v post : s = pre ++ v ++ post → occurs s (text_len pre) v.
Proof. intros ->. by exists pre, post. Qed.

(** [source[span.start..span.end]]. *)
Definition slice (s : text) (a b : Z) : text := take (Z.to_nat (b - a)) (drop (Z.to_nat a) s).
Lemma occurs_slice s p v : occurs s p v → slice s p (p + text_len v) = v.
Proof.
  intros (pre & post & -> & ->). unfold slice, text_len.
  rewrite Nat2Z.id, drop_app_length. replace (_ - _) with (Z.of_nat (length v)) by lia.
  by rewrite Nat2Z.id, take_app_length.
Qed.

Lemma occurs_bounds s p v : occurs s p v → 0 ≤ p ∧ p + text_len v ≤ text_len s.
Proof.
  intros (pre & post & -> & ->). rewrite !text_len_app.
  pose proof (text_len_nonneg pre). pose proof (text_len_nonneg post). lia.
Qed.

Lemma occurs_elem s p v b : occurs s p v → b ∈ v → b ∈ s.
Proof. intros (pre & post & -> & _). set_solver. Qed.

Lemma occurs_tail b s p v : occurs s p v → occurs (b :: s) (p + 1) v.
Proof. intros (pre & post & -> & ->). exists (b :: pre), post. rewrite text_len_cons. split; [done|lia]. Qed.

(** The tokens occur where they say. *)
Lemma tokens_occur i s ts a v : Tokens i s ts → (a, v) ∈ ts → occurs s (a - i) v.
Proof.
  induction 1 as [|i ws c rest ts Hws Hc _ IH|i ws c Hws Hc|i ws w rest ts Hws Hne Hw Hr _ IH];
    intros Hin; [set_solver| | |].
  - apply elem_of_cons in Hin as [Heq|Hin].
    + simplify_eq. exists (ws ++ [x22]), (x22 :: rest). rewrite text_len_app.
      split; [by rewrite <- (assoc_L (++))|]. change (text_len [x22]) with 1. lia.
    + destruct (IH Hin) as (pre & post & -> & Hp).
      exists (ws ++ x22 :: c ++ x22 :: pre), post.
      split; [by rewrite <- !(assoc_L (++)); simpl; rewrite <- !(assoc_L (++))|].
      rewrite text_len_app, text_len_cons, text_len_app, text_len_cons. lia.
  - apply list_elem_of_singleton in Hin. simplify_eq. exists (ws ++ [x22]), [].
    rewrite text_len_app, app_nil_r. split; [by rewrite <- (assoc_L (++))|].
    change (text_len [x22]) with 1. lia.
  - apply elem_of_cons in Hin as [Heq|Hin].
    + simplify_eq. exists ws, rest. split; [done|lia].
    + destruct (IH Hin) as (pre & post & -> & Hp). exists (ws ++ w ++ pre), post.
      split; [by rewrite <- !(assoc_L (++))|]. rewrite !text_len_app. lia.
Qed.

Lemma tokenize_occurs self t :
  t ∈ tokenize self → ∃ off, occurs (value self) off (value t) ∧ t = part self off (value t).
Proof.
  destruct (tokens_exist 0 (value self)) as [ts Hts].
  unfold tokenize. rewrite (tokenize_loop_tokens _ _ _ _ Hts) by lia.
  rewrite list_elem_of_fmap. intros ([a v] & -> & Hin). exists a. split; [|done].
  pose proof (tokens_occur _ _ _ _ _ Hts Hin) as Ho. by rewrite Z.sub_0_r in Ho.
Qed.

Lemma split_comma_occurs self t :
  t ∈ split_comma self → ∃ off, occurs (value self) off (value t) ∧ t = part self off (value t).
Proof.
  unfold split_comma.
  assert (∀ ps off, t ∈ split_comma_loop self off ps →
            ∃ a, occurs (join_with [comma] ps) a (value t) ∧ t = part self (off + a) (value t)) as H.
  { induction ps as [|p ps IH]; intros off; [set_solver|]. cbn [split_comma_loop].
    intros [->|Hin]%elem_of_cons.
    - exists 0. rewrite Z.add_0_r. split; [|done].
      destruct ps as [|q ps]; [apply occurs_here|]. by exists [], ([comma] ++ join_with [comma] (q :: ps)).
    - destruct ps as [|q ps]; [simpl in Hin; set_solver|].
      apply IH in Hin as (a & Ho & Ht). exists (text_len p + 1 + a).
      rewrite !Z.add_assoc. split; [|done].
      apply (occurs_trans _ (text_len p + 1) (join_with [comma] (q :: ps))); [|done].
      exists (p ++ [comma]), []. rewrite text_len_app, app_nil_r.
      split; [by rewrite <- (assoc_L (++))|done]. }
  intros Hin. apply H in Hin as (a & Ho & Ht). exists a. by rewrite split_on_join in Ho.
Qed.

(** ** Lines and columns *)

Definition newlines (s : list byte) : nat := length (filter (λ b, b = x0a) s).

Lemma line_starts_app i s t :
  line_starts_from i (s ++ t) = line_starts_from i s ++ line_starts_from (i + text_len s) t.
Proof.
  revert i. induction s as [|b s IH]; intros i; cbn [app line_starts_from].
  - change (text_len []) with 0. by rewrite Z.add_0_r.
  - rewrite IH, text_len_cons, (assoc_L (++)). do 2 f_equal. lia.
Qed.

Lemma line_starts_none i s : x0a ∉ s → line_starts_from i s = [].
Proof.
  revert i. induction s as [|b s IH]; intros i Hs; [done|]. cbn [line_starts_from].
  destruct (byte_in 10 10 b) eqn:E; [apply (byte_in_single b x0a) in E; set_solver|].
  apply IH. set_solver.
Qed.

Lemma length_line_starts i s : length (line_starts_from i s) = newlines s.
Proof.
  revert i. induction s as [|b s IH]; intros i; [done|]. cbn [line_starts_from].
  unfold newlines. rewrite filter_cons, length_app, IH.
  destruct (byte_in 10 10 b) eqn:E.
  - apply (byte_in_single b x0a) in E as ->. by rewrite decide_True.
  - rewrite decide_False; [done|]. intros ->. done.
Qed.

Lemma line_starts_above i s x : x ∈ line_starts_from i s → i < x ≤ i + text_len s.
Proof.
  revert i. induction s as [|b s IH]; intros i; [set_solver|]. cbn [line_starts_from].
  rewrite text_len_cons. pose proof (text_len_nonneg s).
  rewrite elem_of_app. intros [Hin|Hin].
  - destruct (byte_in 10 10 b); [|set_solver]. apply list_elem_of_singleton in Hin. lia.
  - apply IH in Hin. lia.
Qed.

Lemma partition_point_app {A} (p : A → bool) l k :
  (∀ x, x ∈ l → p x = true) → (∀ x, x ∈ k → p x = false) →
  partition_point p (l ++ k) = length l.
Proof.
  intros Hl Hk. induction l as [|a l IH]; simpl.
  - destruct k as [|b k]; [done|]. simpl. by rewrite Hk by set_solver.
  - rewrite Hl by set_solver. rewrite IH; [done|set_solver].
Qed.

Lemma line_col_at path (p l rest : text) :
  x0a ∉ l → (p = [] ∨ ∃ q, p = q ++ [x0a]) →
  line_col (new_source path (p ++ l ++ rest)) (text_len p + text_len l)
  = (Z.of_nat (newlines p) + 1, text_len l + 1).
Proof.
  intros Hl Hp. pose proof (text_len_nonneg p). pose proof (text_len_nonneg l).
  unfold line_col, new_source, compute_line_starts. cbn [sf_line_starts].
  rewrite !line_starts_app, (line_starts_none _ l Hl). cbn [app]. rewrite Z.add_0_l.
  rewrite app_comm_cons, partition_point_app.
  - cbn [length Nat.pred]. rewrite length_line_starts. f_equal.
    assert (nth (newlines p) ((0 :: line_starts_from 0 p) ++
              line_starts_from (text_len p + text_len l) rest) 0 = text_len p) as ->; [|lia].
    rewrite <- app_comm_cons. destruct Hp as [->|[q ->]]; [done|]. rewrite line_starts_app.
    assert (newlines (q ++ [x0a]) = S (newlines q)) as ->.
    { unfold newlines. rewrite filter_app, length_app. simpl. lia. }
    cbn [nth]. rewrite <- (assoc_L (++)), app_nth2; rewrite length_line_starts; [|lia].
    rewrite Nat.sub_diag. cbn. rewrite text_len_app. unfold text_len. simpl. lia.
  - intros x [->|Hx]%elem_of_cons; apply Z.leb_le; [lia|].
    apply line_starts_above in Hx. lia.
  - intros x Hx. apply Z.leb_gt. apply line_starts_above in Hx. lia.
Qed.

(** Lines and columns. For an offset [len p + len l] into
    [p ++ l ++ rest], where [p] is empty or ends with a line feed and [l] has
    none, [line_col] returns one more than the line feeds before it and one
    more than the bytes after the last of them. *)
Theorem line_col_spec path (p l rest : text) :
  x0a ∉ l → (p = [] ∨ ∃ q, p = q ++ [x0a]) →
  line_col (new_source path (p ++ l ++ rest)) (text_len p + text_len l)
  = (Z.of_nat (newlines p) + 1, text_len l + 1).
Proof. apply line_col_at. Qed.

(** Within a line the column grows with the offset. *)
Lemma cut_at_newline (s : text) : ∃ p l, s = p ++ l ∧ (x0a ∉ l) ∧ (p = [] ∨ ∃ q, p = q ++ [x0a]).
Proof.
  induction s as [|b s (p & l & -> & Hl & Hp)] using rev_ind.
  - exists [], []. split_and!; [done|set_solver|by left].
  - destruct (decide (b = x0a)) as [->|Hb].
    + exists ((p ++ l) ++ [x0a]), []. rewrite app_nil_r. split_and!; [done|set_solver|by right; eexists].
    + exists p, (l ++ [b]). rewrite (assoc_L (++)). split_and!; [done|set_solver|done].
Qed.

Lemma line_col_add sf pos l off v :
  sf = new_source (sf_path sf) (sf_content sf) →
  occurs (sf_content sf) pos l → x0a ∉ l → occurs l off v →
  line_col sf (pos + off) = ((line_col sf pos).1, (line_col sf pos).2 + off).
Proof.
  intros Hsf (pre & post & Hc & ->) Hl (pre' & post' & -> & ->).
  destruct (cut_at_newline pre) as (p & k & -> & Hk & Hp). rewrite Hsf, Hc, text_len_app.
  pose proof (line_col_at (sf_path sf) p k ((pre' ++ v ++ post') ++ post) Hk Hp) as H1.
  pose proof (line_col_at (sf_path sf) p (k ++ pre') (v ++ post' ++ post)
                ltac:(set_solver) Hp) as H2.
  rewrite text_len_app in H2. rewrite <- !(assoc_L (++)) in *. rewrite <- !Z.add_assoc in *.
  rewrite H1, H2. simpl. f_equal. lia.
Qed.

(** ** Locations refer to the text *)

(** The span is where the value occurs, and line and column are those of the
    span's start. *)
Definition refers (sf : SourceFile) (x : Located text) : Prop :=
  occurs (sf_content sf) (span_start (loc_span (location_of x))) (value x) ∧
  span_end (loc_span (location_of x)) =
    span_start (loc_span (location_of x)) + text_len (value x) ∧
  location_of x = location sf (loc_span (location_of x)).

Definition spanned_ok (s : text) (x : Spanned text) : Prop :=
  occurs s (span_start (spanned_span x)) (spanned_value x) ∧
  span_end (spanned_span x) = span_start (spanned_span x) + text_len (spanned_value x).

Lemma location_span sf sp : loc_span (location sf sp) = sp.
Proof. unfold location. by destruct (line_col sf (span_start sp)). Qed.

Lemma locate_refers sf x : spanned_ok (sf_content sf) x → refers sf (locate sf x).
Proof.
  intros [Ho He]. unfold refers, locate. cbn [value location_of]. by rewrite location_span.
Qed.

(** Part of a text on one line. *)
Lemma part_refers sf x off v :
  sf = new_source (sf_path sf) (sf_content sf) →
  refers sf x → x0a ∉ value x → occurs (value x) off v → refers sf (part x off v).
Proof.
  destruct x as [v0 [pa sp li co]]. unfold refers, part, part_location.
  cbn [value location_of loc_span loc_path loc_line loc_column span_start span_end].
  intros Hsf (Ho & He & Hl) Hnl Hv. split_and!; [by eapply occurs_trans|done|].
  unfold location in *. cbn [span_start]. rewrite (line_col_add sf _ v0 off v Hsf Ho Hnl Hv).
  destruct (line_col sf (span_start sp)) as [l c]. by simplify_eq/=.
Qed.

(** The lines of a text occur in it. *)
Lemma split_lines_occur pos s p l :
  (p, l) ∈ split_lines pos s → occurs s (p - pos) l ∧ forallb not_eol l = true.
Proof.
  revert pos. induction s as [s IH] using (induction_ltof1 _ length). unfold ltof in IH.
  intros pos. destruct (cut_line s) as (k & t & -> & Hk & Ht).
  rewrite split_lines_app by done. intros [Heq|Hin]%elem_of_cons.
  - simplify_eq. rewrite Z.sub_diag. split; [by exists [], t|done].
  - destruct (newline (MkCursor (pos + text_len k) t)) as [[? c]|] eqn:Hn; [|set_solver].
    pose proof (newline_shorter _ _ _ Hn) as Hlt. simpl in Hlt.
    destruct (IH (cur_rest c) ltac:(rewrite length_app; lia) _ Hin) as [Ho Hl]. split; [|done].
    assert (∃ e, t = e ++ cur_rest c ∧ cur_pos c = pos + text_len k + text_len e) as (e & -> & Hc).
    { rewrite newline_run in Hn. destruct t as [|b t]; [done|].
      destruct (byte_in 10 10 b); [simplify_eq; by exists [b]|].
      destruct (byte_in 13 13 b); [|done].
      destruct t as [|b' t]; [simplify_eq; by exists [b]|].
      destruct (byte_in 10 10 b'); simplify_eq; [by exists [b; b']|by exists [b]]. }
    rewrite Hc in Ho.
    replace (p - pos) with ((text_len k + text_len e) + (p - (pos + text_len k + text_len e))) by lia.
    eapply occurs_trans; [|exact Ho]. exists (k ++ e), []. rewrite text_len_app, app_nil_r.
    by rewrite (assoc_L (++)).
Qed.

Lemma read_args_occur pos r :
  occurs r (span_start (spanned_span (read_args pos r)) - pos) (spanned_value (read_args pos r)) ∧
  span_end (spanned_span (read_args pos r)) =
    span_start (spanned_span (read_args pos r)) + text_len (spanned_value (read_args pos r)).
Proof.
  unfold read_args. destruct (span_while is_blank r) as [ws v] eqn:Hs. simpl. split; [|done].
  apply span_while_app in Hs as ->. destruct (trim_end_prefix v) as [q Hq].
  exists ws, q. rewrite <- Hq. split; [done|lia].
Qed.

(** What [read_line] promises about the spans of its entry. *)
Definition entry_spans (s : text) (e : RawEntry) : Prop :=
  match e with
  | REmpty sp => ∃ v, occurs s (span_start sp) v ∧ span_end sp = span_start sp + text_len v ∧
                      forallb is_blank v = true
  | RComment x => ∃ v w, occurs s (span_start (spanned_span x)) (v ++ x23 :: w) ∧
                  forallb is_blank v = true ∧ spanned_value x = trim w ∧
                  span_end (spanned_span x) =
                    span_start (spanned_span x) + text_len (v ++ x23 :: w)
  | RDirective d => spanned_ok s (raw_keyword d) ∧ spanned_ok s (raw_args d) ∧
                    forallb not_eol (spanned_value (raw_args d)) = true
  | RUnknown x => spanned_ok s x
  end.

Lemma spanned_ok_shift s pos l x :
  occurs s pos l → occurs l (span_start (spanned_span x) - pos) (spanned_value x) →
  span_end (spanned_span x) = span_start (spanned_span x) + text_len (spanned_value x) →
  spanned_ok s x.
Proof.
  intros Hs Hx He. split; [|done].
  replace (span_start (spanned_span x)) with (pos + (span_start (spanned_span x) - pos)) by lia.
  by eapply occurs_trans.
Qed.

Lemma occurs_not_eol l p v : occurs l p v → forallb not_eol l = true → forallb not_eol v = true.
Proof.
  intros (pre & post & -> & _). rewrite !forallb_app. intros H.
  apply andb_prop in H as [_ H]. by apply andb_prop in H as [H _].
Qed.

(** The arguments read at offset [len u] of the line [u ++ r]. *)
Lemma read_args_spans s pos l u r :
  occurs s pos l → forallb not_eol l = true → l = u ++ r →
  spanned_ok s (read_args (pos + text_len u) r) ∧
  forallb not_eol (spanned_value (read_args (pos + text_len u) r)) = true.
Proof.
  intros Hs Hl Hu. destruct (read_args_occur (pos + text_len u) r) as [Ho He].
  assert (occurs l (text_len u + (span_start (spanned_span (read_args (pos + text_len u) r)) -
                                  (pos + text_len u)))
            (spanned_value (read_args (pos + text_len u) r))) as Ho'.
  { eapply occurs_trans; [|exact Ho]. subst l. exists u, []. by rewrite app_nil_r. }
  split; [|by eapply occurs_not_eol].
  eapply spanned_ok_shift; [done| |done]. revert Ho'. 
  match goal with |- occurs _ ?a _ → occurs _ ?b _ => replace b with a by lia end. done.
Qed.

Lemma read_line_spans s pos l e :
  occurs s pos l → forallb not_eol l = true → read_line pos l = Some e → entry_spans s e.
Proof.
  intros Hs Hl. unfold read_line. destruct (span_while is_blank l) as [ws r] eqn:Hws.
  pose proof (span_while_all _ _ _ _ Hws) as Hb.
  pose proof (span_while_app _ _ _ _ Hws) as Hl'.
  destruct r as [|b t].
  { intros. simplify_eq. rewrite app_nil_r in Hs. by exists ws. }
  destruct (byte_in 35 35 b) eqn:Hhash.
  { intros. simplify_eq. apply (byte_in_single b x23) in Hhash as ->. simpl. by exists ws, t. }
  destruct (is_letter b).
  - destruct (span_while is_alnum t) as [k r1] eqn:Hk. apply span_while_app in Hk.
    destruct (span_while is_blank r1) as [ws1 r2] eqn:Hs1. apply span_while_app in Hs1.
    assert (spanned_ok s (MkSpanned (b :: k) (MkSpan (pos + text_len ws)
              (pos + text_len ws + 1 + text_len k)))) as Hkw.
    { eapply spanned_ok_shift; [done| |]; simpl; [|rewrite text_len_cons; lia].
      exists ws, r1. rewrite Hl', Hk. split; [done|lia]. }
    assert (∀ u r, l = u ++ r →
              ∀ p, p = pos + text_len u →
              entry_spans s (RDirective (MkRawDirective (MkSpanned (b :: k)
                (MkSpan (pos + text_len ws) (pos + text_len ws + 1 + text_len k)))
                (read_args p r)))) as Hargs.
    { intros u r Hu p ->. simpl. split; [done|]. by eapply read_args_spans. }
    assert (l = (ws ++ b :: k) ++ r1) as Hu by (rewrite Hl', Hk, <- (assoc_L (++)); done).
    assert (text_len (ws ++ b :: k) = text_len ws + 1 + text_len k) as Hlen
      by (rewrite text_len_app, text_len_cons; lia).
    destruct r2 as [|b2 r3].
    + intros. simplify_eq. apply (Hargs (ws ++ b :: k ++ ws1)); [|rewrite text_len_app, text_len_cons, text_len_app; lia].
      rewrite !app_nil_r. done.
    + destruct (byte_in 61 61 b2); [|destruct ws1; [done|]]; intros; simplify_eq.
      * apply (Hargs ((ws ++ b :: k) ++ ws1 ++ [b2])); [by rewrite <- !(assoc_L (++))|].
        rewrite text_len_app, Hlen, text_len_app. change (text_len [b2]) with 1. lia.
      * apply (Hargs (ws ++ b :: k)); [done|lia].
  - intros. simplify_eq. by split.
Qed.

Lemma parse_raw_spans s e : e ∈ parse_raw s → entry_spans s e.
Proof.
  rewrite parse_raw_lines. destruct (read_lines (split_lines 0 s)) as [es|] eqn:Hes; intros He.
  - unfold read_lines in Hes. apply mapM_Some in Hes.
    apply list_elem_of_lookup in He as [i Hi].
    destruct (Forall2_lookup_r _ _ _ _ _ Hes Hi) as ([q l] & Hl & Hr). simpl in Hr.
    apply list_elem_of_lookup_2, split_lines_occur in Hl as [Ho Hn]. rewrite Z.sub_0_r in Ho.
    by eapply read_line_spans.
  - apply list_elem_of_singleton in He as ->. by split; [apply occurs_here|].
Qed.

Lemma not_eol_no_newline v : forallb not_eol v = true → x0a ∉ v.
Proof.
  rewrite forallb_forall. intros Hv Hin. apply list_elem_of_In, Hv in Hin. done.
Qed.

(** C19: Every location is a reference into the file. In the entries of a
    parsed file, the span of a keyword, of arguments and of an unknown line
    delimits exactly the annotated text and carries the line and column of its
    start; so do the tokens of a directive's arguments and the parts between
    their commas. *)
Theorem locations_refer (path : string) (content : text) (e : Entry) :
  let sf := new_source path content in
  e ∈ parse sf →
  match e with
  | EDirective d =>
    refers sf (directive_keyword d) ∧ refers sf (directive_arguments d) ∧
    ∀ t, t ∈ tokenize (directive_arguments d) →
      refers sf t ∧ ∀ u, u ∈ split_comma t → refers sf u
  | Unknown s => refers sf s
  | Empty _ | Comment _ => True
  end.
Proof.
  intros sf. unfold parse. rewrite list_elem_of_fmap. intros (raw & -> & Hraw).
  apply parse_raw_spans in Hraw. destruct raw as [sp|x|d|x]; simpl in *; [done..| |].
  - destruct Hraw as (Hk & Ha & Hn). apply (locate_refers sf) in Hk, Ha.
    apply not_eol_no_newline in Hn. split_and!; [done..|].
    intros t (off & Ho & ->)%tokenize_occurs. simpl in Ho.
    assert (refers sf (part (locate sf (raw_args d)) off (value t))) as Ht
      by (by apply part_refers).
    split; [done|]. intros u (off' & Ho' & ->)%split_comma_occurs.
    apply part_refers; [done|done| |done]. simpl. intros Hin. apply Hn. by eapply occurs_elem.
  - by apply (locate_refers sf).
Qed.

(** ** Writing arguments *)

(** Arguments in double quotes, separated by spaces. *)
Definition quote (a : text) : text := x22 :: a ++ [x22].
Definition quoted_args (args : list text) : text := join_with [x20] (map quote args).

Lemma quoted_args_tokens args :
  Forall (λ a, x22 ∉ a) args →
  ∀ i ws, forallb is_blank ws = true → ∃ ts, Tokens i (ws ++ quoted_args args) ts ∧ map snd ts = args.
Proof.
  induction 1 as [|a args Ha Hargs IH]; intros i ws Hws.
  { exists []. rewrite app_nil_r. split; [by constructor|done]. }
  unfold quoted_args in *. destruct args as [|b args].
  - exists [(i + text_len ws + 1, a)]. split; [|done]. cbn [map join_with].
    unfold quote. apply (tokens_quoted i ws a [] []); [done|done|]. by apply (tokens_end _ []).
  - destruct (IH (i + text_len ws + 1 + text_len a + 1) [x20] eq_refl) as (ts & Hts & Hmap).
    exists ((i + text_len ws + 1, a) :: ts). split; [|simpl; by rewrite Hmap].
    change (join_with [x20] (map quote (a :: b :: args))) with
      (quote a ++ [x20] ++ join_with [x20] (map quote (b :: args))).
    unfold quote at 1. rewrite <- app_comm_cons, <- (assoc_L (++)). by apply tokens_quoted.
Qed.

Lemma quoted_args_values (args : list text) (l : Location) :
  Forall (λ a, x22 ∉ a) args →
  map value (tokenize (MkLocated (quoted_args args) l)) = args.
Proof.
  intros Hargs. destruct (quoted_args_tokens args Hargs 0 [] eq_refl) as (ts & Hts & Hmap).
  unfold tokenize. rewrite (tokenize_loop_tokens _ _ _ _ Hts) by (simpl; lia).
  rewrite map_map. by rewrite <- Hmap.
Qed.

Lemma quoted_args_cons a args :
  args ≠ [] → quoted_args (a :: args) = quote a ++ [x20] ++ quoted_args args.
Proof. by destruct args. Qed.

Lemma quoted_args_shape args :
  args ≠ [] → ∃ v, quoted_args args = v ++ [x22] ∧ head (quoted_args args) = Some x22.
Proof.
  induction args as [|a args IH]; [done|]. intros _.
  destruct args as [|b args]; [by exists (x22 :: a)|].
  destruct IH as (v & Hv & _); [done|]. rewrite quoted_args_cons by done.
  exists (quote a ++ [x20] ++ v). split; [|done]. by rewrite Hv, <- !(assoc_L (++)).
Qed.

Lemma quoted_args_not_eol args :
  Forall (λ a, forallb not_eol a = true) args → forallb not_eol (quoted_args args) = true.
Proof.
  induction 1 as [|a args Ha _ IH]; [done|].
  assert (forallb not_eol (quote a) = true) as Hq
    by (unfold quote; simpl; by rewrite forallb_app, Ha).
  destruct args as [|b args]; [done|]. rewrite quoted_args_cons by done.
  by rewrite !forallb_app, Hq, IH.
Qed.

(** A line with a keyword. *)
Lemma read_line_keyword pos ws b k r :
  forallb is_blank ws = true → is_letter b = true → forallb is_alnum k = true →
  (∀ a r', r = a :: r' → is_alnum a = false) →
  read_line pos (ws ++ (b :: k) ++ r) =
  let e := pos + text_len ws + 1 + text_len k in
  let kw := MkSpanned (b :: k) (MkSpan (pos + text_len ws) e) in
  let '(ws1, r2) := span_while is_blank r in
  match r2 with
  | [] => Some (RDirective (MkRawDirective kw (read_args (e + text_len ws1) [])))
  | b2 :: r3 =>
    if byte_in 61 61 b2
    then Some (RDirective (MkRawDirective kw (read_args (e + text_len ws1 + 1) r3)))
    else match ws1 with
         | [] => None
         | _ => Some (RDirective (MkRawDirective kw (read_args e r)))
         end
  end.
Proof.
  intros Hws Hb Hk Hr. unfold read_line. rewrite <- app_comm_cons.
  rewrite span_while_run; [|done|intros ? ? Heq; simplify_eq; clear -Hb; byte_cases].
  assert (byte_in 35 35 b = false) as -> by (clear -Hb; byte_cases). rewrite Hb.
  by rewrite span_while_run by done.
Qed.

(** Arguments between blanks. *)
Lemma read_args_form pos ws2 v v' c d ws3 :
  forallb is_blank ws2 = true → forallb is_blank ws3 = true →
  v = v' ++ [c] → byte_in 33 126 c = true → head v = Some d → is_blank d = false →
  spanned_value (read_args pos (ws2 ++ v ++ ws3)) = v.
Proof.
  intros H2 H3 Hv Hc Hd Hd'. unfold read_args.
  rewrite span_while_run; [|done|intros a r' Heq; destruct v; simplify_eq/=; done]. simpl.
  rewrite Hv, <- (assoc_L (++)). apply trim_end_blanks; [done|].
  rewrite forallb_forall in *. intros x Hx. specialize (H3 x Hx). clear -H3.
  unfold ascii_whitespace. byte_cases.
Qed.

Lemma forallb_mono {A} (p q : A → bool) l :
  (∀ a, p a = true → q a = true) → forallb p l = true → forallb q l = true.
Proof. rewrite !forallb_forall. auto. Qed.

Lemma blanks_not_eol ws : forallb is_blank ws = true → forallb not_eol ws = true.
Proof. apply forallb_mono. intros a Ha. by apply negb_true_iff, blank_not_eol. Qed.

Lemma keyword_not_eol b k :
  is_letter b = true → forallb is_alnum k = true → forallb not_eol (b :: k) = true.
Proof.
  intros Hb Hk. simpl. apply andb_true_intro. split; [clear -Hb; unfold not_eol; byte_cases|].
  eapply forallb_mono; [|exact Hk]. intros a Ha. by apply negb_true_iff, alnum_not_eol.
Qed.

Lemma blank_not_alnum a : is_blank a = true → is_alnum a = false.
Proof. unfold is_alnum. byte_cases. Qed.

Lemma read_directive_forms (b c d : byte) (k ws ws1 ws2 ws3 v v' : text) :
  is_letter b = true → forallb is_alnum k = true →
  forallb is_blank (ws ++ ws1 ++ ws2 ++ ws3) = true →
  v = v' ++ [c] → byte_in 33 126 c = true → forallb not_eol v = true →
  head v = Some d → is_blank d = false →
  (∃ s1 s2, parse_raw (ws ++ (b :: k) ++ ws1 ++ x3d :: ws2 ++ v ++ ws3) =
     [RDirective (MkRawDirective (MkSpanned (b :: k) s1) (MkSpanned v s2))]) ∧
  (ws1 ≠ [] → d ≠ x3d →
   ∃ s1 s2, parse_raw (ws ++ (b :: k) ++ ws1 ++ v ++ ws3) =
     [RDirective (MkRawDirective (MkSpanned (b :: k) s1) (MkSpanned v s2))]).
Proof.
  intros Hb Hk Hws Hv Hc Hne Hd Hd'.
  rewrite !forallb_app in Hws. apply andb_prop in Hws as [H0 Hws].
  apply andb_prop in Hws as [H1 Hws]. apply andb_prop in Hws as [H2 H3].
  split; [|intros Hw1 Hdq]; rewrite parse_raw_line.
  - rewrite read_line_keyword; [|done..|].
    + rewrite span_while_run; [|done|intros ? ? Heq; by simplify_eq].
      change (byte_in 61 61 x3d) with true. cbv iota zeta.
      pose proof (read_args_form (0 + text_len ws + 1 + text_len k + text_len ws1 + 1)
                    ws2 v v' c d ws3 H2 H3 Hv Hc Hd Hd') as Hf.
      destruct (read_args _ _) as [v0 sp]. simpl in Hf. subst v0. by eexists _, _.
    + intros a r' Heq. destruct ws1 as [|w ws1]; simplify_eq/=; [done|].
      apply andb_prop in H1 as [H1 _]. by apply blank_not_alnum.
  - rewrite !forallb_app. rewrite (keyword_not_eol b k), !blanks_not_eol by done. simpl.
    by rewrite !forallb_app, Hne, !blanks_not_eol.
  - rewrite read_line_keyword; [|done..|].
    + pose proof (read_args_form (0 + text_len ws + 1 + text_len k)
                    ws1 v v' c d ws3 H1 H3 Hv Hc Hd Hd') as Hf.
      rewrite span_while_run; [|done|intros ? ? Heq; destruct v; by simplify_eq/=].
      destruct (v ++ ws3) as [|d' r3] eqn:Hr3; [by destruct v|].
      assert (d' = d) as -> by (destruct v; by simplify_eq/=).
      destruct (byte_in 61 61 d) eqn:E; [by apply (byte_in_single d x3d) in E|].
      destruct ws1 as [|w ws1]; [done|]. cbv zeta. rewrite <- Hr3 in *.
      destruct (read_args _ _) as [v0 sp]. simpl in Hf. subst v0. by eexists _, _.
    + intros a r' Heq. destruct ws1 as [|w ws1]; [done|]. simplify_eq/=.
      apply andb_prop in H1 as [H1 _]. by apply blank_not_alnum.
  - rewrite !forallb_app. by rewrite (keyword_not_eol b k), Hne, !blanks_not_eol.
Qed.

(** The two documented forms of a directive. A line with a keyword, then
    [=] or blanks, then arguments that start with a non-blank and end with a
    visible character is read as that keyword and those arguments, whatever
    blanks surround them. *)
Theorem directive_forms (b c d : byte) (k ws ws1 ws2 ws3 v v' : text) :
  is_letter b = true → forallb is_alnum k = true →
  forallb is_blank (ws ++ ws1 ++ ws2 ++ ws3) = true →
  v = v' ++ [c] → byte_in 33 126 c = true → forallb not_eol v = true →
  head v = Some d → is_blank d = false →
  (∃ s1 s2, parse_raw (ws ++ (b :: k) ++ ws1 ++ x3d :: ws2 ++ v ++ ws3) =
     [RDirective (MkRawDirective (MkSpanned (b :: k) s1) (MkSpanned v s2))]) ∧
  (ws1 ≠ [] → d ≠ x3d →
   ∃ s1 s2, parse_raw (ws ++ (b :: k) ++ ws1 ++ v ++ ws3) =
     [RDirective (MkRawDirective (MkSpanned (b :: k) s1) (MkSpanned v s2))]).
Proof. apply read_directive_forms. Qed.

(** What is written is read. A file with a keyword and a list of
    arguments in double quotes (empty ones and ones with blanks included) is
    parsed as one directive, whose tokens are those arguments. *)
Theorem written_directive_read (path : string) (b : byte) (k : text) (args : list text) :
  is_letter b = true → forallb is_alnum k = true → args ≠ [] →
  Forall (λ a, (x22 ∉ a) ∧ forallb not_eol a = true) args →
  ∃ d, parse (new_source path ((b :: k) ++ [x20] ++ quoted_args args)) = [EDirective d] ∧
       value (directive_keyword d) = b :: k ∧
       map value (tokenize (directive_arguments d)) = args.
Proof.
  intros Hb Hk Hne Hargs. destruct (quoted_args_shape args Hne) as (v' & Hv & Hd).
  assert (forallb not_eol (quoted_args args) = true) as Hn.
  { apply quoted_args_not_eol. eapply Forall_impl; [exact Hargs|]. by intros a [_ ?]. }
  destruct (read_directive_forms b x22 x22 k [] [x20] [] [] (quoted_args args) v') as [_ Hf];
    try done.
  destruct Hf as (s1 & s2 & Hf); [done..|]. cbn [app] in Hf. rewrite app_nil_r in Hf.
  unfold parse. cbn [sf_content new_source app]. rewrite Hf.
  eexists. split; [reflexivity|]. split; [done|]. apply quoted_args_values.
  eapply Forall_impl; [exact Hargs|]. by intros a [? _].
Qed.

(** ** Witnesses *)

Definition sample_config : text := str_bytes "Port = 22".

Lemma line_col_spec_witness :
  line_col (new_source "config" (str_bytes "a" ++ [x0a] ++ str_bytes "bc")) (2 + 1) = (2, 2).
Proof.
  refine (line_col_spec "config" (str_bytes "a" ++ [x0a]) (str_bytes "b") (str_bytes "c") _ _).
  - apply not_eol_no_newline. reflexivity.
  - right. exists (str_bytes "a"). reflexivity.
Defined.

Lemma locations_refer_witness :
  let sf := new_source "config" sample_config in
  ∃ d, parse sf = [EDirective d] ∧ refers sf (directive_keyword d) ∧
    map (bytes_str ∘ value) (tokenize (directive_arguments d)) = ["22"].
Proof.
  intros sf. unfold sf.
  destruct (parse (new_source "config" sample_config)) as [|[l|s|d|s] [|? ?]] eqn:Hp;
    try (vm_compute in Hp; discriminate Hp).
  exists d. split; [reflexivity|]. split.
  - assert (EDirective d ∈ parse (new_source "config" sample_config)) as Hd
      by (rewrite Hp; left).
    destruct (locations_refer "config" sample_config _ Hd) as [Hk _]. exact Hk.
  - vm_compute in Hp. injection Hp as <-. vm_compute. reflexivity.
Defined.

Lemma written_directive_read_witness :
  ∃ d, parse (new_source "config" (str_bytes "Host" ++ [x20] ++
                quoted_args [str_bytes "a b"; []; str_bytes "c"])) = [EDirective d] ∧
       value (directive_keyword d) = str_bytes "Host" ∧
       map value (tokenize (directive_arguments d)) = [str_bytes "a b"; []; str_bytes "c"].
Proof.
  refine (written_directive_read "config" x48 (str_bytes "ost") [str_bytes "a b"; []; str_bytes "c"]
            eq_refl eq_refl _ _).
  - discriminate.
  - repeat constructor; try reflexivity; apply no_quote_spec; reflexivity.
Defined.

Lemma directive_forms_witness :
  ∃ s1 s2, parse_raw (str_bytes "  Port = 22 ") =
    [RDirective (MkRawDirective (MkSpanned (str_bytes "Port") s1) (MkSpanned (str_bytes "22") s2))].
Proof.
  exact (proj1 (directive_forms x50 x32 x32 (str_bytes "ort") (str_bytes "  ") (str_bytes " ")
    (str_bytes " ") (str_bytes " ") (str_bytes "22") (str_bytes "2")
    eq_refl eq_refl eq_refl eq_refl eq_refl eq_refl eq_refl eq_refl)).
Defined.
