(* ===== verification/Directives.v ===== *)
(** * Typed arguments of the configuration directives

    [src/src/config/directives.rs]: patterns and their matching, the argument
    counts and integers, [Host], [Match] and the other argument types. *)
From Stdlib Require Import ZArith Lia Strings.Byte Arith.Wf_nat.
From stdpp Require Import base list strings gmap fin_maps relations.
From S2P Require Import Prelude Text Peg Config.
Local Open Scope Z_scope.
Local Open Scope result_scope.

(** ** Patterns *)

Record Pattern := MkPattern { pat_negated : bool; pat_value : text }.

(** [glob_match] recurses on a shorter pattern or a shorter text; the fuel
    bounds the sum of both. *)
Fixpoint glob_match_fuel (fuel : nat) (pat txt : text) : bool :=
  match fuel with
  | O => false
  | S fuel =>
    match pat, txt with
    | [], [] => true
    | p :: pat', _ =>
      if byte_in 42 42 p then
        glob_match_fuel fuel pat' txt ||
        match txt with [] => false | _ :: txt' => glob_match_fuel fuel pat txt' end
      else
        match txt with
        | [] => false
        | t :: txt' =>
          if byte_in 63 63 p then glob_match_fuel fuel pat' txt'
          else if eq_ignore_ascii_case p t then glob_match_fuel fuel pat' txt'
          else false
        end
    | [], _ :: _ => false
    end
  end.
Definition glob_match (pat txt : text) : bool :=
  glob_match_fuel (S (length pat + length txt)) pat txt.

Definition matches (self : Pattern) (t : text) : bool :=
  let m := glob_match (pat_value self) t in
  if pat_negated self then negb m else m.
Definition glob_matches (self : Pattern) (t : text) : bool := glob_match (pat_value self) t.

Definition bang : text := [x21].
Definition strip_bang (s : text) : bool * text :=
  match strip_prefix bang s with Some rest => (true, rest) | None => (false, s) end.

Definition parse_pattern (token : Located text) : Located Pattern :=
  let '(negated, v) := strip_bang (value token) in
  with_value token (MkPattern negated v).
Definition parse_pattern_list (token : Located text) : list (Located Pattern) :=
  map parse_pattern (split_comma token).

(** ** Errors *)

Record ArgumentCountError := MkArgumentCountError { ac_expected : string; ac_actual : Z }.

Inductive ParseIntegerArgError :=
| WrongArgumentCount (actual : Z)
| InvalidValue (source : ParseIntError).

Record ParseRemoteForwardArgsError := MkParseRemoteForwardArgsError { rf_actual : Z }.

Inductive ParseMatchArgsError :=
| MatchEmpty
| UnknownCriterion (keyword : text)
| MissingArgument (keyword : text)
| InvalidAllPlacement.

(** ** Helpers *)

Definition count {A} (l : list A) : Z := Z.of_nat (length l).

Definition tokenize_single (args : Located text)
    : result (Located text) (Located ArgumentCountError) :=
  let tokens := tokenize args in
  match tokens with
  | [t] => Ok t
  | _ => Err (with_value args (MkArgumentCountError "exactly 1" (count tokens)))
  end.

Definition tokenize_pair (args : Located text)
    : result (Located text * Located text) (Located ArgumentCountError) :=
  let tokens := tokenize args in
  match tokens with
  | [first; second] => Ok (first, second)
  | _ => Err (with_value args (MkArgumentCountError "exactly 2" (count tokens)))
  end.

Definition tokenize_at_least_one (args : Located text)
    : result (list (Located text)) (Located ArgumentCountError) :=
  match tokenize args with
  | [] => Err (with_value args (MkArgumentCountError "at least 1" 0))
  | tokens => Ok tokens
  end.

(** For an unsigned type with maximum [max]. *)
Definition parse_single_integer (max : Z) (args : Located text)
    : result (Located Z) (Located ParseIntegerArgError) :=
  let tokens := tokenize args in
  match tokens with
  | [token] =>
    match parse_unsigned max (value token) with
    | Ok v => Ok (with_value token v)
    | Err source => Err (with_value token (InvalidValue source))
    | Panic => Panic
    end
  | _ => Err (with_value args (WrongArgumentCount (count tokens)))
  end.

(** ** [Host] *)

Record HostArgs := MkHostArgs { host_patterns : list (Located Pattern) }.
#[export] Instance HostArgs_parse : ParseArguments HostArgs ArgumentCountError := λ args,
  let? tokens := tokenize_at_least_one args in
  Ok (with_value args (MkHostArgs (map parse_pattern tokens))).

(** ** [Match] *)

Inductive MatchCriterion :=
| All
| Canonical
| Final
| Exec (command : Located text)
| Host (patterns : list (Located Pattern))
| OriginalHost (patterns : list (Located Pattern))
| User (patterns : list (Located Pattern))
| LocalUser (patterns : list (Located Pattern))
| LocalNetwork (networks : list (Located text))
| Tagged (patterns : list (Located Pattern))
| Command (patterns : list (Located Pattern))
| Version (patterns : list (Located Pattern))
| SessionType (patterns : list (Located Pattern)).

Record MatchEntry := MkMatchEntry { me_negated : bool; me_criterion : MatchCriterion }.
Record MatchArgs := MkMatchArgs { match_entries : list (Located MatchEntry) }.

(** The criteria with an argument, by their keyword in lower case. *)
Definition criterion_with_argument (kw : text) : option (Located text → MatchCriterion) :=
  let kw_is (s : string) := bool_decide (kw = str_bytes s) in
  if kw_is "exec" then Some Exec
  else if kw_is "localnetwork" then Some (λ arg, LocalNetwork (split_comma arg))
  else if kw_is "host" then Some (λ arg, Host (parse_pattern_list arg))
  else if kw_is "originalhost" then Some (λ arg, OriginalHost (parse_pattern_list arg))
  else if kw_is "user" then Some (λ arg, User (parse_pattern_list arg))
  else if kw_is "localuser" then Some (λ arg, LocalUser (parse_pattern_list arg))
  else if kw_is "tagged" then Some (λ arg, Tagged (parse_pattern_list arg))
  else if kw_is "command" then Some (λ arg, Command (parse_pattern_list arg))
  else if kw_is "version" then Some (λ arg, Version (parse_pattern_list arg))
  else if kw_is "sessiontype" then Some (λ arg, SessionType (parse_pattern_list arg))
  else None.

Definition criterion_alone (kw : text) : option MatchCriterion :=
  let kw_is (s : string) := bool_decide (kw = str_bytes s) in
  if kw_is "all" then Some All
  else if kw_is "canonical" then Some Canonical
  else if kw_is "final" then Some Final
  else None.

(** The loop over the tokens: [tokens] are those from index [i] on. *)
Fixpoint match_loop (tokens : list (Located text))
    : result (list (Located MatchEntry)) (Located ParseMatchArgsError) :=
  match tokens with
  | [] => Ok []
  | kw_token :: tokens =>
    let '(negated, keyword) := strip_bang (value kw_token) in
    let kw_lower := to_ascii_lowercase keyword in
    match criterion_alone kw_lower with
    | Some criterion =>
      let? entries := match_loop tokens in
      Ok (with_value kw_token (MkMatchEntry negated criterion) :: entries)
    | None =>
      match criterion_with_argument kw_lower with
      | Some criterion =>
        match tokens with
        | [] => Err (with_value kw_token (MissingArgument kw_lower))
        | arg :: tokens =>
          let? entries := match_loop tokens in
          Ok (with_value kw_token (MkMatchEntry negated (criterion arg)) :: entries)
        end
      | None => Err (with_value kw_token (UnknownCriterion keyword))
      end
    end
  end.

Definition is_all (e : Located MatchEntry) : bool :=
  match me_criterion (value e) with All => true | _ => false end.
Definition is_canonical_or_final (e : Located MatchEntry) : bool :=
  match me_criterion (value e) with Canonical | Final => true | _ => false end.

(** The check of the placement of the first [all]: what comes before it. *)
Fixpoint check_all_placement (before : list (Located MatchEntry)) (entries : list (Located MatchEntry))
    : result () (Located ParseMatchArgsError) :=
  match entries with
  | [] => Ok ()
  | e :: entries =>
    if is_all e
    then if forallb is_canonical_or_final before then Ok ()
         else Err (with_value e InvalidAllPlacement)
    else check_all_placement (before ++ [e]) entries
  end.

#[export] Instance MatchArgs_parse : ParseArguments MatchArgs ParseMatchArgsError := λ args,
  let tokens := tokenize args in
  match tokens with
  | [] => Err (with_value args MatchEmpty)
  | _ =>
    let? entries := match_loop tokens in
    let? _ := check_all_placement [] entries in
    Ok (with_value args (MkMatchArgs entries))
  end.

(** ** At least one argument *)

Record IncludeArgs := MkIncludeArgs { inc_paths : list (Located text) }.
#[export] Instance IncludeArgs_parse : ParseArguments IncludeArgs ArgumentCountError := λ args,
  let? tokens := tokenize_at_least_one args in Ok (with_value args (MkIncludeArgs tokens)).

Record MultiArg := MkMultiArg { multi_values : list (Located text) }.
#[export] Instance MultiArg_parse : ParseArguments MultiArg ArgumentCountError := λ args,
  let? tokens := tokenize_at_least_one args in Ok (with_value args (MkMultiArg tokens)).

(** ** Exactly one argument *)

Record HostNameArgs := MkHostNameArgs { hn_hostname : Located text }.
#[export] Instance HostNameArgs_parse : ParseArguments HostNameArgs ArgumentCountError := λ args,
  let? hostname := tokenize_single args in Ok (with_value args (MkHostNameArgs hostname)).

Record UserArgs := MkUserArgs { ua_username : Located text }.
#[export] Instance UserArgs_parse : ParseArguments UserArgs ArgumentCountError := λ args,
  let? username := tokenize_single args in Ok (with_value args (MkUserArgs username)).

Record IdentityFileArgs := MkIdentityFileArgs { if_path : Located text }.
#[export] Instance IdentityFileArgs_parse : ParseArguments IdentityFileArgs ArgumentCountError := λ args,
  let? path := tokenize_single args in Ok (with_value args (MkIdentityFileArgs path)).

Record CertificateFileArgs := MkCertificateFileArgs { cf_path : Located text }.
#[export] Instance CertificateFileArgs_parse : ParseArguments CertificateFileArgs ArgumentCountError := λ args,
  let? path := tokenize_single args in Ok (with_value args (MkCertificateFileArgs path)).

Record DynamicForwardArgs := MkDynamicForwardArgs { dfa_bind : Located text }.
#[export] Instance DynamicForwardArgs_parse : ParseArguments DynamicForwardArgs ArgumentCountError := λ args,
  let? bind := tokenize_single args in Ok (with_value args (MkDynamicForwardArgs bind)).

Record ProxyJumpArgs := MkProxyJumpArgs { pj_jumps : list (Located text) }.
#[export] Instance ProxyJumpArgs_parse : ParseArguments ProxyJumpArgs ArgumentCountError := λ args,
  let? token := tokenize_single args in Ok (with_value args (MkProxyJumpArgs (split_comma token))).

Record SingleArg := MkSingleArg { sa_value : Located text }.
#[export] Instance SingleArg_parse : ParseArguments SingleArg ArgumentCountError := λ args,
  let? v := tokenize_single args in Ok (with_value args (MkSingleArg v)).

(** ** Exactly two arguments *)

Record LocalForwardArgs := MkLocalForwardArgs {
  lfa_bind : Located text;
  lfa_destination : Located text;
}.
#[export] Instance LocalForwardArgs_parse : ParseArguments LocalForwardArgs ArgumentCountError := λ args,
  let? p := tokenize_pair args in Ok (with_value args (MkLocalForwardArgs p.1 p.2)).

(** ** Integers *)

Record PortArgs := MkPortArgs { pa_port : Located Z }.
#[export] Instance PortArgs_parse : ParseArguments PortArgs ParseIntegerArgError := λ args,
  let? port := parse_single_integer U16_MAX args in Ok (with_value args (MkPortArgs port)).

Record ServerAliveIntervalArgs := MkServerAliveIntervalArgs { sai_seconds : Located Z }.
#[export] Instance ServerAliveIntervalArgs_parse
  : ParseArguments ServerAliveIntervalArgs ParseIntegerArgError := λ args,
  let? seconds := parse_single_integer U32_MAX args in
  Ok (with_value args (MkServerAliveIntervalArgs seconds)).

Record ServerAliveCountMaxArgs := MkServerAliveCountMaxArgs { sac_count : Located Z }.
#[export] Instance ServerAliveCountMaxArgs_parse
  : ParseArguments ServerAliveCountMaxArgs ParseIntegerArgError := λ args,
  let? n := parse_single_integer U32_MAX args in Ok (with_value args (MkServerAliveCountMaxArgs n)).

Record ConnectTimeoutArgs := MkConnectTimeoutArgs { ct_seconds : Located Z }.
#[export] Instance ConnectTimeoutArgs_parse
  : ParseArguments ConnectTimeoutArgs ParseIntegerArgError := λ args,
  let? seconds := parse_single_integer U32_MAX args in Ok (with_value args (MkConnectTimeoutArgs seconds)).

Record ConnectionAttemptsArgs := MkConnectionAttemptsArgs { ca_count : Located Z }.
#[export] Instance ConnectionAttemptsArgs_parse
  : ParseArguments ConnectionAttemptsArgs ParseIntegerArgError := λ args,
  let? n := parse_single_integer U32_MAX args in Ok (with_value args (MkConnectionAttemptsArgs n)).

(** ** One or two arguments *)

Record RemoteForwardArgs := MkRemoteForwardArgs {
  rfa_bind : Located text;
  rfa_destination : option (Located text);
}.
#[export] Instance RemoteForwardArgs_parse
  : ParseArguments RemoteForwardArgs ParseRemoteForwardArgsError := λ args,
  let tokens := tokenize args in
  match tokens with
  | [bind] => Ok (with_value args (MkRemoteForwardArgs bind None))
  | [bind; destination] => Ok (with_value args (MkRemoteForwardArgs bind (Some destination)))
  | _ => Err (with_value args (MkParseRemoteForwardArgsError (count tokens)))
  end.
