(* ===== verification/DirectivesProps.v ===== *)
(** * What the typed arguments guarantee

    Glob matching against its relational reading, integers within their type,
    and the criteria of [Match]. *)
From Stdlib Require Import ZArith Lia Strings.Byte Arith.Wf_nat.
From stdpp Require Import base list strings gmap fin_maps relations.
From S2P Require Import Prelude Text Characters Peg Config ConfigTokens Directives.
Local Open Scope Z_scope.
Local Open Scope result_scope.

(** ** Globs *)

Inductive Glob : text → text → Prop :=
| glob_end : Glob [] []
| glob_star u p t : Glob p t → Glob (x2a :: p) (u ++ t)
| glob_any b p t : Glob p t → Glob (x3f :: p) (b :: t)
| glob_char a b p t :
    a ≠ x2a → a ≠ x3f → ascii_lowercase a = ascii_lowercase b → Glob p t → Glob (a :: p) (b :: t).

Lemma glob_star_step p t b : Glob (x2a :: p) t → Glob (x2a :: p) (b :: t).
Proof. inversion 1; subst; [|done]. by apply (glob_star (b :: u)). Qed.

Lemma glob_match_fuel_spec n p t :
  (length p + length t < n)%nat → glob_match_fuel n p t = true ↔ Glob p t.
Proof.
  revert p t. induction n as [|n IH]; intros p t Hn; [lia|]. cbn [glob_match_fuel].
  destruct p as [|a p].
  { destruct t; split; try done; [constructor|by inversion 1]. }
  simpl in Hn. destruct (byte_in 42 42 a) eqn:Ha.
  { apply (byte_in_single a x2a) in Ha as ->. rewrite orb_true_iff, (IH p t) by lia. split.
    - intros [H|H]; [by apply (glob_star [])|]. destruct t as [|b t]; [done|].
      simpl in Hn. apply IH in H; [|simpl; lia]. by apply glob_star_step.
    - inversion 1 as [|u p' t' Hg| |]; subst; [|done]. destruct u as [|b u]; [by left|].
      right. simpl in *. apply IH; [simpl; lia|]. by apply glob_star. }
  assert (a ≠ x2a) as Ha' by (intros ->; done).
  destruct t as [|b t]; [split; [done|inversion 1; by subst]|]. simpl in Hn.
  destruct (byte_in 63 63 a) eqn:Hq.
  { apply (byte_in_single a x3f) in Hq as ->. rewrite IH by lia.
    split; [by constructor|inversion 1; by subst]. }
  assert (a ≠ x3f) as Hq' by (intros ->; done).
  unfold eq_ignore_ascii_case. case_bool_decide as Hc.
  - rewrite IH by lia. split; [by constructor|inversion 1; by subst].
  - split; [done|inversion 1; by subst].
Qed.

(** The documented reading: a sequence of characters against one. *)
Inductive GlobChars : list text → list text → Prop :=
| chars_end : GlobChars [] []
| chars_star u p t : GlobChars p t → GlobChars ([x2a] :: p) (u ++ t)
| chars_any c p t : GlobChars p t → GlobChars ([x3f] :: p) (c :: t)
| chars_char a b p t :
    a ≠ [x2a] → a ≠ [x3f] → to_ascii_lowercase a = to_ascii_lowercase b → GlobChars p t →
    GlobChars (a :: p) (b :: t).

Lemma chars_star_step p t c : GlobChars ([x2a] :: p) t → GlobChars ([x2a] :: p) (c :: t).
Proof. inversion 1; subst; [|done]. by apply (chars_star (c :: u)). Qed.

(** The rest of a character, against the rest of another. *)
Lemma glob_rest_inv ks bs p t :
  Forall (λ k, utf8_cont k = true) ks → length bs = length ks → Glob (ks ++ p) (bs ++ t) →
  to_ascii_lowercase ks = to_ascii_lowercase bs ∧ Glob p t.
Proof.
  intros Hks. revert bs. induction Hks as [|k ks Hk Hks IH]; intros [|b bs] Hl Hg; try done.
  apply cont_lowercase in Hk as (_ & Hs & Hq). cbn [app] in Hg. inversion Hg; subst; [done..|].
  destruct (IH bs) as [Hm ?]; [by injection Hl|done|]. split; [|done].
  unfold to_ascii_lowercase in *. simpl. congruence.
Qed.
Lemma glob_rest ks bs p t :
  Forall (λ k, utf8_cont k = true) ks → to_ascii_lowercase ks = to_ascii_lowercase bs → Glob p t →
  Glob (ks ++ p) (bs ++ t).
Proof.
  intros Hks. revert bs. induction Hks as [|k ks Hk Hks IH]; intros [|b bs] Hl Hg; try done.
  apply cont_lowercase in Hk as (_ & Hs & Hq). unfold to_ascii_lowercase in *. simplify_eq/=.
  apply glob_char; auto.
Qed.

(** Where a question mark is one character: there is none, or all the characters
    are of one byte. *)
Definition one_byte (ps ts : list text) : Prop :=
  [x3f] ∉ ps ∨ Forall (λ c, length c = 1%nat) ts.

Lemma glob_of_chars ps ts :
  Forall char_ok ps → one_byte ps ts → GlobChars ps ts → Glob (concat ps) (concat ts).
Proof.
  intros Hps Hone Hg. induction Hg as [|u p t Hg IH|c p t Hg IH|a b p t Hs Hq Hl Hg IH]; [constructor| | |].
  - rewrite concat_app. apply glob_star, IH; [by inversion Hps|].
    destruct Hone as [Hn|Hn]; [left; set_solver|right]. by apply Forall_app in Hn as [_ ?].
  - destruct Hone as [Hn|Hn]; [set_solver|]. inversion Hn as [|? ? Hc Ht]; subst.
    destruct c as [|b [|]]; try done. apply glob_any, IH; [by inversion Hps|by right].
  - inversion Hps as [|? ? Ha Hp]; subst. destruct a as [|a ks]; [done|].
    destruct b as [|b bs]; [done|]. destruct Ha as (_ & Hlen & Hks).
    unfold to_ascii_lowercase in Hl. simplify_eq/=.
    apply glob_char; [intros ->; apply Hs|intros ->; apply Hq|done|].
    + by destruct ks.
    + by destruct ks.
    + apply glob_rest; [done|done|]. apply IH; [done|].
      destruct Hone as [Hn|Hn]; [left; set_solver|right; by inversion Hn].
Qed.

(** From inside a character, whose rest is [k], only a star goes on. *)
Lemma chars_of_glob n ps ts k :
  (length (concat ps) + length k + length (concat ts) < n)%nat →
  Forall char_ok ps → Forall char_ok ts → Forall (λ b, utf8_cont b = true) k →
  [x3f] ∉ ps ∨ k = [] ∧ Forall (λ c, length c = 1%nat) ts →
  Glob (concat ps) (k ++ concat ts) → GlobChars ps ts ∧ (k ≠ [] → head ps = Some [x2a]).
Proof.
  revert ps ts k. induction n as [|n IH]; intros ps ts k Hn Hps Hts Hk Hone Hg; [lia|].
  destruct Hps as [|[|a ks] ps Ha Hps]; [|done|].
  { inversion Hg as [Hnil| | |]. destruct k as [|]; [|done]. split; [|done].
    destruct Hts as [|[|] ts Hc Hts]; [constructor|done..]. }
  cbn [concat app] in Hg, Hn. destruct Ha as (Ha & Hlen & Hks).
  destruct (decide (a = x2a)) as [->|Hs]; [|destruct (decide (a = x3f)) as [->|Hq]].
  - destruct ks; [|done]. split; [|done].
    assert (∃ u t, u ++ t = k ++ concat ts ∧ Glob (concat ps) t) as (u & t & Heq & Hp)
      by (inversion Hg; subst; [by eauto|done]).
    destruct u as [|b u]; cbn [app] in Heq.
    { subst t. apply (chars_star []). apply (IH ps ts k); try done; [simpl in Hn; lia|].
      destruct Hone; [left; set_solver|by right]. }
    assert (Glob (concat ([x2a] :: ps)) (u ++ t)) as Hrest by by apply (glob_star u).
    assert (Forall char_ok ([x2a] :: ps)) as Hps' by by constructor.
    destruct k as [|b' k]; cbn [app] in Heq.
    + destruct Hts as [|[|b' bs] ts Hc Hts]; [done|done|]. cbn [concat app] in Heq, Hn.
      injection Heq as -> Heq. rewrite Heq in Hrest. apply chars_star_step.
      apply (IH ([x2a] :: ps) ts bs); try done.
      * cbn [concat app length] in *. rewrite length_app in Hn. lia.
      * by destruct Hc as (_ & _ & ?).
      * destruct Hone as [|[_ Hone]]; [by left|right]. apply Forall_cons in Hone as [Hb ?].
        by destruct bs.
    + injection Heq as -> Heq. rewrite Heq in Hrest.
      apply (IH ([x2a] :: ps) ts k); try done.
      * cbn [concat app length] in *. lia.
      * by inversion Hk.
      * destruct Hone as [|[? _]]; [by left|done].
  - destruct ks; [|done]. destruct Hone as [Hone|[-> Hone]]; [set_solver|]. split; [|done].
    destruct Hts as [|[|b bs] ts Hc Hts]; [by inversion Hg|done|].
    inversion Hone as [|? ? Hb Hone']; subst. destruct bs; [|done].
    inversion Hg as [| |b' p t Hp|]; subst; [|done]. apply chars_any.
    apply (IH ps ts []); try done; [simpl in *; lia|by right].
  - inversion Hg as [| | |a' b p t _ _ Hl Hp Heq1 Heq2]; subst; [done..|].
    destruct k as [|b' k]; cbn [app] in Heq2.
    2:{ simplify_eq. inversion Hk as [|? ? Hb]; subst. exfalso.
        rewrite <- lowercase_cont, Hl, lowercase_cont in Ha. congruence. }
    destruct Hts as [|[|b' bs] ts Hc Hts]; [done|done|]. simplify_eq/=. split; [|done].
    destruct Hc as (_ & Hlen' & _).
    rewrite <- lowercase_tail, Hl, lowercase_tail, <- Hlen' in Hlen.
    destruct (glob_rest_inv ks bs (concat ps) (concat ts) Hks (eq_sym Hlen) Hp) as [Hm Hp'].
    apply chars_char; [congruence|congruence| |].
    + unfold to_ascii_lowercase in *. simpl. congruence.
    + apply (IH ps ts []); try done; [rewrite !length_app in Hn; simpl in *; lia|].
      destruct Hone as [|[_ Hone]]; [left; set_solver|right]. by inversion Hone.
Qed.

(** C37: Glob matching. [glob_match] accepts exactly the texts of the pattern:
    [*] stands for any bytes, [?] for one byte, any other byte for itself
    whatever the case of an ASCII letter, and a negated pattern matches the other
    texts. On well-formed texts this is the documented reading, [*] for zero or
    more characters and [?] for exactly one, whenever the pattern has no [?] or
    the text is ASCII; on other texts a [?] is one byte of a character, which
    contradicts the documentation. *)
Theorem glob_match_spec (p : Pattern) (t : text) :
  (glob_matches p t = true ↔ Glob (pat_value p) t) ∧
  (matches p t = true ↔ if pat_negated p then ¬ Glob (pat_value p) t else Glob (pat_value p) t) ∧
  (utf8_valid (pat_value p) = true → utf8_valid t = true →
   x3f ∉ pat_value p ∨ forallb (byte_in 0 127) t = true →
   glob_matches p t = true ↔ GlobChars (characters (pat_value p)) (characters t)).
Proof.
  pose proof (glob_match_fuel_spec (S (length (pat_value p) + length t)) (pat_value p) t
                ltac:(lia)) as Hg.
  split; [exact Hg|]. split.
  { unfold matches, glob_match. destruct (pat_negated p); [|exact Hg]. rewrite <- Hg.
    destruct (glob_match_fuel _ _ _); naive_solver. }
  intros Hp Ht Hone. transitivity (Glob (pat_value p) t); [exact Hg|].
  destruct (utf8_valid_characters _ Hp) as [Hps Hpc], (utf8_valid_characters _ Ht) as [Hts Htc].
  assert (one_byte (characters (pat_value p)) (characters t)) as Hone'.
  { destruct Hone as [Hn|Ha]; [left|right].
    - intros Hin. apply Hn. rewrite <- Hpc. apply list_elem_of_In, in_concat. exists [x3f].
      split; [by apply list_elem_of_In|by left].
    - apply ascii_characters; [done|]. by rewrite Htc. }
  rewrite <- Hpc at 1. rewrite <- Htc at 1. split; [|by apply glob_of_chars].
  intros Hglob. apply (chars_of_glob _ _ _ [] (Nat.lt_succ_diag_r _)); try done.
  by destruct Hone'; [left|right].
Qed.

(** [?] matches a byte, not a character: it does not match a letter
    that UTF-8 writes in two bytes, two of them do. *)
Theorem glob_question_is_a_byte :
  let e_acute := [xc3; xa9] in
  utf8_valid e_acute = true ∧ glob_match (str_bytes "?") e_acute = false ∧
  glob_match (str_bytes "??") e_acute = true.
Proof. vm_compute. by split_and!. Qed.

(** ** Integers *)

(** Integer arguments. With maximum [max], [parse_single_integer] returns
    the number a single decimal token denotes when it fits, and reports an
    overflow at that token when it does not; with no token or several it
    reports their number at the arguments; it never panics and never returns a
    number out of range. *)
Theorem integer_argument (max : Z) (args : Located text) :
  0 ≤ max →
  (∀ t n, tokenize args = [t] → value t = dec n → 0 ≤ n < 10 ^ 20 →
     parse_single_integer max args =
     if max <? n then Err (with_value t (InvalidValue PosOverflow)) else Ok (with_value t n)) ∧
  (length (tokenize args) ≠ 1%nat →
     parse_single_integer max args =
     Err (with_value args (WrongArgumentCount (count (tokenize args))))) ∧
  parse_single_integer max args ≠ Panic ∧
  (∀ v, parse_single_integer max args = Ok v → 0 ≤ value v ≤ max ∧
     ∃ t, tokenize args = [t] ∧ location_of v = location_of t).
Proof.
  intros Hm. unfold parse_single_integer. split_and!.
  - intros t n -> Hv Hn. rewrite Hv, parse_unsigned_dec_value by done. by destruct (max <? n).
  - destruct (tokenize args) as [|t [|? ?]]; done.
  - destruct (tokenize args) as [|t [|? ?]]; try done.
    pose proof (parse_unsigned_no_panic max (value t)). by destruct (parse_unsigned _ _).
  - intros v. destruct (tokenize args) as [|t [|? ?]]; try done.
    destruct (parse_unsigned max (value t)) as [n|e|] eqn:Hp; try done.
    intros. simplify_eq. split; [by eapply parse_unsigned_bounds|by exists t].
Qed.

(** ** [Match] *)

(** A criterion as it is written: negated or not, its keyword in any case, and
    the argument of a keyword that has one. *)
Record Written := MkWritten { w_negated : bool; w_keyword : text; w_argument : option text }.

Definition written_words (w : Written) : list text :=
  ((if w_negated w then bang else []) ++ w_keyword w) ::
  match w_argument w with Some a => [a] | None => [] end.

(** The keyword is that of a criterion with or without an argument, and has no
    [!] of its own. *)
Definition written_ok (w : Written) : Prop :=
  match w_argument w with
  | None => is_Some (criterion_alone (to_ascii_lowercase (w_keyword w)))
  | Some _ => is_Some (criterion_with_argument (to_ascii_lowercase (w_keyword w)))
  end.

(** What is read for it. *)
Definition entry_of (w : Written) (e : Located MatchEntry) : Prop :=
  let kw := to_ascii_lowercase (w_keyword w) in
  me_negated (value e) = w_negated w ∧
  match w_argument w with
  | None => criterion_alone kw = Some (me_criterion (value e))
  | Some a => ∃ arg f, value arg = a ∧ criterion_with_argument kw = Some f ∧
                       me_criterion (value e) = f arg
  end.

(** Before the first [all] there is only [canonical] and [final]. *)
Definition all_placed (es : list (Located MatchEntry)) : Prop :=
  ∀ before e after, es = before ++ e :: after → is_all e = true →
    forallb (negb ∘ is_all) before = true → forallb is_canonical_or_final before = true.

Lemma check_all_placement_spec before es :
  forallb (negb ∘ is_all) before = true →
  (check_all_placement before es = Ok () ∧ all_placed (before ++ es)) ∨
  (∃ e, check_all_placement before es = Err (with_value e InvalidAllPlacement) ∧ e ∈ es ∧
        is_all e = true ∧ ¬ all_placed (before ++ es)).
Proof.
  revert before. induction es as [|e es IH]; intros before Hb; cbn [check_all_placement].
  - left. split; [done|]. rewrite app_nil_r. intros b e a -> He _.
    rewrite forallb_app in Hb. simpl in Hb. rewrite He, andb_false_r in Hb. done.
  - destruct (is_all e) eqn:He.
    + destruct (forallb is_canonical_or_final before) eqn:Hc.
      * left. split; [done|]. intros b e' a Heq He' Hb'.
        assert (b = before) as ->; [|done].
        revert b Heq Hb'. clear -Hb He He'. revert Hb. induction before as [|x before IH]; intros Hb [|y b]; simpl;
          intros Heq Hb'; simplify_eq/=; [done|by rewrite He in Hb'|by rewrite He' in Hb|].
        apply andb_prop in Hb as [_ Hb], Hb' as [_ Hb']. f_equal. by apply IH.
      * right. exists e. split_and!; [done|left|done|]. intros Hp.
        specialize (Hp before e es eq_refl He Hb). congruence.
    + destruct (IH (before ++ [e])) as [[Hok Hp]|(e' & Herr & Hin & Hall & Hp)].
      * rewrite forallb_app. simpl. by rewrite Hb, He.
      * left. split; [done|]. by rewrite <- (assoc_L (++)) in Hp.
      * right. exists e'. split_and!; [done|by right|done|]. by rewrite <- (assoc_L (++)) in Hp.
Qed.

Lemma keyword_no_bang (k : text) :
  is_Some (criterion_alone (to_ascii_lowercase k)) ∨
  is_Some (criterion_with_argument (to_ascii_lowercase k)) →
  strip_prefix bang k = None.
Proof.
  destruct k as [|a k]; [done|]. simpl. case_bool_decide as Ha; [|done]. subst a.
  cbn [to_ascii_lowercase map]. change (ascii_lowercase x21) with x21.
  unfold criterion_alone, criterion_with_argument. rewrite !bool_decide_eq_false_2 by done.
  by intros [[]|[]].
Qed.

Lemma strip_bang_word (n : bool) (k : text) :
  strip_prefix bang k = None → strip_bang ((if n then bang else []) ++ k) = (n, k).
Proof. intros Hk. destruct n; unfold strip_bang; cbn [app]; [done|]. by rewrite Hk. Qed.

Lemma criterion_alone_not_both kw :
  is_Some (criterion_with_argument kw) → criterion_alone kw = None.
Proof.
  unfold criterion_alone, criterion_with_argument. intros Hs.
  repeat (case_bool_decide; [subst kw; vm_compute in Hs; by destruct Hs|]). done.
Qed.

Lemma match_loop_written ws tokens :
  Forall written_ok ws → map value tokens = concat (map written_words ws) →
  ∃ es, match_loop tokens = Ok es ∧ Forall2 entry_of ws es.
Proof.
  intros Hws. revert tokens. induction Hws as [|w ws Hw _ IH]; intros tokens Ht.
  { apply map_eq_nil in Ht as ->. exists []. split; [done|constructor]. }
  destruct w as [n k [a|]]; unfold written_ok in Hw;
    cbn [w_argument w_keyword] in Hw;
    cbn [map concat written_words w_argument w_keyword w_negated app] in Ht.
  - destruct tokens as [|kt [|arg tokens]]; [discriminate Ht..|]. injection Ht as Hkw Harg Ht.
    destruct (IH tokens Ht) as (es & He & Hes). cbn [match_loop].
    rewrite Hkw, strip_bang_word by (apply keyword_no_bang; by right).
    rewrite criterion_alone_not_both by done. destruct Hw as [f Hf]. rewrite Hf, He. cbn [and_then].
    eexists. split; [done|]. constructor; [|done]. split; [done|]. cbn. by exists arg, f.
  - destruct tokens as [|kt tokens]; [discriminate Ht|]. injection Ht as Hkw Ht.
    destruct (IH tokens Ht) as (es & He & Hes). cbn [match_loop].
    rewrite Hkw, strip_bang_word by (apply keyword_no_bang; by left).
    destruct Hw as [c Hc]. rewrite Hc, He. cbn [and_then].
    eexists. split; [done|]. by constructor.
Qed.

(** [Match] reads what is written. Criteria written one after the other,
    quoted, in any case, negated by [!], are read as the same criteria in the
    same order, each keyword that takes an argument with the next token; the
    only further condition is the placement of the first [all], and its
    violation is reported at that [all]. *)
Theorem match_reads_written (ws : list Written) (l : Location) :
  ws ≠ [] → Forall written_ok ws → Forall (λ a, x22 ∉ a) (concat (map written_words ws)) →
  let args := MkLocated (quoted_args (concat (map written_words ws))) l in
  ∃ es, Forall2 entry_of ws es ∧
    (all_placed es → parse_arguments args = Ok (with_value args (MkMatchArgs es))) ∧
    (¬ all_placed es → ∃ e, e ∈ es ∧ is_all e = true ∧
       MatchArgs_parse args = Err (with_value e InvalidAllPlacement)).
Proof.
  intros Hne Hok Hq args.
  assert (map value (tokenize args) = concat (map written_words ws)) as Ht
    by (by apply quoted_args_values).
  destruct (match_loop_written ws _ Hok Ht) as (es & He & Hes). exists es. split; [done|].
  assert (MatchArgs_parse args =
          let? _ := check_all_placement [] es in Ok (with_value args (MkMatchArgs es))) as Hparse.
  { unfold MatchArgs_parse. rewrite He. destruct (tokenize args) as [|t ts]; [|done].
    destruct ws as [|[? ? [?|]] ws]; done. }
  unfold parse_arguments. rewrite Hparse.
  destruct (check_all_placement_spec [] es eq_refl) as [[-> Hp]|(e & -> & Hin & Hall & Hp)].
  - split; [done|]. by intros [].
  - split; [by intros ?%Hp|]. intros _. by exists e.
Qed.

(** [all] need not be alone: it is only checked against what comes
    before it, so that criteria after it are accepted. *)
Theorem match_all_followed (l : Location) :
  ∃ es, MatchArgs_parse (MkLocated (str_bytes "all host example") l) =
          Ok (MkLocated (MkMatchArgs es) l) ∧
        map is_all es = [true; false].
Proof. by eexists. Qed.

(** ** Witnesses *)

Definition sample_location : Location := MkLocation "config" (MkSpan 0 0) 1 1.

Lemma integer_argument_witness :
  let args n := MkLocated (dec n) sample_location in
  (result_ok (parse_single_integer U16_MAX (args 22)) ≫= λ v, Some (value v)) = Some 22 ∧
  ∃ t : Located text, parse_single_integer U16_MAX (args 65536) = Err (with_value t (InvalidValue PosOverflow)).
Proof.
  intros args. assert (0 ≤ U16_MAX) as Hm by (vm_compute; discriminate).
  assert (∀ n, 0 ≤ n < 10 ^ 20 → tokenize (args n) = [part (args n) 0 (dec n)] →
            parse_single_integer U16_MAX (args n) =
            if U16_MAX <? n then Err (with_value (part (args n) 0 (dec n)) (InvalidValue PosOverflow))
            else Ok (with_value (part (args n) 0 (dec n)) n)) as H.
  { intros n Hn Ht. destruct (integer_argument U16_MAX (args n) Hm) as [Hi _].
    exact (Hi _ n Ht eq_refl Hn). }
  split.
  - rewrite H; [reflexivity|lia|reflexivity].
  - eexists. rewrite H; [reflexivity|lia|reflexivity].
Defined.

Definition sample_match : list Written :=
  [MkWritten true (str_bytes "User") (Some (str_bytes "root,!git"));
   MkWritten false (str_bytes "FINAL") None].

Lemma match_reads_written_witness :
  ∃ es, Forall2 entry_of sample_match es ∧ map is_all es = [false; false] ∧
    MatchArgs_parse (MkLocated (quoted_args (concat (map written_words sample_match)))
                       sample_location) =
    Ok (MkLocated (MkMatchArgs es) sample_location).
Proof.
  assert (Forall written_ok sample_match) as Hok.
  { repeat constructor; eexists; vm_compute; reflexivity. }
  assert (Forall (λ a, x22 ∉ a) (concat (map written_words sample_match))) as Hq
    by (repeat constructor; apply no_quote_spec; reflexivity).
  destruct (match_reads_written sample_match sample_location ltac:(discriminate) Hok Hq)
    as (es & Hes & Hp & _).
  exists es. split; [exact Hes|].
  assert (map is_all es = [false; false]) as Hall.
  { destruct es as [|e1 [|e2 [|? ?]]]; try (exfalso; inversion Hes as [|? ? ? ? ? Hes1]; subst;
      inversion Hes1 as [|? ? ? ? ? Hes2]; subst; inversion Hes2; fail).
    inversion Hes as [|? ? ? ? H1 Hes1]; subst. inversion Hes1 as [|? ? ? ? H2 Hes2]; subst.
    destruct H1 as [_ (arg & f & _ & Hf & Hc)]. destruct H2 as [_ H2].
    vm_compute in Hf. injection Hf as <-.
    assert (Some Final = Some (me_criterion (value e2))) as [= H3]
      by (etransitivity; [|exact H2]; vm_compute; reflexivity).
    unfold is_all. cbn [map]. rewrite Hc, <- H3. reflexivity. }
  split; [exact Hall|]. apply Hp. intros before e after Heq He _.
  rewrite Heq in Hall. rewrite map_app in Hall. simpl in Hall. rewrite He in Hall.
  destruct before as [|b1 [|b2 [|b3 before]]]; simplify_eq/=.
Defined.
