(* ===== verification/Wire.v ===== *)
(** * Streams, the varint interface and the encode/decode traits

    What the crate takes from tokio and h3x, as interfaces:
    - [Reader] and [Writer] give every behaviour of an [AsyncRead] or
      [AsyncWrite] that [read_exact], [read_u8], [write_all], [flush] and
      [shutdown] can observe: the bytes that arrive and how the stream ends,
      the bytes accepted before each failing call;
    - [VarIntCodec] is h3x's variable-length integer, a parameter with its
      documented laws [VarIntLaws]; [quic_varint] (RFC 9000, section 16) shows
      the laws can hold;
    - [EncodeInto], [DecodeFrom] are h3x's traits, [WireFormat] what an
      implementation of both promises to the code that sends and receives it. *)
From Stdlib Require Import ZArith Lia Strings.Byte.
From stdpp Require Import base list strings gmap fin_maps relations.
From S2P Require Import Prelude.
Local Open Scope Z_scope.
Local Open Scope io_scope.

(** [std::io::ErrorKind]; the enumeration is not exhaustive. *)
Inductive ErrorKind :=
| NotFound | PermissionDenied | ConnectionRefused | ConnectionReset
| HostUnreachable | NetworkUnreachable | ConnectionAborted | NotConnected
| AddrInUse | AddrNotAvailable | NetworkDown | BrokenPipe | AlreadyExists
| WouldBlock | InvalidInput | InvalidData | TimedOut | WriteZero | Interrupted
| Unsupported | UnexpectedEof | OutOfMemory | OtherKind (code : Z).

#[export] Instance ErrorKind_eq_dec : EqDecision ErrorKind.
Proof. solve_decision. Defined.

(** ** Readers *)

(** The bytes still to arrive, and what the read after the last one reports:
    end of file ([None]) or an error. *)
Record Reader := MkReader { rd_buf : list byte; rd_end : option ErrorKind }.

Definition rd_extend (r : Reader) (ext : list byte) : Reader :=
  MkReader (rd_buf r ++ ext) (rd_end r).

(** [AsyncReadExt::read_exact] into a buffer of [n] bytes. *)
Definition read_exact (n : Z) : Io Reader ErrorKind (list byte) := λ r,
  if Z.of_nat (length (rd_buf r)) <? n
  then (MkReader [] (rd_end r), Err (default UnexpectedEof (rd_end r)))
  else (MkReader (drop (Z.to_nat n) (rd_buf r)) (rd_end r),
        Ok (take (Z.to_nat n) (rd_buf r))).

(** [AsyncReadExt::read_u8]. *)
Definition read_u8 : Io Reader ErrorKind byte := λ r,
  match rd_buf r with
  | [] => (r, Err (default UnexpectedEof (rd_end r)))
  | b :: bs => (MkReader bs (rd_end r), Ok b)
  end.

(** [AsyncReadExt::read_u16], big-endian. *)
Definition read_u16 : Io Reader ErrorKind Z :=
  let! bs := read_exact 2 in io_ret (be_value bs).

(** One [read] into a buffer of [cap] bytes, [avail] of which the transport has
    ready: an empty read means end of file. *)
Definition read_some (cap avail : Z) : Io Reader ErrorKind (list byte) := λ r,
  match rd_buf r, rd_end r with
  | [], Some e => if cap <=? 0 then (r, Ok []) else (r, Err e)
  | [], None => (r, Ok [])
  | bs, e =>
    let n := Z.to_nat (Z.min cap (Z.max 1 avail)) in
    (MkReader (drop n bs) e, Ok (take n bs))
  end.

(** ** Writers *)

(** The outcome of a call on the transport: it succeeds, or fails after some of
    the bytes were accepted. *)
Inductive WriteOutcome := WDone | WFail (accepted : nat) (e : ErrorKind).

Record Writer := MkWriter {
  wr_out : list byte;             (* bytes accepted so far, in order *)
  wr_flushed : nat;               (* how many of them have been flushed *)
  wr_shutdown : bool;
  wr_plan : list WriteOutcome;    (* outcomes to come; then only successes *)
}.

Definition new_writer : Writer := MkWriter [] 0 false [].

Definition next_outcome (w : Writer) : WriteOutcome * list WriteOutcome :=
  match wr_plan w with [] => (WDone, []) | o :: plan => (o, plan) end.

(** [AsyncWriteExt::write_all]; an empty buffer is not offered to the transport. *)
Definition write_all (bs : list byte) : Io Writer ErrorKind () := λ w,
  match bs with
  | [] => (w, Ok ())
  | _ =>
    let '(o, plan) := next_outcome w in
    match o with
    | WDone => (MkWriter (wr_out w ++ bs) (wr_flushed w) (wr_shutdown w) plan, Ok ())
    | WFail k e =>
      (MkWriter (wr_out w ++ take k bs) (wr_flushed w) (wr_shutdown w) plan, Err e)
    end
  end.

Definition write_u8 (b : byte) : Io Writer ErrorKind () := write_all [b].

(** [AsyncWriteExt::flush]. *)
Definition flush : Io Writer ErrorKind () := λ w,
  let '(o, plan) := next_outcome w in
  match o with
  | WDone => (MkWriter (wr_out w) (length (wr_out w)) (wr_shutdown w) plan, Ok ())
  | WFail _ e => (MkWriter (wr_out w) (wr_flushed w) (wr_shutdown w) plan, Err e)
  end.

(** [AsyncWriteExt::shutdown]. *)
Definition shutdown : Io Writer ErrorKind () := λ w,
  let '(o, plan) := next_outcome w in
  match o with
  | WDone => (MkWriter (wr_out w) (length (wr_out w)) true plan, Ok ())
  | WFail _ e => (MkWriter (wr_out w) (wr_flushed w) (wr_shutdown w) plan, Err e)
  end.

(** ** What an encoder promises *)

(** [writes c bs a]: on a transport that does not fail [c] writes exactly [bs]
    and returns [a]; whatever the transport does, the bytes [c] leaves on it
    are a prefix of [bs], all of [bs] when [c] returns. *)
Record writes {E A} (c : Io Writer E A) (bs : list byte) (a : A) : Prop := {
  writes_ok w : wr_plan w = [] →
    ∃ w', c w = (w', Ok a) ∧ wr_out w' = wr_out w ++ bs ∧ wr_plan w' = [];
  writes_prefix w w' x : c w = (w', x) →
    ∃ p, wr_out w' = wr_out w ++ p ∧ p `prefix_of` bs;
  writes_full w w' a' : c w = (w', Ok a') → wr_out w' = wr_out w ++ bs ∧ a' = a;
  writes_no_panic w w' : c w ≠ (w', Panic);
}.
Arguments writes_ok {E A c bs a}.
Arguments writes_prefix {E A c bs a}.
Arguments writes_full {E A c bs a}.
Arguments writes_no_panic {E A c bs a}.

(** [c] only returns after everything written has been flushed. *)
Definition flushes {E A} (c : Io Writer E A) : Prop :=
  ∀ w w' a, c w = (w', Ok a) → wr_flushed w' = length (wr_out w').

(** ** What a decoder promises *)

Definition reads {E A} (c : Io Reader E A) (bs : list byte) (a : A) : Prop :=
  ∀ rest fin, c (MkReader (bs ++ rest) fin) = (MkReader rest fin, Ok a).

(** A decoder takes bytes off the front of the stream, a successful one does not
    depend on the bytes after those it took, and it never panics. *)
Record decoder {E A} (c : Io Reader E A) : Prop := {
  dec_consumes r r' x : c r = (r', x) →
    rd_end r' = rd_end r ∧ ∃ p, rd_buf r = p ++ rd_buf r';
  dec_local r r' a ext : c r = (r', Ok a) →
    c (rd_extend r ext) = (rd_extend r' ext, Ok a);
  dec_no_panic r r' : c r ≠ (r', Panic);
}.
Arguments dec_consumes {E A c}.
Arguments dec_local {E A c}.
Arguments dec_no_panic {E A c}.

Create HintDb wire discriminated.

Lemma reads_ret {E A} (a : A) : reads (E:=E) (io_ret a) [] a.
Proof. intros rest fin. done. Qed.

Lemma reads_bind {E A B} (c : Io Reader E A) (k : A → Io Reader E B) bs1 bs2 a b :
  reads c bs1 a → reads (k a) bs2 b → reads (io_bind c k) (bs1 ++ bs2) b.
Proof.
  intros Hc Hk rest fin. unfold io_bind. rewrite <- (assoc_L (++)), Hc. apply Hk.
Qed.

(** The last step of a decoder: [k] returns without reading. *)
Lemma reads_bind_last {E A B} (c : Io Reader E A) (k : A → Io Reader E B) bs a b :
  reads c bs a → reads (k a) [] b → reads (io_bind c k) bs b.
Proof.
  intros Hc Hk. rewrite <- (app_nil_r bs). by eapply reads_bind.
Qed.

Lemma reads_map_err {E E' A} (c : Io Reader E A) (f : E → E') bs a :
  reads c bs a → reads (c <?> f) bs a.
Proof. intros Hc rest fin. unfold map_err. by rewrite Hc. Qed.

Lemma decoder_ret {E A} (a : A) : decoder (E:=E) (io_ret a).
Proof.
  split; unfold io_ret; intros; simplify_eq; auto.
  split; [done|]. by exists [].
Qed.

Lemma decoder_fail {E A} (e : E) : decoder (A:=A) (io_fail e).
Proof.
  split; unfold io_fail; intros; simplify_eq; auto.
  split; [done|]. by exists [].
Qed.

Lemma decoder_bind {E A B} (c : Io Reader E A) (k : A → Io Reader E B) :
  decoder c → (∀ a, decoder (k a)) → decoder (io_bind c k).
Proof.
  intros Hc Hk. split; unfold io_bind.
  - intros r r' x H. destruct (c r) as [r1 [a|e|]] eqn:Hr; simplify_eq;
      destruct (dec_consumes Hc _ _ _ Hr) as [He [p Hp]]; eauto.
    destruct (dec_consumes (Hk a) _ _ _ H) as [He' [p' Hp']].
    split; [congruence|]. exists (p ++ p'). by rewrite Hp, Hp', (assoc_L (++)).
  - intros r r' b ext H. destruct (c r) as [r1 [a|e|]] eqn:Hr; simplify_eq.
    rewrite (dec_local Hc _ _ _ ext Hr). by apply (dec_local (Hk a)).
  - intros r r' H. destruct (c r) as [r1 [a|e|]] eqn:Hr; simplify_eq.
    + by apply (dec_no_panic (Hk a)) in H.
    + by apply (dec_no_panic Hc) in Hr.
Qed.

Lemma decoder_map_err {E E' A} (c : Io Reader E A) (f : E → E') :
  decoder c → decoder (c <?> f).
Proof.
  intros Hc. split; unfold map_err.
  - intros r r' x H. destruct (c r) as [r1 y] eqn:Hr. simplify_eq.
    by apply (dec_consumes Hc _ _ _ Hr).
  - intros r r' a ext H. destruct (c r) as [r1 [?|?|]] eqn:Hr; simplify_eq/=.
    by rewrite (dec_local Hc _ _ _ ext Hr).
  - intros r r' H. destruct (c r) as [r1 [?|?|]] eqn:Hr; simplify_eq/=.
    by apply (dec_no_panic Hc) in Hr.
Qed.

(** A message cut short is never accepted: the code of a decoder that reads
    back [bs] is prefix-free. *)
Lemma reads_truncated {E A} (c : Io Reader E A) bs a p fin :
  decoder c → reads c bs a → p `prefix_of` bs → p ≠ bs →
  ∃ r' e, c (MkReader p fin) = (r', Err e).
Proof.
  intros Hc Hr [ext ->] Hne.
  destruct (c (MkReader p fin)) as [r' [a'|e|]] eqn:Hp; [|by eauto|].
  - exfalso. pose proof (dec_local Hc _ _ _ ext Hp) as Hl.
    unfold rd_extend in Hl. simpl in Hl. specialize (Hr [] fin).
    rewrite app_nil_r in Hr. rewrite Hr in Hl. simplify_eq.
    destruct ext; [by rewrite app_nil_r in Hne|].
    by destruct (rd_buf r').
  - by apply (dec_no_panic Hc) in Hp.
Qed.

Lemma decoder_read_exact n : decoder (read_exact n).
Proof.
  split; unfold read_exact.
  - intros r r' x H. case_match; simplify_eq/=; (split; [done|]).
    + exists (rd_buf r). by rewrite app_nil_r.
    + exists (take (Z.to_nat n) (rd_buf r)). by rewrite take_drop.
  - intros r r' a ext H. destruct (Z.ltb_spec (Z.of_nat (length (rd_buf r))) n); simplify_eq/=.
    rewrite length_app.
    destruct (Z.ltb_spec (Z.of_nat (length (rd_buf r) + length ext)) n); [lia|].
    by rewrite take_app_le, drop_app_le by lia.
  - intros r r'. case_match; congruence.
Qed.

Lemma decoder_read_u8 : decoder read_u8.
Proof.
  split; unfold read_u8.
  - intros r r' x H. destruct (rd_buf r) eqn:Hb; simplify_eq/=; (split; [done|]).
    + by exists []; rewrite Hb.
    + by exists [b].
  - intros r r' a ext H. unfold rd_extend. destruct (rd_buf r); by simplify_eq/=.
  - intros r r'. case_match; congruence.
Qed.

Lemma decoder_read_u16 : decoder read_u16.
Proof. apply decoder_bind; [apply decoder_read_exact|]. intros. apply decoder_ret. Qed.

Lemma reads_read_exact n bs : n = Z.of_nat (length bs) → reads (read_exact n) bs bs.
Proof.
  intros -> rest fin. unfold read_exact. simpl. rewrite length_app.
  destruct (Z.ltb_spec (Z.of_nat (length bs + length rest)) (Z.of_nat (length bs))); [lia|].
  by rewrite Nat2Z.id, take_app_length, drop_app_length.
Qed.

Lemma read_exact_inv_ok n r r' bs :
  read_exact n r = (r', Ok bs) →
  rd_buf r = bs ++ rd_buf r' ∧ rd_end r' = rd_end r ∧ (0 ≤ n → Z.of_nat (length bs) = n).
Proof.
  unfold read_exact. destruct (Z.ltb_spec (Z.of_nat (length (rd_buf r))) n);
    intros; simplify_eq/=.
  split_and!; [by rewrite take_drop|done|]. rewrite length_take. lia.
Qed.

Lemma reads_read_u8 b : reads read_u8 [b] b.
Proof. intros rest fin. done. Qed.

Lemma reads_read_u16 p : (0 ≤ p ≤ U16_MAX)%Z → reads read_u16 (be_bytes 2 p) p.
Proof.
  intros Hp. unfold read_u16. eapply reads_bind_last.
  - by apply reads_read_exact.
  - rewrite be_value_bytes; [apply reads_ret|]. unfold U16_MAX in Hp. simpl. lia.
Qed.

Lemma writes_ret {E A} (a : A) : writes (E:=E) (io_ret a) [] a.
Proof.
  split; unfold io_ret.
  - intros w Hw. exists w. by rewrite app_nil_r.
  - intros. simplify_eq. exists []. by rewrite app_nil_r.
  - intros. simplify_eq. by rewrite app_nil_r.
  - congruence.
Qed.

Lemma writes_bind {E A B} (c : Io Writer E A) (k : A → Io Writer E B) bs1 bs2 a b :
  writes c bs1 a → writes (k a) bs2 b → writes (io_bind c k) (bs1 ++ bs2) b.
Proof.
  intros Hc Hk. split; unfold io_bind.
  - intros w Hw. destruct (writes_ok Hc w Hw) as (w1 & -> & Ho & Hp).
    destruct (writes_ok Hk w1 Hp) as (w2 & -> & Ho2 & Hp2).
    exists w2. by rewrite Ho2, Ho, (assoc_L (++)).
  - intros w w' x H. destruct (c w) as [w1 [a1|e|]] eqn:Hw; simplify_eq.
    + destruct (writes_full Hc _ _ _ Hw) as [Ho ->].
      destruct (writes_prefix Hk _ _ _ H) as (p & Hp & ?).
      exists (bs1 ++ p). split; [by rewrite Hp, Ho, (assoc_L (++))|]. by apply prefix_app.
    + destruct (writes_prefix Hc _ _ _ Hw) as (p & Hp & ?). exists p.
      split; [done|]. by apply prefix_app_r.
    + by apply (writes_no_panic Hc) in Hw.
  - intros w w' a' H. destruct (c w) as [w1 [a1|e|]] eqn:Hw; simplify_eq.
    destruct (writes_full Hc _ _ _ Hw) as [Ho ->].
    destruct (writes_full Hk _ _ _ H) as [Ho2 ->]. by rewrite Ho2, Ho, (assoc_L (++)).
  - intros w w' H. destruct (c w) as [w1 [a1|e|]] eqn:Hw; simplify_eq.
    + destruct (writes_full Hc _ _ _ Hw) as [_ ->]. by apply (writes_no_panic Hk) in H.
    + by apply (writes_no_panic Hc) in Hw.
Qed.

(** The last step of an encoder writes nothing more ([flush], [Ok(())]). *)
Lemma writes_bind_last {E A B} (c : Io Writer E A) (k : A → Io Writer E B) bs a b :
  writes c bs a → writes (k a) [] b → writes (io_bind c k) bs b.
Proof. intros Hc Hk. rewrite <- (app_nil_r bs). by eapply writes_bind. Qed.

Lemma writes_map_err {E E' A} (c : Io Writer E A) (f : E → E') bs a :
  writes c bs a → writes (c <?> f) bs a.
Proof.
  intros Hc. split; unfold map_err.
  - intros w Hw. destruct (writes_ok Hc w Hw) as (w1 & -> & ?). by exists w1.
  - intros w w' x H. destruct (c w) as [w1 y] eqn:Hw. simplify_eq.
    by apply (writes_prefix Hc _ _ _ Hw).
  - intros w w' a' H. destruct (c w) as [w1 [?|?|]] eqn:Hw; simplify_eq/=.
    by apply (writes_full Hc _ _ _ Hw).
  - intros w w' H. destruct (c w) as [w1 [?|?|]] eqn:Hw; simplify_eq/=.
    by apply (writes_no_panic Hc) in Hw.
Qed.

Lemma writes_write_all bs : writes (write_all bs) bs ().
Proof.
  destruct bs as [|b bs]; [apply writes_ret|]. split; unfold write_all, next_outcome.
  - intros w Hw. rewrite Hw. by eexists.
  - intros w w' x H. repeat case_match; simplify_eq/=; eauto;
      eexists; (split; [done|]); first [done | apply prefix_take].
  - intros w w' [] H. by repeat case_match; simplify_eq/=.
  - intros w w'. repeat case_match; congruence.
Qed.

Lemma writes_write_u8 b : writes (write_u8 b) [b] ().
Proof. apply writes_write_all. Qed.

Lemma writes_flush : writes flush [] ().
Proof.
  split; unfold flush, next_outcome.
  - intros w Hw. rewrite Hw. eexists. split; [done|]. simpl. by rewrite app_nil_r.
  - intros w w' x H. exists []. repeat case_match; simplify_eq/=; by rewrite app_nil_r.
  - intros w w' [] H. repeat case_match; simplify_eq/=; by rewrite app_nil_r.
  - intros w w'. repeat case_match; congruence.
Qed.

Lemma writes_shutdown : writes shutdown [] ().
Proof.
  split; unfold shutdown, next_outcome.
  - intros w Hw. rewrite Hw. eexists. split; [done|]. simpl. by rewrite app_nil_r.
  - intros w w' x H. exists []. repeat case_match; simplify_eq/=; by rewrite app_nil_r.
  - intros w w' [] H. repeat case_match; simplify_eq/=; by rewrite app_nil_r.
  - intros w w'. repeat case_match; congruence.
Qed.

Lemma flushes_flush : flushes flush.
Proof. intros w w' a. unfold flush. repeat case_match; intros; by simplify_eq/=. Qed.

Lemma flushes_bind {E A B} (c : Io Writer E A) (k : A → Io Writer E B) :
  (∀ a, flushes (k a)) → flushes (io_bind c k).
Proof.
  intros Hk w w' b. unfold io_bind. repeat case_match; intros; simplify_eq. by eapply Hk.
Qed.

Lemma flushes_map_err {E E' A} (c : Io Writer E A) (f : E → E') :
  flushes c → flushes (c <?> f).
Proof.
  intros Hc w w' a. unfold map_err. destruct (c w) as [w1 [?|?|]] eqn:Hw;
    intros; simplify_eq/=. by eapply Hc.
Qed.

#[export] Hint Resolve reads_ret reads_read_u8 reads_map_err decoder_ret decoder_fail
  decoder_map_err decoder_read_exact decoder_read_u8 decoder_read_u16
  writes_ret writes_map_err writes_write_all writes_write_u8 writes_flush
  writes_shutdown flushes_flush flushes_map_err : wire.

(** ** The varint of h3x *)

(** A [VarInt] holds an integer below [2^62]. *)
Definition VARINT_LIMIT : Z := 4611686018427387904.
Definition varint_ok (v : Z) : Prop := 0 ≤ v < VARINT_LIMIT.
#[export] Instance varint_ok_dec v : Decision (varint_ok v).
Proof. unfold varint_ok. apply _. Defined.

(** [VarInt::try_from(u64)]. *)
Definition varint_try_from (n : Z) : option Z := if n <? VARINT_LIMIT then Some n else None.

Lemma varint_try_from_ok n : n < VARINT_LIMIT → varint_try_from n = Some n.
Proof. unfold varint_try_from. intros. by destruct (Z.ltb_spec n VARINT_LIMIT); [|lia]. Qed.

Lemma varint_ok_u32 n : 0 ≤ n ≤ U32_MAX → varint_ok n.
Proof. unfold varint_ok, U32_MAX, VARINT_LIMIT. lia. Qed.

Class VarIntCodec := {
  varint_bytes : Z → list byte;
  varint_write : Z → Io Writer ErrorKind ();
  varint_read : Io Reader ErrorKind Z;
}.

Class VarIntLaws `{VarIntCodec} : Prop := {
  varint_write_spec v : varint_ok v → writes (varint_write v) (varint_bytes v) ();
  varint_read_spec v : varint_ok v → reads varint_read (varint_bytes v) v;
  varint_read_decoder : decoder varint_read;
  varint_read_range r r' v : varint_read r = (r', Ok v) → varint_ok v;
  varint_bytes_nonempty v : varint_bytes v ≠ [];
  varint_read_progress r r' v : varint_read r = (r', Ok v) →
    (length (rd_buf r') < length (rd_buf r))%nat;
}.
#[export] Hint Resolve varint_write_spec varint_read_spec varint_read_decoder : wire.

(** ** The traits *)

Class EncodeInto (T : Type) (E : Type) := encode_into : T → Io Writer E ().
Class DecodeFrom (T : Type) (E : Type) := decode_from : Io Reader E T.
#[export] Hint Mode EncodeInto + - : typeclass_instances.
#[export] Hint Mode DecodeFrom + - : typeclass_instances.
Arguments decode_from T {E _}.
(** [EncodeExt::encode_one], [DecodeExt::decode_one]. *)
Abbreviation encode_one := encode_into.
Abbreviation decode_one := decode_from.

(** [wire_ok x]: the values the format can carry; [wire x]: their image. *)
Class WireFormat (T : Type) {Ee Ed : Type} `{EncodeInto T Ee, DecodeFrom T Ed} := {
  wire : T → list byte;
  wire_ok : T → Prop;
  wire_encode x : wire_ok x → writes (encode_into x) (wire x) ();
  wire_decode x : wire_ok x → reads (decode_from T) (wire x) x;
  wire_decoder : decoder (decode_from T);
}.
#[export] Hint Resolve wire_encode wire_decode wire_decoder : wire.

(** Decoding inverts encoding, whatever follows, and refuses what is cut short. *)
Definition roundtrips (T : Type) {Ee Ed} `{WireFormat T Ee Ed} : Prop :=
  ∀ (x : T) (w : Writer), wire_ok x → wr_plan w = [] →
  ∃ w', encode_into x w = (w', Ok ()) ∧ wr_out w' = wr_out w ++ wire x ∧
    (∀ rest fin, decode_from T (MkReader (wire x ++ rest) fin) = (MkReader rest fin, Ok x)) ∧
    (∀ p fin, p `prefix_of` wire x → p ≠ wire x →
       ∃ r' e, decode_from T (MkReader p fin) = (r', Err e)).
Arguments roundtrips T {_ _ _ _ _}.

Lemma wire_roundtrips {T Ee Ed} `{WireFormat T Ee Ed} : roundtrips T.
Proof.
  intros x w Hok Hw. destruct (writes_ok (wire_encode x Hok) w Hw) as (w' & ? & ? & _).
  exists w'. split_and!; [done..|by apply wire_decode|].
  intros p fin. apply reads_truncated with x; [apply wire_decoder|by apply wire_decode].
Qed.

(** Automation for composite encoders and decoders: peel one step, close the
    leaves with the [wire] hints. *)
Ltac solve_decoder :=
  repeat first
    [ progress intros
    | apply decoder_bind
    | case_match
    | solve [eauto 6 with wire] ].

Ltac reads_step := first
  [ apply reads_ret
  | eapply reads_bind; [solve [eauto 6 with wire]|]
  | eapply reads_bind_last; [solve [eauto 6 with wire]|apply reads_ret] ].
Ltac writes_step := first
  [ apply writes_ret
  | eapply writes_bind; [solve [eauto 6 with wire]|]
  | eapply writes_bind_last; [solve [eauto 6 with wire]|solve [eauto 6 with wire]]
  | solve [eauto 6 with wire] ].

(** Decide the comparisons of message numbers left in the goal. *)
Ltac eval_eqb :=
  repeat match goal with
  | |- context [?a =? ?b] =>
    let v := eval vm_compute in (a =? b) in
    match v with
    | true => change (a =? b) with true
    | false => change (a =? b) with false
    end
  end; cbv iota.

(** ** Streams of messages

    A sender and a receiver that agree on the image of one message agree on
    streams of them, and a stream cut anywhere yields a prefix of what was
    sent. *)
Section streams.
Context {T E E' : Type} (send : T → Io Writer E ()) (recv : Io Reader E' T).
Context (image : T → list byte) (ok : T → Prop).

Fixpoint send_all (xs : list T) : Io Writer E () :=
  match xs with
  | [] => io_ret ()
  | x :: xs => send x ;;; send_all xs
  end.

Fixpoint recv_n (n : nat) : Io Reader E' (list T) :=
  match n with
  | O => io_ret []
  | S n => let! x := recv in let! xs := recv_n n in io_ret (x :: xs)
  end.

(** Receive up to [n] messages, until the first error. *)
Fixpoint recv_until (n : nat) (r : Reader) : list T :=
  match n with
  | O => []
  | S n => match recv r with
           | (r', Ok x) => x :: recv_until n r'
           | _ => []
           end
  end.

Hypothesis send_spec : ∀ x, ok x → writes (send x) (image x) ().
Hypothesis recv_spec : ∀ x, ok x → reads recv (image x) x.
Hypothesis recv_decoder : decoder recv.

Lemma send_all_writes xs :
  Forall ok xs → writes (send_all xs) (concat (map image xs)) ().
Proof.
  induction 1 as [|x xs Hx _ IH]; [apply writes_ret|]. by eapply writes_bind; [apply send_spec|].
Qed.

Lemma recv_n_reads xs :
  Forall ok xs → reads (recv_n (length xs)) (concat (map image xs)) xs.
Proof.
  induction 1 as [|x xs Hx _ IH]; [apply reads_ret|].
  eapply reads_bind; [by apply recv_spec|]. eapply reads_bind_last; [done|]. apply reads_ret.
Qed.

Lemma recv_until_prefix xs p fin :
  Forall ok xs → p `prefix_of` concat (map image xs) →
  recv_until (length xs) (MkReader p fin) `prefix_of` xs.
Proof.
  intros Hok. revert p. induction Hok as [|x xs Hx _ IH]; intros p Hp; [done|].
  cbn [recv_until length]. simpl in Hp.
  destruct (decide (image x `prefix_of` p)) as [[q ->]|Hn].
  - rewrite recv_spec by done. apply prefix_cons, IH. by eapply prefix_app_inv.
  - assert (p `prefix_of` image x) as Hpx.
    { destruct (prefix_weak_total p (image x) (concat (image x :: map image xs)));
        [done|by apply prefix_app_r|done|done]. }
    destruct (reads_truncated recv (image x) x p fin) as (r' & e & ->);
      [done|by apply recv_spec|done| |apply prefix_nil].
    intros ->. by apply Hn.
Qed.
End streams.

(** ** RFC 9000 variable-length integers

    A concrete codec for which the laws hold: the two high bits of the first
    byte give the length 1, 2, 4 or 8. *)
Definition quic_bytes (v : Z) : list byte :=
  if v <? 64 then be_bytes 1 v
  else if v <? 16384 then be_bytes 2 (16384 + v)
  else if v <? 1073741824 then be_bytes 4 (2147483648 + v)
  else be_bytes 8 (13835058055282163712 + v).

Definition quic_read : Io Reader ErrorKind Z :=
  let! b := read_u8 in
  let n := 2 ^ (b2z b / 64) in
  let! bs := read_exact (n - 1) in
  io_ret (be_value (b :: bs) mod 2 ^ (8 * n - 2)).

Definition quic_varint : VarIntCodec :=
  {| varint_bytes := quic_bytes;
     varint_write := λ v, write_all (quic_bytes v);
     varint_read := quic_read |}.

Lemma be_bytes_cons n z :
  be_bytes (S n) z = z2b (z / 256 ^ Z.of_nat n) :: be_bytes n z.
Proof.
  revert z. induction n as [|n IH]; intros z.
  { cbn. by rewrite Z.div_1_r. }
  change (be_bytes (S (S n)) z) with (be_bytes (S n) (z / 256) ++ [z2b z]).
  rewrite IH. cbn [be_bytes app]. f_equal. f_equal.
  rewrite Z.div_div by (try apply Z.pow_nonzero; lia).
  by rewrite Nat2Z.inj_succ, Z.pow_succ_r by lia.
Qed.

Lemma quic_read_be (tag : Z) (n : nat) (v : Z) :
  0 ≤ tag < 4 → 2 ^ tag = Z.of_nat (S n) → 0 ≤ v < 2 ^ (8 * Z.of_nat (S n) - 2) →
  reads quic_read (be_bytes (S n) (tag * 2 ^ (8 * Z.of_nat (S n) - 2) + v)) v.
Proof.
  intros Ht Hn Hv. set (m := 8 * Z.of_nat (S n) - 2) in *.
  assert (H256 : 256 ^ Z.of_nat n * 64 = 2 ^ m).
  { change 256 with (2 ^ 8). change 64 with (2 ^ 6). rewrite <- Z.pow_mul_r by lia.
    rewrite <- Z.pow_add_r by lia. f_equal. unfold m. lia. }
  assert (Hpos : 0 < 256 ^ Z.of_nat n) by (apply Z.pow_pos_nonneg; lia).
  set (z := tag * 2 ^ m + v).
  assert (Hz : 0 ≤ z < 4 * 2 ^ m) by (unfold z; nia).
  assert (Hd : z / 256 ^ Z.of_nat n / 64 = tag).
  { rewrite Z.div_div, H256 by lia. unfold z. rewrite Z.div_add_l, Z.div_small by lia. lia. }
  assert (Hb : b2z (z2b (z / 256 ^ Z.of_nat n)) = z / 256 ^ Z.of_nat n).
  { apply b2z_z2b_small. split; [apply Z.div_pos; lia|].
    apply Z.div_lt_upper_bound; lia. }
  rewrite be_bytes_cons. unfold quic_read.
  change (z2b (z / 256 ^ Z.of_nat n) :: be_bytes n z)
    with ([z2b (z / 256 ^ Z.of_nat n)] ++ be_bytes n z).
  eapply reads_bind; [apply reads_read_u8|].
  rewrite Hb, Hd, Hn. eapply reads_bind_last.
  { apply reads_read_exact. rewrite length_be_bytes. lia. }
  rewrite <- be_bytes_cons, be_value_bytes.
  - fold m. unfold z. rewrite Z.add_comm, Z_mod_plus_full, Z.mod_small by lia. apply reads_ret.
  - rewrite Nat2Z.inj_succ, Z.pow_succ_r by lia. lia.
Qed.

Lemma quic_read_bytes v : varint_ok v → reads quic_read (quic_bytes v) v.
Proof.
  unfold varint_ok, VARINT_LIMIT, quic_bytes. intros Hv.
  repeat case_match; rewrite ?Z.ltb_lt, ?Z.ltb_ge in *.
  - apply (quic_read_be 0 0 v); cbn; lia.
  - apply (quic_read_be 1 1 v); cbn; lia.
  - apply (quic_read_be 2 3 v); cbn; lia.
  - apply (quic_read_be 3 7 v); cbn; lia.
Qed.

Lemma quic_read_range r r' v : quic_read r = (r', Ok v) → varint_ok v.
Proof.
  unfold quic_read, io_bind. intros H. repeat case_match; simplify_eq/=.
  pose proof (b2z_range a).
  assert (Ht : 0 ≤ b2z a / 64 < 4)
    by (split; [apply Z.div_pos | apply Z.div_lt_upper_bound]; lia).
  assert (Hn : 0 < 2 ^ (b2z a / 64) ≤ 2 ^ 3)
    by (split; [apply Z.pow_pos_nonneg | apply Z.pow_le_mono_r]; lia).
  assert (Hm : 2 ^ (8 * 2 ^ (b2z a / 64) - 2) ≤ 2 ^ 62)
    by (apply Z.pow_le_mono_r; lia).
  assert (Hp : 0 < 2 ^ (8 * 2 ^ (b2z a / 64) - 2)) by (apply Z.pow_pos_nonneg; lia).
  unfold io_ret in *. simplify_eq.
  pose proof (Z.mod_pos_bound (be_value (a :: a0)) _ Hp).
  unfold varint_ok. change VARINT_LIMIT with (2 ^ 62). lia.
Qed.

Lemma quic_varint_laws : @VarIntLaws quic_varint.
Proof.
  split; simpl.
  - intros v _. apply writes_write_all.
  - apply quic_read_bytes.
  - unfold quic_read. solve_decoder.
  - apply quic_read_range.
  - intros v. unfold quic_bytes. repeat case_match; by rewrite be_bytes_cons.
  - intros r r' v. unfold quic_read, io_bind, read_u8, read_exact.
    destruct (rd_buf r) as [|b bs] eqn:Hb; [done|]. simpl. destruct (_ <? _); [done|].
    unfold io_ret. intros ?. simplify_eq/=. rewrite length_drop. lia.
Qed.

Example quic_bytes_rfc9000 :
  map b2z (quic_bytes 151288809941952652) = [194; 25; 124; 94; 255; 20; 232; 140] ∧
  map b2z (quic_bytes 494878333) = [157; 127; 62; 125] ∧
  map b2z (quic_bytes 15293) = [123; 189] ∧
  map b2z (quic_bytes 37) = [37].
Proof. vm_compute. auto. Qed.
