(* ===== verification/Codec.v ===== *)
(** * The wire codec ([src/src/codec.rs])

    Strings, byte strings, booleans, the field length check, and the laws of
    their encoders and decoders. *)
From Stdlib Require Import ZArith Lia Strings.Byte.
From stdpp Require Import base list strings gmap fin_maps relations.
From S2P Require Import Prelude Wire.
Local Open Scope Z_scope.
Local Open Scope io_scope.

(** ** Errors *)

Inductive CodecError :=
| FieldLengthOverflow (field_name : string) (length : Z)
| FieldTooLarge (field_name : string) (length maximum : Z)
| SshStringTooLong
| SshBytesTooLong
| InvalidSshStringUtf8
| InvalidSshBoolByte (b : byte)
| ReadIo (source : ErrorKind)
| WriteIo (source : ErrorKind).

(** ** Field lengths *)

Definition MAX_REMOTE_FIELD_SIZE : Z := Z.shiftl 1 20.

(** [usize] is 64 bits wide. *)
Definition USIZE_MAX : Z := U64_MOD - 1.
Definition usize_try_from (n : Z) : option Z := if n <=? USIZE_MAX then Some n else None.

Definition checked_remote_field_len (len : Z) (field_name : string) : result Z CodecError :=
  match usize_try_from len with
  | None => Err (FieldLengthOverflow field_name len)
  | Some len =>
    if MAX_REMOTE_FIELD_SIZE <? len
    then Err (FieldTooLarge field_name len MAX_REMOTE_FIELD_SIZE)
    else Ok len
  end.

(** ** The types *)

(** A UTF-8 string; [ssh_string_valid] is the invariant of the type, which its
    constructors establish and [deref] relies on. *)
Record SshString := MkSshString { ssh_string_bytes : list byte }.
Definition ssh_string_valid (s : SshString) : bool := utf8_valid (ssh_string_bytes s).

Definition from_static (s : string) : SshString := MkSshString (str_bytes s).
Definition ssh_string_from (s : string) : SshString := MkSshString (str_bytes s).
Definition ssh_string_deref (s : SshString) : string := bytes_str (ssh_string_bytes s).
Definition ssh_string_try_from (bs : list byte) : option SshString :=
  if utf8_valid bs then Some (MkSshString bs) else None.

(** [Deserialize]: the deserializer of bytes is serde's, [custom] its error for
    bytes that are not UTF-8. There is no limit of length. *)
Definition SshString_deserialize {D E} (bytes_deserialize : D → result (list byte) E) (custom : E)
    (deserializer : D) : result SshString E :=
  (let? bytes := bytes_deserialize deserializer in
   if utf8_valid bytes then Ok (MkSshString bytes) else Err custom)%result.

Record SshBytes := MkSshBytes { ssh_bytes : list byte }.
Record RawRemainder := MkRawRemainder { raw_remainder : list byte }.
Record SshBool := MkSshBool { ssh_bool : bool }.

#[export] Instance SshString_eq_dec : EqDecision SshString.
Proof. solve_decision. Defined.
#[export] Instance SshBytes_eq_dec : EqDecision SshBytes.
Proof. solve_decision. Defined.
#[export] Instance SshBool_eq_dec : EqDecision SshBool.
Proof. solve_decision. Defined.

Definition byte_len (bs : list byte) : Z := Z.of_nat (length bs).

(** ** Encoders and decoders *)

Section codec.
Context `{VarIntCodec}.

#[export] Instance VarInt_encode_into : EncodeInto Z ErrorKind := varint_write.
#[export] Instance VarInt_decode_from : DecodeFrom Z ErrorKind := varint_read.

#[export] Instance SshString_encode_into : EncodeInto SshString CodecError := λ self,
  match varint_try_from (byte_len (ssh_string_bytes self)) with
  | None => io_fail SshStringTooLong
  | Some len =>
    encode_into len <?> WriteIo ;;;
    write_all (ssh_string_bytes self) <?> WriteIo
  end.

#[export] Instance SshString_decode_from : DecodeFrom SshString CodecError :=
  let! len := decode_from Z <?> ReadIo in
  let! len := io_lift (checked_remote_field_len len "ssh string") in
  let! buf := read_exact len <?> ReadIo in
  if utf8_valid buf then io_ret (MkSshString buf) else io_fail InvalidSshStringUtf8.

#[export] Instance SshBytes_encode_into : EncodeInto SshBytes CodecError := λ self,
  match varint_try_from (byte_len (ssh_bytes self)) with
  | None => io_fail SshBytesTooLong
  | Some len =>
    encode_into len <?> WriteIo ;;;
    write_all (ssh_bytes self) <?> WriteIo
  end.

#[export] Instance SshBytes_decode_from : DecodeFrom SshBytes CodecError :=
  let! len := decode_from Z <?> ReadIo in
  let! len := io_lift (checked_remote_field_len len "ssh bytes") in
  let! buf := read_exact len <?> ReadIo in
  io_ret (MkSshBytes buf).

#[export] Instance SshBool_encode_into : EncodeInto SshBool CodecError := λ self,
  write_u8 (if ssh_bool self then x01 else x00) <?> WriteIo.

#[export] Instance SshBool_decode_from : DecodeFrom SshBool CodecError :=
  let! b := read_u8 <?> ReadIo in
  match b with
  | x00 => io_ret (MkSshBool false)
  | x01 => io_ret (MkSshBool true)
  | other => io_fail (InvalidSshBoolByte other)
  end.
End codec.

(** ** Lemmas *)

(** The conversions from bytes establish what [deref] relies on. *)
Lemma ssh_string_conversions_valid s :
  (∀ bs, ssh_string_try_from bs = Some s → utf8_valid (ssh_string_bytes s) = true) ∧
  (∀ D E (d : D → result (list byte) E) custom input,
     SshString_deserialize d custom input = Ok s → utf8_valid (ssh_string_bytes s) = true).
Proof.
  split.
  - intros bs. unfold ssh_string_try_from. case_match; [|done]. by intros [= <-].
  - intros D E d custom input. unfold SshString_deserialize.
    destruct (d input) as [bs|e|]; simpl; try done. case_match; [|done]. by intros [= <-].
Qed.

Lemma checked_remote_field_len_ok len name n :
  checked_remote_field_len len name = Ok n ↔ n = len ∧ len ≤ MAX_REMOTE_FIELD_SIZE.
Proof.
  unfold checked_remote_field_len, usize_try_from.
  assert (MAX_REMOTE_FIELD_SIZE = 1048576) as -> by done.
  assert (USIZE_MAX = 18446744073709551615) as -> by done.
  destruct (Z.leb_spec len 18446744073709551615).
  - destruct (Z.ltb_spec 1048576 len); split; intros; simplify_eq; naive_solver lia.
  - split; intros; simplify_eq; naive_solver lia.
Qed.

Lemma decoder_io_lift {E A} (x : result A E) : x ≠ Panic → decoder (io_lift x).
Proof.
  intros Hx. split; unfold io_lift; intros; simplify_eq; auto; [|congruence].
  split; [done|]. by exists [].
Qed.

Lemma decoder_checked_len len name : decoder (io_lift (checked_remote_field_len len name)).
Proof. apply decoder_io_lift. unfold checked_remote_field_len. by repeat case_match. Qed.
#[export] Hint Resolve decoder_checked_len : wire.

Section laws.
Context `{VarIntLaws}.

Lemma ssh_string_len_ok bs :
  byte_len bs ≤ MAX_REMOTE_FIELD_SIZE → varint_ok (byte_len bs).
Proof.
  unfold varint_ok, byte_len. assert (MAX_REMOTE_FIELD_SIZE = 1048576) as -> by done.
  unfold VARINT_LIMIT. lia.
Qed.

(** A length-prefixed field, as strings and byte strings encode it. *)
Definition field_wire (bs : list byte) : list byte := varint_bytes (byte_len bs) ++ bs.

#[export, program] Instance VarInt_wire : WireFormat Z :=
  {| wire := varint_bytes; wire_ok := varint_ok |}.
Solve Obligations with eauto with wire.

Lemma write_field_writes (bs : list byte) :
  varint_ok (byte_len bs) →
  writes (encode_into (byte_len bs) <?> WriteIo ;;; write_all bs <?> WriteIo)
    (field_wire bs) ().
Proof.
  intros Hok. eapply writes_bind; [|eauto with wire].
  apply writes_map_err. by apply varint_write_spec.
Qed.

(** Reading a field back, up to the continuation that builds the value. *)
Lemma read_field_reads {A} name (bs : list byte) (k : list byte → Io Reader CodecError A) a :
  byte_len bs ≤ MAX_REMOTE_FIELD_SIZE → reads (k bs) [] a →
  reads (let! len := decode_from Z <?> ReadIo in
         let! len := io_lift (checked_remote_field_len len name) in
         let! buf := read_exact len <?> ReadIo in k buf) (field_wire bs) a.
Proof.
  intros Hlen Hk. eapply reads_bind.
  { apply reads_map_err. by apply varint_read_spec, ssh_string_len_ok. }
  intros rest fin. unfold io_bind at 1, io_lift.
  rewrite (proj2 (checked_remote_field_len_ok (byte_len bs) name _)) by done.
  revert rest fin. change (reads (let! buf := read_exact (byte_len bs) <?> ReadIo in k buf) bs a).
  eapply reads_bind_last; [|done]. apply reads_map_err. by apply reads_read_exact.
Qed.

Definition ssh_string_ok (s : SshString) : Prop :=
  ssh_string_valid s = true ∧ byte_len (ssh_string_bytes s) ≤ MAX_REMOTE_FIELD_SIZE.

#[export, program] Instance SshString_wire : WireFormat SshString :=
  {| wire s := field_wire (ssh_string_bytes s); wire_ok := ssh_string_ok |}.
Next Obligation.
  intros s [_ Hlen%ssh_string_len_ok]. unfold encode_into, SshString_encode_into.
  rewrite varint_try_from_ok by apply Hlen. by apply write_field_writes.
Qed.
Next Obligation.
  intros [bs] [Hv Hlen]. unfold ssh_string_valid in *. simpl in *.
  apply read_field_reads; [done|]. rewrite Hv. apply reads_ret.
Qed.
Next Obligation. unfold decode_from, SshString_decode_from. solve_decoder. Qed.

#[export, program] Instance SshBytes_wire : WireFormat SshBytes :=
  {| wire s := field_wire (ssh_bytes s);
     wire_ok s := byte_len (ssh_bytes s) ≤ MAX_REMOTE_FIELD_SIZE |}.
Next Obligation.
  intros s Hlen%ssh_string_len_ok. unfold encode_into, SshBytes_encode_into.
  rewrite varint_try_from_ok by apply Hlen. by apply write_field_writes.
Qed.
Next Obligation. intros [bs] Hlen. apply read_field_reads; [done|]. apply reads_ret. Qed.
Next Obligation. unfold decode_from, SshBytes_decode_from. solve_decoder. Qed.

#[export, program] Instance SshBool_wire : WireFormat SshBool :=
  {| wire s := [if ssh_bool s then x01 else x00]; wire_ok _ := True |}.
Next Obligation. intros [b] _. unfold encode_into, SshBool_encode_into. eauto with wire. Qed.
Next Obligation.
  intros [b] _. unfold decode_from, SshBool_decode_from.
  eapply reads_bind_last; [eauto with wire|]. destruct b; apply reads_ret.
Qed.
Next Obligation. unfold decode_from, SshBool_decode_from. solve_decoder. Qed.
End laws.

(** ** Properties *)

Section properties.
Context `{VarIntLaws}.

(** C7: Strings survive the wire. On a transport that does not fail, encoding
    a valid string of at most [MAX_REMOTE_FIELD_SIZE] bytes succeeds, and
    decoding its image, whatever follows it on the stream, returns the same
    string and leaves exactly what followed. *)
Theorem ssh_string_roundtrip (s : SshString) (w : Writer) :
  ssh_string_ok s → wr_plan w = [] →
  ∃ w' bs, encode_into s w = (w', Ok ()) ∧ wr_out w' = wr_out w ++ bs ∧
    ∀ rest fin, decode_from SshString (MkReader (bs ++ rest) fin)
                = (MkReader rest fin, Ok s).
Proof.
  intros Hok Hw. destruct (writes_ok (wire_encode (WireFormat := SshString_wire) s Hok) w Hw) as (w' & He & Ho & _).
  exists w', (wire s). split_and!; [done..|]. by apply (wire_decode (WireFormat := SshString_wire)).
Qed.

(** What a remote peer can make the string decoder return is bounded and
    valid UTF-8, so the unchecked conversion in [deref] is sound; and the
    decoder only takes bytes from the front of the stream. *)
Theorem ssh_string_decode_sound (r r' : Reader) (s : SshString) :
  decode_from SshString r = (r', Ok s) →
  utf8_valid (ssh_string_bytes s) = true ∧
  byte_len (ssh_string_bytes s) ≤ MAX_REMOTE_FIELD_SIZE ∧
  ∃ p, rd_buf r = p ++ ssh_string_bytes s ++ rd_buf r'.
Proof.
  unfold decode_from, SshString_decode_from. intros Hd. io_inv.
  match goal with H : checked_remote_field_len _ _ = _ |- _ =>
    apply checked_remote_field_len_ok in H as [-> Hlen] end.
  match goal with H : read_exact _ _ = _ |- _ =>
    apply read_exact_inv_ok in H as (Hb & _ & Hn) end.
  match goal with H : decode_from Z _ = _ |- _ => rename H into Hv end.
  destruct (dec_consumes varint_read_decoder _ _ _ Hv) as [_ [p Hp]].
  pose proof (varint_read_range _ _ _ Hv) as [? _].
  case_match; io_inv. split_and!; [done|unfold byte_len; simpl; lia|].
  exists p. by rewrite Hp, Hb.
Qed.

(** The two directions do not have the same limit. A string longer than
    [MAX_REMOTE_FIELD_SIZE] is encoded without an error, and every peer then
    refuses it with [FieldTooLarge] after reading no more than its length, so
    that the string itself stays on the stream. *)
Theorem ssh_string_oversized (s : SshString) :
  MAX_REMOTE_FIELD_SIZE < byte_len (ssh_string_bytes s) < VARINT_LIMIT →
  ∃ len_bytes, writes (encode_into s) (len_bytes ++ ssh_string_bytes s) () ∧
    ∀ rest fin, decode_from SshString (MkReader (len_bytes ++ rest) fin)
      = (MkReader rest fin,
         Err (FieldTooLarge "ssh string" (byte_len (ssh_string_bytes s))
                MAX_REMOTE_FIELD_SIZE)).
Proof.
  intros [Hmin Hmax]. set (n := byte_len _) in *.
  assert (varint_ok n) by (unfold varint_ok, byte_len in *; lia).
  exists (varint_bytes n). split.
  { unfold encode_into, SshString_encode_into. fold n.
    rewrite varint_try_from_ok by done. by apply write_field_writes. }
  intros rest fin. unfold decode_from, SshString_decode_from, io_bind, map_err, io_lift.
  change (decode_from Z) with varint_read. rewrite varint_read_spec by done. simpl.
  unfold checked_remote_field_len, usize_try_from.
  assert (USIZE_MAX = 18446744073709551615) as -> by done. unfold VARINT_LIMIT in *.
  destruct (Z.leb_spec n 18446744073709551615); [|lia].
  by destruct (Z.ltb_spec MAX_REMOTE_FIELD_SIZE n); [|lia].
Qed.
End properties.

(** ** Witnesses *)

Lemma ssh_string_roundtrip_witness :
  ssh_string_ok (from_static "hello") ∧
  ∃ w' bs, encode_into (EncodeInto := @SshString_encode_into quic_varint)
             (from_static "hello") new_writer = (w', Ok ()) ∧
    wr_out w' = [] ++ bs ∧
    ∀ rest fin, decode_from SshString (DecodeFrom := @SshString_decode_from quic_varint)
                  (MkReader (bs ++ rest) fin)
                = (MkReader rest fin, Ok (from_static "hello")).
Proof.
  assert (ssh_string_ok (from_static "hello")) as Hok by (split; vm_compute; congruence).
  split; [exact Hok|].
  exact (@ssh_string_roundtrip quic_varint quic_varint_laws _ new_writer Hok eq_refl).
Defined.

#[local] Existing Instance quic_varint.
#[local] Existing Instance quic_varint_laws.

Lemma ssh_string_decode_sound_witness :
  let r := MkReader [x02; x68; x69; x21] None in
  decode_from SshString r = (MkReader [x21] None, Ok (from_static "hi")) ∧
  utf8_valid (str_bytes "hi") = true ∧ byte_len (str_bytes "hi") ≤ MAX_REMOTE_FIELD_SIZE ∧
  ∃ p, rd_buf r = p ++ str_bytes "hi" ++ [x21].
Proof.
  intros r.
  assert (decode_from SshString r = (MkReader [x21] None, Ok (from_static "hi"))) as Hd
    by (vm_compute; reflexivity).
  split; [exact Hd|]. exact (ssh_string_decode_sound r _ _ Hd).
Defined.

Definition oversized_string : SshString := MkSshString (replicate (Z.to_nat 1048577) x61).

Lemma oversized_string_length : byte_len (ssh_string_bytes oversized_string) = 1048577.
Proof. unfold byte_len, oversized_string, ssh_string_bytes. rewrite length_replicate. by apply Z2Nat.id. Qed.

Lemma ssh_string_oversized_witness :
  ∃ len_bytes,
    writes (encode_into oversized_string) (len_bytes ++ ssh_string_bytes oversized_string) () ∧
    ∀ rest fin, decode_from SshString (MkReader (len_bytes ++ rest) fin)
      = (MkReader rest fin,
         Err (FieldTooLarge "ssh string" (byte_len (ssh_string_bytes oversized_string))
                MAX_REMOTE_FIELD_SIZE)).
Proof.
  apply ssh_string_oversized. rewrite oversized_string_length. vm_compute. split; reflexivity.
Defined.
