(* ===== verification/Message.v ===== *)
(** * Message numbers, request traits and shared payloads

    [src/src/message.rs], [src/src/channel.rs], [src/src/constants.rs] and the
    traits and the empty payload of [src/src/conversation.rs]. *)
From Stdlib Require Import ZArith Lia Strings.Byte.
From stdpp Require Import base list strings gmap fin_maps relations.
From S2P Require Import Prelude Wire Codec.
Local Open Scope Z_scope.
Local Open Scope io_scope.

(** ** message.rs *)

Definition SSH_MSG_GLOBAL_REQUEST : Z := 80.
Definition SSH_MSG_REQUEST_SUCCESS : Z := 81.
Definition SSH_MSG_REQUEST_FAILURE : Z := 82.
Definition SSH_MSG_CHANNEL_OPEN_CONFIRMATION : Z := 91.
Definition SSH_MSG_CHANNEL_OPEN_FAILURE : Z := 92.
Definition SSH_MSG_CHANNEL_DATA : Z := 94.
Definition SSH_MSG_CHANNEL_EXTENDED_DATA : Z := 95.
Definition SSH_MSG_CHANNEL_EOF : Z := 96.
Definition SSH_MSG_CHANNEL_CLOSE : Z := 97.
Definition SSH_MSG_CHANNEL_REQUEST : Z := 98.
Definition SSH_MSG_CHANNEL_SUCCESS : Z := 99.
Definition SSH_MSG_CHANNEL_FAILURE : Z := 100.
Definition SSH_EXTENDED_DATA_STDERR : Z := 1.

(** ** channel.rs *)

Record ChannelOpenFailure := MkChannelOpenFailure {
  reason_code : Z;
  description : SshString;
}.
Definition ADMINISTRATIVELY_PROHIBITED : Z := 1.
Definition CONNECT_FAILED : Z := 2.
Definition UNKNOWN_CHANNEL_TYPE : Z := 3.
Definition RESOURCE_SHORTAGE : Z := 4.

(** ** constants.rs *)

Definition DSHELL_VERSION : string := "dshell-00".
Definition SUPPORTED_DSHELL_VERSIONS : list string := [DSHELL_VERSION].
Definition CHANNEL_SIGNAL_VALUE : Z := 0xaf3627e6.
Definition DEFAULT_MAX_MESSAGE_SIZE : Z := Z.shiftl 1 20.
Definition DSHELL_CONNECT_PATH : string := "/.well-known/dshell/connect".

(** ** The request traits of conversation.rs *)

Class WantReplyGlobalRequest (Rq Success Payload : Type) := {
  global_request_type : Rq → SshString;
  global_payload : Rq → Payload;
}.
Class NotifyGlobalRequest (N Payload : Type) := {
  global_notice_type : N → SshString;
  global_notice_payload : N → Payload;
}.
Class ChannelOpen (C : Type) := { channel_type : C → SshString }.
Class WantReplyChannelRequest (Rq Success Payload : Type) := {
  channel_request_type : Rq → SshString;
  channel_payload : Rq → Payload;
}.
Class NotifyChannelRequest (N Payload : Type) := {
  channel_notice_type : N → SshString;
  channel_notice_payload : N → Payload;
}.
#[export] Hint Mode WantReplyGlobalRequest + - - : typeclass_instances.
#[export] Hint Mode NotifyGlobalRequest + - : typeclass_instances.
#[export] Hint Mode WantReplyChannelRequest + - - : typeclass_instances.
#[export] Hint Mode NotifyChannelRequest + - : typeclass_instances.

(** ** EmptyPayload *)

(** [std::convert::Infallible]. *)
Abbreviation Infallible := Empty_set.

Inductive EmptyPayload := MkEmptyPayload.

#[export] Instance EmptyPayload_encode_into : EncodeInto EmptyPayload Infallible :=
  λ self, io_ret ().
#[export] Instance EmptyPayload_decode_from : DecodeFrom EmptyPayload Infallible :=
  io_ret MkEmptyPayload.

#[export, program] Instance EmptyPayload_wire : WireFormat EmptyPayload :=
  {| wire _ := []; wire_ok _ := True |}.
Next Obligation. intros. apply writes_ret. Qed.
Next Obligation. intros [] _. apply reads_ret. Qed.
Next Obligation. apply decoder_ret. Qed.

(** ** Names on the wire *)

Lemma from_static_ok (s : string) :
  forallb (byte_in 0 127) (str_bytes s) = true →
  (Z.of_nat (String.length s) <=? MAX_REMOTE_FIELD_SIZE) = true →
  ssh_string_ok (from_static s).
Proof.
  intros Ha Hl%Z.leb_le. split.
  - by apply utf8_valid_ascii.
  - unfold byte_len. simpl. by rewrite length_str_bytes.
Qed.

(** Every message number fits a varint. *)
Lemma msg_ok v : (0 <=? v) && (v <=? 255) = true → varint_ok v.
Proof. unfold varint_ok, VARINT_LIMIT. lia. Qed.

Ltac solve_name_ok := apply from_static_ok; vm_compute; reflexivity.
#[export] Hint Extern 1 (ssh_string_ok (from_static _)) => solve_name_ok : wire.
#[export] Hint Extern 1 (varint_ok _) => (apply msg_ok; vm_compute; reflexivity) : wire.

#[export] Instance ChannelOpenFailure_eq_dec : EqDecision ChannelOpenFailure.
Proof. solve_decision. Defined.
