(* ===== verification/ChannelErrors.v ===== *)
(** * The error types of [src/src/conversation/channel.rs]

    One module per error enum, named as the module snafu generates for it
    ([#[snafu(module)]]); a context selector [FooSnafu] is the constructor
    [Foo] of its module. [std::io::Error] is its kind. *)
From Stdlib Require Import ZArith Lia Strings.Byte.
From stdpp Require Import base list strings gmap fin_maps relations.
From S2P Require Import Prelude Wire Codec Message.
Local Open Scope Z_scope.

Module send_channel_request_error.
Inductive SendChannelRequestError (PE SE : Type) :=
| EncodeMessageType (source : ErrorKind)
| EncodeRequestType (source : CodecError)
| EncodeWantReply (source : CodecError)
| EncodePayload (source : PE)
| Flush (source : ErrorKind)
| DecodeResponseType (source : ErrorKind)
| DecodeSuccess (source : SE)
| Rejected
| UnexpectedResponseType (message_type : Z).
#[global] Arguments EncodeMessageType {PE SE}.
#[global] Arguments EncodeRequestType {PE SE}.
#[global] Arguments EncodeWantReply {PE SE}.
#[global] Arguments EncodePayload {PE SE}.
#[global] Arguments Flush {PE SE}.
#[global] Arguments DecodeResponseType {PE SE}.
#[global] Arguments DecodeSuccess {PE SE}.
#[global] Arguments Rejected {PE SE}.
#[global] Arguments UnexpectedResponseType {PE SE}.
End send_channel_request_error.

Module send_channel_notice_error.
Inductive SendChannelNoticeError (PE : Type) :=
| EncodeMessageType (source : ErrorKind)
| EncodeRequestType (source : CodecError)
| EncodeWantReply (source : CodecError)
| EncodePayload (source : PE)
| Flush (source : ErrorKind).
#[global] Arguments EncodeMessageType {PE}.
#[global] Arguments EncodeRequestType {PE}.
#[global] Arguments EncodeWantReply {PE}.
#[global] Arguments EncodePayload {PE}.
#[global] Arguments Flush {PE}.
End send_channel_notice_error.

Module read_channel_event_error.
Inductive ReadChannelEventError :=
| DecodeMessageType (source : ErrorKind)
| DecodeData (source : ErrorKind)
| DecodeExtendedDataType (source : ErrorKind)
| DecodeExtendedData (source : ErrorKind)
| DecodeRequestType (source : CodecError)
| DecodeWantReply (source : CodecError)
| UnexpectedMessageType (message_type : Z)
| UnexpectedWantReply (request_type : SshString).
End read_channel_event_error.

Module respond_channel_success_error.
Inductive RespondChannelSuccessError (RE : Type) :=
| EncodeMessageType (source : ErrorKind)
| EncodePayload (source : RE)
| Flush (source : ErrorKind).
#[global] Arguments EncodeMessageType {RE}.
#[global] Arguments EncodePayload {RE}.
#[global] Arguments Flush {RE}.
End respond_channel_success_error.

Module respond_channel_failure_error.
Inductive RespondChannelFailureError :=
| EncodeMessageType (source : ErrorKind)
| Flush (source : ErrorKind).
End respond_channel_failure_error.

Module write_data_error.
Inductive WriteDataError :=
| EncodeMessageType (source : ErrorKind)
| EncodeLength (source : ErrorKind)
| WritePayload (source : ErrorKind)
| ShortSource (expected actual : Z)
| Flush (source : ErrorKind).
End write_data_error.

Module write_extended_data_error.
Inductive WriteExtendedDataError :=
| EncodeMessageType (source : ErrorKind)
| EncodeDataType (source : ErrorKind)
| EncodeLength (source : ErrorKind)
| WritePayload (source : ErrorKind)
| ShortSource (expected actual : Z)
| Flush (source : ErrorKind).
End write_extended_data_error.

Module write_channel_eof_error.
Inductive WriteChannelEofError :=
| EncodeMessageType (source : ErrorKind)
| Flush (source : ErrorKind).
End write_channel_eof_error.

Module write_channel_close_error.
Inductive WriteChannelCloseError :=
| EncodeMessageType (source : ErrorKind)
| Flush (source : ErrorKind).
End write_channel_close_error.

Module await_open_error.
Inductive AwaitOpenError :=
| DecodeMessageType (source : ErrorKind)
| DecodeMaxMessageSize (source : ErrorKind)
| DecodeReasonCode (source : ErrorKind)
| DecodeDescription (source : CodecError)
| Rejected (failure : ChannelOpenFailure)
| UnexpectedMessageType (message_type : Z).
End await_open_error.

Module open_channel_error.
Inductive OpenChannelError (ME PE : Type) :=
| OpenStream (source : ME)
| EncodeMaxMessageSize (source : ErrorKind)
| EncodeChannelType (source : CodecError)
| EncodePayload (source : PE)
| Flush (source : ErrorKind)
| AwaitConfirmation (source : await_open_error.AwaitOpenError).
#[global] Arguments OpenStream {ME PE}.
#[global] Arguments EncodeMaxMessageSize {ME PE}.
#[global] Arguments EncodeChannelType {ME PE}.
#[global] Arguments EncodePayload {ME PE}.
#[global] Arguments Flush {ME PE}.
#[global] Arguments AwaitConfirmation {ME PE}.
End open_channel_error.

Module accept_channel_error.
Inductive AcceptChannelError (ME : Type) :=
| AcceptStream (source : ME)
| DecodeMaxMessageSize (source : ErrorKind)
| DecodeChannelType (source : CodecError).
#[global] Arguments AcceptStream {ME}.
#[global] Arguments DecodeMaxMessageSize {ME}.
#[global] Arguments DecodeChannelType {ME}.
End accept_channel_error.

Module write_channel_open_confirmation_error.
Inductive WriteChannelOpenConfirmationError :=
| EncodeMessageType (source : ErrorKind)
| EncodeMaxMessageSize (source : ErrorKind)
| Flush (source : ErrorKind).
End write_channel_open_confirmation_error.

Module write_channel_open_failure_error.
Inductive WriteChannelOpenFailureError :=
| EncodeMessageType (source : ErrorKind)
| EncodeReasonCode (source : ErrorKind)
| EncodeDescription (source : CodecError)
| Flush (source : ErrorKind).
End write_channel_open_failure_error.

Abbreviation SendChannelRequestError := send_channel_request_error.SendChannelRequestError.
Abbreviation SendChannelNoticeError := send_channel_notice_error.SendChannelNoticeError.
Abbreviation ReadChannelEventError := read_channel_event_error.ReadChannelEventError.
Abbreviation RespondChannelSuccessError := respond_channel_success_error.RespondChannelSuccessError.
Abbreviation RespondChannelFailureError := respond_channel_failure_error.RespondChannelFailureError.
Abbreviation WriteDataError := write_data_error.WriteDataError.
Abbreviation WriteExtendedDataError := write_extended_data_error.WriteExtendedDataError.
Abbreviation WriteChannelEofError := write_channel_eof_error.WriteChannelEofError.
Abbreviation WriteChannelCloseError := write_channel_close_error.WriteChannelCloseError.
Abbreviation AwaitOpenError := await_open_error.AwaitOpenError.
Abbreviation OpenChannelError := open_channel_error.OpenChannelError.
Abbreviation AcceptChannelError := accept_channel_error.AcceptChannelError.
Abbreviation WriteChannelOpenConfirmationError :=
  write_channel_open_confirmation_error.WriteChannelOpenConfirmationError.
Abbreviation WriteChannelOpenFailureError :=
  write_channel_open_failure_error.WriteChannelOpenFailureError.
