(* ===== verification/Channel.v ===== *)
(** * Channels ([src/src/conversation/channel.rs])

    A channel is a pair of byte streams that carries framed messages. A value
    that borrows a stream ([ChannelDataRead], [IncomingChannelRequest],
    [ChannelResponder]) is the data it holds besides the borrow; its methods
    run on the borrowed stream, which is the state they thread. *)
From Stdlib Require Import ZArith Lia Strings.Byte.
From stdpp Require Import base list strings gmap fin_maps relations.
From S2P Require Import Prelude Wire Codec Message ChannelErrors.
Local Open Scope Z_scope.
Local Open Scope io_scope.

(** ** tokio's [copy]

    Copies bytes from the front of a source, or of [source.take(n)], to a writer
    and returns their number: all there are up to the limit. *)
Class IoCopy := copy_limit : option Z → Io (Reader * Writer) ErrorKind Z.
Definition copy `{IoCopy} : Io (Reader * Writer) ErrorKind Z := copy_limit None.
Definition copy_take `{IoCopy} (n : Z) : Io (Reader * Writer) ErrorKind Z := copy_limit (Some n).

Definition limited (l : option Z) (bs : list byte) : list byte :=
  match l with Some n => take (Z.to_nat n) bs | None => bs end.

Class IoCopyLaws `{IoCopy} : Prop := {
  copy_limit_ok l src w src' w' k :
    copy_limit l (src, w) = ((src', w'), Ok k) →
    ∃ p, rd_buf src = p ++ rd_buf src' ∧ wr_out w' = wr_out w ++ p ∧
         k = byte_len p ∧ p = limited l (rd_buf src);
  copy_limit_prefix l src w src' w' x :
    copy_limit l (src, w) = ((src', w'), x) →
    ∃ p, wr_out w' = wr_out w ++ p ∧ p `prefix_of` limited l (rd_buf src);
  copy_limit_reliable l src w :
    wr_plan w = [] →
    (rd_end src = None ∨ ∃ n, l = Some n ∧ n ≤ byte_len (rd_buf src)) →
    ∃ s' k, copy_limit l (src, w) = (s', Ok k) ∧ wr_plan s'.2 = [];
  copy_limit_no_panic l s s' : copy_limit l s ≠ (s', Panic);
}.

(** ** Events *)

(** [reader] is the borrowed stream. *)
Record ChannelDataRead := MkChannelDataRead { remaining : Z }.

Record IncomingChannelRequest := MkIncomingChannelRequest {
  request_type : SshString;
  want_reply : bool;
}.

Record IncomingChannelNotice := MkIncomingChannelNotice { notice_type : SshString }.

Inductive ChannelResponder := MkChannelResponder.

Module channel_event.
Inductive ChannelEvent :=
| Data (data : ChannelDataRead)
| ExtendedData (data_type : Z) (data : ChannelDataRead)
| Request (request : IncomingChannelRequest)
| Success
| Failure
| Eof
| Close.
End channel_event.
Abbreviation ChannelEvent := channel_event.ChannelEvent.

Module reader_event.
Inductive ReaderEvent :=
| Data (data : ChannelDataRead)
| ExtendedData (data_type : Z) (data : ChannelDataRead)
| Notice (notice : IncomingChannelNotice)
| Success
| Failure
| Eof
| Close.
End reader_event.
Abbreviation ReaderEvent := reader_event.ReaderEvent.

(** ** The bounded data reader *)

(** A call of [poll_read] on the transport with room for [cap] bytes: pending,
    or ready with an error or with the bytes it put in the buffer. *)
Inductive PollRead :=
| Pending
| Ready (r : result (list byte) ErrorKind).

(** When the transport has nothing ready it is pending; otherwise it delivers
    up to [avail] bytes. *)
Definition reader_poll_read (avail cap : Z) (r : Reader) : Reader * PollRead :=
  if avail <=? 0 then (r, Pending)
  else let '(r', x) := read_some cap avail r in (r', Ready x).

Definition bytes_read (x : PollRead) : list byte :=
  match x with Ready (Ok bs) => bs | _ => [] end.

(** [ChannelDataRead::poll_read]; the state is the borrowed stream and the
    count, [avail] what the transport has ready. *)
Definition poll_read (avail cap : Z) (st : Reader * ChannelDataRead)
    : (Reader * ChannelDataRead) * PollRead :=
  let '(reader, self) := st in
  if remaining self =? 0 then (st, Ready (Ok []))
  else
    let max_read := Z.min (remaining self) cap in
    let '(reader, res) := reader_poll_read avail max_read reader in
    ((reader, MkChannelDataRead (remaining self - byte_len (bytes_read res))), res).

(** tokio's [read_exact] over a poll function: poll until [n] bytes have
    arrived. [sched] is what the transport has ready at each poll; [None] is
    a future that is still pending when the schedule ends. *)
Fixpoint read_exact_poll {S} (poll : Z → Z → S → S * PollRead) (sched : list Z)
    (n : Z) (got : list byte) (s : S) : S * option (result (list byte) ErrorKind) :=
  if n <=? byte_len got then (s, Some (Ok got)) else
  match sched with
  | [] => (s, None)
  | avail :: sched =>
    let '(s, x) := poll avail (n - byte_len got) s in
    match x with
    | Pending => read_exact_poll poll sched n got s
    | Ready (Ok []) => (s, Some (Err UnexpectedEof))
    | Ready (Ok bs) => read_exact_poll poll sched n (got ++ bs) s
    | Ready (Err e) => (s, Some (Err e))
    | Ready Panic => (s, Some Panic)
    end
  end.

(** [ChannelDataRead::read_all]. *)
Definition read_all (sched : list Z) (st : Reader * ChannelDataRead) :=
  read_exact_poll poll_read sched (remaining st.2) [] st.

(** ** SshChannelReader *)

Section operations.
Context `{VarIntCodec}.

(** The newtypes [SshChannelReader(R)] and [SshChannelWriter(W)]. *)
Abbreviation SshChannelReader := Reader.
Abbreviation SshChannelWriter := Writer.

Definition reader_next_event : Io SshChannelReader ReadChannelEventError ReaderEvent :=
  let! msg_type := decode_one Z <?> read_channel_event_error.DecodeMessageType in
  if msg_type =? SSH_MSG_CHANNEL_DATA then
    let! len := decode_one Z <?> read_channel_event_error.DecodeData in
    io_ret (reader_event.Data (MkChannelDataRead len))
  else if msg_type =? SSH_MSG_CHANNEL_EXTENDED_DATA then
    let! data_type := decode_one Z <?> read_channel_event_error.DecodeExtendedDataType in
    let! len := decode_one Z <?> read_channel_event_error.DecodeExtendedData in
    io_ret (reader_event.ExtendedData data_type (MkChannelDataRead len))
  else if msg_type =? SSH_MSG_CHANNEL_REQUEST then
    let! request_type := decode_one SshString <?> read_channel_event_error.DecodeRequestType in
    let! want_reply := decode_one SshBool <?> read_channel_event_error.DecodeWantReply in
    if ssh_bool want_reply
    then io_fail (read_channel_event_error.UnexpectedWantReply request_type)
    else io_ret (reader_event.Notice (MkIncomingChannelNotice request_type))
  else if msg_type =? SSH_MSG_CHANNEL_SUCCESS then io_ret reader_event.Success
  else if msg_type =? SSH_MSG_CHANNEL_FAILURE then io_ret reader_event.Failure
  else if msg_type =? SSH_MSG_CHANNEL_EOF then io_ret reader_event.Eof
  else if msg_type =? SSH_MSG_CHANNEL_CLOSE then io_ret reader_event.Close
  else io_fail (read_channel_event_error.UnexpectedMessageType msg_type).

(** ** SshChannelWriter *)

Definition data (bs : list byte) : Io SshChannelWriter WriteDataError () :=
  match varint_try_from (byte_len bs) with
  | None => io_panic  (* expect("data length exceeds VarInt range") *)
  | Some len =>
    encode_one SSH_MSG_CHANNEL_DATA <?> write_data_error.EncodeMessageType ;;;
    encode_one len <?> write_data_error.EncodeLength ;;;
    write_all bs <?> write_data_error.WritePayload ;;;
    flush <?> write_data_error.Flush
  end.

(** On the source and the channel writer. *)
Definition on_writer {A E} : Io Writer E A → Io (Reader * Writer) E A :=
  io_zoom snd (λ w s, (s.1, w)).

Definition data_from `{IoCopy} (length : Z) : Io (Reader * SshChannelWriter) WriteDataError () :=
  match varint_try_from length with
  | None => io_panic
  | Some len =>
    on_writer (encode_one SSH_MSG_CHANNEL_DATA <?> write_data_error.EncodeMessageType) ;;;
    on_writer (encode_one len <?> write_data_error.EncodeLength) ;;;
    let! copied := copy_take length <?> write_data_error.WritePayload in
    if copied =? length
    then on_writer (flush <?> write_data_error.Flush)
    else io_fail (write_data_error.ShortSource length copied)
  end.

Definition extended_data (data_type : Z) (bs : list byte)
    : Io SshChannelWriter WriteExtendedDataError () :=
  match varint_try_from (byte_len bs) with
  | None => io_panic
  | Some len =>
    encode_one SSH_MSG_CHANNEL_EXTENDED_DATA
      <?> write_extended_data_error.EncodeMessageType ;;;
    encode_one data_type <?> write_extended_data_error.EncodeDataType ;;;
    encode_one len <?> write_extended_data_error.EncodeLength ;;;
    write_all bs <?> write_extended_data_error.WritePayload ;;;
    flush <?> write_extended_data_error.Flush
  end.

Definition extended_data_from `{IoCopy} (data_type length : Z)
    : Io (Reader * SshChannelWriter) WriteExtendedDataError () :=
  match varint_try_from length with
  | None => io_panic
  | Some len =>
    on_writer (encode_one SSH_MSG_CHANNEL_EXTENDED_DATA
      <?> write_extended_data_error.EncodeMessageType) ;;;
    on_writer (encode_one data_type <?> write_extended_data_error.EncodeDataType) ;;;
    on_writer (encode_one len <?> write_extended_data_error.EncodeLength) ;;;
    let! copied := copy_take length <?> write_extended_data_error.WritePayload in
    if copied =? length
    then on_writer (flush <?> write_extended_data_error.Flush)
    else io_fail (write_extended_data_error.ShortSource length copied)
  end.

Definition eof : Io SshChannelWriter WriteChannelEofError () :=
  encode_one SSH_MSG_CHANNEL_EOF <?> write_channel_eof_error.EncodeMessageType ;;;
  flush <?> write_channel_eof_error.Flush.

Definition close : Io SshChannelWriter WriteChannelCloseError () :=
  encode_one SSH_MSG_CHANNEL_CLOSE <?> write_channel_close_error.EncodeMessageType ;;;
  flush <?> write_channel_close_error.Flush.

Definition notice {N Payload PE} `{NotifyChannelRequest N Payload, EncodeInto Payload PE}
    (n : N) : Io SshChannelWriter (SendChannelNoticeError PE) () :=
  encode_one SSH_MSG_CHANNEL_REQUEST <?> send_channel_notice_error.EncodeMessageType ;;;
  encode_one (channel_notice_type n) <?> send_channel_notice_error.EncodeRequestType ;;;
  encode_one (MkSshBool false) <?> send_channel_notice_error.EncodeWantReply ;;;
  encode_into (channel_notice_payload n) <?> send_channel_notice_error.EncodePayload ;;;
  flush <?> send_channel_notice_error.Flush.

(** ** SshChannel *)

Record SshChannel := new_channel { reader : SshChannelReader; writer : SshChannelWriter }.

Definition into_inner (c : SshChannel) : Reader * Writer := (reader c, writer c).
Definition into_split (c : SshChannel) : SshChannelReader * SshChannelWriter :=
  (reader c, writer c).

Definition with_reader {A E} : Io Reader E A → Io SshChannel E A :=
  io_zoom reader (λ r c, new_channel r (writer c)).
Definition with_writer {A E} : Io Writer E A → Io SshChannel E A :=
  io_zoom writer (λ w c, new_channel (reader c) w).

Definition next_event : Io SshChannel ReadChannelEventError ChannelEvent :=
  let! msg_type := with_reader (decode_one Z <?> read_channel_event_error.DecodeMessageType) in
  if msg_type =? SSH_MSG_CHANNEL_DATA then
    let! len := with_reader (decode_one Z <?> read_channel_event_error.DecodeData) in
    io_ret (channel_event.Data (MkChannelDataRead len))
  else if msg_type =? SSH_MSG_CHANNEL_EXTENDED_DATA then
    let! data_type :=
      with_reader (decode_one Z <?> read_channel_event_error.DecodeExtendedDataType) in
    let! len := with_reader (decode_one Z <?> read_channel_event_error.DecodeExtendedData) in
    io_ret (channel_event.ExtendedData data_type (MkChannelDataRead len))
  else if msg_type =? SSH_MSG_CHANNEL_REQUEST then
    let! request_type :=
      with_reader (decode_one SshString <?> read_channel_event_error.DecodeRequestType) in
    let! want_reply :=
      with_reader (decode_one SshBool <?> read_channel_event_error.DecodeWantReply) in
    io_ret (channel_event.Request
              (MkIncomingChannelRequest request_type (ssh_bool want_reply)))
  else if msg_type =? SSH_MSG_CHANNEL_SUCCESS then io_ret channel_event.Success
  else if msg_type =? SSH_MSG_CHANNEL_FAILURE then io_ret channel_event.Failure
  else if msg_type =? SSH_MSG_CHANNEL_EOF then io_ret channel_event.Eof
  else if msg_type =? SSH_MSG_CHANNEL_CLOSE then io_ret channel_event.Close
  else io_fail (read_channel_event_error.UnexpectedMessageType msg_type).

Definition channel_data (bs : list byte) : Io SshChannel WriteDataError () :=
  with_writer (data bs).
Definition channel_extended_data (data_type : Z) (bs : list byte)
    : Io SshChannel WriteExtendedDataError () := with_writer (extended_data data_type bs).
Definition channel_eof : Io SshChannel WriteChannelEofError () := with_writer eof.
Definition channel_close : Io SshChannel WriteChannelCloseError () := with_writer close.
Definition channel_notice {N Payload PE}
    `{NotifyChannelRequest N Payload, EncodeInto Payload PE} (n : N)
    : Io SshChannel (SendChannelNoticeError PE) () := with_writer (notice n).

(** The source and the writer half, as the writer's method borrows them. *)
Definition with_source {A E} : Io (Reader * Writer) E A → Io (Reader * SshChannel) E A :=
  io_zoom (λ s, (s.1, writer s.2)) (λ sw s, (sw.1, new_channel (reader s.2) sw.2)).
Definition channel_data_from `{IoCopy} (length : Z)
    : Io (Reader * SshChannel) WriteDataError () := with_source (data_from length).
Definition channel_extended_data_from `{IoCopy} (data_type length : Z)
    : Io (Reader * SshChannel) WriteExtendedDataError () :=
  with_source (extended_data_from data_type length).

(** What [request] writes before it waits for the response. *)
Definition request_send {Rq Success Payload PE SE}
    `{WantReplyChannelRequest Rq Success Payload, EncodeInto Payload PE}
    (rq : Rq) : Io Writer (SendChannelRequestError PE SE) () :=
  encode_one SSH_MSG_CHANNEL_REQUEST <?> send_channel_request_error.EncodeMessageType ;;;
  encode_one (channel_request_type rq) <?> send_channel_request_error.EncodeRequestType ;;;
  encode_one (MkSshBool true) <?> send_channel_request_error.EncodeWantReply ;;;
  encode_into (channel_payload rq) <?> send_channel_request_error.EncodePayload ;;;
  flush <?> send_channel_request_error.Flush.

(** How it reads the response. *)
Definition request_receive {Success PE SE} `{DecodeFrom Success SE}
    : Io Reader (SendChannelRequestError PE SE) Success :=
  let! msg_type := decode_one Z <?> send_channel_request_error.DecodeResponseType in
  if msg_type =? SSH_MSG_CHANNEL_SUCCESS then
    decode_from Success <?> send_channel_request_error.DecodeSuccess
  else if msg_type =? SSH_MSG_CHANNEL_FAILURE then
    io_fail send_channel_request_error.Rejected
  else io_fail (send_channel_request_error.UnexpectedResponseType msg_type).

Definition request {Rq Success Payload PE SE}
    `{WantReplyChannelRequest Rq Success Payload, EncodeInto Payload PE,
      DecodeFrom Success SE} (rq : Rq)
    : Io SshChannel (SendChannelRequestError PE SE) Success :=
  with_writer (request_send rq) ;;;
  with_reader request_receive.

(** ** Payloads and responses *)

Definition request_decode_payload (T : Type) {DE} `{DecodeFrom T DE}
    (self : IncomingChannelRequest) : Io SshChannel DE (T * option ChannelResponder) :=
  let! value := with_reader (decode_from T) in
  io_ret (value, if want_reply self then Some MkChannelResponder else None).

Definition notice_decode_payload (T : Type) {DE} `{DecodeFrom T DE}
    (self : IncomingChannelNotice) : Io SshChannelReader DE T := decode_from T.

Definition respond_success {P RE} `{EncodeInto P RE} (self : ChannelResponder) (response : P)
    : Io Writer (RespondChannelSuccessError RE) () :=
  encode_one SSH_MSG_CHANNEL_SUCCESS <?> respond_channel_success_error.EncodeMessageType ;;;
  encode_into response <?> respond_channel_success_error.EncodePayload ;;;
  flush <?> respond_channel_success_error.Flush.

Definition respond_failure (self : ChannelResponder)
    : Io Writer RespondChannelFailureError () :=
  encode_one SSH_MSG_CHANNEL_FAILURE <?> respond_channel_failure_error.EncodeMessageType ;;;
  flush <?> respond_channel_failure_error.Flush.

(** ** Incoming and pending channels *)

Record IncomingChannel := MkIncomingChannel {
  channel_type_name : SshString;
  max_message_size : Z;
  incoming_reader : Reader;
  incoming_writer : Writer;
}.

Record PendingChannel := from_raw_parts { pending_reader : Reader; pending_writer : Writer }.

Definition decode_payload (T : Type) {DE} `{DecodeFrom T DE} (self : IncomingChannel)
    : result (T * PendingChannel) DE :=
  let '(r, x) := decode_from T (incoming_reader self) in
  match x with
  | Ok value => Ok (value, from_raw_parts r (incoming_writer self))
  | Err e => Err e
  | Panic => Panic
  end.

Definition skip_payload (self : IncomingChannel) : PendingChannel :=
  from_raw_parts (incoming_reader self) (incoming_writer self).

Definition into_raw_parts (self : IncomingChannel) : Reader * Writer :=
  (incoming_reader self, incoming_writer self).

(** [accept] and [reject] consume the pending channel; the transport keeps
    what they wrote. *)
Definition accept_send (max_message_size : Z)
    : Io Writer WriteChannelOpenConfirmationError () :=
  encode_one SSH_MSG_CHANNEL_OPEN_CONFIRMATION
    <?> write_channel_open_confirmation_error.EncodeMessageType ;;;
  encode_one max_message_size
    <?> write_channel_open_confirmation_error.EncodeMaxMessageSize ;;;
  flush <?> write_channel_open_confirmation_error.Flush.

Definition accept (self : PendingChannel) (max_message_size : Z)
    : Writer * result SshChannel WriteChannelOpenConfirmationError :=
  let '(w, x) := accept_send max_message_size (pending_writer self) in
  (w, match x with
      | Ok _ => Ok (new_channel (pending_reader self) w)
      | Err e => Err e
      | Panic => Panic
      end).

Definition reject (reason_code : Z) (description : SshString)
    : Io Writer WriteChannelOpenFailureError () :=
  encode_one SSH_MSG_CHANNEL_OPEN_FAILURE
    <?> write_channel_open_failure_error.EncodeMessageType ;;;
  encode_one reason_code <?> write_channel_open_failure_error.EncodeReasonCode ;;;
  encode_one description <?> write_channel_open_failure_error.EncodeDescription ;;;
  flush <?> write_channel_open_failure_error.Flush.
End operations.

(** ** A client of the channel: streams of frames *)

(** What one writer operation sends, and the reader's loop that takes it back:
    data is read to its end, a notice's payload is decoded as a [P]. *)
Inductive Frame (P : Type) :=
| FData (bs : list byte)
| FExtended (data_type : Z) (bs : list byte)
| FNotice (name : SshString) (payload : P)
| FEof
| FClose.
Arguments FData {P}.
Arguments FExtended {P}.
Arguments FNotice {P}.
Arguments FEof {P}.
Arguments FClose {P}.

#[export] Instance frame_notice P : NotifyChannelRequest (SshString * P) P :=
  {| channel_notice_type := fst; channel_notice_payload := snd |}.

Section frames.
Context `{VarIntCodec} {P PEe PEd : Type} `{EncodeInto P PEe, DecodeFrom P PEd}.

Definition send_frame (f : Frame P) : Io Writer () () :=
  match f with
  | FData bs => data bs <?> λ _, ()
  | FExtended t bs => extended_data t bs <?> λ _, ()
  | FNotice name payload => notice (name, payload) <?> λ _, ()
  | FEof => eof <?> λ _, ()
  | FClose => close <?> λ _, ()
  end.

Definition recv_frame : Io Reader () (Frame P) :=
  let! ev := reader_next_event <?> λ _, () in
  match ev with
  | reader_event.Data d =>
    let! bs := read_exact (remaining d) <?> λ _, () in io_ret (FData bs)
  | reader_event.ExtendedData t d =>
    let! bs := read_exact (remaining d) <?> λ _, () in io_ret (FExtended t bs)
  | reader_event.Notice n =>
    let! payload := notice_decode_payload P n <?> λ _, () in
    io_ret (FNotice (notice_type n) payload)
  | reader_event.Eof => io_ret FEof
  | reader_event.Close => io_ret FClose
  | reader_event.Success | reader_event.Failure => io_fail ()
  end.
End frames.

(** ** Lemmas: the bytes of each message *)

Section wire_lemmas.
Context `{VarIntLaws}.

Definition msg (v : Z) : list byte := varint_bytes v.
Definition data_wire (bs : list byte) : list byte :=
  msg SSH_MSG_CHANNEL_DATA ++ varint_bytes (byte_len bs) ++ bs.
Definition extended_data_wire (t : Z) (bs : list byte) : list byte :=
  msg SSH_MSG_CHANNEL_EXTENDED_DATA ++ varint_bytes t ++ varint_bytes (byte_len bs) ++ bs.
Definition request_wire (name : SshString) (want_reply : bool) (payload : list byte) :=
  msg SSH_MSG_CHANNEL_REQUEST ++ field_wire (ssh_string_bytes name) ++
  [if want_reply then x01 else x00] ++ payload.

Lemma encode_string_writes s :
  ssh_string_ok s → writes (encode_into s) (field_wire (ssh_string_bytes s)) ().
Proof. apply (wire_encode (WireFormat := SshString_wire)). Qed.
Lemma decode_string_reads s :
  ssh_string_ok s → reads (decode_from SshString) (field_wire (ssh_string_bytes s)) s.
Proof. apply (wire_decode (WireFormat := SshString_wire)). Qed.
Lemma encode_bool_writes (b : bool) :
  writes (encode_into (MkSshBool b)) [if b then x01 else x00] ().
Proof. by apply (wire_encode (WireFormat := SshBool_wire) (MkSshBool b)). Qed.
Lemma decode_bool_reads (b : bool) :
  reads (decode_from SshBool) [if b then x01 else x00] (MkSshBool b).
Proof. by apply (wire_decode (WireFormat := SshBool_wire) (MkSshBool b)). Qed.
Lemma encode_bool_field b : writes (encode_into b) [if ssh_bool b then x01 else x00] ().
Proof. destruct b. apply encode_bool_writes. Qed.
Lemma decode_bool_field b : reads (decode_from SshBool) [if ssh_bool b then x01 else x00] b.
Proof. destruct b. apply decode_bool_reads. Qed.
Lemma encode_bytes_writes s :
  byte_len (ssh_bytes s) ≤ MAX_REMOTE_FIELD_SIZE →
  writes (encode_into s) (field_wire (ssh_bytes s)) ().
Proof. apply (wire_encode (WireFormat := SshBytes_wire)). Qed.
Lemma decode_bytes_reads s :
  byte_len (ssh_bytes s) ≤ MAX_REMOTE_FIELD_SIZE →
  reads (decode_from SshBytes) (field_wire (ssh_bytes s)) s.
Proof. apply (wire_decode (WireFormat := SshBytes_wire)). Qed.
Lemma decode_bytes_decoder : decoder (decode_from SshBytes).
Proof. apply (wire_decoder (WireFormat := SshBytes_wire)). Qed.
Lemma encode_varint_writes v : varint_ok v → writes (encode_into v) (varint_bytes v) ().
Proof. apply varint_write_spec. Qed.
Lemma decode_varint_reads v : varint_ok v → reads (decode_from Z) (varint_bytes v) v.
Proof. apply varint_read_spec. Qed.
Lemma decode_varint_decoder : decoder (decode_from Z).
Proof. apply varint_read_decoder. Qed.
Lemma decode_string_decoder : decoder (decode_from SshString).
Proof. apply (wire_decoder (WireFormat := SshString_wire)). Qed.
Lemma decode_bool_decoder : decoder (decode_from SshBool).
Proof. apply (wire_decoder (WireFormat := SshBool_wire)). Qed.

Lemma byte_len_ok bs : byte_len bs < VARINT_LIMIT → varint_ok (byte_len bs).
Proof. unfold varint_ok, byte_len. lia. Qed.
End wire_lemmas.

#[export] Hint Resolve encode_bool_field decode_bool_field encode_bytes_writes
  decode_bytes_reads decode_bytes_decoder : wire.
#[export] Hint Resolve encode_string_writes decode_string_reads encode_bool_writes
  decode_bool_reads encode_varint_writes decode_varint_reads decode_varint_decoder
  decode_string_decoder decode_bool_decoder : wire.

(** Follow an encoder step by step; the leaves by the [wire] hints. *)
Ltac solve_writes := repeat writes_step.

Section writer_lemmas.
Context `{VarIntLaws}.

Lemma data_writes bs : byte_len bs < VARINT_LIMIT → writes (data bs) (data_wire bs) ().
Proof.
  intros Hl. unfold data, data_wire, msg. rewrite varint_try_from_ok by done.
  pose proof (byte_len_ok _ Hl).
  solve_writes.
Qed.

Lemma extended_data_writes t bs :
  varint_ok t → byte_len bs < VARINT_LIMIT →
  writes (extended_data t bs) (extended_data_wire t bs) ().
Proof.
  intros Ht Hl. unfold extended_data, extended_data_wire, msg.
  rewrite varint_try_from_ok by done.
  pose proof (byte_len_ok _ Hl).
  solve_writes.
Qed.

Lemma eof_writes : writes eof (msg SSH_MSG_CHANNEL_EOF) ().
Proof. unfold eof, msg. solve_writes. Qed.
Lemma close_writes : writes close (msg SSH_MSG_CHANNEL_CLOSE) ().
Proof. unfold close, msg. solve_writes. Qed.

Lemma notice_writes {N P PEe} `{NotifyChannelRequest N P, EncodeInto P PEe} (n : N) pbs :
  ssh_string_ok (channel_notice_type n) →
  writes (encode_into (channel_notice_payload n)) pbs () →
  writes (notice n) (request_wire (channel_notice_type n) false pbs) ().
Proof. intros. unfold notice, request_wire, msg. solve_writes. Qed.

Lemma request_send_writes {Rq Su P PEe SE} `{WantReplyChannelRequest Rq Su P, EncodeInto P PEe}
    (rq : Rq) pbs :
  ssh_string_ok (channel_request_type rq) →
  writes (encode_into (channel_payload rq)) pbs () →
  writes (request_send (SE := SE) rq) (request_wire (channel_request_type rq) true pbs) ().
Proof. intros. unfold request_send, request_wire, msg. solve_writes. Qed.

Lemma respond_success_writes {P RE} `{EncodeInto P RE} self (p : P) pbs :
  writes (encode_into p) pbs () →
  writes (respond_success self p) (msg SSH_MSG_CHANNEL_SUCCESS ++ pbs) ().
Proof. intros. unfold respond_success, msg. solve_writes. Qed.

Lemma respond_failure_writes self : writes (respond_failure self) (msg SSH_MSG_CHANNEL_FAILURE) ().
Proof. unfold respond_failure, msg. solve_writes. Qed.

Lemma accept_send_writes m :
  varint_ok m →
  writes (accept_send m) (msg SSH_MSG_CHANNEL_OPEN_CONFIRMATION ++ varint_bytes m) ().
Proof. intros. unfold accept_send, msg. solve_writes. Qed.

Lemma reject_writes c d :
  varint_ok c → ssh_string_ok d →
  writes (reject c d) (msg SSH_MSG_CHANNEL_OPEN_FAILURE ++ varint_bytes c ++
                       field_wire (ssh_string_bytes d)) ().
Proof. intros. unfold reject, msg. solve_writes. Qed.
End writer_lemmas.

(** ** Lemmas: reading events *)

(** Follow a decoder whose branches test message numbers. *)
Ltac solve_reads := repeat (eval_eqb; reads_step).

(** The laws of a payload made of fields. *)
Ltac term_head t := lazymatch t with ?f _ => term_head f | _ => t end.
Ltac solve_wire :=
  try (intros [] ?); repeat match goal with b : SshBool |- _ => destruct b end;
  with_strategy opaque [app from_static] (simpl in * ); destruct_and?;
  lazymatch goal with
  | |- writes (@encode_into _ _ ?i ?x) ?bs ?u =>
    let h := term_head i in
    change (writes (i x) bs u); unfold h; with_strategy opaque [app from_static] simpl; unfold ssh_string_from;
    repeat match goal with |- context [MkSshString (str_bytes ?s)] =>
      change (MkSshString (str_bytes s)) with (from_static s) end;
    solve_writes
  | |- reads (@decode_from _ _ ?i) ?bs ?x =>
    let h := term_head i in change (reads i bs x); unfold h; solve_reads
  | |- decoder (@decode_from _ _ ?i) =>
    let h := term_head i in change (decoder i); unfold h; solve_decoder
  end.

Lemma reads_map_err_fail {E E' A B} (c : Io Reader E A) (k : A → Io Reader E' B) f bs a b :
  reads c bs a → reads (k a) [] b → reads (let! x := c <?> f in k x) bs b.
Proof. intros. eapply reads_bind_last; eauto with wire. Qed.

Section reader_lemmas.
Context `{VarIntLaws}.

Lemma next_data_reads n :
  varint_ok n →
  reads reader_next_event (msg SSH_MSG_CHANNEL_DATA ++ varint_bytes n)
    (reader_event.Data (MkChannelDataRead n)).
Proof. intros. unfold reader_next_event, msg. solve_reads. Qed.

Lemma next_extended_data_reads t n :
  varint_ok t → varint_ok n →
  reads reader_next_event
    (msg SSH_MSG_CHANNEL_EXTENDED_DATA ++ varint_bytes t ++ varint_bytes n)
    (reader_event.ExtendedData t (MkChannelDataRead n)).
Proof. intros. unfold reader_next_event, msg. solve_reads. Qed.

Lemma next_notice_reads name :
  ssh_string_ok name →
  reads reader_next_event
    (msg SSH_MSG_CHANNEL_REQUEST ++ field_wire (ssh_string_bytes name) ++ [x00])
    (reader_event.Notice (MkIncomingChannelNotice name)).
Proof.
  intros. unfold reader_next_event, msg. eapply reads_bind; [eauto with wire|]. eval_eqb.
  eapply reads_bind; [eauto with wire|].
  eapply reads_bind_last; [apply reads_map_err, (decode_bool_reads false)|]. apply reads_ret.
Qed.

Lemma next_eof_reads : reads reader_next_event (msg SSH_MSG_CHANNEL_EOF) reader_event.Eof.
Proof.
  unfold reader_next_event, msg. eapply reads_bind_last; [eauto with wire|]. solve_reads.
Qed.
Lemma next_close_reads : reads reader_next_event (msg SSH_MSG_CHANNEL_CLOSE) reader_event.Close.
Proof.
  unfold reader_next_event, msg. eapply reads_bind_last; [eauto with wire|]. solve_reads.
Qed.

Lemma reader_next_event_decoder : decoder reader_next_event.
Proof. unfold reader_next_event. solve_decoder. Qed.
End reader_lemmas.

#[export] Hint Resolve next_data_reads next_extended_data_reads next_notice_reads
  next_eof_reads next_close_reads reader_next_event_decoder : wire.

Section frame_lemmas.
Context `{VarIntLaws} {P PEe PEd : Type} `{EncodeInto P PEe, DecodeFrom P PEd}.
Context `{!WireFormat P}.

Definition frame_wire (f : Frame P) : list byte :=
  match f with
  | FData bs => data_wire bs
  | FExtended t bs => extended_data_wire t bs
  | FNotice name payload => request_wire name false (wire payload)
  | FEof => msg SSH_MSG_CHANNEL_EOF
  | FClose => msg SSH_MSG_CHANNEL_CLOSE
  end.

Definition frame_ok (f : Frame P) : Prop :=
  match f with
  | FData bs => byte_len bs < VARINT_LIMIT
  | FExtended t bs => varint_ok t ∧ byte_len bs < VARINT_LIMIT
  | FNotice name payload => ssh_string_ok name ∧ wire_ok payload
  | FEof | FClose => True
  end.

Lemma send_frame_writes f : frame_ok f → writes (send_frame f) (frame_wire f) ().
Proof.
  destruct f as [bs|t bs|name payload| |]; simpl; intros Hok; apply writes_map_err.
  - by apply data_writes.
  - destruct Hok. by apply extended_data_writes.
  - destruct Hok as [Hn Hp].
    exact (notice_writes (N := SshString * P) (name, payload) _ Hn (wire_encode payload Hp)).
  - apply eof_writes.
  - apply close_writes.
Qed.

Lemma read_data_reads {A} n bs (k : list byte → Io Reader () A) a :
  n = byte_len bs → reads (k bs) [] a →
  reads (let! bs := read_exact n <?> λ _, () in k bs) bs a.
Proof.
  intros -> Hk. eapply reads_bind_last; [|done]. by apply reads_map_err, reads_read_exact.
Qed.

Lemma recv_frame_reads f : frame_ok f → reads recv_frame (frame_wire f) f.
Proof.
  unfold recv_frame.
  destruct f as [bs|t bs|name payload| |]; simpl; intros Hok.
  - unfold data_wire. rewrite (assoc_L (++)).
    eapply reads_bind; [by apply reads_map_err, next_data_reads, byte_len_ok|].
    apply read_data_reads; [done|apply reads_ret].
  - destruct Hok. unfold extended_data_wire. rewrite !(assoc_L (++)), <- (assoc_L (++) (msg _)).
    eapply reads_bind; [by apply reads_map_err, next_extended_data_reads, byte_len_ok|].
    apply read_data_reads; [done|apply reads_ret].
  - destruct Hok. unfold request_wire. rewrite !(assoc_L (++)), <- (assoc_L (++) (msg _)).
    eapply reads_bind; [by apply reads_map_err, next_notice_reads|].
    eapply reads_bind_last; [by apply reads_map_err, wire_decode|apply reads_ret].
  - eapply reads_bind_last; [apply reads_map_err, next_eof_reads|apply reads_ret].
  - eapply reads_bind_last; [apply reads_map_err, next_close_reads|apply reads_ret].
Qed.

Lemma recv_frame_decoder : decoder (recv_frame (P := P)).
Proof.
  unfold recv_frame, notice_decode_payload.
  apply decoder_bind; [by apply decoder_map_err, reader_next_event_decoder|].
  intros [?|??|?| | | |]; try apply decoder_bind; eauto with wire.
Qed.
End frame_lemmas.

(** ** Lemmas: the bounded reader *)

Section data_read_lemmas.
Lemma read_some_spec cap avail r r' x :
  0 < cap → 0 < avail → read_some cap avail r = (r', x) →
  match x with
  | Ok [] => r' = r ∧ rd_buf r = [] ∧ rd_end r = None
  | Ok bs => rd_buf r = bs ++ rd_buf r' ∧ rd_end r' = rd_end r ∧ byte_len bs ≤ cap
  | Err e => r' = r ∧ rd_buf r = [] ∧ rd_end r = Some e
  | Panic => False
  end.
Proof.
  intros Hc Ha. destruct r as [[|b bs] fin]; unfold read_some; simpl.
  - destruct fin as [e|]; [destruct (Z.leb_spec cap 0); [lia|]|]; intros; by simplify_eq.
  - set (n := Z.to_nat (Z.min cap (Z.max 1 avail))).
    assert (0 < n)%nat as Hn by (unfold n; lia).
    destruct n as [|n'] eqn:En; [lia|]. intros. simplify_eq/=.
    split_and!; [by rewrite take_drop|done|].
    unfold byte_len. simpl. rewrite length_take. lia.
Qed.

(** One poll moves bytes from the stream to the buffer and the count. *)
Lemma poll_read_spec avail cap r d st' x :
  0 < cap → 0 ≤ remaining d → poll_read avail cap (r, d) = (st', x) →
  rd_buf r = bytes_read x ++ rd_buf st'.1 ∧ rd_end st'.1 = rd_end r ∧
  remaining st'.2 = remaining d - byte_len (bytes_read x) ∧ 0 ≤ remaining st'.2 ∧
  byte_len (bytes_read x) ≤ cap ∧
  match x with
  | Pending => avail ≤ 0
  | Ready (Ok []) => remaining d = 0 ∨ rd_buf r = [] ∧ rd_end r = None
  | Ready (Ok _) => True
  | Ready (Err e) => rd_buf r = [] ∧ rd_end r = Some e
  | Ready Panic => False
  end.
Proof.
  intros Hcap Hrem. unfold poll_read. destruct (Z.eqb_spec (remaining d) 0) as [Hz|Hz].
  { intros. simplify_eq/=. unfold byte_len. simpl. split_and!; try lia; auto. }
  unfold reader_poll_read. destruct (Z.leb_spec avail 0).
  { intros. simplify_eq/=. unfold byte_len. simpl. split_and!; try lia; auto. }
  destruct (read_some _ avail r) as [r1 y] eqn:Hr. intros. simplify_eq/=.
  apply read_some_spec in Hr; [|lia..]. unfold byte_len in *.
  destruct y as [[|b bs]|e|]; simpl in *; [|..|done]; destruct_and!; subst;
    split_and!; simpl; auto; try lia; done.
Qed.

Lemma read_exact_empty n r :
  rd_buf r = [] → 0 < n → read_exact n r = (r, Err (default UnexpectedEof (rd_end r))).
Proof.
  destruct r as [buf fin]. unfold read_exact. simpl. intros -> ?. simpl.
  by destruct (Z.ltb_spec (Z.of_nat 0) n); [|lia].
Qed.

Lemma read_exact_poll_done r d got (st' : Reader * ChannelDataRead) x :
  0 ≤ remaining d → remaining d + Z.of_nat (length got) ≤ Z.of_nat (length got) →
  ((r, d), Some (Ok got)) = (st', Some x) →
  (st'.1, x) = (let '(r', y) := read_exact (remaining d) r in
                (r', match y with Ok bs => Ok (got ++ bs) | Err e => Err e | Panic => Panic end))
  ∧ (is_ok x = true → remaining st'.2 = 0).
Proof.
  intros ? ? ?. simplify_eq/=. assert (remaining d = 0) as -> by lia. unfold read_exact.
  destruct (Z.ltb_spec (Z.of_nat (length (rd_buf r))) 0); [lia|].
  rewrite app_nil_r. by destruct r.
Qed.

(** However the transport chops the data, a completed [read_exact] loop over
    [poll_read] is [read_exact] on the stream. *)
Lemma read_exact_poll_eq sched r d got st' x :
  0 ≤ remaining d →
  read_exact_poll poll_read sched (remaining d + byte_len got) got (r, d) = (st', Some x) →
  (st'.1, x) = (let '(r', y) := read_exact (remaining d) r in
                (r', match y with Ok bs => Ok (got ++ bs) | Err e => Err e | Panic => Panic end))
  ∧ (is_ok x = true → remaining st'.2 = 0).
Proof.
  revert r d got. induction sched as [|avail sched IH]; intros r d got Hrem;
    cbn [read_exact_poll]; unfold byte_len in *;
    (destruct (Z.leb_spec (remaining d + Z.of_nat (length got)) (Z.of_nat (length got)));
     [by apply read_exact_poll_done|]); [done|].
  destruct (poll_read avail _ (r, d)) as [[r1 d1] y] eqn:Hp.
  apply poll_read_spec in Hp as (Hb & He & Hd & Hd0 & Hc & Hy); [|lia..]. simpl in *.
  unfold byte_len in *.
  destruct y as [|[[|b bs]|e|]]; simpl in *; [| | | |done].
  - intros Hrun. assert (d1 = d) as -> by (destruct d, d1; f_equal; simpl in *; lia).
    assert (r1 = r) as -> by (destruct r, r1; simpl in *; congruence). by apply IH in Hrun.
  - intros. simplify_eq/=. destruct Hy as [?|[Hy1 Hy2]]; [lia|].
    assert (r1 = r) as -> by (destruct r, r1; simpl in *; congruence).
    rewrite read_exact_empty, Hy2 by (done || lia). done.
  - intros Hrun. replace (remaining d + _)
      with (remaining d1 + Z.of_nat (length (got ++ b :: bs))) in Hrun
      by (rewrite length_app; simpl; lia).
    apply IH in Hrun as [Hrun ?]; [|done]. split; [|done]. rewrite Hrun.
    unfold read_exact. rewrite Hb, He. cbn [length]. rewrite length_app.
    assert (Z.to_nat (remaining d) = S (length bs) + Z.to_nat (remaining d1))%nat as Hn by lia.
    destruct (Z.ltb_spec (Z.of_nat (length (rd_buf r1))) (remaining d1)),
      (Z.ltb_spec (Z.of_nat (S (length bs + length (rd_buf r1)))) (remaining d)); try lia; [done|].
    rewrite Hn. simpl. rewrite take_app_add, drop_app_add. by rewrite <- (assoc_L (++)).
  - intros. simplify_eq/=. destruct Hy as [Hy1 Hy2].
    assert (r1 = r) as -> by (destruct r, r1; simpl in *; congruence).
    rewrite read_exact_empty, Hy2 by (done || lia). done.
Qed.
End data_read_lemmas.

(** Enough polls that deliver something complete the loop. *)
Definition deliveries (sched : list Z) : Z :=
  Z.of_nat (length (filter (λ avail, 0 < avail) sched)).

Lemma read_exact_poll_completes sched r d got :
  0 ≤ remaining d ≤ deliveries sched →
  ∃ st' x, read_exact_poll poll_read sched (remaining d + byte_len got) got (r, d)
           = (st', Some x).
Proof.
  revert r d got. unfold deliveries, byte_len.
  induction sched as [|avail sched IH]; intros r d got Hd; cbn [read_exact_poll]; unfold byte_len.
  all: destruct (Z.leb_spec (remaining d + Z.of_nat (length got)) (Z.of_nat (length got)));
    [eauto|].
  { simpl in Hd. lia. }
  destruct (poll_read avail _ (r, d)) as [[r1 d1] y] eqn:Hp.
  apply poll_read_spec in Hp as (_ & _ & Hd1 & Hd0 & Hc & Hy); [|lia..]. simpl in *.
  unfold byte_len in *. rewrite filter_cons in Hd.
  destruct y as [|[[|b bs]|e|]]; simpl in *; eauto.
  - destruct (decide (0 < avail)); [lia|].
    replace (remaining d) with (remaining d1) by lia. apply IH. lia.
  - replace (remaining d + _) with (remaining d1 + Z.of_nat (length (got ++ b :: bs)))
      by (rewrite length_app; simpl; lia).
    apply IH. destruct (decide (0 < avail)); simpl in Hd; lia.
Qed.

Lemma with_reader_run {A E} (c : Io Reader E A) ch r' x :
  c (reader ch) = (r', x) → with_reader c ch = (new_channel r' (writer ch), x).
Proof. unfold with_reader, io_zoom. by intros ->. Qed.
Lemma with_writer_run {A E} (c : Io Writer E A) ch w' x :
  c (writer ch) = (w', x) → with_writer c ch = (new_channel (reader ch) w', x).
Proof. unfold with_writer, io_zoom. by intros ->. Qed.

(** ** Lemmas: the unsplit channel follows its reader half *)

(** What the unsplit channel makes of an event of the reader half. *)
Definition as_channel_event (x : result ReaderEvent ReadChannelEventError)
    : result ChannelEvent ReadChannelEventError :=
  match x with
  | Ok (reader_event.Data d) => Ok (channel_event.Data d)
  | Ok (reader_event.ExtendedData t d) => Ok (channel_event.ExtendedData t d)
  | Ok (reader_event.Notice n) =>
    Ok (channel_event.Request (MkIncomingChannelRequest (notice_type n) false))
  | Ok reader_event.Success => Ok channel_event.Success
  | Ok reader_event.Failure => Ok channel_event.Failure
  | Ok reader_event.Eof => Ok channel_event.Eof
  | Ok reader_event.Close => Ok channel_event.Close
  | Err (read_channel_event_error.UnexpectedWantReply t) =>
    Ok (channel_event.Request (MkIncomingChannelRequest t true))
  | Err e => Err e
  | Panic => Panic
  end.

(** [c] is [c'] on the channel's reader, its result translated by [f]. *)
Definition follows {E A B} (f : result B E → result A E)
    (c : Io SshChannel E A) (c' : Io Reader E B) : Prop :=
  ∀ ch, c ch = (new_channel (c' (reader ch)).1 (writer ch), f (c' (reader ch)).2).

Lemma follows_bind {E E' A B X} (f : result B E → result A E) (c : Io Reader E' X)
    (g : E' → E) (k : X → Io SshChannel E A) (k' : X → Io Reader E B) :
  (∀ e, f (Err (g e)) = Err (g e)) → f Panic = Panic → (∀ a, follows f (k a) (k' a)) →
  follows f (io_bind (with_reader (c <?> g)) k) (io_bind (c <?> g) k').
Proof.
  intros Hf Hp Hk [r w]. unfold io_bind, with_reader, io_zoom, map_err. simpl.
  destruct (c r) as [r1 [a|e|]]; simpl; [|by rewrite Hf|by rewrite Hp].
  apply (Hk a (new_channel r1 w)).
Qed.

Lemma follows_ret {E A B} (f : result B E → result A E) (a : result A E) (b : result B E) :
  f b = a → follows f (io_lift a) (io_lift b).
Proof. intros <- [r w]. done. Qed.

Lemma next_event_follows `{VarIntCodec} : follows as_channel_event next_event reader_next_event.
Proof.
  unfold next_event, reader_next_event.
  repeat (apply follows_bind; [done..|intros]); repeat case_match;
    repeat (apply follows_bind; [done..|intros]); try by apply follows_ret.
  case_match; by destruct a0 as [[]]; try apply follows_ret.
Qed.

(** ** Lemmas: requests *)

Section request_lemmas.
Context `{VarIntLaws}.

(** [next_event] on the wire image of a request. *)
Lemma next_request_run name (want : bool) rest fin w :
  ssh_string_ok name →
  next_event (new_channel (MkReader (request_wire name want [] ++ rest) fin) w)
  = (new_channel (MkReader rest fin) w,
     Ok (channel_event.Request (MkIncomingChannelRequest name want))).
Proof.
  intros Hn. unfold next_event, request_wire. rewrite app_nil_r, <- !(assoc_L (++)).
  erewrite io_bind_ok.
  2:{ apply with_reader_run. apply reads_map_err, decode_varint_reads. eauto with wire. }
  eval_eqb. erewrite io_bind_ok.
  2:{ apply with_reader_run. by apply reads_map_err, decode_string_reads. }
  erewrite io_bind_ok.
  2:{ apply with_reader_run. apply reads_map_err, (decode_bool_reads want). }
  done.
Qed.

Lemma request_receive_reads {Su PE SE} `{DecodeFrom Su SE} (resp : Su) pbs :
  reads (decode_from Su) pbs resp →
  reads (request_receive (PE := PE)) (msg SSH_MSG_CHANNEL_SUCCESS ++ pbs) resp.
Proof.
  intros Hr. unfold request_receive, msg. eapply reads_bind; [eauto with wire|].
  eval_eqb. by apply reads_map_err.
Qed.
End request_lemmas.

Lemma on_writer_run {E A} (c : Io Writer E A) src w w' x :
  c w = (w', x) → on_writer c (src, w) = ((src, w'), x).
Proof. unfold on_writer, io_zoom. simpl. by intros ->. Qed.

Lemma on_writer_seq {E A B X} (a : Io Writer E A) (b : Io Writer E B)
    (k : B → Io (Reader * Writer) E X) s :
  (on_writer a ;;; io_bind (on_writer b) k) s = io_bind (on_writer (a ;;; b)) k s.
Proof.
  destruct s as [src w]. unfold on_writer, io_zoom, io_bind. simpl.
  by destruct (a w) as [w1 [?|?|]]; simpl; [destruct (b w1) as [? [?|?|]]|..].
Qed.

(** The bytes copied from a source are a data payload only when there were
    enough of them. *)
Lemma copy_frame_inv `{VarIntLaws, IoCopyLaws} {E} n (header : Io Writer E ())
    hdr (wrap : ErrorKind → E) (short : Z → E) (flush_err : ErrorKind → E) s s' x :
  0 ≤ n → writes header hdr () →
  (on_writer header ;;;
   let! copied := copy_take n <?> wrap in
   if copied =? n then on_writer (flush <?> flush_err) else io_fail (short copied)) s
  = (s', x) →
  let payload := take (Z.to_nat n) (rd_buf s.1) in
  (∃ p, wr_out s'.2 = wr_out s.2 ++ p ∧ p `prefix_of` hdr ++ payload) ∧ x ≠ Panic ∧
  (x = Ok () → wr_out s'.2 = wr_out s.2 ++ hdr ++ payload ∧ byte_len payload = n ∧
     rd_buf s.1 = payload ++ rd_buf s'.1 ∧ wr_flushed s'.2 = length (wr_out s'.2)).
Proof.
  intros Hn Hh. destruct s as [src w]. unfold on_writer, io_zoom, io_bind, map_err. simpl.
  destruct (header w) as [w1 [[]|e|]] eqn:Hw; [|intros|by apply (writes_no_panic Hh) in Hw].
  2:{ simplify_eq/=. split; [|done].
      destruct (writes_prefix Hh _ _ _ Hw) as (p & ? & ?). exists p. split; [done|].
      by apply prefix_app_r. }
  destruct (writes_full Hh _ _ _ Hw) as [Ho _]. simpl.
  destruct (copy_take n (src, w1)) as [[src2 w2] y] eqn:Hc.
  destruct (copy_limit_prefix _ _ _ _ _ _ Hc) as (p & Hp & Hpre).
  assert (∃ p, wr_out w2 = wr_out w ++ p ∧ p `prefix_of` hdr ++ take (Z.to_nat n) (rd_buf src))
    as Hpref.
  { exists (hdr ++ p). rewrite Hp, Ho, (assoc_L (++)). split; [done|]. by apply prefix_app. }
  destruct y as [k|e|]; simpl; [|intros; simplify_eq/=; by split_and!|by apply (copy_limit_no_panic (Some n)) in Hc].
  destruct (Z.eqb_spec k n) as [->|]; [|unfold io_fail; intros; simplify_eq/=; by split_and!].
  apply (copy_limit_ok (Some n)) in Hc; simpl in Hc; destruct Hc as (q & Hq & Hq2 & Hk & Hqn).
  destruct (flush w2) as [w3 z] eqn:Hf.
  destruct (writes_prefix (writes_flush) _ _ _ Hf) as (p3 & Hp3 & ->%prefix_nil_inv).
  rewrite app_nil_r in Hp3. simpl. rewrite Hf. intros. simplify_eq/=. rewrite Hp3 in *. split; [done|].
  destruct z as [[]|e|]; [|done|by apply (writes_no_panic writes_flush) in Hf].
  split; [done|]. intros _. rewrite Hq2, Ho, (assoc_L (++)).
  split_and!; [done..|]. apply flushes_flush in Hf. by rewrite Hf, Hp3, Hq2, Ho.
Qed.

(** ** Properties *)

Section properties.
Context `{VarIntLaws}.

(** C10: A session's traffic survives the channel. Any sequence of data,
    extended data, notices, EOF and close written by the writer half over a
    transport that does not fail is read back by the peer's reader half, frame
    by frame and in order, whatever follows on the stream. *)
Theorem channel_stream_roundtrip {P PEe PEd} `{EncodeInto P PEe, DecodeFrom P PEd}
    `{!WireFormat P} (frames : list (Frame P)) (w : Writer) :
  Forall frame_ok frames → wr_plan w = [] →
  ∃ w' bs, send_all send_frame frames w = (w', Ok ()) ∧ wr_out w' = wr_out w ++ bs ∧
    ∀ rest fin, recv_n recv_frame (length frames) (MkReader (bs ++ rest) fin)
                = (MkReader rest fin, Ok frames).
Proof.
  intros Hok Hw.
  destruct (writes_ok (send_all_writes _ _ _ send_frame_writes _ Hok) w Hw) as (w' & ? & ? & _).
  eexists w', _. split_and!; [done..|]. by apply (recv_n_reads _ _ _ recv_frame_reads).
Qed.

(** C13: A failing transport never makes the peer see a frame that was not
    sent. Whatever the writer's transport does (it may fail in the middle of
    any message), the writer does not panic, returns [Ok] only when all frames
    are on the transport, and the frames the peer then reads up to its first
    error are a prefix of those that were sent. *)
Theorem channel_stream_cut {P PEe PEd} `{EncodeInto P PEe, DecodeFrom P PEd}
    `{!WireFormat P} (frames : list (Frame P)) (w w' : Writer) x fin :
  Forall frame_ok frames → send_all send_frame frames w = (w', x) →
  x ≠ Panic ∧
  ∃ bs, wr_out w' = wr_out w ++ bs ∧
    let received := recv_until recv_frame (length frames) (MkReader bs fin) in
    received `prefix_of` frames ∧ (x = Ok () → received = frames).
Proof.
  intros Hok Hrun.
  pose proof (send_all_writes _ _ _ send_frame_writes _ Hok) as Hws. split.
  { intros ->. by apply (writes_no_panic Hws) in Hrun. }
  destruct (writes_prefix Hws _ _ _ Hrun) as (bs & Hbs & Hpre).
  exists bs. split; [done|]. split.
  - eapply recv_until_prefix; eauto using recv_frame_reads, recv_frame_decoder.
  - intros ->. destruct (writes_full Hws _ _ _ Hrun) as [Ho _].
    rewrite Hbs in Ho. apply app_inv_head in Ho as ->. clear -Hok H0.
    rewrite <- (app_nil_r (concat _)). induction Hok as [|f fs Hf _ IH]; [done|].
    cbn [recv_until length map concat]. rewrite <- !(assoc_L (++)), recv_frame_reads by done.
    by rewrite IH.
Qed.

(** C21: The request handshake. A request written by [request] is seen by the
    peer's [next_event] with its own type and [want_reply = true]; the payload the
    peer decodes is the one that was sent and comes with a responder; and the
    requester returns the response payload given to [respond_success], or
    [Rejected] after [respond_failure]. *)
Theorem channel_request_roundtrip {Rq Su P PEe PEd SEe SEd}
    `{WantReplyChannelRequest Rq Su P, EncodeInto P PEe, DecodeFrom P PEd, !WireFormat P,
      EncodeInto Su SEe, DecodeFrom Su SEd, !WireFormat Su}
    (rq : Rq) (resp : Su) (requester : SshChannel) (peer : Writer) rest fin reply_rest reply_fin :
  ssh_string_ok (channel_request_type rq) → wire_ok (channel_payload rq) → wire_ok resp →
  wr_plan (writer requester) = [] → wr_plan peer = [] →
  ∃ req_bytes success_bytes failure_bytes w_peer w_fail w_req,
    (let! ev := next_event <?> λ _, () in
     match ev with
     | channel_event.Request r =>
       let! decoded := request_decode_payload P r <?> λ _, () in
       io_ret (request_type r, want_reply r, decoded)
     | _ => io_fail ()
     end) (new_channel (MkReader (req_bytes ++ rest) fin) peer)
    = (new_channel (MkReader rest fin) peer,
       Ok (channel_request_type rq, true, (channel_payload rq, Some MkChannelResponder))) ∧
    respond_success MkChannelResponder resp peer = (w_peer, Ok ()) ∧
    wr_out w_peer = wr_out peer ++ success_bytes ∧
    respond_failure MkChannelResponder peer = (w_fail, Ok ()) ∧
    wr_out w_fail = wr_out peer ++ failure_bytes ∧
    wr_out w_req = wr_out (writer requester) ++ req_bytes ∧
    request (Success := Su) rq
      (new_channel (MkReader (success_bytes ++ reply_rest) reply_fin) (writer requester))
    = (new_channel (MkReader reply_rest reply_fin) w_req, Ok resp) ∧
    request (Success := Su) rq
      (new_channel (MkReader (failure_bytes ++ reply_rest) reply_fin) (writer requester))
    = (new_channel (MkReader reply_rest reply_fin) w_req,
       Err send_channel_request_error.Rejected).
Proof.
  intros Hn Hp Hr Hw1 Hw2.
  destruct (writes_ok (request_send_writes (SE := SEd) rq _ Hn (wire_encode _ Hp)) _ Hw1)
    as (w_req & Hreq & Hreq_out & _).
  destruct (writes_ok (respond_success_writes MkChannelResponder _ _ (wire_encode _ Hr)) _ Hw2)
    as (w_peer & Hs & Hs_out & _).
  destruct (writes_ok (respond_failure_writes MkChannelResponder) _ Hw2)
    as (w_fail & Hf & Hf_out & _).
  eexists _, _, _, w_peer, w_fail, w_req. split_and!; [|done..| |].
  - replace (request_wire _ _ _)
      with (request_wire (channel_request_type rq) true [] ++ wire (channel_payload rq))
      by (unfold request_wire; rewrite app_nil_r, <- !(assoc_L (++)); done).
    rewrite <- (assoc_L (++)). erewrite io_bind_ok.
    2:{ apply map_err_ok. by apply next_request_run. }
    cbv beta iota. erewrite io_bind_ok; [reflexivity|]. apply map_err_ok. unfold request_decode_payload.
    erewrite io_bind_ok; [reflexivity|]. apply with_reader_run. by apply wire_decode.
  - unfold request. erewrite io_bind_ok; [|by apply with_writer_run].
    apply with_reader_run. by apply request_receive_reads, wire_decode.
  - unfold request. erewrite io_bind_ok; [|by apply with_writer_run].
    apply with_reader_run. unfold request_receive, msg. simpl.
    erewrite io_bind_ok; [|apply reads_map_err, decode_varint_reads; eauto with wire].
    by eval_eqb.
Qed.

(** [read_all] returns exactly the declared number of bytes, and takes
    nothing after them from the stream, however the transport chops them (and
    however often it is pending); it reports an early end as [read_exact]
    does; and it completes once the transport has delivered often enough. *)
Theorem read_all_chunking (sched : list Z) (r : Reader) (d : ChannelDataRead) :
  0 ≤ remaining d →
  (∀ st' x, read_all sched (r, d) = (st', Some x) → (st'.1, x) = read_exact (remaining d) r) ∧
  (remaining d ≤ deliveries sched → ∃ st' x, read_all sched (r, d) = (st', Some x)).
Proof.
  intros Hd. unfold read_all. simpl.
  assert (remaining d + byte_len [] = remaining d) as Hz by (unfold byte_len; simpl; lia).
  split.
  - intros st' x Hrun. pose proof (read_exact_poll_eq sched r d [] st' x Hd) as Heq.
    rewrite Hz in Heq. apply Heq in Hrun as [-> _].
    by destruct (read_exact (remaining d) r) as [? [?|?|]].
  - intros. pose proof (read_exact_poll_completes sched r d [] (conj Hd H1)) as Hc.
    by rewrite Hz in Hc.
Qed.

(** The two halves' [next_event] agree: on the same bytes the unsplit
    channel reports what the reader half reports and consumes as much, except
    that a request that wants a reply is an event instead of the error
    [UnexpectedWantReply]; it never touches the writer. *)
Theorem next_event_agrees (ch : SshChannel) :
  next_event ch = (new_channel (reader_next_event (reader ch)).1 (writer ch),
                   as_channel_event (reader_next_event (reader ch)).2).
Proof. apply next_event_follows. Qed.

(** After streaming [n] bytes of a source behind the header [hdr]. *)
Definition streamed (hdr : list byte) (n : Z) (s s' : Reader * Writer) (ok : bool) : Prop :=
  let payload := take (Z.to_nat n) (rd_buf s.1) in
  (∃ p, wr_out s'.2 = wr_out s.2 ++ p ∧ p `prefix_of` hdr ++ payload) ∧
  (ok = true → wr_out s'.2 = wr_out s.2 ++ hdr ++ payload ∧ byte_len payload = n ∧
     rd_buf s.1 = payload ++ rd_buf s'.1 ∧ wr_flushed s'.2 = length (wr_out s'.2)).

(** Streaming a payload from a source. A length outside the varint range
    panics before anything is written. Otherwise, whatever source and
    transport do, the transport holds a prefix of the header followed by the
    source's first [n] bytes; [data_from] and [extended_data_from] return [Ok]
    only when the whole frame is there and flushed and exactly [n] bytes were
    taken from the source. *)
Theorem data_from_spec `{IoCopyLaws} (n t : Z) (s s' : Reader * Writer) :
  0 ≤ n → varint_ok t →
  (VARINT_LIMIT ≤ n → data_from n s = (s, Panic) ∧ extended_data_from t n s = (s, Panic)) ∧
  (n < VARINT_LIMIT →
   (∀ x, data_from n s = (s', x) → x ≠ Panic ∧
      streamed (msg SSH_MSG_CHANNEL_DATA ++ varint_bytes n) n s s' (is_ok x)) ∧
   (∀ x, extended_data_from t n s = (s', x) → x ≠ Panic ∧
      streamed (msg SSH_MSG_CHANNEL_EXTENDED_DATA ++ varint_bytes t ++ varint_bytes n)
        n s s' (is_ok x))).
Proof.
  intros Hn Ht. unfold data_from, extended_data_from, varint_try_from.
  destruct (Z.ltb_spec n VARINT_LIMIT) as [Hlt|Hge]; (split; [|]); try (intros; lia).
  2:{ by intros _. }
  intros _. assert (varint_ok n) as Hv by done.
  split; intros x Hrun; rewrite !on_writer_seq in Hrun.
  - eapply copy_frame_inv in Hrun as (? & ? & Hok); [|done|unfold msg; solve_writes].
    split_and!; [done..|]. split; [done|]. destruct x as [[]| |]; [by intros; apply Hok|done..].
  - eapply copy_frame_inv in Hrun as (? & ? & Hok); [|done|].
    + split_and!; [done..|]. split; [done|]. destruct x as [[]| |]; [by intros; apply Hok|done..].
    + rewrite (assoc_L (++)). eapply writes_bind; [|eauto with wire].
      unfold msg. eapply writes_bind; eauto 6 with wire.
Qed.

(** A source that ends early is detected only after the fact: the frame
    header with the declared length and the short payload are already on the
    transport when [ShortSource] is returned, so the stream is no longer in
    step and the peer takes the following bytes for the missing payload. *)
Theorem data_from_short_source `{IoCopyLaws} (n : Z) (src : Reader) (w : Writer) :
  wr_plan w = [] → rd_end src = None → byte_len (rd_buf src) < n < VARINT_LIMIT →
  ∃ s', data_from n (src, w)
        = (s', Err (write_data_error.ShortSource n (byte_len (rd_buf src)))) ∧
    wr_out s'.2 = wr_out w ++ msg SSH_MSG_CHANNEL_DATA ++ varint_bytes n ++ rd_buf src ∧
    ∀ later fin, n - byte_len (rd_buf src) ≤ byte_len later →
      ∃ d r', reader_next_event
          (MkReader (msg SSH_MSG_CHANNEL_DATA ++ varint_bytes n ++ rd_buf src ++ later) fin)
        = (r', Ok (reader_event.Data d)) ∧
      (read_exact (remaining d) r').2
      = Ok (rd_buf src ++ take (Z.to_nat (n - byte_len (rd_buf src))) later).
Proof.
  intros Hw He [Hlt Hn].
  assert (varint_ok n) as Hv by (unfold varint_ok, byte_len in *; lia).
  unfold data_from. rewrite varint_try_from_ok by done. rewrite on_writer_seq.
  assert (writes (encode_one SSH_MSG_CHANNEL_DATA <?> write_data_error.EncodeMessageType ;;;
                  encode_one n <?> write_data_error.EncodeLength)
            (msg SSH_MSG_CHANNEL_DATA ++ varint_bytes n) ()) as Hh by (unfold msg; solve_writes).
  destruct (writes_ok Hh w Hw) as (w1 & Hw1 & Ho1 & Hp1).
  destruct (copy_limit_reliable (Some n) src w1 Hp1 (or_introl He)) as ([src2 w2] & k & Hc & _).
  pose proof (copy_limit_ok _ _ _ _ _ _ Hc) as (p & Hp & Ho2 & Hk & Hpn).
  simpl in Hpn; rewrite take_ge in Hpn by (unfold byte_len in Hlt; lia). subst p.
  exists (src2, w2). split; [|split].
  - erewrite io_bind_ok; [|by apply on_writer_run].
    erewrite io_bind_ok; [|by apply map_err_ok].
    destruct (Z.eqb_spec k n); [lia|]. by rewrite Hk.
  - simpl. by rewrite Ho2, Ho1, <- !(assoc_L (++)).
  - intros later fin Hl. rewrite (assoc_L (++) (msg _)).
    eexists _, _. split; [by apply next_data_reads|]. simpl. unfold read_exact. simpl.
    unfold byte_len in *. rewrite length_app.
    destruct (Z.ltb_spec (Z.of_nat (length (rd_buf src) + length later)) n); [lia|].
    simpl. f_equal. rewrite take_app_ge by lia. f_equal. f_equal. lia.
Qed.
End properties.

(** ** Witnesses *)

(** A copy that reads once and writes once. *)
Definition copy_once : IoCopy := λ l s,
  let '(src, w) := s in
  let p := limited l (rd_buf src) in
  let src' := MkReader (drop (length p) (rd_buf src)) (rd_end src) in
  match write_all p w with
  | (w', Ok _) =>
    match rd_end src with
    | Some e => if default true ((λ n, byte_len (rd_buf src) <? n) <$> l)
                then ((src', w'), Err e) else ((src', w'), Ok (byte_len p))
    | None => ((src', w'), Ok (byte_len p))
    end
  | (w', Err e) => ((src', w'), Err e)
  | (w', Panic) => ((src', w'), Panic)
  end.

Lemma limited_drop l bs : bs = limited l bs ++ drop (length (limited l bs)) bs.
Proof.
  destruct l as [n|]; simpl; [|by rewrite drop_all, app_nil_r].
  rewrite length_take. rewrite <- (take_drop (Z.to_nat n) bs) at 1. f_equal.
  destruct (decide (Z.to_nat n ≤ length bs)%nat); [f_equal; lia|].
  by rewrite !drop_ge by lia.
Qed.

Lemma copy_once_laws : @IoCopyLaws copy_once.
Proof.
  split; unfold copy_limit, copy_once; intros l.
  - intros src w src' w' k.
    destruct (write_all _ w) as [w1 [[]|e|]] eqn:Hw; [|done..].
    apply (writes_full (writes_write_all _)) in Hw as [Ho _].
    intros. exists (limited l (rd_buf src)).
    repeat case_match; simplify_eq/=; auto using limited_drop.
  - intros src w src' w' x.
    destruct (write_all _ w) as [w1 y] eqn:Hw.
    apply (writes_prefix (writes_write_all _)) in Hw as (p & Ho & Hp).
    intros Hrun. exists p. split; [|done]. repeat case_match; by simplify_eq/=.
  - intros src w Hw Hsrc.
    destruct (writes_ok (writes_write_all (limited l (rd_buf src))) w Hw)
      as (w1 & -> & _ & Hp).
    destruct (rd_end src) as [e|]; [|eauto].
    destruct Hsrc as [?|(n & -> & Hn)]; [done|]. simpl.
    destruct (Z.ltb_spec (byte_len (rd_buf src)) n); [lia|]. eauto.
  - intros [src w] s'. destruct (write_all _ w) as [w1 [[]|e|]] eqn:Hw.
    + repeat case_match; congruence.
    + congruence.
    + by apply (writes_no_panic (writes_write_all _)) in Hw.
Qed.

#[local] Existing Instance quic_varint.
#[local] Existing Instance quic_varint_laws.
#[local] Existing Instance copy_once.
#[local] Existing Instance copy_once_laws.

Definition sample_frames : list (Frame SshBytes) :=
  [FData (str_bytes "ls"); FExtended SSH_EXTENDED_DATA_STDERR (str_bytes "oops");
   FNotice (from_static "env") (MkSshBytes (str_bytes "A=1")); FEof; FClose].

Lemma sample_frames_ok : Forall frame_ok sample_frames.
Proof.
  repeat constructor; try (vm_compute; congruence); try (apply from_static_ok; reflexivity).
Defined.

(** The transport fails after two of the three bytes of the second payload. *)
Definition failing_writer : Writer :=
  MkWriter [] 0 false (replicate 6 WDone ++ [WDone; WFail 2 BrokenPipe]).

Lemma channel_stream_roundtrip_witness :
  Forall frame_ok sample_frames ∧
  ∃ w' bs, send_all send_frame sample_frames new_writer = (w', Ok ()) ∧ wr_out w' = [] ++ bs ∧
    ∀ rest fin, recv_n recv_frame (length sample_frames) (MkReader (bs ++ rest) fin)
                = (MkReader rest fin, Ok sample_frames).
Proof.
  split; [exact sample_frames_ok|].
  exact (channel_stream_roundtrip sample_frames new_writer sample_frames_ok eq_refl).
Defined.

Lemma channel_stream_cut_witness :
  let run := send_all send_frame sample_frames failing_writer in
  is_ok run.2 = false ∧ run.2 ≠ Panic ∧
  ∃ bs, wr_out run.1 = [] ++ bs ∧
    let received := recv_until recv_frame (length sample_frames) (MkReader bs None) in
    received `prefix_of` sample_frames ∧ (run.2 = Ok () → received = sample_frames).
Proof.
  intros run. split; [vm_compute; reflexivity|].
  exact (channel_stream_cut sample_frames failing_writer _ _ None sample_frames_ok
           (surjective_pairing run)).
Defined.

#[export] Instance sample_request : WantReplyChannelRequest (SshString * SshBytes) SshBool SshBytes :=
  {| channel_request_type := fst; channel_payload := snd |}.

Lemma channel_request_roundtrip_witness :
  ∃ req_bytes success_bytes failure_bytes w_peer w_fail w_req,
    let rq := (from_static "exec", MkSshBytes (str_bytes "ls")) in
    (let! ev := next_event <?> λ _, () in
     match ev with
     | channel_event.Request r =>
       let! decoded := request_decode_payload SshBytes r <?> λ _, () in
       io_ret (request_type r, want_reply r, decoded)
     | _ => io_fail ()
     end) (new_channel (MkReader (req_bytes ++ []) None) new_writer)
    = (new_channel (MkReader [] None) new_writer,
       Ok (from_static "exec", true, (MkSshBytes (str_bytes "ls"), Some MkChannelResponder))) ∧
    respond_success MkChannelResponder (MkSshBool true) new_writer = (w_peer, Ok ()) ∧
    wr_out w_peer = [] ++ success_bytes ∧
    respond_failure MkChannelResponder new_writer = (w_fail, Ok ()) ∧
    wr_out w_fail = [] ++ failure_bytes ∧
    wr_out w_req = [] ++ req_bytes ∧
    request (Success := SshBool) rq (new_channel (MkReader (success_bytes ++ []) None) new_writer)
    = (new_channel (MkReader [] None) w_req, Ok (MkSshBool true)) ∧
    request (Success := SshBool) rq (new_channel (MkReader (failure_bytes ++ []) None) new_writer)
    = (new_channel (MkReader [] None) w_req, Err send_channel_request_error.Rejected).
Proof.
  refine (channel_request_roundtrip (P := SshBytes) (Su := SshBool) (from_static "exec", MkSshBytes (str_bytes "ls"))
           (MkSshBool true) (new_channel (MkReader [] None) new_writer) new_writer [] None [] None _ _ _ _ _);
    [apply from_static_ok; reflexivity|vm_compute; congruence|exact I|reflexivity..].
Defined.

Lemma read_all_chunking_witness :
  let r := MkReader (str_bytes "abcdef") None in
  let d := MkChannelDataRead 3 in
  (∀ st' x, read_all [1; 0; 0; 5] (r, d) = (st', Some x) → (st'.1, x) = read_exact 3 r) ∧
  (3 ≤ deliveries [1; 2; 0; 5] → ∃ st' x, read_all [1; 2; 0; 5] (r, d) = (st', Some x)).
Proof.
  intros r d. split.
  - apply (read_all_chunking [1; 0; 0; 5] r d). vm_compute. congruence.
  - apply (read_all_chunking [1; 2; 0; 5] r d). vm_compute. congruence.
Defined.

Lemma data_from_spec_witness :
  let s := (MkReader (str_bytes "abcdef") None, new_writer) in
  (data_from 4 s).2 ≠ Panic ∧
  streamed (msg SSH_MSG_CHANNEL_DATA ++ varint_bytes 4) 4 s (data_from 4 s).1
    (is_ok (data_from 4 s).2) ∧
  data_from VARINT_LIMIT s = (s, Panic).
Proof.
  intros s.
  destruct (data_from_spec 4 1 s (data_from 4 s).1 ltac:(lia) ltac:(vm_compute; split; congruence))
    as [_ Hok].
  destruct (data_from_spec VARINT_LIMIT 1 s s ltac:(vm_compute; congruence)
              ltac:(vm_compute; split; congruence)) as [Hp _].
  destruct (Hok eq_refl) as [Hdata _].
  destruct (Hdata _ (surjective_pairing _)) as [Hn Hs]. split; [exact Hn|]. split; [exact Hs|].
  apply Hp. reflexivity.
Defined.

Lemma data_from_short_source_witness :
  let src := MkReader (str_bytes "ab") None in
  ∃ s', data_from 5 (src, new_writer) = (s', Err (write_data_error.ShortSource 5 2)) ∧
    wr_out s'.2 = [] ++ msg SSH_MSG_CHANNEL_DATA ++ varint_bytes 5 ++ str_bytes "ab" ∧
    ∀ later fin, 5 - 2 ≤ byte_len later →
      ∃ d r', reader_next_event
          (MkReader (msg SSH_MSG_CHANNEL_DATA ++ varint_bytes 5 ++ str_bytes "ab" ++ later) fin)
        = (r', Ok (reader_event.Data d)) ∧
      (read_exact (remaining d) r').2 = Ok (str_bytes "ab" ++ take 3 later).
Proof.
  apply (data_from_short_source 5 (MkReader (str_bytes "ab") None) new_writer);
    [reflexivity|reflexivity|vm_compute; split; reflexivity].
Defined.
