(* ===== verification/Progress.v ===== *)
(** * Progress on a stream

    What a computation leaves to read: decoders never give bytes back, and the
    next event of a channel takes at least one, so that a loop over events ends
    with the stream. *)
From Stdlib Require Import ZArith Lia Strings.Byte.
From stdpp Require Import base list strings gmap fin_maps relations.
From S2P Require Import Prelude Wire Codec Message ChannelErrors Channel.
Local Open Scope Z_scope.
Local Open Scope io_scope.

(** [left s]: the bytes still to read in state [s]. A computation that returns
    has not increased it. *)
Section shrinks.
Context {S : Type} (left : S → nat).

Definition shrinks {E A} (c : Io S E A) : Prop := ∀ s s' a, c s = (s', Ok a) → (left s' ≤ left s)%nat.

Lemma shrinks_bind {E A B} (c : Io S E A) (k : A → Io S E B) :
  shrinks c → (∀ a, shrinks (k a)) → shrinks (io_bind c k).
Proof.
  intros Hc Hk s s' b (s1 & a & Hx1 & Hx2)%io_bind_inv_ok. apply Hc in Hx1. apply Hk in Hx2. lia.
Qed.
Lemma shrinks_map_err {E E' A} (c : Io S E A) (f : E → E') : shrinks c → shrinks (c <?> f).
Proof. intros Hc s s' a Hr%map_err_inv_ok. by eapply Hc. Qed.
Lemma shrinks_ret {E A} (a : A) : shrinks (E := E) (io_ret a).
Proof. intros s s' b Hr. unfold io_ret in Hr. by simplify_eq. Qed.
Lemma shrinks_fail {E A} (e : E) : shrinks (A := A) (io_fail e).
Proof. done. Qed.
End shrinks.

Definition reader_left (r : Reader) : nat := length (rd_buf r).

Lemma shrinks_decoder {E A} (c : Io Reader E A) : decoder c → shrinks reader_left c.
Proof.
  intros Hc r r' a (_ & p & Hb)%(dec_consumes Hc). unfold reader_left. rewrite Hb, length_app. lia.
Qed.

(** A computation on the reader of a larger state. *)
Lemma shrinks_zoom {S E A} (left : S → nat) (get : S → Reader) put (c : Io Reader E A) :
  (∀ s, left s = reader_left (get s)) → (∀ r s, get (put r s) = r) →
  shrinks reader_left c → shrinks left (io_zoom get put c).
Proof.
  intros Hl Hp Hc s s' a. unfold io_zoom. destruct (c (get s)) as [r x] eqn:Hr.
  intros. simplify_eq. rewrite !Hl, Hp. by apply Hc in Hr.
Qed.

Lemma io_try_ok {S E E' A} (c : Io S E A) s s' x :
  io_try (E' := E') c s = (s', Ok x) → c s = (s', x) ∧ x ≠ Panic.
Proof. unfold io_try. destruct (c s) as [s1 [a|e|]]; intros; by simplify_eq. Qed.

Section progress.
Context `{VarIntLaws}.

Lemma reader_next_event_progress r r' ev :
  reader_next_event r = (r', Ok ev) → (reader_left r' < reader_left r)%nat.
Proof.
  intros (r1 & t & Hx1 & Hx2)%io_bind_inv_ok.
  apply map_err_inv_ok, varint_read_progress in Hx1.
  apply (Nat.le_lt_trans _ (reader_left r1)); [|done]. revert Hx2.
  match goal with |- ?c r1 = _ → _ => assert (shrinks reader_left c) as Hs; [|apply Hs] end.
  apply shrinks_decoder. solve_decoder.
Qed.

Lemma next_event_progress ch ch' ev :
  next_event ch = (ch', Ok ev) → (reader_left (reader ch') < reader_left (reader ch))%nat.
Proof.
  intros Hr. unfold next_event in Hr. apply io_bind_inv_ok in Hr as (ch1 & t & Hx1 & Hx2).
  assert (reader_left (reader ch1) < reader_left (reader ch))%nat.
  { unfold with_reader, io_zoom in Hx1. destruct ((_ <?> _) (reader ch)) as [r x] eqn:Hd. simplify_eq.
    apply map_err_inv_ok in Hd. by apply varint_read_progress in Hd. }
  apply (Nat.le_lt_trans _ (reader_left (reader ch1))); [|done]. revert Hx2.
  match goal with |- ?c ch1 = _ → _ =>
    assert (shrinks (λ ch, reader_left (reader ch)) c) as Hs; [|apply Hs] end.
  repeat (case_match || apply shrinks_bind || apply shrinks_ret || apply shrinks_fail || intros);
    (apply shrinks_zoom; [done..|]); apply shrinks_decoder; solve_decoder.
Qed.

(** tokio's [copy] takes bytes from the front of its source. *)
Lemma copy_take_shrinks `{IoCopyLaws} n s s' k :
  copy_take n s = (s', Ok k) → (reader_left s'.1 ≤ reader_left s.1)%nat.
Proof.
  destruct s as [src w], s' as [src' w']. unfold copy_take. intros (p & Hb & _)%copy_limit_ok.
  unfold reader_left. simpl. rewrite Hb, length_app. lia.
Qed.
End progress.
