(* ===== verification/SessionMsg.v ===== *)
(** * Session messages ([src/src/session/mod.rs])

    The payloads of the session channel's requests and notices with their
    codecs, the requests that carry them, and the errors that cross the process
    boundary to the session's child. *)
From Stdlib Require Import ZArith Lia Strings.Byte.
From stdpp Require Import base list strings gmap fin_maps relations.
From S2P Require Import Prelude Wire Codec Message ChannelErrors Channel.
Local Open Scope Z_scope.
Local Open Scope io_scope.

Module session_codec_error.
Inductive SessionCodecError :=
| Codec (source : CodecError)
| ReadIo (source : ErrorKind)
| WriteIo (source : ErrorKind).
End session_codec_error.
Abbreviation SessionCodecError := session_codec_error.SessionCodecError.

(** ** Payloads *)

Record ExecRequest := MkExecRequest {
  exec_command : SshBytes;
}.

Record SubsystemRequest := MkSubsystemRequest {
  subsystem_subsystem_name : SshString;
}.

Record ExitStatusRequest := MkExitStatusRequest {
  status_exit_status : Z;
}.

Record ExitSignalRequest := MkExitSignalRequest {
  exit_signal_name : SshString;
  exit_core_dumped : SshBool;
  exit_error_message : SshString;
  exit_language_tag : SshString;
}.

Record PtyRequest := MkPtyRequest {
  pty_term_type : SshString;
  pty_width_cols : Z;
  pty_height_rows : Z;
  pty_width_px : Z;
  pty_height_px : Z;
  pty_terminal_modes : SshBytes;
}.

Record WindowChangeRequest := MkWindowChangeRequest {
  win_width_cols : Z;
  win_height_rows : Z;
  win_width_px : Z;
  win_height_px : Z;
}.

Record SignalRequest := MkSignalRequest {
  signal_signal_name : SshString;
}.

Record EnvRequest := MkEnvRequest {
  env_name : SshString;
  env_value : SshString;
}.

#[export] Instance ExecRequest_eq_dec : EqDecision ExecRequest.
Proof. solve_decision. Defined.

#[export] Instance SubsystemRequest_eq_dec : EqDecision SubsystemRequest.
Proof. solve_decision. Defined.

#[export] Instance ExitStatusRequest_eq_dec : EqDecision ExitStatusRequest.
Proof. solve_decision. Defined.

#[export] Instance ExitSignalRequest_eq_dec : EqDecision ExitSignalRequest.
Proof. solve_decision. Defined.

#[export] Instance PtyRequest_eq_dec : EqDecision PtyRequest.
Proof. solve_decision. Defined.

#[export] Instance WindowChangeRequest_eq_dec : EqDecision WindowChangeRequest.
Proof. solve_decision. Defined.

#[export] Instance SignalRequest_eq_dec : EqDecision SignalRequest.
Proof. solve_decision. Defined.

#[export] Instance EnvRequest_eq_dec : EqDecision EnvRequest.
Proof. solve_decision. Defined.

(** ** Codecs *)

Section codecs.
Context `{VarIntCodec}.

#[export] Instance ExecRequest_encode_into : EncodeInto ExecRequest SessionCodecError := λ self,
  encode_one (exec_command self) <?> session_codec_error.Codec.

#[export] Instance ExecRequest_decode_from : DecodeFrom ExecRequest SessionCodecError :=
  let! command := decode_one SshBytes <?> session_codec_error.Codec in
  io_ret (MkExecRequest command).

#[export] Instance SubsystemRequest_encode_into : EncodeInto SubsystemRequest SessionCodecError := λ self,
  encode_one (subsystem_subsystem_name self) <?> session_codec_error.Codec.

#[export] Instance SubsystemRequest_decode_from : DecodeFrom SubsystemRequest SessionCodecError :=
  let! subsystem_name := decode_one SshString <?> session_codec_error.Codec in
  io_ret (MkSubsystemRequest subsystem_name).

#[export] Instance ExitStatusRequest_encode_into : EncodeInto ExitStatusRequest SessionCodecError := λ self,
  encode_one (status_exit_status self) <?> session_codec_error.WriteIo.

#[export] Instance ExitStatusRequest_decode_from : DecodeFrom ExitStatusRequest SessionCodecError :=
  let! exit_status := decode_one Z <?> session_codec_error.ReadIo in
  io_ret (MkExitStatusRequest exit_status).

#[export] Instance ExitSignalRequest_encode_into : EncodeInto ExitSignalRequest SessionCodecError := λ self,
  encode_one (exit_signal_name self) <?> session_codec_error.Codec ;;;
  encode_one (exit_core_dumped self) <?> session_codec_error.Codec ;;;
  encode_one (exit_error_message self) <?> session_codec_error.Codec ;;;
  encode_one (exit_language_tag self) <?> session_codec_error.Codec.

#[export] Instance ExitSignalRequest_decode_from : DecodeFrom ExitSignalRequest SessionCodecError :=
  let! signal_name := decode_one SshString <?> session_codec_error.Codec in
  let! core_dumped := decode_one SshBool <?> session_codec_error.Codec in
  let! error_message := decode_one SshString <?> session_codec_error.Codec in
  let! language_tag := decode_one SshString <?> session_codec_error.Codec in
  io_ret (MkExitSignalRequest signal_name core_dumped error_message language_tag).

#[export] Instance PtyRequest_encode_into : EncodeInto PtyRequest SessionCodecError := λ self,
  encode_one (pty_term_type self) <?> session_codec_error.Codec ;;;
  encode_one (pty_width_cols self) <?> session_codec_error.WriteIo ;;;
  encode_one (pty_height_rows self) <?> session_codec_error.WriteIo ;;;
  encode_one (pty_width_px self) <?> session_codec_error.WriteIo ;;;
  encode_one (pty_height_px self) <?> session_codec_error.WriteIo ;;;
  encode_one (pty_terminal_modes self) <?> session_codec_error.Codec.

#[export] Instance PtyRequest_decode_from : DecodeFrom PtyRequest SessionCodecError :=
  let! term_type := decode_one SshString <?> session_codec_error.Codec in
  let! width_cols := decode_one Z <?> session_codec_error.ReadIo in
  let! height_rows := decode_one Z <?> session_codec_error.ReadIo in
  let! width_px := decode_one Z <?> session_codec_error.ReadIo in
  let! height_px := decode_one Z <?> session_codec_error.ReadIo in
  let! terminal_modes := decode_one SshBytes <?> session_codec_error.Codec in
  io_ret (MkPtyRequest term_type width_cols height_rows width_px height_px terminal_modes).

#[export] Instance WindowChangeRequest_encode_into : EncodeInto WindowChangeRequest SessionCodecError := λ self,
  encode_one (win_width_cols self) <?> session_codec_error.WriteIo ;;;
  encode_one (win_height_rows self) <?> session_codec_error.WriteIo ;;;
  encode_one (win_width_px self) <?> session_codec_error.WriteIo ;;;
  encode_one (win_height_px self) <?> session_codec_error.WriteIo.

#[export] Instance WindowChangeRequest_decode_from : DecodeFrom WindowChangeRequest SessionCodecError :=
  let! width_cols := decode_one Z <?> session_codec_error.ReadIo in
  let! height_rows := decode_one Z <?> session_codec_error.ReadIo in
  let! width_px := decode_one Z <?> session_codec_error.ReadIo in
  let! height_px := decode_one Z <?> session_codec_error.ReadIo in
  io_ret (MkWindowChangeRequest width_cols height_rows width_px height_px).

#[export] Instance SignalRequest_encode_into : EncodeInto SignalRequest SessionCodecError := λ self,
  encode_one (signal_signal_name self) <?> session_codec_error.Codec.

#[export] Instance SignalRequest_decode_from : DecodeFrom SignalRequest SessionCodecError :=
  let! signal_name := decode_one SshString <?> session_codec_error.Codec in
  io_ret (MkSignalRequest signal_name).

#[export] Instance EnvRequest_encode_into : EncodeInto EnvRequest SessionCodecError := λ self,
  encode_one (env_name self) <?> session_codec_error.Codec ;;;
  encode_one (env_value self) <?> session_codec_error.Codec.

#[export] Instance EnvRequest_decode_from : DecodeFrom EnvRequest SessionCodecError :=
  let! name := decode_one SshString <?> session_codec_error.Codec in
  let! value := decode_one SshString <?> session_codec_error.Codec in
  io_ret (MkEnvRequest name value).
End codecs.

(** ** Requests and notices *)

Record PtyChannelRequest := MkPtyChannelRequest { pty_channel_request_payload : PtyRequest }.
#[export] Instance PtyChannelRequest_request :
    WantReplyChannelRequest PtyChannelRequest EmptyPayload PtyRequest :=
  {| channel_request_type _ := from_static "pty-req"; channel_payload := pty_channel_request_payload |}.

Record ExecChannelRequest := MkExecChannelRequest { exec_channel_request_payload : ExecRequest }.
#[export] Instance ExecChannelRequest_request :
    WantReplyChannelRequest ExecChannelRequest EmptyPayload ExecRequest :=
  {| channel_request_type _ := from_static "exec"; channel_payload := exec_channel_request_payload |}.

Inductive ShellChannelRequest := MkShellChannelRequest.
#[export] Instance ShellChannelRequest_request :
    WantReplyChannelRequest ShellChannelRequest EmptyPayload EmptyPayload :=
  {| channel_request_type _ := from_static "shell"; channel_payload := (λ _, MkEmptyPayload) |}.

Record SubsystemChannelRequest := MkSubsystemChannelRequest { subsystem_channel_request_payload : SubsystemRequest }.
#[export] Instance SubsystemChannelRequest_request :
    WantReplyChannelRequest SubsystemChannelRequest EmptyPayload SubsystemRequest :=
  {| channel_request_type _ := from_static "subsystem"; channel_payload := subsystem_channel_request_payload |}.

Record SignalChannelRequest := MkSignalChannelRequest { signal_channel_request_payload : SignalRequest }.
#[export] Instance SignalChannelRequest_request :
    WantReplyChannelRequest SignalChannelRequest EmptyPayload SignalRequest :=
  {| channel_request_type _ := from_static "signal"; channel_payload := signal_channel_request_payload |}.

Record SignalChannelNotice := MkSignalChannelNotice { signal_channel_notice_payload : SignalRequest }.
#[export] Instance SignalChannelNotice_notice : NotifyChannelRequest SignalChannelNotice SignalRequest :=
  {| channel_notice_type _ := from_static "signal"; channel_notice_payload := signal_channel_notice_payload |}.

Record WindowChangeChannelNotice := MkWindowChangeChannelNotice { window_change_channel_notice_payload : WindowChangeRequest }.
#[export] Instance WindowChangeChannelNotice_notice : NotifyChannelRequest WindowChangeChannelNotice WindowChangeRequest :=
  {| channel_notice_type _ := from_static "window-change"; channel_notice_payload := window_change_channel_notice_payload |}.

Record ExitStatusChannelNotice := MkExitStatusChannelNotice { exit_status_channel_notice_payload : ExitStatusRequest }.
#[export] Instance ExitStatusChannelNotice_notice : NotifyChannelRequest ExitStatusChannelNotice ExitStatusRequest :=
  {| channel_notice_type _ := from_static "exit-status"; channel_notice_payload := exit_status_channel_notice_payload |}.

Record ExitSignalChannelNotice := MkExitSignalChannelNotice { exit_signal_channel_notice_payload : ExitSignalRequest }.
#[export] Instance ExitSignalChannelNotice_notice : NotifyChannelRequest ExitSignalChannelNotice ExitSignalRequest :=
  {| channel_notice_type _ := from_static "exit-signal"; channel_notice_payload := exit_signal_channel_notice_payload |}.

(** ** Errors that cross the process boundary *)

Module io_error_kind.
Inductive IoErrorKind :=
| NotFound | PermissionDenied | ConnectionRefused | ConnectionReset | HostUnreachable | NetworkUnreachable
| ConnectionAborted | NotConnected | AddrInUse | AddrNotAvailable | NetworkDown | BrokenPipe
| AlreadyExists | WouldBlock | InvalidInput | InvalidData | TimedOut | WriteZero
| Interrupted | Unsupported | UnexpectedEof | OutOfMemory | Other.

(** [Display]. *)
Definition fmt (self : IoErrorKind) : string :=
  match self with
  | NotFound => "not found"
  | PermissionDenied => "permission denied"
  | ConnectionRefused => "connection refused"
  | ConnectionReset => "connection reset"
  | HostUnreachable => "host unreachable"
  | NetworkUnreachable => "network unreachable"
  | ConnectionAborted => "connection aborted"
  | NotConnected => "not connected"
  | AddrInUse => "address in use"
  | AddrNotAvailable => "address not available"
  | NetworkDown => "network down"
  | BrokenPipe => "broken pipe"
  | AlreadyExists => "already exists"
  | WouldBlock => "operation would block"
  | InvalidInput => "invalid input"
  | InvalidData => "invalid data"
  | TimedOut => "timed out"
  | WriteZero => "write zero"
  | Interrupted => "interrupted"
  | Unsupported => "unsupported"
  | UnexpectedEof => "unexpected end of file"
  | OutOfMemory => "out of memory"
  | Other => "other I/O error"
  end.

(** [From<std::io::ErrorKind>]. *)
Definition from (kind : ErrorKind) : IoErrorKind :=
  match kind with
  | Wire.NotFound => NotFound
  | Wire.PermissionDenied => PermissionDenied
  | Wire.ConnectionRefused => ConnectionRefused
  | Wire.ConnectionReset => ConnectionReset
  | Wire.HostUnreachable => HostUnreachable
  | Wire.NetworkUnreachable => NetworkUnreachable
  | Wire.ConnectionAborted => ConnectionAborted
  | Wire.NotConnected => NotConnected
  | Wire.AddrInUse => AddrInUse
  | Wire.AddrNotAvailable => AddrNotAvailable
  | Wire.NetworkDown => NetworkDown
  | Wire.BrokenPipe => BrokenPipe
  | Wire.AlreadyExists => AlreadyExists
  | Wire.WouldBlock => WouldBlock
  | Wire.InvalidInput => InvalidInput
  | Wire.InvalidData => InvalidData
  | Wire.TimedOut => TimedOut
  | Wire.WriteZero => WriteZero
  | Wire.Interrupted => Interrupted
  | Wire.Unsupported => Unsupported
  | Wire.UnexpectedEof => UnexpectedEof
  | Wire.OutOfMemory => OutOfMemory
  | Wire.OtherKind _ => Other
  end.

#[export] Instance IoErrorKind_eq_dec : EqDecision IoErrorKind.
Proof. solve_decision. Defined.
End io_error_kind.
Abbreviation IoErrorKind := io_error_kind.IoErrorKind.

(** [CallError] is remoc's; its [Display] is a parameter of [fmt]. *)
Module session_error.
Inductive SessionError (CallError : Type) :=
| Message (message : string)
| Io (kind : IoErrorKind)
| Remote (error : CallError).
#[global] Arguments Message {CallError}.
#[global] Arguments Io {CallError}.
#[global] Arguments Remote {CallError}.

Section session_error.
Context {CallError : Type}.

Definition fmt (fmt_call : CallError → string) (self : SessionError CallError) : string :=
  match self with
  | Message message => message
  | Io kind => io_error_kind.fmt kind
  | Remote error => fmt_call error
  end.

(** [std::error::Error::source]. *)
Definition source (self : SessionError CallError) : option CallError :=
  match self with
  | Remote error => Some error
  | Message _ | Io _ => None
  end.

Definition from_call_error (err : CallError) : SessionError CallError := Remote err.
Definition from_io_error (kind : ErrorKind) : SessionError CallError :=
  Io (io_error_kind.from kind).
Definition new (msg : string) : SessionError CallError := Message msg.
End session_error.
End session_error.
Abbreviation SessionError := session_error.SessionError.

(** ** Wire formats *)

Section formats.
Context `{VarIntLaws}.

#[export, program] Instance ExecRequest_wire : WireFormat ExecRequest :=
  {| wire self :=
        field_wire (ssh_bytes (exec_command self));
     wire_ok self := byte_len (ssh_bytes (exec_command self)) ≤ MAX_REMOTE_FIELD_SIZE |}.
Solve Obligations with solve_wire.

#[export, program] Instance SubsystemRequest_wire : WireFormat SubsystemRequest :=
  {| wire self :=
        field_wire (ssh_string_bytes (subsystem_subsystem_name self));
     wire_ok self := ssh_string_ok (subsystem_subsystem_name self) |}.
Solve Obligations with solve_wire.

#[export, program] Instance ExitStatusRequest_wire : WireFormat ExitStatusRequest :=
  {| wire self :=
        varint_bytes (status_exit_status self);
     wire_ok self := varint_ok (status_exit_status self) |}.
Solve Obligations with solve_wire.

#[export, program] Instance ExitSignalRequest_wire : WireFormat ExitSignalRequest :=
  {| wire self :=
        field_wire (ssh_string_bytes (exit_signal_name self)) ++
        [if ssh_bool (exit_core_dumped self) then x01 else x00] ++
        field_wire (ssh_string_bytes (exit_error_message self)) ++
        field_wire (ssh_string_bytes (exit_language_tag self));
     wire_ok self := ssh_string_ok (exit_signal_name self) ∧
        ssh_string_ok (exit_error_message self) ∧
        ssh_string_ok (exit_language_tag self) |}.
Solve Obligations with solve_wire.

#[export, program] Instance PtyRequest_wire : WireFormat PtyRequest :=
  {| wire self :=
        field_wire (ssh_string_bytes (pty_term_type self)) ++
        varint_bytes (pty_width_cols self) ++
        varint_bytes (pty_height_rows self) ++
        varint_bytes (pty_width_px self) ++
        varint_bytes (pty_height_px self) ++
        field_wire (ssh_bytes (pty_terminal_modes self));
     wire_ok self := ssh_string_ok (pty_term_type self) ∧
        varint_ok (pty_width_cols self) ∧
        varint_ok (pty_height_rows self) ∧
        varint_ok (pty_width_px self) ∧
        varint_ok (pty_height_px self) ∧
        byte_len (ssh_bytes (pty_terminal_modes self)) ≤ MAX_REMOTE_FIELD_SIZE |}.
Solve Obligations with solve_wire.

#[export, program] Instance WindowChangeRequest_wire : WireFormat WindowChangeRequest :=
  {| wire self :=
        varint_bytes (win_width_cols self) ++
        varint_bytes (win_height_rows self) ++
        varint_bytes (win_width_px self) ++
        varint_bytes (win_height_px self);
     wire_ok self := varint_ok (win_width_cols self) ∧
        varint_ok (win_height_rows self) ∧
        varint_ok (win_width_px self) ∧
        varint_ok (win_height_px self) |}.
Solve Obligations with solve_wire.

#[export, program] Instance SignalRequest_wire : WireFormat SignalRequest :=
  {| wire self :=
        field_wire (ssh_string_bytes (signal_signal_name self));
     wire_ok self := ssh_string_ok (signal_signal_name self) |}.
Solve Obligations with solve_wire.

#[export, program] Instance EnvRequest_wire : WireFormat EnvRequest :=
  {| wire self :=
        field_wire (ssh_string_bytes (env_name self)) ++
        field_wire (ssh_string_bytes (env_value self));
     wire_ok self := ssh_string_ok (env_name self) ∧
        ssh_string_ok (env_value self) |}.
Solve Obligations with solve_wire.
End formats.

(** ** Properties *)

(** C35: Every session payload survives the wire. For each payload of a session
    request or notice, what is encoded on a transport that does not fail is
    decoded to the same value, whatever follows it on the stream, and a payload
    cut short is refused. *)
Theorem session_payloads_roundtrip `{VarIntLaws} :
  roundtrips ExecRequest ∧
  roundtrips SubsystemRequest ∧
  roundtrips ExitStatusRequest ∧
  roundtrips ExitSignalRequest ∧
  roundtrips PtyRequest ∧
  roundtrips WindowChangeRequest ∧
  roundtrips SignalRequest ∧
  roundtrips EnvRequest.
Proof.
  split_and!; apply wire_roundtrips.
Qed.

(** ** Witnesses *)

#[local] Existing Instance quic_varint.
#[local] Existing Instance quic_varint_laws.

Lemma session_payloads_roundtrip_witness : roundtrips SubsystemRequest.
Proof. apply (@session_payloads_roundtrip quic_varint quic_varint_laws). Defined.
