(* ===== verification/ForwardMsg.v ===== *)
(** * Forwarding messages ([src/src/forward/mod.rs])

    The payloads of the forwarding channels and global requests with their
    codecs, the canonical bind host, and the relay. *)
From Stdlib Require Import ZArith Lia Strings.Byte.
From stdpp Require Import base list strings gmap fin_maps relations.
From S2P Require Import Prelude Wire Codec Message ChannelErrors Channel SessionMsg.
Local Open Scope Z_scope.
Local Open Scope io_scope.

Definition CANONICAL_REMOTE_WILDCARD_HOST : string := "".
Definition CANONICAL_REMOTE_LOOPBACK_HOST : string := "localhost".

Definition canonicalize_remote_bind_host (host : string) : string :=
  if decide (host = "" ∨ host = "*") then CANONICAL_REMOTE_WILDCARD_HOST
  else if decide (host = "localhost") then CANONICAL_REMOTE_LOOPBACK_HOST
  else host.

(** Copy all bytes from the reader to the writer, then shut down the writer. *)
Definition relay `{IoCopy} : Io (Reader * Writer) ErrorKind Z :=
  let! n := copy in
  on_writer shutdown ;;;
  io_ret n.

Module forward_error.
Inductive ForwardError :=
| Codec (source : CodecError)
| ReadIo (source : ErrorKind)
| WriteIo (source : ErrorKind).
End forward_error.
Abbreviation ForwardError := forward_error.ForwardError.

(** ** Payloads *)

Record TcpipForwardRequest := MkTcpipForwardRequest {
  tf_bind_address : SshString;
  tf_bind_port : Z;
}.

Record DirectTcpip := MkDirectTcpip {
  dt_dest_host : SshString;
  dt_dest_port : Z;
  dt_originator_host : SshString;
  dt_originator_port : Z;
}.

Record CancelTcpipForwardRequest := MkCancelTcpipForwardRequest {
  ctf_bind_address : SshString;
  ctf_bind_port : Z;
}.

Record TcpipForwardReply := MkTcpipForwardReply {
  reply_allocated_port : Z;
}.

Record ForwardedTcpip := MkForwardedTcpip {
  ft_connected_address : SshString;
  ft_connected_port : Z;
  ft_originator_address : SshString;
  ft_originator_port : Z;
}.

Record StreamlocalForwardRequest := MkStreamlocalForwardRequest {
  sf_socket_path : SshString;
}.

Record CancelStreamlocalForwardRequest := MkCancelStreamlocalForwardRequest {
  csf_socket_path : SshString;
}.

Record ForwardedStreamlocal := MkForwardedStreamlocal {
  fs_socket_path : SshString;
}.

Record DirectStreamlocal := MkDirectStreamlocal {
  ds_socket_path : SshString;
}.

#[export] Instance TcpipForwardRequest_eq_dec : EqDecision TcpipForwardRequest.
Proof. solve_decision. Defined.

#[export] Instance DirectTcpip_eq_dec : EqDecision DirectTcpip.
Proof. solve_decision. Defined.

#[export] Instance CancelTcpipForwardRequest_eq_dec : EqDecision CancelTcpipForwardRequest.
Proof. solve_decision. Defined.

#[export] Instance TcpipForwardReply_eq_dec : EqDecision TcpipForwardReply.
Proof. solve_decision. Defined.

#[export] Instance ForwardedTcpip_eq_dec : EqDecision ForwardedTcpip.
Proof. solve_decision. Defined.

#[export] Instance StreamlocalForwardRequest_eq_dec : EqDecision StreamlocalForwardRequest.
Proof. solve_decision. Defined.

#[export] Instance CancelStreamlocalForwardRequest_eq_dec : EqDecision CancelStreamlocalForwardRequest.
Proof. solve_decision. Defined.

#[export] Instance ForwardedStreamlocal_eq_dec : EqDecision ForwardedStreamlocal.
Proof. solve_decision. Defined.

#[export] Instance DirectStreamlocal_eq_dec : EqDecision DirectStreamlocal.
Proof. solve_decision. Defined.

(** ** Codecs *)

Section codecs.
Context `{VarIntCodec}.

#[export] Instance TcpipForwardRequest_encode_into : EncodeInto TcpipForwardRequest ForwardError := λ self,
  encode_one (tf_bind_address self) <?> forward_error.Codec ;;;
  encode_one (tf_bind_port self) <?> forward_error.WriteIo.

#[export] Instance TcpipForwardRequest_decode_from : DecodeFrom TcpipForwardRequest ForwardError :=
  let! bind_address := decode_one SshString <?> forward_error.Codec in
  let! bind_port := decode_one Z <?> forward_error.ReadIo in
  io_ret (MkTcpipForwardRequest bind_address bind_port).

#[export] Instance DirectTcpip_encode_into : EncodeInto DirectTcpip ForwardError := λ self,
  encode_one (dt_dest_host self) <?> forward_error.Codec ;;;
  encode_one (dt_dest_port self) <?> forward_error.WriteIo ;;;
  encode_one (dt_originator_host self) <?> forward_error.Codec ;;;
  encode_one (dt_originator_port self) <?> forward_error.WriteIo.

#[export] Instance DirectTcpip_decode_from : DecodeFrom DirectTcpip ForwardError :=
  let! dest_host := decode_one SshString <?> forward_error.Codec in
  let! dest_port := decode_one Z <?> forward_error.ReadIo in
  let! originator_host := decode_one SshString <?> forward_error.Codec in
  let! originator_port := decode_one Z <?> forward_error.ReadIo in
  io_ret (MkDirectTcpip dest_host dest_port originator_host originator_port).

#[export] Instance CancelTcpipForwardRequest_encode_into : EncodeInto CancelTcpipForwardRequest ForwardError := λ self,
  encode_one (ctf_bind_address self) <?> forward_error.Codec ;;;
  encode_one (ctf_bind_port self) <?> forward_error.WriteIo.

#[export] Instance CancelTcpipForwardRequest_decode_from : DecodeFrom CancelTcpipForwardRequest ForwardError :=
  let! bind_address := decode_one SshString <?> forward_error.Codec in
  let! bind_port := decode_one Z <?> forward_error.ReadIo in
  io_ret (MkCancelTcpipForwardRequest bind_address bind_port).

#[export] Instance TcpipForwardReply_encode_into : EncodeInto TcpipForwardReply ForwardError := λ self,
  encode_one (reply_allocated_port self) <?> forward_error.WriteIo.

#[export] Instance TcpipForwardReply_decode_from : DecodeFrom TcpipForwardReply ForwardError :=
  let! allocated_port := decode_one Z <?> forward_error.ReadIo in
  io_ret (MkTcpipForwardReply allocated_port).

#[export] Instance ForwardedTcpip_encode_into : EncodeInto ForwardedTcpip ForwardError := λ self,
  encode_one (ft_connected_address self) <?> forward_error.Codec ;;;
  encode_one (ft_connected_port self) <?> forward_error.WriteIo ;;;
  encode_one (ft_originator_address self) <?> forward_error.Codec ;;;
  encode_one (ft_originator_port self) <?> forward_error.WriteIo.

#[export] Instance ForwardedTcpip_decode_from : DecodeFrom ForwardedTcpip ForwardError :=
  let! connected_address := decode_one SshString <?> forward_error.Codec in
  let! connected_port := decode_one Z <?> forward_error.ReadIo in
  let! originator_address := decode_one SshString <?> forward_error.Codec in
  let! originator_port := decode_one Z <?> forward_error.ReadIo in
  io_ret (MkForwardedTcpip connected_address connected_port originator_address originator_port).

#[export] Instance StreamlocalForwardRequest_encode_into : EncodeInto StreamlocalForwardRequest ForwardError := λ self,
  encode_one (sf_socket_path self) <?> forward_error.Codec.

#[export] Instance StreamlocalForwardRequest_decode_from : DecodeFrom StreamlocalForwardRequest ForwardError :=
  let! socket_path := decode_one SshString <?> forward_error.Codec in
  io_ret (MkStreamlocalForwardRequest socket_path).

#[export] Instance CancelStreamlocalForwardRequest_encode_into : EncodeInto CancelStreamlocalForwardRequest ForwardError := λ self,
  encode_one (csf_socket_path self) <?> forward_error.Codec.

#[export] Instance CancelStreamlocalForwardRequest_decode_from : DecodeFrom CancelStreamlocalForwardRequest ForwardError :=
  let! socket_path := decode_one SshString <?> forward_error.Codec in
  io_ret (MkCancelStreamlocalForwardRequest socket_path).

#[export] Instance ForwardedStreamlocal_encode_into : EncodeInto ForwardedStreamlocal ForwardError := λ self,
  encode_one (fs_socket_path self) <?> forward_error.Codec ;;;
  encode_one (ssh_string_from "") <?> forward_error.Codec.

#[export] Instance ForwardedStreamlocal_decode_from : DecodeFrom ForwardedStreamlocal ForwardError :=
  let! socket_path := decode_one SshString <?> forward_error.Codec in
  let! _ := decode_one SshString <?> forward_error.Codec in
  io_ret (MkForwardedStreamlocal socket_path).

#[export] Instance DirectStreamlocal_encode_into : EncodeInto DirectStreamlocal ForwardError := λ self,
  encode_one (ds_socket_path self) <?> forward_error.Codec ;;;
  encode_one (from_static "") <?> forward_error.Codec ;;;
  encode_one (T := Z) 0 <?> forward_error.WriteIo.

#[export] Instance DirectStreamlocal_decode_from : DecodeFrom DirectStreamlocal ForwardError :=
  let! socket_path := decode_one SshString <?> forward_error.Codec in
  let! _ := decode_one SshString <?> forward_error.Codec in
  let! _ := decode_one Z <?> forward_error.ReadIo in
  io_ret (MkDirectStreamlocal socket_path).
End codecs.

(** ** Channel opens *)

Inductive SessionChannelOpen := MkSessionChannelOpen.
Inductive Socks5ChannelOpen := MkSocks5ChannelOpen.

#[export] Instance SessionChannelOpen_encode_into : EncodeInto SessionChannelOpen Infallible :=
  λ self, io_ret ().
#[export] Instance Socks5ChannelOpen_encode_into : EncodeInto Socks5ChannelOpen Infallible :=
  λ self, io_ret ().

#[export] Instance SessionChannelOpen_open : ChannelOpen SessionChannelOpen :=
  {| channel_type _ := from_static "session" |}.
#[export] Instance DirectTcpip_open : ChannelOpen DirectTcpip :=
  {| channel_type _ := from_static "direct-tcpip" |}.
#[export] Instance ForwardedTcpip_open : ChannelOpen ForwardedTcpip :=
  {| channel_type _ := from_static "forwarded-tcpip" |}.
#[export] Instance DirectStreamlocal_open : ChannelOpen DirectStreamlocal :=
  {| channel_type _ := from_static "direct-streamlocal@openssh.com" |}.
#[export] Instance ForwardedStreamlocal_open : ChannelOpen ForwardedStreamlocal :=
  {| channel_type _ := from_static "forwarded-streamlocal@openssh.com" |}.
#[export] Instance Socks5ChannelOpen_open : ChannelOpen Socks5ChannelOpen :=
  {| channel_type _ := from_static "socks5" |}.

(** ** Global requests *)

Record TcpipForwardGlobalRequest := MkTcpipForwardGlobalRequest { tcpip_forward_global_request_payload : TcpipForwardRequest }.
#[export] Instance TcpipForwardGlobalRequest_request :
    WantReplyGlobalRequest TcpipForwardGlobalRequest TcpipForwardReply TcpipForwardRequest :=
  {| global_request_type _ := from_static "tcpip-forward";
     global_payload := tcpip_forward_global_request_payload |}.

Record CancelTcpipForwardGlobalRequest := MkCancelTcpipForwardGlobalRequest { cancel_tcpip_forward_global_request_payload : CancelTcpipForwardRequest }.
#[export] Instance CancelTcpipForwardGlobalRequest_request :
    WantReplyGlobalRequest CancelTcpipForwardGlobalRequest EmptyPayload CancelTcpipForwardRequest :=
  {| global_request_type _ := from_static "cancel-tcpip-forward";
     global_payload := cancel_tcpip_forward_global_request_payload |}.

Record StreamlocalForwardGlobalRequest := MkStreamlocalForwardGlobalRequest { streamlocal_forward_global_request_payload : StreamlocalForwardRequest }.
#[export] Instance StreamlocalForwardGlobalRequest_request :
    WantReplyGlobalRequest StreamlocalForwardGlobalRequest EmptyPayload StreamlocalForwardRequest :=
  {| global_request_type _ := from_static "streamlocal-forward@openssh.com";
     global_payload := streamlocal_forward_global_request_payload |}.

Record CancelStreamlocalForwardGlobalRequest := MkCancelStreamlocalForwardGlobalRequest { cancel_streamlocal_forward_global_request_payload : CancelStreamlocalForwardRequest }.
#[export] Instance CancelStreamlocalForwardGlobalRequest_request :
    WantReplyGlobalRequest CancelStreamlocalForwardGlobalRequest EmptyPayload CancelStreamlocalForwardRequest :=
  {| global_request_type _ := from_static "cancel-streamlocal-forward@openssh.com";
     global_payload := cancel_streamlocal_forward_global_request_payload |}.

(** ** Wire formats *)

Section formats.
Context `{VarIntLaws}.

#[export, program] Instance TcpipForwardRequest_wire : WireFormat TcpipForwardRequest :=
  {| wire self :=
        field_wire (ssh_string_bytes (tf_bind_address self)) ++
        varint_bytes (tf_bind_port self);
     wire_ok self := ssh_string_ok (tf_bind_address self) ∧
        varint_ok (tf_bind_port self) |}.
Solve Obligations with solve_wire.

#[export, program] Instance DirectTcpip_wire : WireFormat DirectTcpip :=
  {| wire self :=
        field_wire (ssh_string_bytes (dt_dest_host self)) ++
        varint_bytes (dt_dest_port self) ++
        field_wire (ssh_string_bytes (dt_originator_host self)) ++
        varint_bytes (dt_originator_port self);
     wire_ok self := ssh_string_ok (dt_dest_host self) ∧
        varint_ok (dt_dest_port self) ∧
        ssh_string_ok (dt_originator_host self) ∧
        varint_ok (dt_originator_port self) |}.
Solve Obligations with solve_wire.

#[export, program] Instance CancelTcpipForwardRequest_wire : WireFormat CancelTcpipForwardRequest :=
  {| wire self :=
        field_wire (ssh_string_bytes (ctf_bind_address self)) ++
        varint_bytes (ctf_bind_port self);
     wire_ok self := ssh_string_ok (ctf_bind_address self) ∧
        varint_ok (ctf_bind_port self) |}.
Solve Obligations with solve_wire.

#[export, program] Instance TcpipForwardReply_wire : WireFormat TcpipForwardReply :=
  {| wire self :=
        varint_bytes (reply_allocated_port self);
     wire_ok self := varint_ok (reply_allocated_port self) |}.
Solve Obligations with solve_wire.

#[export, program] Instance ForwardedTcpip_wire : WireFormat ForwardedTcpip :=
  {| wire self :=
        field_wire (ssh_string_bytes (ft_connected_address self)) ++
        varint_bytes (ft_connected_port self) ++
        field_wire (ssh_string_bytes (ft_originator_address self)) ++
        varint_bytes (ft_originator_port self);
     wire_ok self := ssh_string_ok (ft_connected_address self) ∧
        varint_ok (ft_connected_port self) ∧
        ssh_string_ok (ft_originator_address self) ∧
        varint_ok (ft_originator_port self) |}.
Solve Obligations with solve_wire.

#[export, program] Instance StreamlocalForwardRequest_wire : WireFormat StreamlocalForwardRequest :=
  {| wire self :=
        field_wire (ssh_string_bytes (sf_socket_path self));
     wire_ok self := ssh_string_ok (sf_socket_path self) |}.
Solve Obligations with solve_wire.

#[export, program] Instance CancelStreamlocalForwardRequest_wire : WireFormat CancelStreamlocalForwardRequest :=
  {| wire self :=
        field_wire (ssh_string_bytes (csf_socket_path self));
     wire_ok self := ssh_string_ok (csf_socket_path self) |}.
Solve Obligations with solve_wire.

#[export, program] Instance ForwardedStreamlocal_wire : WireFormat ForwardedStreamlocal :=
  {| wire self :=
        field_wire (ssh_string_bytes (fs_socket_path self)) ++
        field_wire (ssh_string_bytes (from_static ""));
     wire_ok self := ssh_string_ok (fs_socket_path self) |}.
Solve Obligations with solve_wire.

#[export, program] Instance DirectStreamlocal_wire : WireFormat DirectStreamlocal :=
  {| wire self :=
        field_wire (ssh_string_bytes (ds_socket_path self)) ++
        field_wire (ssh_string_bytes (from_static "")) ++ varint_bytes 0;
     wire_ok self := ssh_string_ok (ds_socket_path self) |}.
Solve Obligations with solve_wire.
End formats.

Section reserved.
Context `{VarIntLaws}.

Lemma forwarded_streamlocal_reserved path reserved :
  ssh_string_ok path → ssh_string_ok reserved →
  reads (decode_from ForwardedStreamlocal)
    (field_wire (ssh_string_bytes path) ++ field_wire (ssh_string_bytes reserved))
    (MkForwardedStreamlocal path).
Proof.
  intros. change (reads ForwardedStreamlocal_decode_from
    (field_wire (ssh_string_bytes path) ++ field_wire (ssh_string_bytes reserved))
    (MkForwardedStreamlocal path)). unfold ForwardedStreamlocal_decode_from. solve_reads.
Qed.

Lemma direct_streamlocal_reserved path reserved port :
  ssh_string_ok path → ssh_string_ok reserved → varint_ok port →
  reads (decode_from DirectStreamlocal)
    (field_wire (ssh_string_bytes path) ++ field_wire (ssh_string_bytes reserved) ++
     varint_bytes port)
    (MkDirectStreamlocal path).
Proof.
  intros. change (reads DirectStreamlocal_decode_from
    (field_wire (ssh_string_bytes path) ++ field_wire (ssh_string_bytes reserved) ++
     varint_bytes port)
    (MkDirectStreamlocal path)). unfold DirectStreamlocal_decode_from. solve_reads.
Qed.
End reserved.

(** ** Properties *)

(** C36: Every forwarding payload survives the wire, as the session payloads do;
    the reserved fields of the stream-local opens are read and ignored, whatever
    the peer put there. *)
Theorem forward_payloads_roundtrip `{VarIntLaws} :
  roundtrips TcpipForwardRequest ∧
  roundtrips DirectTcpip ∧
  roundtrips CancelTcpipForwardRequest ∧
  roundtrips TcpipForwardReply ∧
  roundtrips ForwardedTcpip ∧
  roundtrips StreamlocalForwardRequest ∧
  roundtrips CancelStreamlocalForwardRequest ∧
  roundtrips ForwardedStreamlocal ∧
  roundtrips DirectStreamlocal ∧
  (∀ path reserved fin rest, ssh_string_ok path → ssh_string_ok reserved →
     decode_from ForwardedStreamlocal
       (MkReader (field_wire (ssh_string_bytes path) ++
                  field_wire (ssh_string_bytes reserved) ++ rest) fin)
     = (MkReader rest fin, Ok (MkForwardedStreamlocal path))) ∧
  (∀ path reserved port fin rest, ssh_string_ok path → ssh_string_ok reserved → varint_ok port →
     decode_from DirectStreamlocal
       (MkReader (field_wire (ssh_string_bytes path) ++
                  field_wire (ssh_string_bytes reserved) ++ varint_bytes port ++ rest) fin)
     = (MkReader rest fin, Ok (MkDirectStreamlocal path))).
Proof.
  split_and!; try apply wire_roundtrips.
  - intros. rewrite (assoc_L (++)). by apply forwarded_streamlocal_reserved.
  - intros. rewrite !(assoc_L (++)), <- (assoc_L (++) (field_wire _)).
    by apply direct_streamlocal_reserved.
Qed.

(** ** Witnesses *)

#[local] Existing Instance quic_varint.
#[local] Existing Instance quic_varint_laws.

Lemma forward_payloads_roundtrip_witness : roundtrips DirectTcpip.
Proof. apply (@forward_payloads_roundtrip quic_varint quic_varint_laws). Defined.
