(* ===== verification/Conversation.v ===== *)
(** * Opening and accepting channels ([src/src/conversation.rs], [src/src/webtransport.rs])

    The stream kinds, the channel open handshake from both sides. A session
    hands out pairs of streams ([open_bi], [accept_bi]); it is h3x's, and what
    it returns is an argument. *)
From Stdlib Require Import ZArith Lia Strings.Byte.
From stdpp Require Import base list strings gmap fin_maps relations.
From S2P Require Import Prelude Wire Codec Message ChannelErrors Channel SessionMsg ForwardMsg.
Local Open Scope Z_scope.
Local Open Scope io_scope.

(** ** webtransport.rs *)

Definition DSHELL_CONTROL_STREAM_KIND : Z := 0.
Definition DSHELL_CHANNEL_STREAM_KIND : Z := 1.

Module web_transport_stream_error.
Inductive WebTransportStreamError (OpenStreamError AcceptStreamError : Type) :=
| OpenBi (source : OpenStreamError)
| AcceptBi (source : AcceptStreamError)
| EncodeStreamKind (source : ErrorKind)
| FlushStreamKind (source : ErrorKind)
| DecodeStreamKind (source : ErrorKind)
| UnexpectedStreamKind (kind : Z).
#[global] Arguments OpenBi {OpenStreamError AcceptStreamError}.
#[global] Arguments AcceptBi {OpenStreamError AcceptStreamError}.
#[global] Arguments EncodeStreamKind {OpenStreamError AcceptStreamError}.
#[global] Arguments FlushStreamKind {OpenStreamError AcceptStreamError}.
#[global] Arguments DecodeStreamKind {OpenStreamError AcceptStreamError}.
#[global] Arguments UnexpectedStreamKind {OpenStreamError AcceptStreamError}.
End web_transport_stream_error.
Abbreviation WebTransportStreamError := web_transport_stream_error.WebTransportStreamError.

Inductive OpenConversationError (OE AE : Type) :=
| OpenControl (source : WebTransportStreamError OE AE).
Arguments OpenControl {OE AE}.
Inductive AcceptConversationError (OE AE : Type) :=
| AcceptControl (source : WebTransportStreamError OE AE).
Arguments AcceptControl {OE AE}.

(** A pair of streams of the session. *)
Abbreviation Bi := (Reader * Writer)%type.

(** The streams a call worked on, if it got any, as it left them. *)
Definition on_bi {E0 E A} (bi : result Bi E0) (wrap : E0 → E) (c : Io Bi E A)
    : option Bi * result A E :=
  match bi with
  | Ok s => let '(s', x) := c s in (Some s', x)
  | Err e => (None, Err (wrap e))
  | Panic => (None, Panic)
  end.

Definition on_bi_reader {A E} : Io Reader E A → Io Bi E A := io_zoom fst (λ r s, (r, s.2)).

Section conversation.
Context `{VarIntCodec} {OE AE : Type}.
Let StreamError := WebTransportStreamError OE AE.

(** ** Stream kinds *)

Definition write_stream_kind (kind : Z) : Io Writer StreamError () :=
  encode_one kind <?> web_transport_stream_error.EncodeStreamKind ;;;
  flush <?> web_transport_stream_error.FlushStreamKind.

Definition open_stream_kind (kind : Z) : Io Bi StreamError () :=
  on_writer (write_stream_kind kind).

Definition accept_stream_kind (expected : Z) : Io Bi StreamError () :=
  let! actual := on_bi_reader (decode_one Z <?> web_transport_stream_error.DecodeStreamKind) in
  if negb (actual =? expected)
  then io_fail (web_transport_stream_error.UnexpectedStreamKind actual)
  else io_ret ().

Definition open_channel_stream : Io Bi StreamError () :=
  open_stream_kind DSHELL_CHANNEL_STREAM_KIND.
Definition accept_channel_stream : Io Bi StreamError () :=
  accept_stream_kind DSHELL_CHANNEL_STREAM_KIND.

(** ** The conversation's control stream *)

(** [Conversation::open] and [accept]: the control streams the conversation
    is built from. *)
Definition open (open_bi : result Bi OE)
    : option Bi * result () (OpenConversationError OE AE) :=
  on_bi open_bi (λ e, OpenControl (web_transport_stream_error.OpenBi e))
    (open_stream_kind DSHELL_CONTROL_STREAM_KIND <?> OpenControl).
Definition accept_conversation (accept_bi : result Bi AE)
    : option Bi * result () (AcceptConversationError OE AE) :=
  on_bi accept_bi (λ e, AcceptControl (web_transport_stream_error.AcceptBi e))
    (accept_stream_kind DSHELL_CONTROL_STREAM_KIND <?> AcceptControl).

(** ** The channel open response *)

Definition read_channel_open_response : Io Reader AwaitOpenError () :=
  let! msg_type := decode_one Z <?> await_open_error.DecodeMessageType in
  if msg_type =? SSH_MSG_CHANNEL_OPEN_CONFIRMATION then
    let! _max_message_size := decode_one Z <?> await_open_error.DecodeMaxMessageSize in
    io_ret ()
  else if msg_type =? SSH_MSG_CHANNEL_OPEN_FAILURE then
    let! reason_code := decode_one Z <?> await_open_error.DecodeReasonCode in
    let! description := decode_one SshString <?> await_open_error.DecodeDescription in
    io_fail (await_open_error.Rejected (MkChannelOpenFailure reason_code description))
  else io_fail (await_open_error.UnexpectedMessageType msg_type).

(** ** Channels *)

(** What [open_channel] does with its streams: [open_header] writes the
    header, then it waits for the response. *)
Definition open_header {C PE} `{ChannelOpen C, EncodeInto C PE} (channel : C)
    (max_message_size : Z) : Io Writer (OpenChannelError StreamError PE) () :=
  encode_one max_message_size <?> open_channel_error.EncodeMaxMessageSize ;;;
  encode_one (channel_type channel) <?> open_channel_error.EncodeChannelType ;;;
  encode_into channel <?> open_channel_error.EncodePayload ;;;
  flush <?> open_channel_error.Flush.

Definition open_channel {C PE} `{ChannelOpen C, EncodeInto C PE} (open_bi : result Bi OE)
    (channel : C) (max_message_size : Z)
    : option Bi * result () (OpenChannelError StreamError PE) :=
  on_bi open_bi (λ e, open_channel_error.OpenStream (web_transport_stream_error.OpenBi e))
    (open_channel_stream <?> open_channel_error.OpenStream ;;;
     on_writer (open_header channel max_message_size) ;;;
     on_bi_reader (read_channel_open_response <?> open_channel_error.AwaitConfirmation)).

Definition accept_header : Io Bi (AcceptChannelError StreamError) (Z * SshString) :=
  let! max_message_size :=
    on_bi_reader (decode_one Z <?> accept_channel_error.DecodeMaxMessageSize) in
  let! channel_type :=
    on_bi_reader (decode_one SshString <?> accept_channel_error.DecodeChannelType) in
  io_ret (max_message_size, channel_type).

Definition accept_channel (accept_bi : result Bi AE)
    : option Bi * result IncomingChannel (AcceptChannelError StreamError) :=
  match on_bi accept_bi
          (λ e, accept_channel_error.AcceptStream (web_transport_stream_error.AcceptBi e))
          (accept_channel_stream <?> accept_channel_error.AcceptStream ;;; accept_header) with
  | (Some (r, w), Ok (max_message_size, channel_type)) =>
    (Some (r, w), Ok (MkIncomingChannel channel_type max_message_size r w))
  | (s, Err e) => (s, Err e)
  | (s, _) => (s, Panic)
  end.
End conversation.

(** ** Lemmas *)

Lemma on_bi_reader_run {A E} (c : Io Reader E A) r r' w x :
  c r = (r', x) → on_bi_reader c (r, w) = ((r', w), x).
Proof. unfold on_bi_reader, io_zoom. simpl. by intros ->. Qed.

Section lemmas.
Context `{VarIntLaws} {OE AE : Type}.

Lemma write_stream_kind_writes kind :
  varint_ok kind →
  writes (write_stream_kind (OE := OE) (AE := AE) kind) (varint_bytes kind) ().
Proof. intros. unfold write_stream_kind. solve_writes. Qed.

Lemma open_header_writes {C PE} `{ChannelOpen C, EncodeInto C PE} (c : C) m payload :
  varint_ok m → ssh_string_ok (channel_type c) → writes (encode_into c) payload () →
  writes (open_header (OE := OE) (AE := AE) c m)
    (varint_bytes m ++ field_wire (ssh_string_bytes (channel_type c)) ++ payload) ().
Proof. intros. unfold open_header. solve_writes. Qed.

Lemma confirmation_reads m :
  varint_ok m →
  reads read_channel_open_response (msg SSH_MSG_CHANNEL_OPEN_CONFIRMATION ++ varint_bytes m) ().
Proof. intros. unfold read_channel_open_response, msg. solve_reads. Qed.

(** A failing decoder, as [reads]. *)
Lemma rejection_run code d rest fin :
  varint_ok code → ssh_string_ok d →
  read_channel_open_response
    (MkReader ((msg SSH_MSG_CHANNEL_OPEN_FAILURE ++ varint_bytes code ++
                field_wire (ssh_string_bytes d)) ++ rest) fin)
  = (MkReader rest fin, Err (await_open_error.Rejected (MkChannelOpenFailure code d))).
Proof.
  intros Hc Hd. unfold read_channel_open_response, msg. rewrite <- !(assoc_L (++)).
  erewrite io_bind_ok; [|apply reads_map_err, decode_varint_reads; eauto with wire].
  eval_eqb. erewrite io_bind_ok; [|by apply reads_map_err, decode_varint_reads].
  by erewrite io_bind_ok; [|by apply reads_map_err, decode_string_reads].
Qed.

Lemma accept_stream_kind_run kind expected rest fin w :
  varint_ok kind →
  accept_stream_kind (OE := OE) (AE := AE) expected (MkReader (varint_bytes kind ++ rest) fin, w)
  = ((MkReader rest fin, w),
     if kind =? expected then Ok ()
     else Err (web_transport_stream_error.UnexpectedStreamKind kind)).
Proof.
  intros. unfold accept_stream_kind. erewrite io_bind_ok.
  2:{ apply on_bi_reader_run. by apply reads_map_err, decode_varint_reads. }
  by destruct (kind =? expected).
Qed.

Definition channel_header (m : Z) (name : SshString) : list byte :=
  varint_bytes m ++ field_wire (ssh_string_bytes name).

Lemma accept_channel_run m name rest fin w :
  varint_ok m → ssh_string_ok name →
  accept_channel (OE := OE) (AE := AE)
    (Ok (MkReader (varint_bytes DSHELL_CHANNEL_STREAM_KIND ++ channel_header m name ++ rest) fin,
         w))
  = (Some (MkReader rest fin, w), Ok (MkIncomingChannel name m (MkReader rest fin) w)).
Proof.
  intros. unfold accept_channel, on_bi, accept_channel_stream, accept_header, channel_header.
  erewrite io_bind_ok.
  2:{ apply map_err_ok. rewrite accept_stream_kind_run by eauto with wire. by eval_eqb. }
  rewrite <- (assoc_L (++)). erewrite io_bind_ok.
  2:{ apply on_bi_reader_run. by apply reads_map_err, decode_varint_reads. }
  erewrite io_bind_ok.
  2:{ apply on_bi_reader_run. by apply reads_map_err, decode_string_reads. }
  done.
Qed.

(** [open_channel] writes the header and then acts on the response. *)
Lemma open_channel_run {C PE} `{ChannelOpen C, EncodeInto C PE} (c : C) m payload w :
  varint_ok m → ssh_string_ok (channel_type c) → writes (encode_into c) payload () →
  wr_plan w = [] →
  ∃ w', wr_out w' = wr_out w ++ varint_bytes DSHELL_CHANNEL_STREAM_KIND ++
                    channel_header m (channel_type c) ++ payload ∧ wr_plan w' = [] ∧
    ∀ r, open_channel (OE := OE) (AE := AE) (Ok (r, w)) c m
      = let '(r', x) := read_channel_open_response r in
        (Some (r', w'), result_map_err open_channel_error.AwaitConfirmation x).
Proof.
  intros Hm Hn Hp Hw.
  destruct (writes_ok (write_stream_kind_writes DSHELL_CHANNEL_STREAM_KIND
              (msg_ok 1 eq_refl)) w Hw) as (w1 & Hr1 & Ho1 & Hp1).
  destruct (writes_ok (open_header_writes c m payload Hm Hn Hp) w1 Hp1) as (w2 & Hr2 & Ho2 & Hp2).
  exists w2. split; [|split; [done|]].
  { unfold channel_header. by rewrite Ho2, Ho1, <- !(assoc_L (++)). }
  intros r. unfold open_channel, on_bi, open_channel_stream, open_stream_kind.
  erewrite io_bind_ok; [|apply map_err_ok; by apply on_writer_run].
  erewrite io_bind_ok; [|by apply on_writer_run].
  unfold on_bi_reader, io_zoom, map_err. simpl.
  by destruct (read_channel_open_response r).
Qed.
End lemmas.

(** ** Properties *)

Section properties.
Context `{VarIntLaws} {OE AE : Type}.

(** C16: The channel open handshake. What [open_channel] writes makes the
    peer's [accept_channel] return the same channel type and message size, and
    [decode_payload] the same payload; when the peer accepts, the opener gets
    its streams with exactly the bytes the peer sends after the confirmation;
    when it rejects, the opener gets the peer's reason and description. *)
Theorem channel_open_handshake {C PE PD} `{ChannelOpen C, EncodeInto C PE, DecodeFrom C PD,
    !WireFormat C} (c : C) (m peer_m code : Z) (d : SshString) (w peer : Writer) :
  varint_ok m → varint_ok peer_m → varint_ok code → ssh_string_ok d →
  ssh_string_ok (channel_type c) → wire_ok c → wr_plan w = [] → wr_plan peer = [] →
  ∃ w' header pending ch w_reject conf failure,
    wr_out w' = wr_out w ++ header ∧
    (∀ fin rest, ∃ incoming,
       accept_channel (OE := OE) (AE := AE) (Ok (MkReader (header ++ rest) fin, peer))
       = (Some (incoming_reader incoming, peer), Ok incoming) ∧
       channel_type_name incoming = channel_type c ∧ max_message_size incoming = m ∧
       decode_payload C incoming = Ok (c, pending fin rest) ∧
       pending_reader (pending fin rest) = MkReader rest fin) ∧
    (∀ fin rest, accept (pending fin rest) peer_m = (writer (ch fin rest), Ok (ch fin rest)) ∧
       wr_out (writer (ch fin rest)) = wr_out peer ++ conf) ∧
    reject code d peer = (w_reject, Ok ()) ∧ wr_out w_reject = wr_out peer ++ failure ∧
    (∀ later fin, open_channel (OE := OE) (AE := AE) (Ok (MkReader (conf ++ later) fin, w)) c m
       = (Some (MkReader later fin, w'), Ok ())) ∧
    (∀ later fin, open_channel (OE := OE) (AE := AE) (Ok (MkReader (failure ++ later) fin, w)) c m
       = (Some (MkReader later fin, w'),
          Err (open_channel_error.AwaitConfirmation
                 (await_open_error.Rejected (MkChannelOpenFailure code d))))).
Proof.
  intros Hm Hpm Hcode Hd Hn Hc Hw Hpeer.
  destruct (open_channel_run (OE := OE) (AE := AE) c m (wire c) w Hm Hn
              (wire_encode c Hc) Hw) as (w' & Ho & _ & Hopen).
  destruct (writes_ok (accept_send_writes peer_m Hpm) peer Hpeer) as (w_conf & Hconf & Hoc & _).
  destruct (writes_ok (reject_writes code d Hcode Hd) peer Hpeer) as (w_rej & Hrej & Hor & _).
  exists w', (varint_bytes DSHELL_CHANNEL_STREAM_KIND ++ channel_header m (channel_type c) ++
              wire c),
    (λ fin rest, from_raw_parts (MkReader rest fin) peer),
    (λ fin rest, new_channel (MkReader rest fin) w_conf), w_rej.
  eexists _, _. split_and!; [done| | |done|done| |].
  - intros fin rest. rewrite <- !(assoc_L (++)).
    exists (MkIncomingChannel (channel_type c) m (MkReader (wire c ++ rest) fin) peer).
    rewrite accept_channel_run by done. split_and!; [done..| |done].
    unfold decode_payload. simpl. by rewrite wire_decode.
  - intros fin rest. unfold accept. simpl. rewrite Hconf. split; [done|exact Hoc].
  - intros later fin. rewrite Hopen. by rewrite confirmation_reads.
  - intros later fin. rewrite Hopen. by rewrite rejection_run.
Qed.

(** The two kinds of stream cannot be taken for each other: a peer that
    expects a channel refuses the stream that [Conversation::open] starts, and
    one that expects the control stream refuses a channel's, in both cases
    having consumed only the kind. *)
Theorem stream_kinds_disjoint (w w' : Writer) kind other rest fin :
  (kind, other) = (DSHELL_CONTROL_STREAM_KIND, DSHELL_CHANNEL_STREAM_KIND) ∨
  (kind, other) = (DSHELL_CHANNEL_STREAM_KIND, DSHELL_CONTROL_STREAM_KIND) →
  write_stream_kind (OE := OE) (AE := AE) kind w = (w', Ok ()) →
  ∃ bs, wr_out w' = wr_out w ++ bs ∧
    accept_stream_kind (OE := OE) (AE := AE) kind (MkReader (bs ++ rest) fin, w)
    = ((MkReader rest fin, w), Ok ()) ∧
    accept_stream_kind (OE := OE) (AE := AE) other (MkReader (bs ++ rest) fin, w)
    = ((MkReader rest fin, w), Err (web_transport_stream_error.UnexpectedStreamKind kind)).
Proof.
  intros Hk Hw. assert (varint_ok kind ∧ (kind =? other) = false) as [Hok Hne]
    by (destruct Hk; simplify_eq; eauto with wire).
  destruct (writes_full (write_stream_kind_writes kind Hok) _ _ _ Hw) as [Ho _].
  exists (varint_bytes kind). split; [done|].
  rewrite !accept_stream_kind_run by done. by rewrite Z.eqb_refl, Hne.
Qed.
End properties.

(** ** Witnesses *)

#[local] Existing Instance quic_varint.
#[local] Existing Instance quic_varint_laws.

Definition sample_direct : DirectTcpip :=
  MkDirectTcpip (from_static "example.org") 443 (from_static "127.0.0.1") 50000.

Lemma channel_open_handshake_witness :
  ∃ w' header pending ch w_reject conf failure,
    wr_out w' = [] ++ header ∧
    (∀ fin rest, ∃ incoming,
       accept_channel (OE := ()) (AE := ()) (Ok (MkReader (header ++ rest) fin, new_writer))
       = (Some (incoming_reader incoming, new_writer), Ok incoming) ∧
       channel_type_name incoming = from_static "direct-tcpip" ∧ max_message_size incoming = 7 ∧
       decode_payload DirectTcpip incoming = Ok (sample_direct, pending fin rest) ∧
       pending_reader (pending fin rest) = MkReader rest fin) ∧
    (∀ fin rest, accept (pending fin rest) 9 = (writer (ch fin rest), Ok (ch fin rest)) ∧
       wr_out (writer (ch fin rest)) = [] ++ conf) ∧
    reject 2 (from_static "no") new_writer = (w_reject, Ok ()) ∧
    wr_out w_reject = [] ++ failure ∧
    (∀ later fin,
       open_channel (OE := ()) (AE := ()) (Ok (MkReader (conf ++ later) fin, new_writer))
         sample_direct 7
       = (Some (MkReader later fin, w'), Ok ())) ∧
    (∀ later fin,
       open_channel (OE := ()) (AE := ()) (Ok (MkReader (failure ++ later) fin, new_writer))
         sample_direct 7
       = (Some (MkReader later fin, w'),
          Err (open_channel_error.AwaitConfirmation
                 (await_open_error.Rejected (MkChannelOpenFailure 2 (from_static "no")))))).
Proof.
  refine (channel_open_handshake (C := DirectTcpip) (OE := ()) (AE := ()) sample_direct 7 9 2
            (from_static "no") new_writer new_writer _ _ _ _ _ _ _ _); try reflexivity;
    try (apply from_static_ok; reflexivity); try (apply msg_ok; reflexivity).
  split; [apply from_static_ok; reflexivity|]. split; [vm_compute; split; congruence|].
  split; [apply from_static_ok; reflexivity|]. vm_compute; split; congruence.
Defined.

Lemma stream_kinds_disjoint_witness :
  ∃ bs, [x00] = [] ++ bs ∧
    accept_stream_kind (OE := ()) (AE := ()) 0 (MkReader (bs ++ [x2a]) None, new_writer)
    = ((MkReader [x2a] None, new_writer), Ok ()) ∧
    accept_stream_kind (OE := ()) (AE := ()) 1 (MkReader (bs ++ [x2a]) None, new_writer)
    = ((MkReader [x2a] None, new_writer), Err (web_transport_stream_error.UnexpectedStreamKind 0)).
Proof.
  apply (stream_kinds_disjoint (OE := ()) (AE := ()) new_writer (MkWriter [x00] 1 false []) 0 1
           [x2a] None); [left; reflexivity|vm_compute; reflexivity].
Defined.
