(* ===== verification/Global.v ===== *)
(** * Global requests: messages and the ordered-access machine

    [src/src/conversation.rs] (the ordered access mechanism, the shared state,
    the global request operations) and [src/src/conversation/global.rs].

    The first part has the message each operation writes or reads while it
    holds a guard. The second part is the concurrent program: any number of
    tasks over the shared state, one atomic operation per step ([fetch_add],
    [load], [store], lock, set insertion, notification, one guarded message). *)
From Stdlib Require Import ZArith Lia Strings.Byte.
From stdpp Require Import base list strings gmap fin_maps relations.
From S2P Require Import Prelude Wire Codec Message ChannelErrors Channel.
Local Open Scope Z_scope.
Local Open Scope io_scope.

(** ** Errors *)

Inductive SessionPoisonedError := MkSessionPoisonedError.

Module send_request_error.
Inductive SendRequestError (PE SE : Type) :=
| EncodeMessageType (source : ErrorKind)
| EncodeRequestType (source : CodecError)
| EncodeWantReply (source : CodecError)
| EncodePayload (source : PE)
| Flush (source : ErrorKind)
| DecodeResponseType (source : ErrorKind)
| DecodeSuccess (source : SE)
| Rejected
| UnexpectedResponseType (message_type : Z)
| SessionPoisoned.
#[global] Arguments EncodeMessageType {PE SE}.
#[global] Arguments EncodeRequestType {PE SE}.
#[global] Arguments EncodeWantReply {PE SE}.
#[global] Arguments EncodePayload {PE SE}.
#[global] Arguments Flush {PE SE}.
#[global] Arguments DecodeResponseType {PE SE}.
#[global] Arguments DecodeSuccess {PE SE}.
#[global] Arguments Rejected {PE SE}.
#[global] Arguments UnexpectedResponseType {PE SE}.
#[global] Arguments SessionPoisoned {PE SE}.
End send_request_error.

Module send_notify_error.
Inductive SendNotifyError (PE : Type) :=
| EncodeMessageType (source : ErrorKind)
| EncodeRequestType (source : CodecError)
| EncodeWantReply (source : CodecError)
| EncodePayload (source : PE)
| Flush (source : ErrorKind)
| SessionPoisoned.
#[global] Arguments EncodeMessageType {PE}.
#[global] Arguments EncodeRequestType {PE}.
#[global] Arguments EncodeWantReply {PE}.
#[global] Arguments EncodePayload {PE}.
#[global] Arguments Flush {PE}.
#[global] Arguments SessionPoisoned {PE}.
End send_notify_error.

Module accept_error.
Inductive AcceptError :=
| DecodeMessageType (source : ErrorKind)
| DecodeRequestType (source : CodecError)
| DecodeWantReply (source : CodecError)
| UnexpectedMessageType (message_type : Z)
| SessionPoisoned.
End accept_error.

Module respond_success_error.
Inductive RespondSuccessError (RE : Type) :=
| EncodeMessageType (source : ErrorKind)
| EncodePayload (source : RE)
| Flush (source : ErrorKind)
| SessionPoisoned.
#[global] Arguments EncodeMessageType {RE}.
#[global] Arguments EncodePayload {RE}.
#[global] Arguments Flush {RE}.
#[global] Arguments SessionPoisoned {RE}.
End respond_success_error.

Module respond_failure_error.
Inductive RespondFailureError :=
| EncodeMessageType (source : ErrorKind)
| Flush (source : ErrorKind)
| SessionPoisoned.
End respond_failure_error.

Abbreviation SendRequestError := send_request_error.SendRequestError.
Abbreviation SendNotifyError := send_notify_error.SendNotifyError.
Abbreviation AcceptError := accept_error.AcceptError.
Abbreviation RespondSuccessError := respond_success_error.RespondSuccessError.
Abbreviation RespondFailureError := respond_failure_error.RespondFailureError.

(** ** The guarded messages *)

Section messages.
Context `{VarIntCodec}.

(** [send_global_request], with the writer guard. *)
Definition send_request_write {Rq Success Payload PE SE}
    `{WantReplyGlobalRequest Rq Success Payload, EncodeInto Payload PE}
    (request : Rq) : Io Writer (SendRequestError PE SE) () :=
  encode_one SSH_MSG_GLOBAL_REQUEST <?> send_request_error.EncodeMessageType ;;;
  encode_one (global_request_type request) <?> send_request_error.EncodeRequestType ;;;
  encode_one (MkSshBool true) <?> send_request_error.EncodeWantReply ;;;
  encode_into (global_payload request) <?> send_request_error.EncodePayload ;;;
  flush <?> send_request_error.Flush.

(** ... and with the reader guard. *)
Definition send_request_read {Success PE SE} `{DecodeFrom Success SE}
    : Io Reader (SendRequestError PE SE) Success :=
  let! msg_type := decode_one Z <?> send_request_error.DecodeResponseType in
  if msg_type =? SSH_MSG_REQUEST_SUCCESS then
    decode_from Success <?> send_request_error.DecodeSuccess
  else if msg_type =? SSH_MSG_REQUEST_FAILURE then io_fail send_request_error.Rejected
  else io_fail (send_request_error.UnexpectedResponseType msg_type).

(** [send_global_notification]. *)
Definition send_notification_write {N Payload PE}
    `{NotifyGlobalRequest N Payload, EncodeInto Payload PE} (n : N)
    : Io Writer (SendNotifyError PE) () :=
  encode_one SSH_MSG_GLOBAL_REQUEST <?> send_notify_error.EncodeMessageType ;;;
  encode_one (global_notice_type n) <?> send_notify_error.EncodeRequestType ;;;
  encode_one (MkSshBool false) <?> send_notify_error.EncodeWantReply ;;;
  encode_into (global_notice_payload n) <?> send_notify_error.EncodePayload ;;;
  flush <?> send_notify_error.Flush.

(** The header [accept_global_request] reads: the type and [want_reply]. *)
Definition accept_header_read : Io Reader AcceptError (SshString * bool) :=
  let! msg_type := decode_one Z <?> accept_error.DecodeMessageType in
  if negb (msg_type =? SSH_MSG_GLOBAL_REQUEST)
  then io_fail (accept_error.UnexpectedMessageType msg_type)
  else
    let! request_type := decode_one SshString <?> accept_error.DecodeRequestType in
    let! want_reply := decode_one SshBool <?> accept_error.DecodeWantReply in
    io_ret (request_type, ssh_bool want_reply).

(** [DecodedGlobalRequest::respond_success] and [respond_failure]. *)
Definition respond_success_write {P RE} `{EncodeInto P RE} (response : P)
    : Io Writer (RespondSuccessError RE) () :=
  encode_one SSH_MSG_REQUEST_SUCCESS <?> respond_success_error.EncodeMessageType ;;;
  encode_into response <?> respond_success_error.EncodePayload ;;;
  flush <?> respond_success_error.Flush.

Definition respond_failure_write : Io Writer RespondFailureError () :=
  encode_one SSH_MSG_REQUEST_FAILURE <?> respond_failure_error.EncodeMessageType ;;;
  flush <?> respond_failure_error.Flush.

(** What [drain_auto_failures] writes for a dropped request. *)
Definition drain_write : Io Writer ErrorKind () :=
  encode_one SSH_MSG_REQUEST_FAILURE ;;;
  flush.
End messages.

(** A guarded message as the machine runs it: whether it succeeded decides
    what is dropped; a panic unwinds through the same drops as an error. *)
Definition WSection := Writer → Writer * bool.
Definition RSection (A : Type) := Reader → Reader * option A.
Definition w_section {E A} (c : Io Writer E A) : WSection := λ w,
  let '(w', x) := c w in (w', is_ok x).
Definition r_section {E A} (c : Io Reader E A) : RSection A := λ r,
  let '(r', x) := c r in (r', result_ok x).

(** ** The shared state *)

(** One [OrderedAccess]: its resource, [next_ticket], [current_serving], and
    how often [notify_waiters] was called: a [Notified] future completes when
    the count differs from the one at its creation. *)
Record OrderedAccess (T : Type) := MkOrderedAccess {
  resource : T;
  next_ticket : Z;
  current_serving : Z;
  notify_calls : Z;
}.
Arguments MkOrderedAccess {T}.
Arguments resource {T}.
Arguments next_ticket {T}.
Arguments current_serving {T}.
Arguments notify_calls {T}.

Definition new_access {T} (resource : T) : OrderedAccess T := MkOrderedAccess resource 0 0 0.

(** [fetch_add] wraps around. *)
Definition take_ticket {T} (a : OrderedAccess T) : Z * OrderedAccess T :=
  (next_ticket a, MkOrderedAccess (resource a) (wrap_u64 (next_ticket a + 1))
                    (current_serving a) (notify_calls a)).
Definition notify_waiters {T} (a : OrderedAccess T) : OrderedAccess T :=
  MkOrderedAccess (resource a) (next_ticket a) (current_serving a) (notify_calls a + 1).
(** The first half of [Drop for OrderedGuard]; [notify_waiters] is the second. *)
Definition advance_serving {T} (a : OrderedAccess T) : OrderedAccess T :=
  MkOrderedAccess (resource a) (next_ticket a) (wrap_u64 (current_serving a + 1))
    (notify_calls a).
Definition set_resource {T} (x : T) (a : OrderedAccess T) : OrderedAccess T :=
  MkOrderedAccess x (next_ticket a) (current_serving a) (notify_calls a).

(** [ConversationShared]. The logs are ghost state: the tickets of the guarded
    messages in the order they ran, the ticket pairs of requests and of accepted
    requests in the order they were taken, and the output when a guarded message
    of a sender or responder last failed. *)
Record Shared := MkShared {
  s_reader : OrderedAccess Reader;
  s_writer : OrderedAccess Writer;
  poisoned : bool;
  ticket_pair_lock : option nat;
  auto_failures : gset Z;
  write_log : list Z;
  read_log : list Z;
  request_log : list (Z * Z);
  accept_log : list (Z * Z);
  torn : option (list byte);
}.

Definition from_control_streams (r : Reader) (w : Writer) : Shared :=
  MkShared (new_access r) (new_access w) false None ∅ [] [] [] [] None.

Definition upd_reader (f : OrderedAccess Reader → OrderedAccess Reader) (s : Shared) : Shared :=
  MkShared (f (s_reader s)) (s_writer s) (poisoned s) (ticket_pair_lock s) (auto_failures s)
    (write_log s) (read_log s) (request_log s) (accept_log s) (torn s).
Definition upd_writer (f : OrderedAccess Writer → OrderedAccess Writer) (s : Shared) : Shared :=
  MkShared (s_reader s) (f (s_writer s)) (poisoned s) (ticket_pair_lock s) (auto_failures s)
    (write_log s) (read_log s) (request_log s) (accept_log s) (torn s).
Definition set_poisoned (s : Shared) : Shared :=
  MkShared (s_reader s) (s_writer s) true (ticket_pair_lock s) (auto_failures s)
    (write_log s) (read_log s) (request_log s) (accept_log s) (torn s).
Definition set_lock (l : option nat) (s : Shared) : Shared :=
  MkShared (s_reader s) (s_writer s) (poisoned s) l (auto_failures s)
    (write_log s) (read_log s) (request_log s) (accept_log s) (torn s).
Definition set_auto (a : gset Z) (s : Shared) : Shared :=
  MkShared (s_reader s) (s_writer s) (poisoned s) (ticket_pair_lock s) a
    (write_log s) (read_log s) (request_log s) (accept_log s) (torn s).
Definition log_write (t : Z) (s : Shared) : Shared :=
  MkShared (s_reader s) (s_writer s) (poisoned s) (ticket_pair_lock s) (auto_failures s)
    (write_log s ++ [t]) (read_log s) (request_log s) (accept_log s) (torn s).
Definition log_read (t : Z) (s : Shared) : Shared :=
  MkShared (s_reader s) (s_writer s) (poisoned s) (ticket_pair_lock s) (auto_failures s)
    (write_log s) (read_log s ++ [t]) (request_log s) (accept_log s) (torn s).
Definition log_request (p : Z * Z) (s : Shared) : Shared :=
  MkShared (s_reader s) (s_writer s) (poisoned s) (ticket_pair_lock s) (auto_failures s)
    (write_log s) (read_log s) (request_log s ++ [p]) (accept_log s) (torn s).
Definition log_accept (p : Z * Z) (s : Shared) : Shared :=
  MkShared (s_reader s) (s_writer s) (poisoned s) (ticket_pair_lock s) (auto_failures s)
    (write_log s) (read_log s) (request_log s) (accept_log s ++ [p]) (torn s).
Definition set_torn (s : Shared) : Shared :=
  MkShared (s_reader s) (s_writer s) (poisoned s) (ticket_pair_lock s) (auto_failures s)
    (write_log s) (read_log s) (request_log s) (accept_log s)
    (Some (wr_out (resource (s_writer s)))).

(** ** [OrderedAccess::acquire]

    The steps of its loop: create the [Notified] future, load [poisoned], load
    [current_serving], wait. *)
Inductive Acquire :=
| AcqStart
| AcqPoison (seen : Z)
| AcqServing (seen : Z)
| AcqAwait (seen : Z).

Inductive AcquireOutcome :=
| AcqGo (a : Acquire)
| AcqGuard          (* [Ok(OrderedGuard)] *)
| AcqPoisoned       (* [Err(SessionPoisonedError)] *)
| AcqBlocked.

Definition acquire {T} (access : OrderedAccess T) (poisoned : bool) (ticket : Z) (a : Acquire)
    : AcquireOutcome :=
  match a with
  | AcqStart => AcqGo (AcqPoison (notify_calls access))
  | AcqPoison seen => if poisoned then AcqPoisoned else AcqGo (AcqServing seen)
  | AcqServing seen =>
    if current_serving access =? ticket then AcqGuard else AcqGo (AcqAwait seen)
  | AcqAwait seen => if notify_calls access =? seen then AcqBlocked else AcqGo AcqStart
  end.

(** ** [ConversationShared::poison]: the store and the two notifications. *)
Inductive Poison := PoisonStore | PoisonNotifyReader | PoisonNotifyWriter.

Definition poison (p : Poison) (s : Shared) : Shared * option Poison :=
  match p with
  | PoisonStore => (set_poisoned s, Some PoisonNotifyReader)
  | PoisonNotifyReader => (upd_reader notify_waiters s, Some PoisonNotifyWriter)
  | PoisonNotifyWriter => (upd_writer notify_waiters s, None)
  end.

(** ** [acquire_writer] and [drain_auto_failures] *)
Inductive AcquireWriter :=
| DrainLoad                                  (* [let current = current_serving()] *)
| DrainRemove (current : Z)                  (* [auto_failures.lock().remove(&current)] *)
| DrainAcquire (current : Z) (a : Acquire)
| DrainWrite (current : Z)                   (* guard held *)
| DrainDrop (current : Z) (ok : bool)        (* [drop(guard)]: [fetch_add] *)
| DrainNotify (ok : bool)
| DrainPoison (p : Poison)
| CheckServing                               (* [current_serving() == ticket] *)
| Register                                   (* [notified()], after draining *)
| CheckPoisoned (seen : Z)
| CheckServing2 (seen : Z)
| AwaitTurn (seen : Z)
| AcquireOwn (a : Acquire).

Inductive AcquireWriterOutcome :=
| AwGo (a : AcquireWriter)
| AwGuard
| AwPoisoned
| AwBlocked.

Section machine.
Context `{VarIntCodec}.

Definition acquire_writer (ticket : Z) (a : AcquireWriter) (s : Shared)
    : Shared * AcquireWriterOutcome :=
  let writer := s_writer s in
  match a with
  | DrainLoad => (s, AwGo (DrainRemove (current_serving writer)))
  | DrainRemove current =>
    if decide (current ∈ auto_failures s)
    then (set_auto (auto_failures s ∖ {[current]}) s, AwGo (DrainAcquire current AcqStart))
    else (s, AwGo CheckServing)
  | DrainAcquire current a =>
    (s, match acquire writer (poisoned s) current a with
        | AcqGo a => AwGo (DrainAcquire current a)
        | AcqGuard => AwGo (DrainWrite current)
        | AcqPoisoned => AwPoisoned
        | AcqBlocked => AwBlocked
        end)
  | DrainWrite current =>
    let '(w, ok) := w_section drain_write (resource writer) in
    (log_write current (upd_writer (set_resource w) s), AwGo (DrainDrop current ok))
  | DrainDrop current ok => (upd_writer advance_serving s, AwGo (DrainNotify ok))
  | DrainNotify ok =>
    (upd_writer notify_waiters s, AwGo (if ok then DrainLoad else DrainPoison PoisonStore))
  | DrainPoison p =>
    let '(s, next) := poison p s in
    (s, match next with Some p => AwGo (DrainPoison p) | None => AwPoisoned end)
  | CheckServing =>
    (s, if current_serving writer =? ticket then AwGo (AcquireOwn AcqStart) else AwGo Register)
  | Register => (s, AwGo (CheckPoisoned (notify_calls writer)))
  | CheckPoisoned seen => (s, if poisoned s then AwPoisoned else AwGo (CheckServing2 seen))
  | CheckServing2 seen =>
    (s, if current_serving writer =? ticket then AwGo (AcquireOwn AcqStart)
        else AwGo (AwaitTurn seen))
  | AwaitTurn seen => (s, if notify_calls writer =? seen then AwBlocked else AwGo DrainLoad)
  | AcquireOwn a =>
    (s, match acquire writer (poisoned s) ticket a with
        | AcqGo a => AwGo (AcquireOwn a)
        | AcqGuard => AwGuard
        | AcqPoisoned => AwPoisoned
        | AcqBlocked => AwBlocked
        end)
  end.
End machine.

(** ** The tasks *)

(** What the handler of an accepted request does with it. *)
Inductive Reply :=
| RespondSuccess (response : WSection)
| RespondFailure (response : WSection)
| DropDecoded.                      (* dropped after decoding: automatic failure *)
Inductive Decision :=
| DropUndecoded                     (* [poison], or dropped before decoding *)
| DecodePayload (payload : RSection Reply).   (* decoded, then replied to by what it holds *)
Definition Handler := SshString → bool → Decision.

(** What follows a guarded write: a request reads its response. *)
Inductive AfterWrite :=
| WriteDone
| ReadResponse (read_ticket : Z) (response : RSection ()).

(** What a reader guard is held for. *)
Inductive ReadFor :=
| ForResponse (response : RSection ())
| ForAccept (handler : Handler).

(** What follows the release of a reader guard. *)
Inductive AfterRead :=
| ReadDone (ok : bool)
| SendReply (write_ticket : Z) (response : WSection)
| AutoFailure (write_ticket : Z).

(** [Cancelled]: its future was dropped. *)
Inductive Outcome := Returned (ok : bool) | SessionPoisoned | Cancelled.

Inductive Task :=
(* [allocate_request_ticket_pair] *)
| ReqLock (message : WSection) (response : RSection ())
| ReqTakeWriter (message : WSection) (response : RSection ())
| ReqTakeReader (write_ticket : Z) (message : WSection) (response : RSection ())
| ReqUnlock (write_ticket read_ticket : Z) (message : WSection) (response : RSection ())
(* [send_global_notification], [accept_global_request]: the ticket *)
| NotifyTake (message : WSection)
| AcceptTake (handler : Handler)
(* a guarded write *)
| WaitWriter (ticket : Z) (a : AcquireWriter) (message : WSection) (next : AfterWrite)
| Write (ticket : Z) (message : WSection) (next : AfterWrite)
| WritePoison (ticket : Z) (p : Poison)                  (* [PoisonOnDrop] *)
| WriteDrop (ticket : Z) (ok : bool) (next : AfterWrite)
| WriteNotify (ok : bool) (next : AfterWrite)
(* a guarded read *)
| WaitReader (ticket : Z) (a : Acquire) (what : ReadFor)
| Read (ticket : Z) (what : ReadFor)
| AcceptTakeWriter (ticket : Z) (name : SshString) (handler : Handler)
| Decode (ticket : Z) (write_ticket : option Z) (decision : Decision)
| ReadPoison (ticket : Z) (p : Poison)
| ReadDrop (ticket : Z) (next : AfterRead)
| ReadNotify (next : AfterRead)
(* [Drop for DecodedGlobalRequest] *)
| InsertAutoFailure (write_ticket : Z)
| NotifyAutoFailure
| Finished (o : Outcome).

Definition after_write (ok : bool) (next : AfterWrite) : Task :=
  match ok, next with
  | false, _ => Finished (Returned false)
  | true, WriteDone => Finished (Returned true)
  | true, ReadResponse t response => WaitReader t AcqStart (ForResponse response)
  end.

Definition after_read (next : AfterRead) : Task :=
  match next with
  | ReadDone ok => Finished (Returned ok)
  | SendReply t response => WaitWriter t DrainLoad response WriteDone
  | AutoFailure t => InsertAutoFailure t
  end.

(** What a decoded request does with its write ticket; a notice has none. *)
Definition reply_next (write_ticket : option Z) (reply : Reply) : AfterRead :=
  match write_ticket with
  | None => ReadDone true
  | Some t =>
    match reply with
    | RespondSuccess response | RespondFailure response => SendReply t response
    | DropDecoded => AutoFailure t
    end
  end.

Section tasks.
Context `{VarIntCodec}.

(** One step of task [i]; [None] when it waits or has finished. *)
Definition step_task (i : nat) (t : Task) (s : Shared) : option (Task * Shared) :=
  match t with
  | ReqLock message response =>
    match ticket_pair_lock s with
    | None => Some (ReqTakeWriter message response, set_lock (Some i) s)
    | Some _ => None
    end
  | ReqTakeWriter message response =>
    let '(t, w) := take_ticket (s_writer s) in
    Some (ReqTakeReader t message response, upd_writer (λ _, w) s)
  | ReqTakeReader wt message response =>
    let '(t, r) := take_ticket (s_reader s) in
    Some (ReqUnlock wt t message response, log_request (wt, t) (upd_reader (λ _, r) s))
  | ReqUnlock wt rt message response =>
    Some (WaitWriter wt DrainLoad message (ReadResponse rt response), set_lock None s)
  | NotifyTake message =>
    let '(t, w) := take_ticket (s_writer s) in
    Some (WaitWriter t DrainLoad message WriteDone, upd_writer (λ _, w) s)
  | AcceptTake handler =>
    let '(t, r) := take_ticket (s_reader s) in
    Some (WaitReader t AcqStart (ForAccept handler), upd_reader (λ _, r) s)
  | WaitWriter t a message next =>
    let '(s, o) := acquire_writer t a s in
    match o with
    | AwGo a => Some (WaitWriter t a message next, s)
    | AwGuard => Some (Write t message next, s)
    | AwPoisoned => Some (Finished SessionPoisoned, s)
    | AwBlocked => None
    end
  | Write t message next =>
    let '(w, ok) := message (resource (s_writer s)) in
    let s := log_write t (upd_writer (set_resource w) s) in
    Some (if ok then (WriteDrop t true next, s) else (WritePoison t PoisonStore, set_torn s))
  | WritePoison t p =>
    let '(s, q) := poison p s in
    Some (match q with
          | Some p => (WritePoison t p, s)
          | None => (WriteDrop t false WriteDone, s)
          end)
  | WriteDrop t ok next => Some (WriteNotify ok next, upd_writer advance_serving s)
  | WriteNotify ok next => Some (after_write ok next, upd_writer notify_waiters s)
  | WaitReader t a what =>
    match acquire (s_reader s) (poisoned s) t a with
    | AcqGo a => Some (WaitReader t a what, s)
    | AcqGuard => Some (Read t what, s)
    | AcqPoisoned => Some (Finished SessionPoisoned, s)
    | AcqBlocked => None
    end
  | Read t (ForResponse response) =>
    let '(r, x) := response (resource (s_reader s)) in
    Some (ReadDrop t (ReadDone (bool_decide (is_Some x))),
          log_read t (upd_reader (set_resource r) s))
  | Read t (ForAccept handler) =>
    let '(r, x) := r_section accept_header_read (resource (s_reader s)) in
    let s := log_read t (upd_reader (set_resource r) s) in
    Some (match x with
          | None => (ReadPoison t PoisonStore, s)
          | Some (name, true) => (AcceptTakeWriter t name handler, s)
          | Some (name, false) => (Decode t None (handler name false), s)
          end)
  | AcceptTakeWriter t name handler =>
    let '(wt, w) := take_ticket (s_writer s) in
    Some (Decode t (Some wt) (handler name true), log_accept (t, wt) (upd_writer (λ _, w) s))
  | Decode t wt DropUndecoded => Some (ReadPoison t PoisonStore, s)
  | Decode t wt (DecodePayload payload) =>
    let '(r, x) := payload (resource (s_reader s)) in
    let s := upd_reader (set_resource r) s in
    Some (match x with
          | Some reply => (ReadDrop t (reply_next wt reply), s)
          | None => (ReadPoison t PoisonStore, s)
          end)
  | ReadPoison t p =>
    let '(s, q) := poison p s in
    Some (match q with
          | Some p => (ReadPoison t p, s)
          | None => (ReadDrop t (ReadDone false), s)
          end)
  | ReadDrop t next => Some (ReadNotify next, upd_reader advance_serving s)
  | ReadNotify next => Some (after_read next, upd_reader notify_waiters s)
  | InsertAutoFailure t => Some (NotifyAutoFailure, set_auto (auto_failures s ∪ {[t]}) s)
  | NotifyAutoFailure => Some (Finished (Returned true), upd_writer notify_waiters s)
  | Finished _ => None
  end.

(** The future of a task is dropped where it is suspended: before its first
    poll, while it waits for a notification, or in the middle of the failure
    message it drains, of which [accepted] bytes were written. What is dropped
    with it is its ticket, a plain integer, and the guard of the drained
    ticket. In the middle of any other message the drops are those of a
    transport that fails there. *)
Definition cancel_task (accepted : nat) (t : Task) (s : Shared) : option (Task * Shared) :=
  match t with
  | ReqLock _ _ | NotifyTake _ | AcceptTake _
  | WaitWriter _ (DrainAcquire _ (AcqAwait _) | AwaitTurn _ | AcquireOwn (AcqAwait _)) _ _
  | WaitReader _ (AcqAwait _) _ => Some (Finished Cancelled, s)
  | WaitWriter _ (DrainWrite current) _ _ =>
    let w := resource (s_writer s) in
    let w := MkWriter (wr_out w ++ take accepted (varint_bytes SSH_MSG_REQUEST_FAILURE))
               (wr_flushed w) (wr_shutdown w) (wr_plan w) in
    Some (WriteDrop current false WriteDone, log_write current (upd_writer (set_resource w) s))
  | _ => None
  end.

Inductive Action := Proceed | Cancel (accepted : nat).

Definition act_task (a : Action) (i : nat) (t : Task) (s : Shared) : option (Task * Shared) :=
  match a with Proceed => step_task i t s | Cancel accepted => cancel_task accepted t s end.

Record State := MkState { shared : Shared; tasks : list Task }.

(** Task [i] is scheduled, or its future is dropped; a task that waits, and one
    that cannot be dropped where it is, stays there. *)
Definition event (e : nat * Action) (st : State) : State :=
  let '(i, a) := e in
  match tasks st !! i with
  | None => st
  | Some t =>
    match act_task a i t (shared st) with
    | None => st
    | Some (t', s') => MkState s' (<[i := t']> (tasks st))
    end
  end.
Definition step (i : nat) (st : State) : State := event (i, Proceed) st.

Definition run_events (es : list (nat * Action)) (st : State) : State :=
  foldl (λ st e, event e st) st es.
(** A schedule that lets every task run to its end. *)
Definition proceed (schedule : list nat) : list (nat * Action) := map (λ i, (i, Proceed)) schedule.
Definition run (schedule : list nat) (st : State) : State := run_events (proceed schedule) st.
End tasks.

(** The entry points, as the tasks they start. *)
Definition is_start (t : Task) : Prop :=
  match t with ReqLock _ _ | NotifyTake _ | AcceptTake _ => True | _ => False end.

Definition initial (r : Reader) (w : Writer) (ts : list Task) : State :=
  MkState (from_control_streams r w) ts.

Section entry_points.
Context `{VarIntCodec}.

Definition send_global_request {Rq Success Payload PE SE}
    `{WantReplyGlobalRequest Rq Success Payload, EncodeInto Payload PE, DecodeFrom Success SE}
    (request : Rq) : Task :=
  ReqLock (w_section (send_request_write (SE := SE) request))
    (r_section (send_request_read (Success := Success) (PE := PE);;; io_ret ())).
Definition send_global_notification {N Payload PE}
    `{NotifyGlobalRequest N Payload, EncodeInto Payload PE} (n : N) : Task :=
  NotifyTake (w_section (send_notification_write n)).
Definition accept_global_request (handler : Handler) : Task := AcceptTake handler.

Definition respond_success {P RE} `{EncodeInto P RE} (response : P) : Reply :=
  RespondSuccess (w_section (respond_success_write response)).
Definition respond_failure : Reply := RespondFailure (w_section respond_failure_write).
End entry_points.
