(* ===== verification/GlobalProofs.v ===== *)
(** * Invariants of the ordered-access machine

    Ownership of tickets, order of the guarded messages, poisoning and wake-ups
    for the concurrent program of [Global], over every schedule shorter than
    the tickets' range. *)
From Stdlib Require Import ZArith Lia Strings.Byte Sorting.Sorted.
From stdpp Require Import base list strings gmap fin_maps relations sorting.
From S2P Require Import Prelude Wire Codec Message ChannelErrors Channel Global.
Local Open Scope Z_scope.

(** ** Ownership

    The tickets of an [OrderedAccess] are owned by tasks or, for the writer, by
    the set of automatic failures. The invariant says that owners are distinct
    and that a guard is held for the ticket being served. *)
Section ownership.
Context (tickets : Task → gset Z) (holds : Task → option Z).

Record TicketInv (next serving : Z) (auto : gset Z) (ts : list Task) : Prop := {
  ti_bounds : 0 ≤ serving ≤ next;
  ti_own i t x : ts !! i = Some t → x ∈ tickets t → serving ≤ x < next ∧ x ∉ auto;
  ti_auto x : x ∈ auto → serving ≤ x < next;
  ti_disj i j t u x : ts !! i = Some t → ts !! j = Some u →
    x ∈ tickets t → x ∈ tickets u → i = j;
  ti_holds i t x : ts !! i = Some t → holds t = Some x → x = serving ∧ x ∈ tickets t;
}.

(** Any step of task [i] that gets its tickets from where it may. *)
Lemma ticket_update next serving auto ts i t t' next' serving' auto' :
  TicketInv next serving auto ts → ts !! i = Some t →
  next ≤ next' → serving' ≤ next' →
  (serving' = serving ∨ serving' = serving + 1 ∧ serving ∈ tickets t) →
  (∀ x, x ∈ tickets t' → serving' ≤ x < next' ∧ (x ∉ auto') ∧
     (x ∈ tickets t ∨ x ∈ auto ∨ next ≤ x)) →
  (∀ x, x ∈ auto' → serving' ≤ x < next' ∧ (x ∈ auto ∨ x ∈ tickets t)) →
  (∀ x, holds t' = Some x → x = serving' ∧ x ∈ tickets t') →
  TicketInv next' serving' auto' (<[i := t']> ts).
Proof.
  intros [Hb Ho Ha Hd Hh] Hi Hn Hs Hserv Ht' Ha' Hh'.
  assert (∀ j u, j ≠ i → ts !! j = Some u → ∀ x, x ∈ tickets u → serving' ≤ x) as Hother.
  { intros j u Hj Hu x Hx. destruct (Ho j u x Hu Hx) as [[? ?] ?].
    destruct Hserv as [->|[-> Hst]]; [lia|].
    assert (x ≠ serving) by (intros ->; by eapply Hj, Hd). lia. }
  split; [destruct Hserv as [->|[-> _]]; lia| |naive_solver| |].
  - intros j u x [[-> [-> _]]|[Hj Hu]]%list_lookup_insert_Some Hx; [naive_solver|].
    destruct (Ho j u x Hu Hx) as [? ?].
    specialize (Hother j u ltac:(done) Hu x Hx). split; [lia|].
    intros Hx'. destruct (Ha' x Hx') as [_ [?|?]]; [done|]. by eapply Hj, Hd.
  - intros j k u v x [[-> [-> _]]|[Hj Hu]]%list_lookup_insert_Some
      [[-> [-> _]]|[Hk Hv]]%list_lookup_insert_Some Hx Hy; [done|..|by eapply Hd].
    + destruct (Ht' x Hx) as (_ & _ & [?|[?|?]]); [by eapply Hd|..];
        destruct (Ho k v x Hv Hy); [done|lia].
    + destruct (Ht' x Hy) as (_ & _ & [?|[?|?]]); [by eapply Hd|..];
        destruct (Ho j u x Hu Hx); [done|lia].
  - intros j u x [[-> [-> _]]|[Hj Hu]]%list_lookup_insert_Some Hx; [by apply Hh'|].
    destruct (Hh j u x Hu Hx) as [-> Hx']. split; [|done].
    destruct Hserv as [->|[-> Hst]]; [done|]. exfalso. by eapply Hj, Hd.
Qed.

(** The kinds of step. *)
Lemma ticket_same next serving auto ts i t t' :
  TicketInv next serving auto ts → ts !! i = Some t →
  tickets t' ⊆ tickets t →
  (∀ x, holds t' = Some x → (holds t = Some x ∨ x = serving) ∧ x ∈ tickets t') →
  TicketInv next serving auto (<[i := t']> ts).
Proof.
  intros Hinv Hi Hsub Hh. pose proof Hinv as [Hb Ho Ha Hd Hho].
  eapply ticket_update; [exact Hinv|exact Hi|lia|lia|by left|..].
  - intros x Hx. destruct (Ho i t x Hi); naive_solver.
  - intros x Hx. destruct (Ha x Hx); naive_solver lia.
  - intros x Hx. destruct (Hh x Hx) as [[?|?] ?]; [|done].
    split; [|done]. by eapply Hho.
Qed.

Lemma ticket_take next serving auto ts i t t' :
  TicketInv next serving auto ts → ts !! i = Some t →
  tickets t' ⊆ {[next]} ∪ tickets t →
  (∀ x, holds t' = Some x → holds t = Some x ∧ x ∈ tickets t') →
  TicketInv (next + 1) serving auto (<[i := t']> ts).
Proof.
  intros Hinv Hi Hsub Hh. pose proof Hinv as [Hb Ho Ha Hd Hho].
  eapply ticket_update; [exact Hinv|exact Hi|lia|lia|by left|..].
  - intros x Hx. destruct (decide (x = next)) as [->|Hne].
    + split; [lia|]. split; [|right; right; lia]. intros Hx'. specialize (Ha next Hx'). lia.
    + assert (x ∈ tickets t) as Hxt by set_solver. destruct (Ho i t x Hi Hxt).
      split; [lia|naive_solver].
  - intros x Hx. specialize (Ha x Hx). split; [lia|by left].
  - intros x Hx. destruct (Hh x Hx). split; [|done]. by eapply Hho.
Qed.

Lemma ticket_release next serving auto ts i t t' x :
  TicketInv next serving auto ts → ts !! i = Some t → holds t = Some x →
  tickets t' ⊆ tickets t ∖ {[x]} → holds t' = None →
  TicketInv next (serving + 1) auto (<[i := t']> ts).
Proof.
  intros Hinv Hi Hx Hsub Hh. pose proof Hinv as [Hb Ho Ha Hd Hho].
  destruct (Hho i t x Hi Hx) as [-> Hs]. destruct (Ho i t serving Hi Hs) as [? Hsa].
  eapply ticket_update; [exact Hinv|exact Hi|lia|lia|by right|..].
  - intros y Hy. assert (y ∈ tickets t ∧ y ≠ serving) as [Hyt ?] by set_solver.
    destruct (Ho i t y Hi Hyt). split; [lia|naive_solver].
  - intros y Hy. specialize (Ha y Hy). assert (y ≠ serving) by congruence.
    split; [lia|by left].
  - intros y. by rewrite Hh.
Qed.

Lemma ticket_from_auto next serving auto ts i t t' x :
  TicketInv next serving auto ts → ts !! i = Some t → x ∈ auto →
  tickets t' ⊆ {[x]} ∪ tickets t → holds t' = None →
  TicketInv next serving (auto ∖ {[x]}) (<[i := t']> ts).
Proof.
  intros Hinv Hi Hx Hsub Hh. pose proof Hinv as [Hb Ho Ha Hd Hho].
  eapply ticket_update; [exact Hinv|exact Hi|lia|lia|by left|..].
  - intros y Hy. destruct (decide (y = x)) as [->|Hne].
    + specialize (Ha x Hx). split; [lia|]. split; [set_solver|by right; left].
    + assert (y ∈ tickets t) as Hyt by set_solver. destruct (Ho i t y Hi Hyt).
      split; [lia|]. split; [set_solver|by left].
  - intros y Hy. assert (y ∈ auto) as Hya by set_solver. specialize (Ha y Hya).
    split; [lia|by left].
  - intros y. by rewrite Hh.
Qed.

Lemma ticket_to_auto next serving auto ts i t t' x :
  TicketInv next serving auto ts → ts !! i = Some t → x ∈ tickets t →
  tickets t' ⊆ tickets t ∖ {[x]} → holds t' = None →
  TicketInv next serving (auto ∪ {[x]}) (<[i := t']> ts).
Proof.
  intros Hinv Hi Hx Hsub Hh. pose proof Hinv as [Hb Ho Ha Hd Hho].
  eapply ticket_update; [exact Hinv|exact Hi|lia|lia|by left|..].
  - intros y Hy. assert (y ∈ tickets t ∧ y ≠ x) as [Hyt ?] by set_solver.
    destruct (Ho i t y Hi Hyt). split; [lia|]. split; [set_solver|by left].
  - intros y Hy. destruct (decide (y = x)) as [->|Hne].
    + destruct (Ho i t x Hi Hx). split; [lia|by right].
    + assert (y ∈ auto) as Hya by set_solver. specialize (Ha y Hya). split; [lia|by left].
  - intros y. by rewrite Hh.
Qed.

(** Two tasks never hold the guard together. *)
Lemma holds_unique next serving auto ts i j t u x y :
  TicketInv next serving auto ts → ts !! i = Some t → ts !! j = Some u →
  holds t = Some x → holds u = Some y → i = j.
Proof.
  intros Hinv Hi Hj Hx Hy.
  destruct (ti_holds _ _ _ _ Hinv i t x Hi Hx) as [-> ?].
  destruct (ti_holds _ _ _ _ Hinv j u y Hj Hy) as [-> ?]. by eapply ti_disj.
Qed.

End ownership.

Section order.
Context (tickets : Task → gset Z) (holds done : Task → option Z).

(** The order of guarded actions: [log] has the tickets they ran under,
    [done] says that the holder's has run. *)
Record LogInv (serving : Z) (log : list Z) (ts : list Task) : Prop := {
  li_sorted : StronglySorted Z.lt log;
  li_bound x : x ∈ log → x < serving ∨
    x = serving ∧ ∃ i t, ts !! i = Some t ∧ done t = Some x;
}.

Lemma log_keep serving log ts i t t' serving' :
  LogInv serving log ts → ts !! i = Some t →
  (serving' = serving ∧ (∀ x, done t = Some x → done t' = Some x) ∨ serving' = serving + 1) →
  LogInv serving' log (<[i := t']> ts).
Proof.
  intros [Hs Hb] Hi Hc. split; [done|]. intros x Hx.
  destruct (Hb x Hx) as [?|[-> (j & u & Hu & Hdone)]]; [destruct Hc as [[-> _]| ->]; auto with lia; left; lia|].
  destruct Hc as [[-> Hd]| ->]; [|left; lia]. right. split; [done|].
  destruct (decide (j = i)) as [->|Hj].
  - simplify_eq. exists i, t'. split; [by eapply list_lookup_insert_eq, lookup_lt_Some|auto].
  - exists j, u. by rewrite list_lookup_insert_ne.
Qed.

Lemma StronglySorted_snoc (l : list Z) x :
  StronglySorted Z.lt l → (∀ y, y ∈ l → y < x) → StronglySorted Z.lt (l ++ [x]).
Proof.
  induction 1 as [|y l Hl IH Hy]; simpl; intros Hx; [repeat constructor|].
  constructor; [apply IH; set_solver|]. apply Forall_app. split; [done|].
  constructor; [|done]. apply Hx. set_solver.
Qed.

Lemma log_append next serving auto log ts i t t' :
  (∀ u x, done u = Some x → holds u = Some x) →
  TicketInv tickets holds next serving auto ts → LogInv serving log ts → ts !! i = Some t →
  holds t = Some serving → done t = None → done t' = Some serving →
  LogInv serving (log ++ [serving]) (<[i := t']> ts).
Proof.
  intros Hdh Hinv [Hs Hb] Hi Hh Hd Hd'.
  assert (∀ y, y ∈ log → y < serving) as Hlt.
  { intros y Hy. destruct (Hb y Hy) as [?|[-> (j & u & Hu & Hdone)]]; [done|].
    assert (i = j) as <- by (eapply holds_unique; eauto). congruence. }
  split; [by apply StronglySorted_snoc|].
  intros x [?|Hx%list_elem_of_singleton]%elem_of_app; [by left; apply Hlt|].
  subst x. right. split; [done|]. exists i, t'.
  split; [by eapply list_lookup_insert_eq, lookup_lt_Some|done].
Qed.
End order.

(** ** What each task owns *)

Definition w_drained (a : AcquireWriter) : gset Z :=
  match a with DrainAcquire c _ | DrainWrite c | DrainDrop c _ => {[c]} | _ => ∅ end.
Definition w_reply (next : AfterRead) : gset Z :=
  match next with SendReply t _ | AutoFailure t => {[t]} | ReadDone _ => ∅ end.

(** Write tickets: for the task's own message, drained, kept for a reply. *)
Definition w_tickets (t : Task) : gset Z :=
  match t with
  | ReqTakeReader wt _ _ | ReqUnlock wt _ _ _ => {[wt]}
  | WaitWriter t a _ _ => {[t]} ∪ w_drained a
  | Write t _ _ | WritePoison t _ | WriteDrop t _ _ => {[t]}
  | Decode _ (Some wt) _ => {[wt]}
  | ReadDrop _ next | ReadNotify next => w_reply next
  | InsertAutoFailure wt => {[wt]}
  | _ => ∅
  end.
Definition w_holds (t : Task) : option Z :=
  match t with
  | WaitWriter _ (DrainWrite c | DrainDrop c _) _ _ => Some c
  | Write t _ _ | WritePoison t _ | WriteDrop t _ _ => Some t
  | _ => None
  end.
Definition w_done (t : Task) : option Z :=
  match t with
  | WaitWriter _ (DrainDrop c _) _ _ => Some c
  | WritePoison t _ | WriteDrop t _ _ => Some t
  | _ => None
  end.

Definition r_after (next : AfterWrite) : gset Z :=
  match next with ReadResponse t _ => {[t]} | WriteDone => ∅ end.
Definition r_tickets (t : Task) : gset Z :=
  match t with
  | ReqUnlock _ rt _ _ => {[rt]}
  | WaitWriter _ _ _ next | Write _ _ next | WriteDrop _ _ next | WriteNotify _ next => r_after next
  | WaitReader t _ _ | Read t _ | AcceptTakeWriter t _ _ | Decode t _ _
  | ReadPoison t _ | ReadDrop t _ => {[t]}
  | _ => ∅
  end.
Definition r_holds (t : Task) : option Z :=
  match t with
  | Read t _ | AcceptTakeWriter t _ _ | Decode t _ _ | ReadPoison t _ | ReadDrop t _ => Some t
  | _ => None
  end.
Definition r_done (t : Task) : option Z :=
  match t with
  | AcceptTakeWriter t _ _ | Decode t _ _ | ReadPoison t _ | ReadDrop t _ => Some t
  | _ => None
  end.
Definition accept_done (t : Task) : option Z :=
  match t with Decode t _ _ | ReadPoison t _ | ReadDrop t _ => Some t | _ => None end.

(** A task drains other tickets than its own. *)
Definition drain_distinct (t : Task) : Prop :=
  match t with WaitWriter t a _ _ => t ∉ w_drained a | _ => True end.

Definition w_access (st : State) := s_writer (shared st).
Definition r_access (st : State) := s_reader (shared st).

Record Inv (k : Z) (st : State) : Prop := {
  inv_w : TicketInv w_tickets w_holds (next_ticket (w_access st)) (current_serving (w_access st))
            (auto_failures (shared st)) (tasks st);
  inv_r : TicketInv r_tickets r_holds (next_ticket (r_access st)) (current_serving (r_access st))
            ∅ (tasks st);
  inv_wlog : LogInv w_done (current_serving (w_access st)) (write_log (shared st)) (tasks st);
  inv_rlog : LogInv r_done (current_serving (r_access st)) (read_log (shared st)) (tasks st);
  inv_alog : LogInv accept_done (current_serving (r_access st))
               (map fst (accept_log (shared st))) (tasks st);
  inv_next : next_ticket (w_access st) ≤ k ∧ next_ticket (r_access st) ≤ k;
  inv_distinct : ∀ i t, tasks st !! i = Some t → drain_distinct t;
}.

Lemma wrap_u64_small z : 0 ≤ z < U64_MOD → wrap_u64 z = z.
Proof. apply Z.mod_small. Qed.

(** All cases of a step, with the guards that lead to them. *)
Ltac step_cases H :=
  unfold act_task, step_task, cancel_task, acquire_writer, acquire, poison, take_ticket in H;
  repeat (case_match || simplify_eq/= ).

(** ** Preservation *)

Section preservation.
Context `{VarIntCodec}.

Ltac same Hw Hi :=
  solve [eapply ticket_same;
         [exact Hw|exact Hi|simpl; set_solver|simpl; intros; simplify_eq/=; set_solver]].
Ltac take Hw Hi :=
  solve [eapply ticket_take;
         [exact Hw|exact Hi|simpl; set_solver|simpl; intros; simplify_eq/=; set_solver]].

Lemma w_tickets_after_write ok next : w_tickets (after_write ok next) = ∅.
Proof. by destruct ok, next. Qed.
Lemma w_holds_after_write ok next : w_holds (after_write ok next) = None.
Proof. by destruct ok, next. Qed.
Lemma w_tickets_after_read next : w_tickets (after_read next) = w_reply next.
Proof. destruct next; simpl; set_solver. Qed.
Lemma w_holds_after_read next : w_holds (after_read next) = None.
Proof. by destruct next. Qed.
Lemma w_reply_next wt reply :
  w_reply (reply_next wt reply) ⊆ match wt with Some t => {[t]} | None => ∅ end.
Proof. destruct wt, reply; simpl; set_solver. Qed.

Lemma inv_w_step k st i a t t' s' :
  Inv k st → k + 1 < U64_MOD → tasks st !! i = Some t →
  act_task a i t (shared st) = Some (t', s') →
  TicketInv w_tickets w_holds (next_ticket (s_writer s')) (current_serving (s_writer s'))
    (auto_failures s') (<[i := t']> (tasks st)).
Proof.
  intros [Hw _ _ _ _ [Hnw Hnr] Hdd] Hk Hi Hs. unfold w_access, r_access in *.
  pose proof (ti_bounds _ _ _ _ _ _ Hw) as Hbw. specialize (Hdd i t Hi).
  assert (wrap_u64 (next_ticket (s_writer (shared st)) + 1)
          = next_ticket (s_writer (shared st)) + 1) as Hwn by (apply wrap_u64_small; lia).
  assert (wrap_u64 (current_serving (s_writer (shared st)) + 1)
          = current_serving (s_writer (shared st)) + 1) as Hws by (apply wrap_u64_small; lia).
  step_cases Hs; rewrite ?Hwn; rewrite ->?Z.eqb_eq in *; try same Hw Hi; try take Hw Hi.
  - (* removed from the automatic failures *)
    eapply ticket_from_auto; [exact Hw|exact Hi|done|simpl; set_solver|done].
  - simpl. rewrite Hws. eapply ticket_release; [exact Hw|exact Hi|done| |done].
    simpl in *. set_solver.
  - simpl. rewrite Hws. eapply ticket_release; [exact Hw|exact Hi|done| |done]. simpl. set_solver.
  - eapply ticket_same; [exact Hw|exact Hi|by rewrite w_tickets_after_write|].
    by rewrite w_holds_after_write.
  - eapply ticket_same; [exact Hw|exact Hi|apply w_reply_next|done].
  - eapply ticket_same; [exact Hw|exact Hi|by rewrite w_tickets_after_read|].
    by rewrite w_holds_after_read.
  - eapply ticket_to_auto; [exact Hw|exact Hi|simpl; set_solver|simpl; set_solver|done].
Qed.

Lemma r_tickets_after_write ok next : r_tickets (after_write ok next) ⊆ r_after next.
Proof. destruct ok, next; simpl; set_solver. Qed.
Lemma r_holds_after_write ok next : r_holds (after_write ok next) = None.
Proof. by destruct ok, next. Qed.
Lemma r_tickets_after_read next : r_tickets (after_read next) = ∅.
Proof. by destruct next. Qed.
Lemma r_holds_after_read next : r_holds (after_read next) = None.
Proof. by destruct next. Qed.

Lemma inv_r_step k st i a t t' s' :
  Inv k st → k + 1 < U64_MOD → tasks st !! i = Some t →
  act_task a i t (shared st) = Some (t', s') →
  TicketInv r_tickets r_holds (next_ticket (s_reader s')) (current_serving (s_reader s'))
    ∅ (<[i := t']> (tasks st)).
Proof.
  intros [_ Hr _ _ _ [Hnw Hnr] _] Hk Hi Hs. unfold w_access, r_access in *.
  pose proof (ti_bounds _ _ _ _ _ _ Hr) as Hbr.
  assert (wrap_u64 (next_ticket (s_reader (shared st)) + 1)
          = next_ticket (s_reader (shared st)) + 1) as Hrn by (apply wrap_u64_small; lia).
  assert (wrap_u64 (current_serving (s_reader (shared st)) + 1)
          = current_serving (s_reader (shared st)) + 1) as Hrs by (apply wrap_u64_small; lia).
  step_cases Hs; rewrite ?Hrn; rewrite ->?Z.eqb_eq in *; try same Hr Hi; try take Hr Hi.
  - eapply ticket_same; [exact Hr|exact Hi|apply r_tickets_after_write|].
    by rewrite r_holds_after_write.
  - simpl. rewrite Hrs. eapply ticket_release; [exact Hr|exact Hi|done| |done]. simpl. set_solver.
  - eapply ticket_same; [exact Hr|exact Hi|by rewrite r_tickets_after_read|].
    by rewrite r_holds_after_read.
Qed.

Lemma w_done_holds u x : w_done u = Some x → w_holds u = Some x.
Proof. destruct u; simpl; repeat case_match; naive_solver. Qed.
Lemma r_done_holds u x : r_done u = Some x → r_holds u = Some x.
Proof. destruct u; simpl; repeat case_match; naive_solver. Qed.
Lemma accept_done_holds u x : accept_done u = Some x → r_holds u = Some x.
Proof. destruct u; simpl; repeat case_match; naive_solver. Qed.

Ltac keep Hl Hi :=
  solve [eapply log_keep; [exact Hl|exact Hi|left; split; [done|simpl; intros; by simplify_eq/=]]].
Ltac advance Hl Hi := solve [eapply log_keep; [exact Hl|exact Hi|right; simpl; done]].

(** The holder appends its ticket, the one being served. *)
Ltac append Hinv Hl Hi :=
  solve [eapply log_append; [first [exact w_done_holds|exact r_done_holds|exact accept_done_holds]
                            |exact Hinv|exact Hl|exact Hi|reflexivity..]].

Lemma inv_wlog_step k st i a t t' s' :
  Inv k st → k + 1 < U64_MOD → tasks st !! i = Some t →
  act_task a i t (shared st) = Some (t', s') →
  LogInv w_done (current_serving (s_writer s')) (write_log s') (<[i := t']> (tasks st)).
Proof.
  intros [Hw _ Hl _ _ [Hnw Hnr] _] Hk Hi Hs. unfold w_access, r_access in *.
  pose proof (ti_bounds _ _ _ _ _ _ Hw) as Hbw.
  pose proof (ti_holds _ _ _ _ _ _ Hw i t) as Hh.
  assert (wrap_u64 (current_serving (s_writer (shared st)) + 1)
          = current_serving (s_writer (shared st)) + 1) as Hws by (apply wrap_u64_small; lia).
  step_cases Hs; try keep Hl Hi; rewrite ?Hws; try advance Hl Hi;
    try (destruct (Hh _ Hi eq_refl) as [-> _]; append Hw Hl Hi).
Qed.

Lemma inv_rlog_step k st i a t t' s' :
  Inv k st → k + 1 < U64_MOD → tasks st !! i = Some t →
  act_task a i t (shared st) = Some (t', s') →
  LogInv r_done (current_serving (s_reader s')) (read_log s') (<[i := t']> (tasks st)).
Proof.
  intros [_ Hr _ Hl _ [Hnw Hnr] _] Hk Hi Hs. unfold w_access, r_access in *.
  pose proof (ti_bounds _ _ _ _ _ _ Hr) as Hbr.
  pose proof (ti_holds _ _ _ _ _ _ Hr i t) as Hh.
  assert (wrap_u64 (current_serving (s_reader (shared st)) + 1)
          = current_serving (s_reader (shared st)) + 1) as Hrs by (apply wrap_u64_small; lia).
  step_cases Hs; try keep Hl Hi; rewrite ?Hrs; try advance Hl Hi;
    try (destruct (Hh _ Hi eq_refl) as [-> _]; append Hr Hl Hi).
Qed.

Lemma inv_alog_step k st i a t t' s' :
  Inv k st → k + 1 < U64_MOD → tasks st !! i = Some t →
  act_task a i t (shared st) = Some (t', s') →
  LogInv accept_done (current_serving (s_reader s')) (map fst (accept_log s'))
    (<[i := t']> (tasks st)).
Proof.
  intros [_ Hr _ _ Hl [Hnw Hnr] _] Hk Hi Hs. unfold w_access, r_access in *.
  pose proof (ti_bounds _ _ _ _ _ _ Hr) as Hbr.
  pose proof (ti_holds _ _ _ _ _ _ Hr i t) as Hh.
  assert (wrap_u64 (current_serving (s_reader (shared st)) + 1)
          = current_serving (s_reader (shared st)) + 1) as Hrs by (apply wrap_u64_small; lia).
  step_cases Hs; try keep Hl Hi; rewrite ?Hrs; try advance Hl Hi;
    try (rewrite map_app; destruct (Hh _ Hi eq_refl) as [-> _]; append Hr Hl Hi).
Qed.

Lemma inv_next_step k st i a t t' s' :
  Inv k st → k + 1 < U64_MOD → act_task a i t (shared st) = Some (t', s') →
  next_ticket (s_writer s') ≤ k + 1 ∧ next_ticket (s_reader s') ≤ k + 1.
Proof.
  intros [Hw Hr _ _ _ [Hnw Hnr] _] Hk Hs. unfold w_access, r_access in *.
  pose proof (ti_bounds _ _ _ _ _ _ Hw) as Hbw. pose proof (ti_bounds _ _ _ _ _ _ Hr) as Hbr.
  assert (∀ z, 0 ≤ z ≤ k → wrap_u64 (z + 1) = z + 1) as Hwrap
    by (intros; apply wrap_u64_small; lia).
  step_cases Hs; rewrite ?Hwrap by lia; lia.
Qed.

Lemma inv_distinct_step k st i a t t' s' :
  Inv k st → tasks st !! i = Some t → act_task a i t (shared st) = Some (t', s') →
  drain_distinct t'.
Proof.
  intros [Hw _ _ _ _ _ Hdd] Hi Hs. specialize (Hdd i t Hi).
  pose proof (ti_own _ _ _ _ _ _ Hw i t) as Ho.
  step_cases Hs; try done; try set_solver.
  - by destruct ok, next.
  - destruct next; simpl; set_solver.
Qed.

End preservation.

Section reachable.
Context `{VarIntCodec}.

Lemma inv_event k st e : Inv k st → k + 1 < U64_MOD → Inv (k + 1) (event e st).
Proof.
  destruct e as [i a]. intros Hinv Hk. unfold event.
  assert (Inv (k + 1) st) as Hstay.
  { destruct Hinv as [? ? ? ? ? [? ?] ?]. split; auto with lia. }
  destruct (tasks st !! i) as [t|] eqn:Hi; [|done].
  destruct (act_task a i t (shared st)) as [[t' s']|] eqn:Hs; [|done]. split.
  - exact (inv_w_step k st i a t t' s' Hinv Hk Hi Hs).
  - exact (inv_r_step k st i a t t' s' Hinv Hk Hi Hs).
  - exact (inv_wlog_step k st i a t t' s' Hinv Hk Hi Hs).
  - exact (inv_rlog_step k st i a t t' s' Hinv Hk Hi Hs).
  - exact (inv_alog_step k st i a t t' s' Hinv Hk Hi Hs).
  - exact (inv_next_step k st i a t t' s' Hinv Hk Hs).
  - intros j u [[<- [<- _]]|[Hj Hu]]%list_lookup_insert_Some; [exact (inv_distinct_step k st i a t t' s' Hinv Hi Hs)|].
    exact (inv_distinct k st Hinv j u Hu).
Qed.

(** At the start no task owns anything. *)
Lemma start_owns_nothing t :
  is_start t → w_tickets t = ∅ ∧ r_tickets t = ∅ ∧ w_holds t = None ∧ r_holds t = None ∧
    drain_distinct t.
Proof. by destruct t. Qed.

Lemma ticket_inv_initial tickets holds ts :
  (∀ i t, ts !! i = Some t → tickets t = ∅ ∧ holds t = None) →
  TicketInv tickets holds 0 0 ∅ ts.
Proof.
  intros Hts. split; [lia| |set_solver| |].
  - intros i t x Hi. destruct (Hts i t Hi) as [-> _]. set_solver.
  - intros i j t u x Hi _. destruct (Hts i t Hi) as [-> _]. set_solver.
  - intros i t x Hi. by destruct (Hts i t Hi) as [_ ->].
Qed.

Lemma log_inv_initial done serving ts : LogInv done serving [] ts.
Proof. split; [constructor|]. intros x Hx. set_solver. Qed.

Lemma inv_initial r w ts : Forall is_start ts → Inv 0 (initial r w ts).
Proof.
  intros Hts. assert (∀ i t, ts !! i = Some t → is_start t) as Hst
    by (intros; by eapply Forall_lookup_1).
  split; simpl; try apply log_inv_initial; [| |lia|].
  - apply ticket_inv_initial. intros i t Hi.
    by destruct (start_owns_nothing t (Hst _ _ Hi)) as (? & _ & ? & _).
  - apply ticket_inv_initial. intros i t Hi.
    by destruct (start_owns_nothing t (Hst _ _ Hi)) as (_ & ? & _ & ? & _).
  - intros i t Hi. apply (start_owns_nothing t (Hst _ _ Hi)).
Qed.

Lemma run_events_app es es' st : run_events (es ++ es') st = run_events es' (run_events es st).
Proof. apply foldl_app. Qed.

Lemma inv_run es k st :
  Inv k st → 0 ≤ k → k + Z.of_nat (length es) < U64_MOD →
  Inv (k + Z.of_nat (length es)) (run_events es st).
Proof.
  revert k st. induction es as [|e es IH]; intros k st Hinv Hk Hlen; simpl in *.
  { by rewrite Z.add_0_r. }
  replace (k + Z.of_nat (S (length es))) with (k + 1 + Z.of_nat (length es)) by lia.
  apply IH; [|lia..]. apply inv_event; [done|lia].
Qed.

Lemma inv_reachable r w ts es :
  Forall is_start ts → Z.of_nat (length es) < U64_MOD →
  ∃ k, k < U64_MOD ∧ Inv k (run_events es (initial r w ts)).
Proof.
  intros Hts Hlen. exists (0 + Z.of_nat (length es)). split; [lia|].
  apply inv_run; [by apply inv_initial|lia..].
Qed.
End reachable.
