(* ===== verification/GlobalPairs.v ===== *)
(** * The ticket pairs

    Own requests take their write and read tickets together, accepted requests
    take their write ticket while the reader is held: both logs are sorted in
    both components. *)
From Stdlib Require Import ZArith Lia Strings.Byte Sorting.Sorted.
From stdpp Require Import base list strings gmap fin_maps relations sorting.
From S2P Require Import Prelude Wire Codec Message ChannelErrors Channel Global GlobalProofs.
Local Open Scope Z_scope.
Local Open Scope io_scope.

(** ** The ticket pairs *)

(** Between the lock and the unlock of [allocate_request_ticket_pair]. *)
Definition in_lock (t : Task) : bool :=
  match t with
  | ReqTakeWriter _ _ | ReqTakeReader _ _ _ | ReqUnlock _ _ _ _ => true
  | _ => false
  end.

(** The write ticket of a pair whose read ticket is still to be taken. *)
Definition half_pair (t : Task) : option Z :=
  match t with ReqTakeReader wt _ _ => Some wt | _ => None end.

Record PairInv (st : State) : Prop := {
  pi_lock i t : tasks st !! i = Some t → in_lock t = true →
    ticket_pair_lock (shared st) = Some i;
  pi_half i t wt : tasks st !! i = Some t → half_pair t = Some wt →
    ∀ p, p ∈ request_log (shared st) → p.1 < wt;
  pi_half_next i t wt : tasks st !! i = Some t → half_pair t = Some wt →
    wt < next_ticket (w_access st);
  pi_bound p : p ∈ request_log (shared st) →
    p.1 < next_ticket (w_access st) ∧ p.2 < next_ticket (r_access st);
  pi_sorted : StronglySorted Z.lt (map fst (request_log (shared st))) ∧
    StronglySorted Z.lt (map snd (request_log (shared st)));
  pi_accept p : p ∈ accept_log (shared st) → p.2 < next_ticket (w_access st);
  pi_accept_sorted : StronglySorted Z.lt (map snd (accept_log (shared st)));
}.

Lemma sorted_map_snoc {A} (f : A → Z) (l : list A) x :
  StronglySorted Z.lt (map f l) → (∀ y, y ∈ l → f y < f x) →
  StronglySorted Z.lt (map f (l ++ [x])).
Proof.
  intros Hl Hx. rewrite map_app. apply StronglySorted_snoc; [done|].
  intros y (z & -> & Hz)%list_elem_of_fmap. by apply Hx.
Qed.

Section pairs.
Context `{VarIntCodec}.

(** Effects of one step on what [PairInv] mentions. *)
Lemma pair_effects k st i a t t' s' :
  Inv k st → k + 1 < U64_MOD → act_task a i t (shared st) = Some (t', s') →
  next_ticket (w_access st) ≤ next_ticket (s_writer s') ∧
  next_ticket (r_access st) ≤ next_ticket (s_reader s') ∧
  (request_log s' = request_log (shared st) ∨
   ∃ wt, half_pair t = Some wt ∧
     request_log s' = request_log (shared st) ++ [(wt, next_ticket (r_access st))] ∧
     next_ticket (s_reader s') = next_ticket (r_access st) + 1) ∧
  (accept_log s' = accept_log (shared st) ∨
   ∃ rt, accept_log s' = accept_log (shared st) ++ [(rt, next_ticket (w_access st))] ∧
     next_ticket (s_writer s') = next_ticket (w_access st) + 1) ∧
  (∀ wt, half_pair t' = Some wt → in_lock t = true ∧ wt = next_ticket (w_access st) ∧
     next_ticket (s_writer s') = wt + 1 ∧ request_log s' = request_log (shared st)) ∧
  (in_lock t' = true → ticket_pair_lock s' = Some i ∨
     in_lock t = true ∧ ticket_pair_lock s' = ticket_pair_lock (shared st)) ∧
  (ticket_pair_lock s' = ticket_pair_lock (shared st) ∨
   ticket_pair_lock (shared st) = None ∨ in_lock t = true).
Proof.
  intros [Hw Hr _ _ _ [Hnw Hnr] _] Hk Hs. unfold w_access, r_access in *.
  pose proof (ti_bounds _ _ _ _ _ _ Hw) as Hbw. pose proof (ti_bounds _ _ _ _ _ _ Hr) as Hbr.
  assert (∀ z, 0 ≤ z ≤ k → wrap_u64 (z + 1) = z + 1) as Hwrap
    by (intros; apply wrap_u64_small; lia).
  step_cases Hs; rewrite ?Hwrap by lia; split_and!; try lia; try (by left); try (by right; left);
    try (by right; right); try done; try (intros; simplify_eq/=; eauto 6; fail).
  all: try (by destruct ok, next); by destruct next.
Qed.
End pairs.

Section pairs2.
Context `{VarIntCodec}.

Lemma pair_event k st i a :
  Inv k st → k + 1 < U64_MOD → PairInv st → PairInv (event (i, a) st).
Proof.
  intros Hinv Hk Hp. unfold event. destruct (tasks st !! i) as [t|] eqn:Hi; [|done].
  destruct (act_task a i t (shared st)) as [[t' s']|] eqn:Hs; [|done].
  destruct (pair_effects k st i a t t' s' Hinv Hk Hs) as (Hnw & Hnr & Hreq & Hacc & Hhalf & Hin & Hl).
  pose proof Hp as [Plock Phalf Pnext Pbound [Pw Pr] Pa Pas].
  assert (∀ j u, j ≠ i → tasks st !! j = Some u → in_lock u = true →
          in_lock t = false ∧ request_log s' = request_log (shared st)) as Hother.
  { intros j u Hj Hu Hlu. pose proof (Plock j u Hu Hlu) as Hlj.
    assert (in_lock t = false) as Ht.
    { destruct (in_lock t) eqn:Ht; [|done]. pose proof (Plock i t Hi Ht). congruence. }
    split; [done|]. destruct Hreq as [?|(wt & Hwt & _)]; [done|]. by destruct t. }
  split; cbn [tasks shared].
  - intros j u [[<- [<- _]]|[Hj Hu]]%list_lookup_insert_Some Hlu.
    + destruct (Hin Hlu) as [?|[Ht ->]]; [done|]. by eapply Plock.
    + pose proof (Plock j u Hu Hlu) as Hlj.
      destruct (Hother j u ltac:(done) Hu Hlu) as [Ht _].
      destruct Hl as [->|[?|?]]; congruence.
  - intros j u wt [[<- [<- _]]|[Hj Hu]]%list_lookup_insert_Some Hwt p Hpl.
    + destruct (Hhalf wt Hwt) as (_ & -> & _ & Hlog). rewrite Hlog in Hpl. by apply Pbound.
    + assert (in_lock u = true) as Hlu by by destruct u.
      destruct (Hother j u ltac:(done) Hu Hlu) as [_ Hlog]. rewrite Hlog in Hpl. by eapply Phalf.
  - intros j u wt [[<- [<- _]]|[Hj Hu]]%list_lookup_insert_Some Hwt.
    + destruct (Hhalf wt Hwt) as (_ & -> & Hn & _). unfold w_access in *. simpl. lia.
    + pose proof (Pnext j u wt Hu Hwt). unfold w_access in *. simpl. lia.
  - intros p Hpl. unfold w_access, r_access in *. simpl.
    assert (p ∈ request_log (shared st) ∨
            ∃ wt, half_pair t = Some wt ∧ p = (wt, next_ticket (s_reader (shared st))) ∧
              next_ticket (s_reader s') = next_ticket (s_reader (shared st)) + 1) as [Hp'|Hp'].
    { destruct Hreq as [Hlog|(wt & ? & Hlog & ?)]; rewrite Hlog in Hpl; [by left|].
      apply elem_of_app in Hpl as [?|Hpl%list_elem_of_singleton]; [by left|]. right. eauto. }
    + destruct (Pbound p Hp'). lia.
    + destruct Hp' as (wt & Hwt & -> & ?). pose proof (Pnext i t wt Hi Hwt). simpl. lia.
  - destruct Hreq as [->|(wt & Hwt & -> & _)]; [done|]. split; apply sorted_map_snoc; try done; simpl.
    + intros p Hpl. by eapply Phalf.
    + intros p Hpl. by apply Pbound.
  - intros p Hpl. unfold w_access in *. simpl.
    destruct Hacc as [Hlog|(rt & Hlog & ?)]; rewrite Hlog in Hpl.
    + specialize (Pa p Hpl). lia.
    + apply elem_of_app in Hpl as [?|Hpl%list_elem_of_singleton]; [specialize (Pa p ltac:(done)); lia|].
      subst p. simpl. lia.
  - destruct Hacc as [->|(rt & -> & _)]; [done|]. apply sorted_map_snoc; [done|].
    intros p Hpl. by apply Pa.
Qed.

Lemma pair_initial r w ts : Forall is_start ts → PairInv (initial r w ts).
Proof.
  intros Hts. assert (∀ i t, ts !! i = Some t → in_lock t = false ∧ half_pair t = None) as Hst.
  { intros i t Hi. assert (is_start t) by (by eapply Forall_lookup_1). by destruct t. }
  split; simpl; try (split; constructor); try constructor; try (intros; set_solver).
  intros i t Hi. by destruct (Hst i t Hi) as [-> _].
Qed.
End pairs2.
