(* ===== verification/GlobalTorn.v ===== *)
(** * Silence after a torn message

    When a sender or a responder fails in the middle of a message, nothing is
    written after it, by any task. *)
From Stdlib Require Import ZArith Lia Strings.Byte Sorting.Sorted.
From stdpp Require Import base list strings gmap fin_maps relations sorting.
From S2P Require Import Prelude Wire Codec Message ChannelErrors Channel Global GlobalProofs.
Local Open Scope Z_scope.
Local Open Scope io_scope.

(** The task has passed the poison check, or holds the guard, and has not
    written yet. *)
Definition may_write (t : Task) : bool :=
  match t with
  | WaitWriter _ (DrainAcquire _ (AcqServing _) | DrainWrite _ | AcquireOwn (AcqServing _)) _ _
  | Write _ _ _ => true
  | _ => false
  end.

(** A task commits to a ticket only when it is the one being served. *)
Definition w_commits (t : Task) : option Z :=
  match t with
  | WaitWriter _ (DrainAcquire c _ | DrainWrite c | DrainDrop c _) _ _ => Some c
  | WaitWriter t (AcquireOwn _) _ _ => Some t
  | Write t _ _ | WritePoison t _ | WriteDrop t _ _ => Some t
  | _ => None
  end.

(** A ticket read from [current_serving], maybe no longer current. *)
Definition w_stale (t : Task) : option Z :=
  match t with WaitWriter _ (DrainRemove c) _ _ => Some c | _ => None end.

Definition torn_holder (t : Task) : bool :=
  match t with WritePoison _ PoisonStore => true | _ => false end.

Record TornInv (st : State) : Prop := {
  to_commits i t x : tasks st !! i = Some t → w_commits t = Some x →
    x = current_serving (w_access st) ∧ x ∈ w_tickets t;
  to_stale i t c : tasks st !! i = Some t → w_stale t = Some c →
    c ≤ current_serving (w_access st);
  to_torn o : torn (shared st) = Some o →
    wr_out (resource (w_access st)) = o ∧
    (∀ i t, tasks st !! i = Some t → may_write t = false) ∧
    (poisoned (shared st) = true ∨
     ∃ i t, tasks st !! i = Some t ∧ torn_holder t = true);
}.

Lemma may_write_commits t : may_write t = true → ∃ x, w_commits t = Some x.
Proof. destruct t; simpl; repeat case_match; naive_solver. Qed.
Lemma torn_holder_commits t : torn_holder t = true → ∃ x, w_commits t = Some x.
Proof. destruct t; simpl; repeat case_match; naive_solver. Qed.

Section torn.
Context `{VarIntCodec}.

Lemma commits_unique k st i j t u x y :
  Inv k st → TornInv st → tasks st !! i = Some t → tasks st !! j = Some u →
  w_commits t = Some x → w_commits u = Some y → i = j.
Proof.
  intros Hinv [Hc _ _] Hi Hj Hx Hy.
  destruct (Hc i t x Hi Hx) as [-> ?]. destruct (Hc j u y Hj Hy) as [-> ?].
  eapply (ti_disj _ _ _ _ _ _ (inv_w _ _ Hinv)); eauto.
Qed.

(** The ticket of a dropped request is drained only while it is served. *)
Lemma drained_is_served k st i t c :
  Inv k st → TornInv st → tasks st !! i = Some t → w_stale t = Some c →
  c ∈ auto_failures (shared st) → c = current_serving (w_access st).
Proof.
  intros Hinv [_ Hst _] Hi Hc Ha. pose proof (Hst i t c Hi Hc).
  pose proof (ti_auto _ _ _ _ _ _ (inv_w _ _ Hinv) c Ha). lia.
Qed.

Lemma torn_effects k st i a t t' s' :
  Inv k st → k + 1 < U64_MOD → TornInv st → tasks st !! i = Some t →
  act_task a i t (shared st) = Some (t', s') →
  (current_serving (s_writer s') = current_serving (w_access st) ∨
   current_serving (s_writer s') = current_serving (w_access st) + 1 ∧
   w_commits t = Some (current_serving (w_access st))) ∧
  (∀ x, w_commits t' = Some x → x = current_serving (s_writer s') ∧ x ∈ w_tickets t') ∧
  (∀ c, w_stale t' = Some c → c ≤ current_serving (s_writer s')) ∧
  (torn s' = torn (shared st) ∨
   may_write t = true ∧ torn s' = Some (wr_out (resource (s_writer s'))) ∧
   torn_holder t' = true ∧ may_write t' = false) ∧
  (wr_out (resource (s_writer s')) = wr_out (resource (w_access st)) ∨ may_write t = true) ∧
  (may_write t' = true → may_write t = true ∨
     poisoned (shared st) = false ∧ is_Some (w_commits t) ∧ torn_holder t = false) ∧
  (poisoned s' = poisoned (shared st) ∨ poisoned s' = true) ∧
  (torn_holder t = true → poisoned s' = true).
Proof.
  intros Hinv Hk Htorn Hi Hs. pose proof (to_commits _ Htorn i t) as Hc.
  pose proof (λ c, drained_is_served k st i t c Hinv Htorn) as Hd.
  pose proof Hinv as [Hw _ _ _ _ [Hnw _] _]. unfold w_access, r_access in *.
  pose proof (ti_bounds _ _ _ _ _ _ Hw) as Hbw.
  assert (wrap_u64 (current_serving (s_writer (shared st)) + 1)
          = current_serving (s_writer (shared st)) + 1) as Hws by (apply wrap_u64_small; lia).
  step_cases Hs; rewrite ?Hws; rewrite ->?Z.eqb_eq in *; split_and!;
    try (by left); try (by right); try done; try lia.
  all: try (by destruct ok, next); try (by destruct next).
  all: try (intros x [= <-];
    solve [destruct (Hc _ Hi eq_refl) as [-> _]; split; [done|set_solver]
          |rewrite (Hd _ Hi eq_refl) by done; split; [done|set_solver]
          |split; [done|set_solver]]).
  all: try (destruct (Hc _ Hi eq_refl) as [-> _]; by right).
  intros c [= <-]. lia.
Qed.

Lemma torn_event k st i a :
  Inv k st → k + 1 < U64_MOD → TornInv st → TornInv (event (i, a) st).
Proof.
  intros Hinv Hk Htorn. unfold event. destruct (tasks st !! i) as [t|] eqn:Hi; [|done].
  destruct (act_task a i t (shared st)) as [[t' s']|] eqn:Hs; [|done].
  destruct (torn_effects k st i a t t' s' Hinv Hk Htorn Hi Hs)
    as (Hserv & Hct & Hst & Htn & Hout & Hmw & Hpo & Hhold).
  pose proof Htorn as [Tc Ts Tt].
  assert (∀ j u x, j ≠ i → tasks st !! j = Some u → w_commits u = Some x →
          current_serving (s_writer s') = current_serving (w_access st)) as Hother.
  { intros j u x Hj Hu Hx. destruct Hserv as [?|[_ Hti]]; [done|].
    exfalso. apply Hj. eapply commits_unique; eauto. }
  split; unfold w_access; cbn [tasks shared].
  - intros j u x [[<- [<- _]]|[Hj Hu]]%list_lookup_insert_Some Hx; [by apply Hct|].
    destruct (Tc j u x Hu Hx) as [-> ?]. split; [|done]. symmetry. by eapply (Hother j).
  - intros j u c [[<- [<- _]]|[Hj Hu]]%list_lookup_insert_Some Hc; [by apply Hst|].
    pose proof (Ts j u c Hu Hc). destruct Hserv as [->|[-> _]]; lia.
  - intros o Ho. destruct Htn as [Hsame|(Hmt & Hnew & Hth & Hmt')].
    + rewrite Hsame in Ho. destruct (Tt o Ho) as (Hwo & Hnm & Hp).
      assert (may_write t = false) as Hmt by (by eapply Hnm).
      split; [destruct Hout; congruence|]. split.
      * intros j u [[<- [<- _]]|[Hj Hu]]%list_lookup_insert_Some; [|by eapply Hnm].
        destruct (may_write t') eqn:Hmt'; [|done].
        destruct (Hmw eq_refl) as [?|(Hpf & [x Hx] & Hth)]; [congruence|].
        destruct Hp as [?|(h & u & Hh & Hthu)]; [congruence|].
        destruct (torn_holder_commits u Hthu) as [y Hy].
        assert (i = h) as <- by (eapply commits_unique; eauto). congruence.
      * destruct Hp as [?|(h & u & Hh & Hthu)]; [left; destruct Hpo; congruence|].
        destruct (decide (h = i)) as [->|Hne].
        -- left. apply Hhold. congruence.
        -- right. exists h, u. by rewrite list_lookup_insert_ne.
    + rewrite Hnew in Ho. simplify_eq. split; [done|]. split.
      * intros j u [[<- [<- _]]|[Hj Hu]]%list_lookup_insert_Some; [done|].
        destruct (may_write u) eqn:Hmu; [|done]. exfalso. apply Hj.
        destruct (may_write_commits t Hmt), (may_write_commits u Hmu).
        eapply commits_unique; eauto.
      * right. exists i, t'. split; [by eapply list_lookup_insert_eq, lookup_lt_Some|done].
Qed.

Lemma torn_initial r w ts : Forall is_start ts → TornInv (initial r w ts).
Proof.
  intros Hts. assert (∀ i t, ts !! i = Some t → w_commits t = None ∧ w_stale t = None) as Hst.
  { intros i t Hi. assert (is_start t) by (by eapply Forall_lookup_1). by destruct t. }
  split; simpl; [..|done].
  - intros i t x Hi. by destruct (Hst i t Hi) as [-> _].
  - intros i t x Hi. by destruct (Hst i t Hi) as [_ ->].
Qed.

Lemma torn_run es k st :
  Inv k st → TornInv st → 0 ≤ k → k + Z.of_nat (length es) < U64_MOD →
  TornInv (run_events es st).
Proof.
  revert k st. induction es as [|e es IH]; intros k st Hinv Ht Hk Hlen; [done|].
  simpl in *. apply (IH (k + 1)); [apply inv_event; [done|lia]| |lia|lia].
  destruct e. eapply torn_event; eauto. lia.
Qed.

(** Once torn, the output is what it was. *)
Lemma torn_stays es k st o :
  Inv k st → TornInv st → 0 ≤ k → k + Z.of_nat (length es) < U64_MOD →
  torn (shared st) = Some o →
  torn (shared (run_events es st)) = Some o.
Proof.
  revert k st. induction es as [|e es IH]; intros k st Hinv Ht Hk Hlen Ho; [done|].
  simpl in *. apply (IH (k + 1)); [apply inv_event; [done|lia]| |lia|lia|].
  { destruct e. eapply torn_event; eauto. lia. }
  destruct e as [i a]. unfold event. destruct (tasks st !! i) as [t|] eqn:Hi; [|done].
  destruct (act_task a i t (shared st)) as [[t' s']|] eqn:Hs; [|done].
  cbn [shared]. destruct (torn_effects k st i a t t' s' Hinv ltac:(lia) Ht Hi Hs)
    as (_ & _ & _ & [->|(Hmt & _)] & _); [done|].
  destruct (to_torn _ Ht o Ho) as (_ & Hnm & _). by rewrite (Hnm i t Hi) in Hmt.
Qed.
End torn.
