(* ===== verification/GlobalWake.v ===== *)
(** * Wake-ups

    A task that waits on a [Notify] whose count has not changed waits for a
    ticket that is not being served, in a session that is not poisoned, unless a
    task is about to notify it. *)
From Stdlib Require Import ZArith Lia Strings.Byte Sorting.Sorted.
From stdpp Require Import base list strings gmap fin_maps relations sorting.
From S2P Require Import Prelude Wire Codec Message ChannelErrors Channel Global GlobalProofs.
Local Open Scope Z_scope.
Local Open Scope io_scope.

(** Tasks about to call [notify_waiters] on the reader or the writer. *)
Definition poison_of (t : Task) : option Poison :=
  match t with
  | WaitWriter _ (DrainPoison p) _ _ | WritePoison _ p | ReadPoison _ p => Some p
  | _ => None
  end.
Definition notifies_reader (t : Task) : bool :=
  match poison_of t, t with
  | Some PoisonNotifyReader, _ | _, ReadNotify _ => true
  | _, _ => false
  end.
Definition notifies_writer (t : Task) : bool :=
  match poison_of t, t with
  | Some (PoisonNotifyReader | PoisonNotifyWriter), _ => true
  | _, (WriteNotify _ _ | WaitWriter _ (DrainNotify _) _ _) => true
  | _, _ => false
  end.

(** What a waiting task has seen: the ticket it waits for, the count when it
    created its future, whether it has since found the session sound, and
    whether it has since found another ticket being served. *)
Definition reader_wait (t : Task) : option (Z * Z * bool * bool) :=
  match t with
  | WaitReader t (AcqPoison seen) _ => Some (t, seen, false, false)
  | WaitReader t (AcqServing seen) _ => Some (t, seen, true, false)
  | WaitReader t (AcqAwait seen) _ => Some (t, seen, true, true)
  | _ => None
  end.
Definition writer_wait (t : Task) : option (Z * Z * bool * bool) :=
  match t with
  | WaitWriter t (CheckPoisoned seen) _ _ => Some (t, seen, false, false)
  | WaitWriter t (CheckServing2 seen) _ _ => Some (t, seen, true, false)
  | WaitWriter t (AwaitTurn seen) _ _ => Some (t, seen, true, true)
  | WaitWriter t (AcquireOwn (AcqPoison seen)) _ _ => Some (t, seen, false, false)
  | WaitWriter t (AcquireOwn (AcqServing seen)) _ _ => Some (t, seen, true, false)
  | WaitWriter t (AcquireOwn (AcqAwait seen)) _ _ => Some (t, seen, true, true)
  | _ => None
  end.

Section wake.
Context (waits : Task → option (Z * Z * bool * bool)) (notifies : Task → bool).

Definition pending (ts : list Task) : Prop := ∃ i t, ts !! i = Some t ∧ notifies t = true.

Definition wait_ok (calls serving : Z) (poisoned : bool) (pend : Prop)
    (w : Z * Z * bool * bool) : Prop :=
  let '(ticket, seen, sound, other) := w in
  seen ≤ calls ∧
  (seen = calls → sound = true → poisoned = false ∨ pend) ∧
  (seen = calls → other = true → serving ≠ ticket ∨ pend).

Definition WakeInv (calls serving : Z) (poisoned : bool) (ts : list Task) : Prop :=
  ∀ i t w, ts !! i = Some t → waits t = Some w → wait_ok calls serving poisoned (pending ts) w.

Lemma wait_ok_weaken calls serving poisoned (P Q : Prop) w :
  (P → Q) → wait_ok calls serving poisoned P w → wait_ok calls serving poisoned Q w.
Proof. destruct w as [[[? ?] ?] ?]. unfold wait_ok. naive_solver. Qed.

(** A step notifies, or leaves its task about to notify, or changes nothing
    that matters to the others; what its own task waits for is up to it. *)
Lemma wake_update calls serving poisoned ts i t t' calls' serving' poisoned' :
  WakeInv calls serving poisoned ts → ts !! i = Some t →
  (calls' = calls + 1 ∨
   calls' = calls ∧ (notifies t' = true ∨
     serving' = serving ∧ poisoned' = poisoned ∧ notifies t = false)) →
  (∀ w (P : Prop), waits t' = Some w →
     (∀ w0, waits t = Some w0 → wait_ok calls serving poisoned P w0) →
     notifies t = false ∧ wait_ok calls' serving' poisoned' P w) →
  WakeInv calls' serving' poisoned' (<[i := t']> ts).
Proof.
  intros Hinv Hi Hc Hown j u w Hu Hw.
  assert (notifies t = false → pending ts → pending (<[i := t']> ts)) as Hpend.
  { intros Ht (h & v & Hh & Hv). exists h, v.
    rewrite list_lookup_insert_ne; [done|]. intros ->. congruence. }
  apply list_lookup_insert_Some in Hu as [(<- & <- & _)|[Hj Hu]].
  - destruct (Hown w (pending ts) Hw) as [Ht Hok]; [intros; by eapply Hinv|].
    eapply wait_ok_weaken; [|exact Hok]. by apply Hpend.
  - pose proof (Hinv j u w Hu Hw) as Hok.
    destruct w as [[[ticket seen] sound] other]. unfold wait_ok in *.
    destruct Hok as (Hseen & Hs & Ho).
    destruct Hc as [->|[-> [Ht'|(-> & -> & Ht)]]].
    + split_and!; [lia|intros; lia..].
    + assert (pending (<[i := t']> ts)).
      { exists i, t'. split; [by eapply list_lookup_insert_eq, lookup_lt_Some|done]. }
      split_and!; [done|by right..].
    + split_and!; [done|naive_solver..].
Qed.
End wake.

Definition ReaderWake (st : State) : Prop :=
  WakeInv reader_wait notifies_reader (notify_calls (r_access st))
    (current_serving (r_access st)) (poisoned (shared st)) (tasks st).
Definition WriterWake (st : State) : Prop :=
  WakeInv writer_wait notifies_writer (notify_calls (w_access st))
    (current_serving (w_access st)) (poisoned (shared st)) (tasks st).

Section steps.
Context `{VarIntCodec}.

(** The conditions of [wake_update] for each step. *)
Ltac solve_effect Hs :=
  step_cases Hs; try (by left); right; (split; [done|]); first [by left|by right].
Ltac drop_after :=
  try match goal with o : bool, n : AfterWrite |- _ => by destruct o, n end;
  try match goal with n : AfterRead |- _ => by destruct n end.
Ltac use_wait Hold :=
  rewrite ->?Z.eqb_neq in *; try (destruct (Hold _ eq_refl) as (? & ? & ?));
  split_and!; try lia; first [done|assumption|by intros; left|tauto].

Lemma reader_wake_event st i a : ReaderWake st → ReaderWake (event (i, a) st).
Proof.
  intros Hinv. unfold event. destruct (tasks st !! i) as [t|] eqn:Hi; [|done].
  destruct (act_task a i t (shared st)) as [[t' s']|] eqn:Hs; [|done].
  unfold ReaderWake, r_access in *. cbn [tasks shared].
  eapply wake_update; [exact Hinv|exact Hi|..]; clear Hinv Hi; [solve_effect Hs|].
  intros w P Hw Hold. step_cases Hs; drop_after; simplify_eq/=; (split; [done|use_wait Hold]).
Qed.

Lemma writer_wake_event st i a : WriterWake st → WriterWake (event (i, a) st).
Proof.
  intros Hinv. unfold event. destruct (tasks st !! i) as [t|] eqn:Hi; [|done].
  destruct (act_task a i t (shared st)) as [[t' s']|] eqn:Hs; [|done].
  unfold WriterWake, w_access in *. cbn [tasks shared].
  eapply wake_update; [exact Hinv|exact Hi|..]; clear Hinv Hi; [solve_effect Hs|].
  intros w P Hw Hold. step_cases Hs; drop_after; simplify_eq/=; (split; [done|use_wait Hold]).
Qed.

Lemma wake_run es st :
  ReaderWake st → WriterWake st →
  ReaderWake (run_events es st) ∧ WriterWake (run_events es st).
Proof.
  revert st. induction es as [|e es IH]; intros st Hr Hw; [done|].
  destruct e. apply IH; [by apply reader_wake_event|by apply writer_wake_event].
Qed.

Lemma wake_initial r w ts :
  Forall is_start ts → ReaderWake (initial r w ts) ∧ WriterWake (initial r w ts).
Proof.
  intros Hts. assert (∀ i t, ts !! i = Some t → is_start t) as Hst
    by (intros; by eapply Forall_lookup_1).
  split; intros i t x Hi; specialize (Hst i t Hi); by destruct t.
Qed.
End steps.
