(* ===== verification/GlobalCancel.v ===== *)
(** * Cancellation

    What a dropped future leaves behind. A ticket is a plain integer: when the
    future that waits for its turn is dropped, nobody passes the turn on. *)
From Stdlib Require Import ZArith Lia Strings.Byte Sorting.Sorted.
From stdpp Require Import base list strings gmap fin_maps relations sorting.
From S2P Require Import Prelude Wire Codec Message ChannelErrors Channel Global GlobalProofs.
Local Open Scope Z_scope.

(** ** Where a step takes its tickets from *)
Section effects.
Context `{VarIntCodec}.

(** What one action does to the owners of the tickets of one access. *)
Definition tickets_from (tickets : Task → gset Z) (auto auto' : gset Z)
    (next serving serving' : Z) (t t' : Task) : Prop :=
  (∀ x, x ∈ tickets t' → x ∈ tickets t ∨ x ∈ auto ∨ next ≤ x) ∧
  (∀ x, x ∈ auto' → x ∈ auto ∨ x ∈ tickets t) ∧
  (serving' = serving ∨ serving' = serving + 1 ∧ serving ∈ tickets t).

Lemma w_tickets_from k st i a t t' s' :
  Inv k st → k + 1 < U64_MOD → tasks st !! i = Some t → act_task a i t (shared st) = Some (t', s') →
  tickets_from w_tickets (auto_failures (shared st)) (auto_failures s') (next_ticket (w_access st))
    (current_serving (w_access st)) (current_serving (s_writer s')) t t' ∧
  next_ticket (w_access st) ≤ next_ticket (s_writer s').
Proof.
  intros Hinv Hk Hi Hs. pose proof Hinv as [Hw _ _ _ _ [Hnw _] _].
  pose proof (ti_holds _ _ _ _ _ _ Hw i t) as Hh. pose proof (ti_bounds _ _ _ _ _ _ Hw) as Hb.
  unfold w_access, tickets_from in *.
  assert (∀ z, 0 ≤ z ≤ k → wrap_u64 (z + 1) = z + 1) as Hwrap
    by (intros; apply wrap_u64_small; lia).
  step_cases Hs; rewrite ?Hwrap by lia; split_and!; try (by left); try lia; try (by intros; left); try set_solver by lia;
    try (right; split; [done|]; destruct (Hh _ Hi eq_refl) as [-> ?]; set_solver).
  all: try (intros x; rewrite ?w_tickets_after_write, ?w_tickets_after_read; set_solver).
  all: intros x Hx; apply w_reply_next in Hx; set_solver.
Qed.

Lemma r_tickets_from k st i a t t' s' :
  Inv k st → k + 1 < U64_MOD → tasks st !! i = Some t → act_task a i t (shared st) = Some (t', s') →
  tickets_from r_tickets ∅ ∅ (next_ticket (r_access st))
    (current_serving (r_access st)) (current_serving (s_reader s')) t t' ∧
  next_ticket (r_access st) ≤ next_ticket (s_reader s').
Proof.
  intros Hinv Hk Hi Hs. pose proof Hinv as [_ Hr _ _ _ [_ Hnr] _].
  pose proof (ti_holds _ _ _ _ _ _ Hr i t) as Hh. pose proof (ti_bounds _ _ _ _ _ _ Hr) as Hb.
  unfold r_access, tickets_from in *.
  assert (∀ z, 0 ≤ z ≤ k → wrap_u64 (z + 1) = z + 1) as Hwrap
    by (intros; apply wrap_u64_small; lia).
  step_cases Hs; rewrite ?Hwrap by lia; split_and!; try (by left); try lia; try (by intros; left); try set_solver by lia;
    try (right; split; [done|]; destruct (Hh _ Hi eq_refl) as [-> ?]; set_solver).
  all: intros x Hx; try (apply r_tickets_after_write in Hx); try rewrite r_tickets_after_read in Hx; set_solver.
Qed.
End effects.

(** ** Tickets nobody owns *)

Definition unowned (tickets : Task → gset Z) (next serving : Z) (auto : gset Z) (ts : list Task)
    (x : Z) : Prop :=
  serving ≤ x < next ∧ (x ∉ auto) ∧ ∀ j u, ts !! j = Some u → x ∉ tickets u.
Definition w_unowned (x : Z) (st : State) : Prop :=
  unowned w_tickets (next_ticket (w_access st)) (current_serving (w_access st))
    (auto_failures (shared st)) (tasks st) x.
Definition r_unowned (x : Z) (st : State) : Prop :=
  unowned r_tickets (next_ticket (r_access st)) (current_serving (r_access st)) ∅ (tasks st) x.

Lemma unowned_update tickets auto auto' next next' serving serving' ts i t t' x :
  ts !! i = Some t → tickets_from tickets auto auto' next serving serving' t t' → next ≤ next' →
  unowned tickets next serving auto ts x → unowned tickets next' serving' auto' (<[i := t']> ts) x.
Proof.
  intros Hi (Ht & Ha & Hs) Hn (Hx & Hxa & Hown). pose proof (Hown i t Hi) as Hxt. split_and!.
  - destruct Hs as [->|[-> Hst]]; [lia|]. assert (serving ≠ x) by congruence. lia.
  - lia.
  - intros Hx'. by destruct (Ha x Hx').
  - intros j u [[<- [<- _]]|[Hj Hu]]%list_lookup_insert_Some; [|by eapply Hown].
    intros Hx'. destruct (Ht x Hx') as [?|[?|?]]; [done..|lia].
Qed.

Section blocked.
Context `{VarIntCodec}.

Lemma unowned_event k st e x :
  Inv k st → k + 1 < U64_MOD →
  (w_unowned x st → w_unowned x (event e st)) ∧ (r_unowned x st → r_unowned x (event e st)).
Proof.
  intros Hinv Hk. destruct e as [i a]. unfold event.
  destruct (tasks st !! i) as [t|] eqn:Hi; [|done].
  destruct (act_task a i t (shared st)) as [[t' s']|] eqn:Hs; [|done].
  destruct (w_tickets_from k st i a t t' s' Hinv Hk Hi Hs).
  destruct (r_tickets_from k st i a t t' s' Hinv Hk Hi Hs).
  split; by apply unowned_update with t.
Qed.

Lemma unowned_run es k st x :
  Inv k st → 0 ≤ k → k + Z.of_nat (length es) < U64_MOD →
  (w_unowned x st → w_unowned x (run_events es st)) ∧
  (r_unowned x st → r_unowned x (run_events es st)).
Proof.
  revert k st. induction es as [|e es IH]; intros k st Hinv Hk Hlen; [done|]. simpl in *.
  destruct (unowned_event k st e x Hinv ltac:(lia)).
  destruct (IH (k + 1) (event e st)); [apply inv_event; [done|lia]|lia..|]. auto.
Qed.

(** Whoever holds a guard, and whatever was logged, has an earlier ticket. *)
Lemma unowned_blocks tickets holds done next serving auto ts log x :
  (∀ u y, done u = Some y → holds u = Some y) →
  TicketInv tickets holds next serving auto ts → LogInv done serving log ts →
  unowned tickets next serving auto ts x →
  (∀ j u y, ts !! j = Some u → holds u = Some y → y < x) ∧ Forall (λ y, y < x) log.
Proof.
  intros Hdh Ht Hl (Hx & _ & Hown).
  assert (∀ j u y, ts !! j = Some u → holds u = Some y → y < x) as Hh.
  { intros j u y Hj Hy. destruct (ti_holds _ _ _ _ _ _ Ht j u y Hj Hy) as [-> Hs].
    assert (serving ≠ x) by (intros ->; by eapply Hown). lia. }
  split; [done|]. apply Forall_forall. intros y Hy.
  destruct (li_bound _ _ _ _ Hl y Hy) as [?|[-> (j & u & Hj & Hd)]]; [lia|eauto].
Qed.

(** A task that waits owns the ticket it waits for, alone. *)
Lemma dropped_unowned k st i t :
  Inv k st → tasks st !! i = Some t → w_holds t = None → r_holds t = None →
  let st' := MkState (shared st) (<[i := Finished Cancelled]> (tasks st)) in
  (∀ x, x ∈ w_tickets t → w_unowned x st') ∧ (∀ x, x ∈ r_tickets t → r_unowned x st').
Proof.
  intros [Hw Hr _ _ _ _ _] Hi Hwh Hrh st'. unfold w_unowned, r_unowned, w_access, r_access in *. simpl.
  split; intros x Hx.
  - destruct (ti_own _ _ _ _ _ _ Hw i t x Hi Hx). split_and!; [lia..|done|].
    intros j u [[<- [<- _]]|[Hj Hu]]%list_lookup_insert_Some; [simpl; set_solver|].
    intros Hu'. by eapply Hj, (ti_disj _ _ _ _ _ _ Hw).
  - destruct (ti_own _ _ _ _ _ _ Hr i t x Hi Hx). split_and!; [lia..|done|].
    intros j u [[<- [<- _]]|[Hj Hu]]%list_lookup_insert_Some; [simpl; set_solver|].
    intros Hu'. by eapply Hj, (ti_disj _ _ _ _ _ _ Hr).
Qed.
End blocked.

(** ** A turn that is never passed on *)

(** Nobody gets the guard for [x] or a later ticket, and nothing was written,
    or read, under one. *)
Definition w_blocked (x : Z) (st : State) : Prop :=
  (∀ j u y, tasks st !! j = Some u → w_holds u = Some y → y < x) ∧
  Forall (λ y, y < x) (write_log (shared st)).
Definition r_blocked (x : Z) (st : State) : Prop :=
  (∀ j u y, tasks st !! j = Some u → r_holds u = Some y → y < x) ∧
  Forall (λ y, y < x) (read_log (shared st)).

Section theorem.
Context `{VarIntCodec}.

Lemma unowned_blocked k st x :
  Inv k st → (w_unowned x st → w_blocked x st) ∧ (r_unowned x st → r_blocked x st).
Proof.
  intros [Hw Hr Hwl Hrl _ _ _]. split; intros Hx.
  - eapply unowned_blocks; [exact w_done_holds|exact Hw|exact Hwl|exact Hx].
  - eapply unowned_blocks; [exact r_done_holds|exact Hr|exact Hrl|exact Hx].
Qed.

(** C28: A dropped future takes its turn with it. When the future of a request, a
    notification or a reply is dropped while it waits for its turn on the
    writer, then, whatever the tasks do afterwards, no task ever gets the
    writer for that ticket or for a later one, so that nothing more than the
    messages before it is ever written; the response of a dropped request
    blocks the reader in the same way, and so does any future dropped while it
    waits for the reader. *)
Theorem dropped_turn_blocks (r : Reader) (w : Writer) (ts : list Task)
    (before after : list (nat * Action)) (i n : nat) :
  Forall is_start ts → Z.of_nat (length (before ++ (i, Cancel n) :: after)) < U64_MOD →
  let st := run_events before (initial r w ts) in
  let st' := run_events (before ++ (i, Cancel n) :: after) (initial r w ts) in
  (∀ x seen message next, tasks st !! i = Some (WaitWriter x (AwaitTurn seen) message next) →
     w_blocked x st' ∧
     (∀ y response, next = ReadResponse y response → r_blocked y st')) ∧
  (∀ x seen what, tasks st !! i = Some (WaitReader x (AcqAwait seen) what) → r_blocked x st').
Proof.
  intros Hts Hlen st st'. rewrite length_app in Hlen. simpl in Hlen.
  pose proof (inv_run before 0 _ (inv_initial r w ts Hts) ltac:(lia) ltac:(lia)) as Hinv. fold st in Hinv.
  assert (st' = run_events after (event (i, Cancel n) st)) as Hst'
    by (unfold st'; by rewrite run_events_app).
  pose proof (inv_event _ _ (i, Cancel n) Hinv ltac:(lia)) as Hinv1.
  pose proof (λ x, unowned_run after _ _ x Hinv1 ltac:(lia) ltac:(lia)) as Hrun.
  pose proof (inv_run after _ _ Hinv1 ltac:(lia) ltac:(lia)) as Hinv'. rewrite <- Hst' in *.
  pose proof (λ x, unowned_blocked _ st' x Hinv') as Hblock.
  split.
  - intros x seen message next Hi.
    destruct (dropped_unowned _ st i _ Hinv Hi eq_refl eq_refl) as [Hwd Hrd].
    unfold event in Hrun. rewrite Hi in Hrun. simpl in *. split.
    + apply Hblock, Hrun, Hwd. set_solver.
    + intros y response ->. apply Hblock, Hrun, Hrd. set_solver.
  - intros x seen what Hi.
    destruct (dropped_unowned _ st i _ Hinv Hi eq_refl eq_refl) as [_ Hrd].
    unfold event in Hrun. rewrite Hi in Hrun. simpl in *. apply Hblock, Hrun, Hrd. set_solver.
Qed.
End theorem.

(** ** Witness *)

#[local] Existing Instance quic_varint.

(** Three notifications; the second waits for the first and is dropped. *)
Definition ping_task : Task := NotifyTake (w_section (write_all [x50])).
Definition dropped_before : list (nat * Action) :=
  proceed (0%nat :: replicate 7 1%nat).
Definition dropped_after : list (nat * Action) :=
  proceed (replicate 30 0%nat ++ replicate 30 2%nat).

Lemma dropped_turn_blocks_witness :
  let st := run_events (dropped_before ++ (1%nat, Cancel 0) :: dropped_after)
              (initial (MkReader [] None) new_writer [ping_task; ping_task; ping_task]) in
  write_log (shared st) = [0] ∧ w_blocked 1 st.
Proof.
  split; [vm_compute; reflexivity|].
  assert (Forall is_start [ping_task; ping_task; ping_task]) as Hts by repeat constructor.
  assert (Z.of_nat (length (dropped_before ++ (1%nat, Cancel 0) :: dropped_after)) < U64_MOD) as Hl
    by (vm_compute; reflexivity).
  destruct (dropped_turn_blocks (MkReader [] None) new_writer _ dropped_before dropped_after 1 0 Hts Hl)
    as [Hw _].
  refine (proj1 (Hw 1 0 _ _ _)). vm_compute. reflexivity.
Defined.
