(* ===== verification/GlobalProps.v ===== *)
(** * What the global request machinery guarantees

    Mutual exclusion of the guards, the order of requests, responses and
    replies, silence after a torn message, wake-ups, the request round trip;
    and, as reachable states, the races the code has. *)
From Stdlib Require Import ZArith Lia Strings.Byte Sorting.Sorted.
From stdpp Require Import base list strings gmap fin_maps relations sorting.
From S2P Require Import Prelude Wire Codec Message ChannelErrors Channel.
From S2P Require Import Global GlobalProofs GlobalPairs GlobalTorn GlobalWake.
Local Open Scope Z_scope.
Local Open Scope io_scope.

(** ** Lemmas *)

Section lemmas.
Context `{VarIntCodec}.

(** Only the holder of the guard touches the resource. *)
Lemma resource_untouched a i t t' s s' :
  act_task a i t s = Some (t', s') →
  (resource (s_writer s') = resource (s_writer s) ∨ is_Some (w_holds t)) ∧
  (resource (s_reader s') = resource (s_reader s) ∨ is_Some (r_holds t)).
Proof. intros Hs. step_cases Hs; split; simpl; auto; by right. Qed.

Lemma pair_run es k st :
  Inv k st → PairInv st → 0 ≤ k → k + Z.of_nat (length es) < U64_MOD →
  PairInv (run_events es st).
Proof.
  revert k st. induction es as [|e es IH]; intros k st Hinv Hp Hk Hlen; [done|].
  simpl in *. apply (IH (k + 1)); [apply inv_event; [done|lia]| |lia|lia].
  destruct e. eapply pair_event; eauto. lia.
Qed.

Lemma global_request_wire_writes {Rq Su P PE SE}
    `{!VarIntLaws, WantReplyGlobalRequest Rq Su P, EncodeInto P PE} (rq : Rq) pbs :
  ssh_string_ok (global_request_type rq) →
  writes (encode_into (global_payload rq)) pbs () →
  writes (send_request_write (SE := SE) rq)
    (msg SSH_MSG_GLOBAL_REQUEST ++ field_wire (ssh_string_bytes (global_request_type rq)) ++
     [x01] ++ pbs) ().
Proof.
  intros Hn Hp. unfold send_request_write, msg.
  eapply writes_bind; [eauto with wire|]. eapply writes_bind; [eauto with wire|].
  eapply writes_bind; [apply writes_map_err, (encode_bool_writes true)|]. solve_writes.
Qed.

Lemma respond_success_write_writes {P RE} `{!VarIntLaws, EncodeInto P RE} (p : P) pbs :
  writes (encode_into p) pbs () →
  writes (respond_success_write p) (msg SSH_MSG_REQUEST_SUCCESS ++ pbs) ().
Proof. intros. unfold respond_success_write, msg. solve_writes. Qed.

Lemma respond_failure_write_writes `{!VarIntLaws} :
  writes respond_failure_write (msg SSH_MSG_REQUEST_FAILURE) ().
Proof. unfold respond_failure_write, msg. solve_writes. Qed.

Lemma accept_header_reads `{!VarIntLaws} name (want : bool) :
  ssh_string_ok name →
  reads accept_header_read
    (msg SSH_MSG_GLOBAL_REQUEST ++ field_wire (ssh_string_bytes name) ++
     [if want then x01 else x00]) (name, want).
Proof.
  intros. unfold accept_header_read, msg. eapply reads_bind; [eauto with wire|].
  change (negb (SSH_MSG_GLOBAL_REQUEST =? SSH_MSG_GLOBAL_REQUEST)) with false. cbv iota.
  eapply reads_bind; [eauto with wire|].
  eapply reads_bind_last; [apply reads_map_err, (decode_bool_reads want)|]. apply reads_ret.
Qed.
End lemmas.

(** ** Properties *)

Section properties.
Context `{VarIntCodec}.

(** C1: The [unsafe impl Sync] of the ordered access is sound. For any tasks
    and any interleaving shorter than the tickets' range, with futures dropped
    anywhere in it, at most one task
    holds the writer guard and at most one the reader guard, both for the
    ticket being served, and a step touches the writer or the reader only when
    its task holds the guard. *)
Theorem guards_exclusive (r : Reader) (w : Writer) (ts : list Task) (es : list (nat * Action)) :
  Forall is_start ts → Z.of_nat (length es) < U64_MOD →
  let st := run_events es (initial r w ts) in
  (∀ i j t u x y, tasks st !! i = Some t → tasks st !! j = Some u →
     w_holds t = Some x → w_holds u = Some y →
     i = j ∧ x = current_serving (w_access st)) ∧
  (∀ i j t u x y, tasks st !! i = Some t → tasks st !! j = Some u →
     r_holds t = Some x → r_holds u = Some y →
     i = j ∧ x = current_serving (r_access st)) ∧
  (∀ i a, resource (w_access (event (i, a) st)) ≠ resource (w_access st) →
     ∃ t, tasks st !! i = Some t ∧ is_Some (w_holds t)) ∧
  (∀ i a, resource (r_access (event (i, a) st)) ≠ resource (r_access st) →
     ∃ t, tasks st !! i = Some t ∧ is_Some (r_holds t)).
Proof.
  intros Hts Hlen st. destruct (inv_reachable r w ts es Hts Hlen) as (k & _ & Hinv).
  fold st in Hinv. destruct Hinv as [Hw Hr _ _ _ _ _].
  assert (∀ i a, resource (w_access (event (i, a) st)) = resource (w_access st) ∧
               resource (r_access (event (i, a) st)) = resource (r_access st) ∨
             ∃ t t' s', tasks st !! i = Some t ∧ act_task a i t (shared st) = Some (t', s') ∧
               event (i, a) st = MkState s' (<[i := t']> (tasks st))) as Hstep.
  { intros i a. unfold event. destruct (tasks st !! i) as [t|]; [|by left].
    destruct (act_task a i t (shared st)) as [[t' s']|] eqn:Hs; [|by left].
    right. eauto 6. }
  split_and!.
  - intros i j t u x y Hi Hj Hx Hy. split; [by eapply (holds_unique w_tickets w_holds)|].
    by destruct (ti_holds _ _ _ _ _ _ Hw i t x Hi Hx).
  - intros i j t u x y Hi Hj Hx Hy. split; [by eapply (holds_unique r_tickets r_holds)|].
    by destruct (ti_holds _ _ _ _ _ _ Hr i t x Hi Hx).
  - intros i a Hne. destruct (Hstep i a) as [[? _]|(t & t' & s' & Ht & Hs & Heq)]; [done|].
    exists t. split; [done|]. rewrite Heq in Hne. unfold w_access, r_access in Hne. simpl in Hne.
    by destruct (resource_untouched _ _ _ _ _ _ Hs) as [[?|?] _].
  - intros i a Hne. destruct (Hstep i a) as [[_ ?]|(t & t' & s' & Ht & Hs & Heq)]; [done|].
    exists t. split; [done|]. rewrite Heq in Hne. unfold w_access, r_access in Hne. simpl in Hne.
    by destruct (resource_untouched _ _ _ _ _ _ Hs) as [_ [?|?]].
Qed.

(** C4: Order on the control stream. In any interleaving, with futures dropped
    anywhere in it, messages are
    written in the order of their write tickets and read in the order of their
    read tickets; the ticket pairs of own requests are ordered the same way in
    both components, so responses are read in the order the requests were
    sent; accepted requests get their reply's ticket in the order they
    arrived, so replies are sent in that order. *)
Theorem global_order (r : Reader) (w : Writer) (ts : list Task) (es : list (nat * Action)) :
  Forall is_start ts → Z.of_nat (length es) < U64_MOD →
  let s := shared (run_events es (initial r w ts)) in
  StronglySorted Z.lt (write_log s) ∧ StronglySorted Z.lt (read_log s) ∧
  StronglySorted Z.lt (map fst (request_log s)) ∧
  StronglySorted Z.lt (map snd (request_log s)) ∧
  StronglySorted Z.lt (map fst (accept_log s)) ∧
  StronglySorted Z.lt (map snd (accept_log s)).
Proof.
  intros Hts Hlen s. destruct (inv_reachable r w ts es Hts Hlen) as (k & _ & Hinv).
  pose proof (pair_run es 0 _ (inv_initial r w ts Hts) (pair_initial r w ts Hts)
                ltac:(lia) ltac:(lia)) as Hp.
  split_and!.
  - apply (inv_wlog _ _ Hinv).
  - apply (inv_rlog _ _ Hinv).
  - apply (pi_sorted _ Hp).
  - apply (pi_sorted _ Hp).
  - apply (inv_alog _ _ Hinv).
  - apply (pi_accept_sorted _ Hp).
Qed.

(** C2: Nothing follows a torn message. Once a request, a notification or a
    reply has failed in the middle of its message, no task ever puts another
    byte on the control stream, however the other tasks were interleaved with
    the failure and whatever they had already checked. *)
Theorem torn_silence (r : Reader) (w : Writer) (ts : list Task) (before after : list (nat * Action)) o :
  Forall is_start ts → Z.of_nat (length (before ++ after)) < U64_MOD →
  torn (shared (run_events before (initial r w ts))) = Some o →
  wr_out (resource (w_access (run_events (before ++ after) (initial r w ts)))) = o.
Proof.
  intros Hts Hlen Ho. rewrite length_app in Hlen. rewrite run_events_app.
  assert (Inv (0 + Z.of_nat (length before)) (run_events before (initial r w ts))) as Hinv
    by (apply inv_run; [by apply inv_initial|lia..]).
  assert (TornInv (run_events before (initial r w ts))) as Ht
    by (apply (torn_run before 0); [by apply inv_initial|by apply torn_initial|lia..]).
  assert (TornInv (run_events after (run_events before (initial r w ts)))) as Ht'
    by (eapply torn_run; [exact Hinv|exact Ht|lia..]).
  apply (to_torn _ Ht'). eapply torn_stays; [exact Hinv|exact Ht|lia|lia|exact Ho].
Qed.

(** C26: No lost wake-up. In any interleaving, when no task is about to
    notify, a task that waits for the reader or for its turn on the writer
    waits in a sound session for a ticket that is not being served: a task
    whose turn it is, or whose session was poisoned, is never left asleep. *)
Theorem no_lost_wakeup (r : Reader) (w : Writer) (ts : list Task) (es : list (nat * Action)) :
  Forall is_start ts →
  let st := run_events es (initial r w ts) in
  (∀ i t, tasks st !! i = Some t → notifies_reader t = false ∧ notifies_writer t = false) →
  (∀ i t seen what, tasks st !! i = Some (WaitReader t (AcqAwait seen) what) →
     seen = notify_calls (r_access st) →
     poisoned (shared st) = false ∧ current_serving (r_access st) ≠ t) ∧
  (∀ i t seen message next, tasks st !! i = Some (WaitWriter t (AwaitTurn seen) message next) →
     seen = notify_calls (w_access st) →
     poisoned (shared st) = false ∧ current_serving (w_access st) ≠ t).
Proof.
  intros Hts st Hquiet. destruct (wake_initial r w ts Hts) as [Hr Hw].
  destruct (wake_run es _ Hr Hw) as [Hr' Hw']. fold st in Hr', Hw'.
  split.
  - intros i t seen what Hi Hs. destruct (Hr' i _ _ Hi eq_refl) as (_ & Hp & Ho).
    assert (¬ pending notifies_reader (tasks st)) as Hnp.
    { intros (j & u & Hj & Hu). destruct (Hquiet j u Hj). congruence. }
    split; [by destruct (Hp Hs eq_refl)|by destruct (Ho Hs eq_refl)].
  - intros i t seen message next Hi Hs. destruct (Hw' i _ _ Hi eq_refl) as (_ & Hp & Ho).
    assert (¬ pending notifies_writer (tasks st)) as Hnp.
    { intros (j & u & Hj & Hu). destruct (Hquiet j u Hj). congruence. }
    split; [by destruct (Hp Hs eq_refl)|by destruct (Ho Hs eq_refl)].
Qed.

(** The global request round trip. What [send_global_request] writes is
    read by [accept_global_request] as the request's type with
    [want_reply = true], its payload follows, and the reply written by
    [respond_success] or [respond_failure] is what the requester's read
    returns: the response, or [Rejected]. *)
Theorem global_request_roundtrip {Rq Su P PEe PEd SEe SEd} `{!VarIntLaws}
    `{WantReplyGlobalRequest Rq Su P, EncodeInto P PEe, DecodeFrom P PEd, !WireFormat P,
      EncodeInto Su SEe, DecodeFrom Su SEd, !WireFormat Su}
    (rq : Rq) (resp : Su) (w peer : Writer) :
  ssh_string_ok (global_request_type rq) → wire_ok (global_payload rq) → wire_ok resp →
  wr_plan w = [] → wr_plan peer = [] →
  ∃ w' w_ok w_fail request success failure,
    send_request_write (SE := SEd) rq w = (w', Ok ()) ∧ wr_out w' = wr_out w ++ request ∧
    respond_success_write resp peer = (w_ok, Ok ()) ∧ wr_out w_ok = wr_out peer ++ success ∧
    respond_failure_write peer = (w_fail, Ok ()) ∧ wr_out w_fail = wr_out peer ++ failure ∧
    (∀ rest fin, ∃ payload,
       accept_header_read (MkReader (request ++ rest) fin)
       = (MkReader (payload ++ rest) fin, Ok (global_request_type rq, true)) ∧
       decode_from P (MkReader (payload ++ rest) fin)
       = (MkReader rest fin, Ok (global_payload rq))) ∧
    (∀ rest fin, send_request_read (Success := Su) (PE := PEe) (MkReader (success ++ rest) fin)
       = (MkReader rest fin, Ok resp)) ∧
    (∀ rest fin, send_request_read (Success := Su) (PE := PEe) (MkReader (failure ++ rest) fin)
       = (MkReader rest fin, Err send_request_error.Rejected)).
Proof.
  intros Hn Hp Hr Hw Hpeer.
  destruct (writes_ok (global_request_wire_writes (SE := SEd) rq _ Hn (wire_encode _ Hp)) w Hw)
    as (w' & ? & ? & _).
  destruct (writes_ok (respond_success_write_writes resp _ (wire_encode _ Hr)) peer Hpeer)
    as (w_ok & ? & ? & _).
  destruct (writes_ok respond_failure_write_writes peer Hpeer) as (w_fail & ? & ? & _).
  eexists w', w_ok, w_fail, _, _, _. split_and!; [done..| | |].
  - intros rest fin. exists (wire (global_payload rq)). split; [|by apply wire_decode].
    rewrite !(assoc_L (++)), <- (assoc_L (++) (msg _)), <- (assoc_L (++) _ _ rest).
    by apply (accept_header_reads _ true).
  - intros rest fin. unfold send_request_read, msg. rewrite <- (assoc_L (++)).
    erewrite io_bind_ok; [|apply reads_map_err, decode_varint_reads; eauto with wire].
    eval_eqb. by apply reads_map_err, wire_decode.
  - intros rest fin. unfold send_request_read, msg.
    erewrite io_bind_ok; [|apply reads_map_err, decode_varint_reads; eauto with wire].
    by eval_eqb.
Qed.
End properties.

(** ** Reachable races

    Executions of concrete tasks with the RFC 9000 codec. *)
Section races.
#[local] Existing Instance quic_varint.

(** Every task has finished or waits. *)
Definition stuck (st : State) : bool :=
  forallb (λ p, match step_task p.1 p.2 (shared st) with None => true | _ => false end)
    (imap pair (tasks st)).
Definition finished (t : Task) : bool := match t with Finished _ => true | _ => false end.

#[export] Instance sample_notice : NotifyGlobalRequest (SshString * SshBytes) SshBytes :=
  {| global_notice_type := fst; global_notice_payload := snd |}.
#[export] Instance sample_global : WantReplyGlobalRequest (SshString * SshBytes) SshBool SshBytes :=
  {| global_request_type := fst; global_payload := snd |}.

Definition ping : SshString * SshBytes := (from_static "ping", MkSshBytes []).
Definition output {E A} (c : Io Writer E A) : list byte := wr_out (c new_writer).1.
Definition ping_request : list byte :=
  output (send_request_write (Success := SshBool) (SE := CodecError) ping).
Definition ping_notice : list byte := output (send_notification_write ping).
Definition decode_ping (reply : Reply) : Decision :=
  DecodePayload (r_section (decode_from SshBytes;;; io_ret reply)).

(** A request is accepted and dropped after decoding; a notification waits. *)
Definition lost_wakeup_start : State :=
  initial (MkReader ping_request None) new_writer
    [accept_global_request (λ _ _, decode_ping DropDecoded);
     send_global_notification ping].
Definition lost_wakeup_schedule : list nat :=
  replicate 6 0%nat ++ replicate 3 1%nat ++ replicate 5 0%nat ++ replicate 9 1%nat.


(** An automatic failure can be left unsent. A writer that has drained
    and has not yet created its [Notified] future misses the notification of a
    request that is dropped in between, and goes to sleep: its ticket is not
    being served, the served ticket is in the set of automatic failures, and no
    task is left to drain it. *)
Theorem auto_failure_lost_wakeup :
  let st := run lost_wakeup_schedule lost_wakeup_start in
  stuck st = true ∧ poisoned (shared st) = false ∧
  current_serving (w_access st) ∈ auto_failures (shared st) ∧
  map finished (tasks st) = [true; false].
Proof. vm_compute. split_and!; reflexivity. Qed.

(** The transport takes one byte of the automatic failure and fails. *)
Definition drain_race_start : State :=
  initial (MkReader ping_request None) (MkWriter [] 0 false [WFail 1 BrokenPipe])
    [accept_global_request (λ _ _, decode_ping DropDecoded);
     send_global_notification ping; send_global_notification ping].
Definition drain_race_schedule : list nat :=
  replicate 11 0%nat ++ [1%nat] ++ replicate 8 2%nat ++ replicate 10 1%nat ++ replicate 9 2%nat.

(** The automatic failures escape the rule of torn messages. The drainer
    gives the writer up before it poisons the session, so another task can put
    its notification, and report success, after a failure message that was cut
    short. *)
Theorem drain_failure_race :
  let st := run drain_race_schedule drain_race_start in
  wr_out (resource (w_access st)) = take 1 (output drain_write) ++ ping_notice ∧
  tasks st !! 1%nat = Some (Finished (Returned true)) ∧ poisoned (shared st) = true.
Proof. vm_compute. split_and!; reflexivity. Qed.

(** Two accepts; the first refuses its request and poisons the session. *)
Definition reader_race_start : State :=
  initial (MkReader (ping_request ++ ping_request) None) new_writer
    [accept_global_request (λ _ _, DropUndecoded);
     accept_global_request (λ _ _, DropUndecoded)].
Definition reader_race_before : list nat :=
  replicate 5 0%nat ++ replicate 3 1%nat ++ replicate 6 0%nat.

(** The reader can be used after the session was poisoned. A waiting
    accept that has checked [poisoned] before it was set gets the guard that
    the poisoning task releases, and reads from the stream that was declared
    unrecoverable: here it takes the payload of the refused request for a
    message type. *)
Theorem reader_used_after_poison :
  let st := run reader_race_before reader_race_start in
  let st' := run [1; 1]%nat st in
  poisoned (shared st) = true ∧
  rd_buf (resource (r_access st)) = [x00] ++ ping_request ∧
  rd_buf (resource (r_access st')) = ping_request.
Proof. vm_compute. split_and!; reflexivity. Qed.

(** The peer's own request arrives before its response to ours. *)
Definition crossing_start : State :=
  initial (MkReader (ping_request ++ output (respond_success_write (MkSshBool true))) None)
    new_writer
    [send_global_request (Success := SshBool) ping;
     accept_global_request (λ _ _, decode_ping respond_failure)].

(** Requests that cross break both. When the peer's own request arrives
    while a request waits for its response, the requester takes the request's
    message number for its response, fails, and gives the reader up in the
    middle of that request without poisoning the session; the accept that
    follows starts inside the request and fails too. *)
Theorem crossing_requests_fail :
  let st := run (replicate 30 0%nat) crossing_start in
  let st' := run (replicate 30 1%nat) st in
  tasks st !! 0%nat = Some (Finished (Returned false)) ∧
  poisoned (shared st) = false ∧
  rd_buf (resource (r_access st)) = drop 2 ping_request ++
    output (respond_success_write (MkSshBool true)) ∧
  tasks st' !! 1%nat = Some (Finished (Returned false)) ∧ poisoned (shared st') = true.
Proof. vm_compute. split_and!; reflexivity. Qed.
End races.

(** ** Witnesses *)

#[local] Existing Instance quic_varint.
#[local] Existing Instance quic_varint_laws.

Definition sample_tasks : list Task :=
  [accept_global_request (λ _ _, decode_ping respond_failure);
   send_global_notification ping; send_global_request (Success := SshBool) ping].
(** Task 1 is dropped while it waits, when it has waited. *)
Definition sample_schedule : list (nat * Action) :=
  proceed (concat (replicate 6 [0; 1; 2]%nat)) ++ [(1%nat, Cancel 0)] ++
  proceed (concat (replicate 6 [2; 0]%nat)).

Lemma sample_tasks_start : Forall is_start sample_tasks.
Proof. repeat constructor. Defined.

Lemma guards_exclusive_witness :
  let st := run_events sample_schedule (initial (MkReader ping_request None) new_writer sample_tasks) in
  Forall is_start sample_tasks ∧ Z.of_nat (length sample_schedule) < U64_MOD ∧
  ∀ i j t u x y, tasks st !! i = Some t → tasks st !! j = Some u →
    w_holds t = Some x → w_holds u = Some y → i = j ∧ x = current_serving (w_access st).
Proof.
  assert (Z.of_nat (length sample_schedule) < U64_MOD) as Hl by (vm_compute; reflexivity).
  pose proof (guards_exclusive (MkReader ping_request None) new_writer sample_tasks
                sample_schedule sample_tasks_start Hl) as Hg.
  intros st. destruct Hg as [Hg _]. split; [exact sample_tasks_start|]. split; [exact Hl|exact Hg].
Defined.

Lemma global_order_witness :
  StronglySorted Z.lt (write_log (shared (run_events (sample_schedule ++ sample_schedule)
    (initial (MkReader ping_request None) new_writer sample_tasks)))).
Proof.
  assert (Z.of_nat (length (sample_schedule ++ sample_schedule)) < U64_MOD) as Hl
    by (vm_compute; reflexivity).
  pose proof (global_order (MkReader ping_request None) new_writer sample_tasks
                (sample_schedule ++ sample_schedule) sample_tasks_start Hl) as Hg.
  destruct Hg as [Hg _]. exact Hg.
Defined.

(** The first notification fails after three bytes. *)
Definition torn_start : list Task := [send_global_notification ping; send_global_notification ping].
Definition torn_writer : Writer := MkWriter [] 0 false [WDone; WFail 1 BrokenPipe].

Definition torn_before : list (nat * Action) := proceed (replicate 8 0%nat).
Definition torn_after : list (nat * Action) :=
  (1%nat, Cancel 0) :: proceed (replicate 20 1%nat ++ replicate 20 0%nat).

Lemma torn_silence_witness :
  torn (shared (run_events torn_before (initial (MkReader [] None) torn_writer torn_start)))
  = Some [x40; x50; x04] ∧
  wr_out (resource (w_access (run_events (torn_before ++ torn_after)
                                (initial (MkReader [] None) torn_writer torn_start))))
  = [x40; x50; x04].
Proof.
  assert (torn (shared (run_events torn_before (initial (MkReader [] None) torn_writer torn_start)))
          = Some [x40; x50; x04]) as Ht by (vm_compute; reflexivity).
  assert (Z.of_nat (length (torn_before ++ torn_after)) < U64_MOD) as Hl by (vm_compute; reflexivity).
  split; [exact Ht|].
  exact (torn_silence (MkReader [] None) torn_writer torn_start torn_before torn_after _
           ltac:(repeat constructor) Hl Ht).
Defined.

(** A notification waits for the request accepted before it. *)
Definition parked_writer (t : Task) : option (Z * Z) :=
  match t with WaitWriter t (AwaitTurn seen) _ _ => Some (t, seen) | _ => None end.

Lemma forallb_lookup {A} (f : A → bool) (l : list A) i x :
  forallb f l = true → l !! i = Some x → f x = true.
Proof. rewrite forallb_forall. intros Hf Hi. by apply Hf, list_elem_of_In, (list_elem_of_lookup_2 _ i). Qed.

Definition parked_events : list (nat * Action) :=
  proceed (replicate 6 0%nat ++ replicate 12 1%nat).

Lemma no_lost_wakeup_witness :
  let st := run_events parked_events
              (initial (MkReader ping_request None) new_writer sample_tasks) in
  poisoned (shared st) = false ∧ current_serving (w_access st) ≠ 1.
Proof.
  intros st.
  assert (forallb (λ t, negb (notifies_reader t) && negb (notifies_writer t)) (tasks st) = true)
    as Hb by (vm_compute; reflexivity).
  assert (∀ i t, tasks st !! i = Some t → notifies_reader t = false ∧ notifies_writer t = false)
    as Hquiet.
  { intros i t Ht. apply (forallb_lookup _ _ _ _ Hb) in Ht.
    apply andb_prop in Ht as [Hr Hw]. split; apply negb_true_iff; [exact Hr|exact Hw]. }
  destruct (no_lost_wakeup (MkReader ping_request None) new_writer sample_tasks
              parked_events sample_tasks_start Hquiet) as [_ Hw].
  assert ((tasks st !! 1%nat) ≫= parked_writer = Some (1, 0)) as Hp by (vm_compute; reflexivity).
  destruct (tasks st !! 1%nat) as [t|] eqn:Hi; [|discriminate Hp].
  destruct t as [| | | | | |k a message next| | | | | | | | | | | | | |]; try discriminate Hp.
  destruct a as [| | | | | | | | | | |seen|]; try discriminate Hp. injection Hp as -> ->.
  assert (0 = notify_calls (w_access st)) as Hn by (vm_compute; reflexivity).
  exact (Hw 1%nat 1 0 message next Hi Hn).
Defined.

Lemma global_request_roundtrip_witness :
  ∃ w' w_ok w_fail request success failure,
    send_request_write (Success := SshBool) (SE := CodecError) ping new_writer = (w', Ok ()) ∧
    wr_out w' = [] ++ request ∧
    respond_success_write (MkSshBool true) new_writer = (w_ok, Ok ()) ∧
    wr_out w_ok = [] ++ success ∧
    respond_failure_write new_writer = (w_fail, Ok ()) ∧ wr_out w_fail = [] ++ failure ∧
    (∀ rest fin, ∃ payload,
       accept_header_read (MkReader (request ++ rest) fin)
       = (MkReader (payload ++ rest) fin, Ok (from_static "ping", true)) ∧
       decode_from SshBytes (MkReader (payload ++ rest) fin)
       = (MkReader rest fin, Ok (MkSshBytes []))) ∧
    (∀ rest fin,
       send_request_read (Success := SshBool) (PE := CodecError) (MkReader (success ++ rest) fin)
       = (MkReader rest fin, Ok (MkSshBool true))) ∧
    (∀ rest fin,
       send_request_read (Success := SshBool) (PE := CodecError) (MkReader (failure ++ rest) fin)
       = (MkReader rest fin, Err send_request_error.Rejected)).
Proof.
  refine (global_request_roundtrip (P := SshBytes) (Su := SshBool) ping (MkSshBool true)
            new_writer new_writer _ _ _ _ _);
    [apply from_static_ok; reflexivity|vm_compute; congruence|exact I|reflexivity..].
Defined.
