(* ===== verification/GlobalLive.v ===== *)
(** * Liveness of the global requests

    When every accepted request is answered and no future is dropped, the tasks
    over the control streams cannot deadlock and cannot run for ever: every
    ticket is owned until it has been served, and a measure decreases with each
    step. Input is what has arrived: a stream that stays silent is not a step. *)
From Stdlib Require Import ZArith Lia Strings.Byte Sorting.Sorted.
From stdpp Require Import base list strings gmap fin_maps relations sorting.
From S2P Require Import Prelude Wire Codec Message ChannelErrors Channel Global GlobalProofs.
From S2P Require Import GlobalPairs GlobalWake GlobalProps.
Local Open Scope Z_scope.
Local Open Scope io_scope.

(** ** Tasks that answer

    No handler drops a decoded request, so that nothing is ever drained. *)
Definition answers (handler : Handler) : Prop :=
  ∀ name payload r r', handler name true = DecodePayload payload → payload r ≠ (r', Some DropDecoded).
Definition answering (t : Task) : Prop :=
  match t with
  | AcceptTake handler | WaitReader _ _ (ForAccept handler) | Read _ (ForAccept handler)
  | AcceptTakeWriter _ _ handler => answers handler
  | Decode _ (Some _) decision =>
    ∀ payload r r', decision = DecodePayload payload → payload r ≠ (r', Some DropDecoded)
  | WaitWriter _ (DrainAcquire _ _ | DrainWrite _ | DrainDrop _ _ | DrainNotify _ | DrainPoison _) _ _
  | ReadDrop _ (AutoFailure _) | ReadNotify (AutoFailure _)
  | InsertAutoFailure _ | NotifyAutoFailure => False
  | WriteDrop _ ok next | WriteNotify ok next => ok = true ∨ next = WriteDone
  | _ => True
  end.

(** ** Every ticket has an owner *)

(** The session is poisoned, or a task is about to poison it. *)
Definition poisoning (t : Task) : Prop := poison_of t = Some PoisonStore.
Definition doomed (st : State) : Prop :=
  poisoned (shared st) = true ∨ ∃ i t, tasks st !! i = Some t ∧ poisoning t.
Definition owned (tickets : Task → gset Z) (ts : list Task) (x : Z) : Prop :=
  ∃ i t, ts !! i = Some t ∧ x ∈ tickets t.

Record LiveInv (st : State) : Prop := {
  lv_answering i t : tasks st !! i = Some t → answering t;
  lv_auto : auto_failures (shared st) = ∅;
  lv_lock i : ticket_pair_lock (shared st) = Some i →
    ∃ t, tasks st !! i = Some t ∧ in_lock t = true;
  lv_w x : current_serving (w_access st) ≤ x < next_ticket (w_access st) →
    owned w_tickets (tasks st) x ∨ doomed st;
  lv_r x : current_serving (r_access st) ≤ x < next_ticket (r_access st) →
    owned r_tickets (tasks st) x ∨ doomed st;
}.

Section steps.
Context `{VarIntCodec}.

Lemma answering_step i t t' s s' :
  step_task i t s = Some (t', s') → answering t → auto_failures s = ∅ →
  answering t' ∧ auto_failures s' = ∅.
Proof.
  intros Hs Ht Ha. step_cases Hs; try done; try (rewrite Ha in *; set_solver);
    try (split; [|done]); unfold answers in *; try naive_solver.
  all: try by destruct ok, next.
  all: try by destruct next.
  all: match goal with |- context [reply_next ?wt ?reply] => destruct wt, reply end; naive_solver.
Qed.

(** What a step does to the tickets of its task: what is no longer owned has
    been served, or the session is doomed. *)
Definition keeps (tickets : Task → gset Z) (next next' serving serving' : Z) (doom : Prop)
    (t t' : Task) : Prop :=
  (∀ x, x ∈ tickets t → x ∈ tickets t' ∨ (x = serving ∧ serving' = wrap_u64 (serving + 1)) ∨ doom) ∧
  (next' = next ∨ next' = wrap_u64 (next + 1) ∧ next ∈ tickets t').

Ltac ticket_sets :=
  repeat match goal with
    | Hx : _ ∈ _ ∪ _ |- _ => apply elem_of_union in Hx as [Hx|Hx]
    | Hx : _ ∈ {[_]} |- _ => apply elem_of_singleton in Hx as ->
    | Hx : _ ∈ ∅ |- _ => by apply not_elem_of_empty in Hx
    end.
Ltac kept_ticket Hh :=
  let x := fresh "x" in let Hx := fresh "Hx" in
  intros x Hx; simpl in Hx; ticket_sets;
  first [ done
        | right; right; first [by left|by right]
        | left; simpl; rewrite ?elem_of_union, ?elem_of_singleton; tauto
        | right; left; split; [by apply Hh|reflexivity] ].

Lemma keeps_w i t t' s s' :
  step_task i t s = Some (t', s') → answering t → auto_failures s = ∅ →
  (∀ x, w_holds t = Some x → x = current_serving (s_writer s)) →
  keeps w_tickets (next_ticket (s_writer s)) (next_ticket (s_writer s'))
    (current_serving (s_writer s)) (current_serving (s_writer s'))
    (poisoned s' = true ∨ poisoning t') t t'.
Proof.
  intros Hs Ht Ha Hh. step_cases Hs; try done;
    try (rewrite Ha in *; set_solver); (split; [|first [by left|right; split; [done|simpl; set_solver]]]).
  all: kept_ticket Hh.
Qed.

Lemma keeps_r i t t' s s' :
  step_task i t s = Some (t', s') → answering t → auto_failures s = ∅ →
  (∀ x, r_holds t = Some x → x = current_serving (s_reader s)) →
  keeps r_tickets (next_ticket (s_reader s)) (next_ticket (s_reader s'))
    (current_serving (s_reader s)) (current_serving (s_reader s'))
    (poisoned s' = true ∨ poisoning t') t t'.
Proof.
  intros Hs Ht Ha Hh. step_cases Hs; try done;
    try (rewrite Ha in *; set_solver); (split; [|first [by left|right; split; [done|simpl; set_solver]]]).
  all: try kept_ticket Hh.
  destruct Ht as [->| ->]; [|set_solver]. destruct next; set_solver.
Qed.

Lemma doom_step i t t' s s' :
  step_task i t s = Some (t', s') → poisoned s = true ∨ poisoning t →
  poisoned s' = true ∨ poisoning t'.
Proof.
  intros Hs [Hp|Ht]; [left|].
  - step_cases Hs; done.
  - unfold poisoning in Ht. destruct t as [| | | | | |? [] ? ?|??? |??| | | | | | | ??| | | | |]; try done;
      simpl in Ht; simplify_eq; step_cases Hs; by left.
Qed.

Lemma lock_step i t t' s s' :
  step_task i t s = Some (t', s') →
  ticket_pair_lock s' = None ∨ in_lock t' = true ∧ ticket_pair_lock s' = Some i ∨
  ticket_pair_lock s' = ticket_pair_lock s ∧ (in_lock t = true → in_lock t' = true).
Proof. intros Hs. step_cases Hs; first [by left|by right; left|by right; right]. Qed.

Lemma serving_step i t t' s s' :
  step_task i t s = Some (t', s') →
  (current_serving (s_writer s') = current_serving (s_writer s) ∨
   current_serving (s_writer s') = wrap_u64 (current_serving (s_writer s) + 1)) ∧
  (current_serving (s_reader s') = current_serving (s_reader s) ∨
   current_serving (s_reader s') = wrap_u64 (current_serving (s_reader s) + 1)).
Proof. intros Hs. step_cases Hs; auto. Qed.

Lemma owned_step tickets ts i t t' next next' serving serving' (doom0 doom : Prop) :
  ts !! i = Some t → keeps tickets next next' serving serving' doom t t' →
  0 ≤ serving ≤ next → next + 1 < U64_MOD →
  serving' = serving ∨ serving' = wrap_u64 (serving + 1) → (doom0 → doom) →
  (∀ x, serving ≤ x < next → owned tickets ts x ∨ doom0) →
  ∀ x, serving' ≤ x < next' → owned tickets (<[i := t']> ts) x ∨ doom.
Proof.
  intros Hi [Hk Hn] Hb Hm Hserv Hd Hown x Hx. rewrite !wrap_u64_small in * by lia.
  assert (Hi' : <[i := t']> ts !! i = Some t') by (by eapply list_lookup_insert_eq, lookup_lt_Some).
  destruct (decide (x < next)) as [Hlt|Hge].
  - destruct (Hown x ltac:(lia)) as [(j & u & Hu & Hux)|?]; [|by right; apply Hd].
    destruct (decide (j = i)) as [->|Hj].
    + simplify_eq. destruct (Hk x Hux) as [?|[?|?]]; [by left; exists i, t'|lia|by right].
    + left. exists j, u. by rewrite list_lookup_insert_ne.
  - destruct Hn as [->|[-> Hnt]]; [lia|]. replace x with next by lia.
    left. by exists i, t'.
Qed.

Lemma live_step k i st : Inv k st → k + 1 < U64_MOD → LiveInv st → LiveInv (step i st).
Proof.
  intros Hinv Hk Hlive. unfold step, event. destruct (tasks st !! i) as [t|] eqn:Hi; [|done].
  cbn [act_task]. destruct (step_task i t (shared st)) as [[t' s']|] eqn:Hs; [|done].
  pose proof Hlive as [Hans Hauto Hlock Hw Hr]. unfold w_access, r_access in *.
  assert (Hi' : <[i := t']> (tasks st) !! i = Some t')
    by (by eapply list_lookup_insert_eq, lookup_lt_Some).
  destruct (answering_step _ _ _ _ _ Hs (Hans i t Hi) Hauto) as [Ht' Ha'].
  destruct (serving_step _ _ _ _ _ Hs) as [Hsw Hsr].
  set (doom := poisoned s' = true ∨ poisoning t').
  assert (Hdoom : doom → doomed (MkState s' (<[i := t']> (tasks st)))).
  { intros [?|?]; [by left|right; by exists i, t']. }
  assert (Hstill : doomed st → doomed (MkState s' (<[i := t']> (tasks st)))).
  { intros [?|(j & u & Hu & Hpu)]; [by apply Hdoom, (doom_step _ _ _ _ _ Hs); left|].
    destruct (decide (j = i)) as [->|Hj].
    - simplify_eq. by apply Hdoom, (doom_step _ _ _ _ _ Hs); right.
    - right. exists j, u. cbn [tasks]. by rewrite list_lookup_insert_ne. }
  pose proof (inv_next _ _ Hinv) as [Hnw Hnr]. unfold w_access, r_access in *.
  split; unfold w_access, r_access; cbn [tasks shared]; [| |..].
  - intros j u [[_ [<- _]]|[Hj Hu]]%list_lookup_insert_Some; [done|by eapply Hans].
  - done.
  - intros j Hj. destruct (lock_step _ _ _ _ _ Hs) as [Hn|[[? Hn]|[Hn Hin]]];
      rewrite Hn in Hj; [done|by simplify_eq; eexists|].
    destruct (Hlock j Hj) as (u & Hu & Hlu). destruct (decide (j = i)) as [->|Hne].
    + simplify_eq. exists t'. auto.
    + exists u. by rewrite list_lookup_insert_ne.
  - eapply owned_step; [exact Hi| |apply (ti_bounds _ _ _ _ _ _ (inv_w _ _ Hinv))| |exact Hsw|
      exact Hstill|exact Hw]; [|unfold w_access; lia].
    destruct (keeps_w _ _ _ _ _ Hs (Hans i t Hi) Hauto) as [Hk1 Hk2].
    { intros x Hx. by apply (ti_holds _ _ _ _ _ _ (inv_w _ _ Hinv) i t). }
    split; [|done]. intros x Hx. specialize (Hk1 x Hx). unfold doom in Hdoom. tauto.
  - eapply owned_step; [exact Hi| |apply (ti_bounds _ _ _ _ _ _ (inv_r _ _ Hinv))| |exact Hsr|
      exact Hstill|exact Hr]; [|unfold r_access; lia].
    destruct (keeps_r _ _ _ _ _ Hs (Hans i t Hi) Hauto) as [Hk1 Hk2].
    { intros x Hx. by apply (ti_holds _ _ _ _ _ _ (inv_r _ _ Hinv) i t). }
    split; [|done]. intros x Hx. specialize (Hk1 x Hx). unfold doom in Hdoom. tauto.
Qed.

Definition quiescent (st : State) : Prop :=
  ∀ i t, tasks st !! i = Some t → step_task i t (shared st) = None.

(** A task that cannot step has finished, waits for the lock, or waits for a
    notification that has not come since it registered. *)
Lemma blocked_cases i t s :
  step_task i t s = None →
  (∃ o, t = Finished o) ∨
  (∃ m r j, t = ReqLock m r ∧ ticket_pair_lock s = Some j) ∨
  (∃ x m next, (t = WaitWriter x (AwaitTurn (notify_calls (s_writer s))) m next ∨
      t = WaitWriter x (AcquireOwn (AcqAwait (notify_calls (s_writer s)))) m next)) ∨
  (∃ x what, t = WaitReader x (AcqAwait (notify_calls (s_reader s))) what) ∨
  ∃ x c m next, t = WaitWriter x (DrainAcquire c (AcqAwait (notify_calls (s_writer s)))) m next.
Proof.
  intros Hs. step_cases Hs; rewrite ->?Z.eqb_eq in *; subst; eauto 10.
Qed.

Lemma quiescent_doomed st : quiescent st → doomed st → poisoned (shared st) = true.
Proof.
  intros Hst [?|(i & t & Hi & Ht)]; [done|]. specialize (Hst i t Hi). exfalso.
  unfold poisoning in Ht. destruct t as [| | | | | |? [] ? ?|??? |??| | | | | | | ??| | | | |]; try done;
    simpl in Ht; simplify_eq; done.
Qed.

Lemma quiescent_quiet st : quiescent st →
  ¬ pending notifies_reader (tasks st) ∧ ¬ pending notifies_writer (tasks st).
Proof.
  intros Hst. split; intros (i & t & Hi & Ht); specialize (Hst i t Hi); 
    destruct (blocked_cases _ _ _ Hst) as [(?&->)|[(?&?&?&->&_)|[(?&?&?&[->| ->])|[(?&?&->)|(?&?&?&?&->)]]]]; done.
Qed.

(** Nobody waits when whoever is being served would have to wait too. *)
Lemma nobody_waits tickets holds waits notifies next serving calls poisoned auto ts :
  TicketInv tickets holds next serving auto ts →
  WakeInv waits notifies calls serving poisoned ts → ¬ pending notifies ts →
  (∀ x, serving ≤ x < next → owned tickets ts x ∨ poisoned = true) →
  (∀ t x, waits t = Some (x, calls, true, true) → x ∈ tickets t) →
  (∀ i t, ts !! i = Some t → serving ∈ tickets t → waits t = Some (serving, calls, true, true)) →
  ∀ i t x, ts !! i = Some t → waits t ≠ Some (x, calls, true, true).
Proof.
  intros Hinv Hwake Hq Hown Hticket Hblocked i t x Hi Hx.
  destruct (Hwake i t _ Hi Hx) as (_ & Hsound & _).
  destruct (Hsound eq_refl eq_refl) as [Hp|?]; [|done].
  destruct (ti_own _ _ _ _ _ _ Hinv i t x Hi (Hticket _ _ Hx)) as [Hrange _].
  destruct (Hown serving ltac:(lia)) as [(j & u & Hu & Hserv)|?]; [|congruence].
  destruct (Hwake j u _ Hu (Hblocked j u Hu Hserv)) as (_ & _ & Hother).
  by destruct (Hother eq_refl eq_refl).
Qed.

Lemma quiescent_finished k st :
  Inv k st → ReaderWake st → WriterWake st → LiveInv st → quiescent st →
  Forall (λ t, ∃ o, t = Finished o) (tasks st).
Proof.
  intros Hinv Hrw Hww [Hans Hauto Hlock Hw Hr] Hst.
  destruct (quiescent_quiet st Hst) as [Hqr Hqw]. pose proof (quiescent_doomed st Hst) as Hdoom.
  unfold w_access, r_access in *.
  pose proof (inv_w _ _ Hinv) as Htw. pose proof (inv_r _ _ Hinv) as Htr.
  assert (Hnw : ∀ i t x, tasks st !! i = Some t →
    writer_wait t ≠ Some (x, notify_calls (s_writer (shared st)), true, true)).
  { eapply nobody_waits; [exact Htw|exact Hww|done|..].
    - intros x Hx. destruct (Hw x Hx); auto.
    - intros t x Hx. destruct t; simplify_eq/=; repeat case_match; simplify_eq; set_solver.
    - intros i t Hi Hx. destruct (blocked_cases _ _ _ (Hst i t Hi))
        as [(?&->)|[(?&?&?&->&_)|[(?&?&?&[->| ->])|[(?&?&->)|(?&?&?&?&->)]]]];
        simpl in Hx; ticket_sets; try done; by apply Hans in Hi. }
  assert (Hnr : ∀ i t x, tasks st !! i = Some t →
    reader_wait t ≠ Some (x, notify_calls (s_reader (shared st)), true, true)).
  { eapply nobody_waits; [exact Htr|exact Hrw|done|..].
    - intros x Hx. destruct (Hr x Hx); auto.
    - intros t x Hx. destruct t; simplify_eq/=; repeat case_match; simplify_eq; set_solver.
    - intros i t Hi Hx. destruct (blocked_cases _ _ _ (Hst i t Hi))
        as [(?&->)|[(?&?&?&->&_)|[(?&?&?&[->| ->])|[(?&?&->)|(?&?&?&?&->)]]]];
        [by ticket_sets|by ticket_sets| | | |by apply Hans in Hi].
      + by destruct (Hnw _ _ _ Hi eq_refl).
      + by destruct (Hnw _ _ _ Hi eq_refl).
      + simpl in Hx. by ticket_sets. }
  apply Forall_lookup_2. intros i t Hi.
  destruct (blocked_cases _ _ _ (Hst i t Hi))
    as [?|[(?&?&j&->&Hl)|[(?&?&?&[->| ->])|[(?&?&->)|(?&?&?&?&->)]]]]; [done|..]; exfalso.
  - destruct (Hlock j Hl) as (u & Hu & Hlu). specialize (Hst j u Hu). by destruct u.
  - by eapply Hnw.
  - by eapply Hnw.
  - by eapply Hnr.
  - by apply Hans in Hi.
Qed.
End steps.

(** ** The measure

    [rank]: what the task still has to do, apart from waiting. *)
Definition after_write_rank (next : AfterWrite) : nat :=
  match next with WriteDone => 0 | ReadResponse _ _ => 16 end.
Definition poison_rank (p : Poison) : nat :=
  match p with PoisonStore => 3 | PoisonNotifyReader => 2 | PoisonNotifyWriter => 1 end.
Definition rank (t : Task) : nat :=
  match t with
  | ReqLock _ _ => 27
  | ReqTakeWriter _ _ => 26
  | ReqTakeReader _ _ _ => 25
  | ReqUnlock _ _ _ _ => 24
  | NotifyTake _ => 8
  | AcceptTake _ => 17
  | WaitWriter _ _ _ next => 7 + after_write_rank next
  | Write _ _ next => 6 + after_write_rank next
  | WritePoison _ p => 2 + poison_rank p
  | WriteDrop _ _ next => 2 + after_write_rank next
  | WriteNotify _ next => 1 + after_write_rank next
  | WaitReader _ _ _ => 16
  | Read _ _ => 15
  | AcceptTakeWriter _ _ _ => 14
  | Decode _ _ _ => 13
  | ReadPoison _ p => 9 + poison_rank p
  | ReadDrop _ _ => 9
  | ReadNotify _ => 8
  | InsertAutoFailure _ => 2
  | NotifyAutoFailure => 1
  | Finished _ => 0
  end.

(** The steps a waiting task makes until it has its turn or sleeps; a
    notification since it registered costs it another round. *)
Definition acquire_cost (calls : Z) (a : Acquire) : nat :=
  match a with
  | AcqStart => 12
  | AcqPoison seen => if calls =? seen then 11 else 15
  | AcqServing seen => if calls =? seen then 10 else 14
  | AcqAwait seen => if calls =? seen then 0 else 13
  end.
Definition wait_cost (calls : Z) (a : AcquireWriter) : nat :=
  match a with
  | DrainLoad => 19
  | DrainRemove _ => 18
  | CheckServing => 17
  | Register => 16
  | CheckPoisoned seen => if calls =? seen then 15 else 22
  | CheckServing2 seen => if calls =? seen then 14 else 21
  | AwaitTurn seen => if calls =? seen then 0 else 20
  | AcquireOwn a => acquire_cost calls a
  | _ => 0
  end.
Definition cost (s : Shared) (t : Task) : nat :=
  match t with
  | WaitWriter _ a _ _ => wait_cost (notify_calls (s_writer s)) a
  | WaitReader _ a _ => acquire_cost (notify_calls (s_reader s)) a
  | _ => 0
  end.
Definition work_left (st : State) : nat :=
  (22 * length (tasks st) + 1) * sum_list_with rank (tasks st) +
  sum_list_with (cost (shared st)) (tasks st).

Lemma cost_bound s t : (cost s t ≤ 22)%nat.
Proof.
  destruct t; simpl; try lia; unfold wait_cost, acquire_cost; repeat case_match; lia.
Qed.

Lemma sum_list_with_insert {A} (f : A → nat) (l : list A) i x y :
  l !! i = Some x → (sum_list_with f (<[i := y]> l) + f x = sum_list_with f l + f y)%nat.
Proof.
  revert i. induction l as [|z l IH]; intros [|i] Hi; simplify_eq/=; [lia|].
  specialize (IH i Hi). lia.
Qed.
Lemma sum_list_with_bound {A} (f : A → nat) (l : list A) b :
  (∀ x, f x ≤ b)%nat → (sum_list_with f l ≤ b * length l)%nat.
Proof. intros Hf. induction l as [|x l IH]; simpl; [lia|]. specialize (Hf x). lia. Qed.

Section measure.
Context `{VarIntCodec}.

(** A step brings its task forward, or turns it in its waiting loop. *)
Lemma step_rank i t t' s s' :
  step_task i t s = Some (t', s') → answering t → auto_failures s = ∅ →
  (rank t' < rank t)%nat ∨
  (rank t' = rank t ∧ s' = s ∧ (cost s t' < cost s t)%nat).
Proof.
  intros Hs Ht Ha. step_cases Hs; try done; rewrite ?Z.eqb_refl; auto with lia.
  - match goal with Hx : _ ∈ auto_failures _ |- _ => clear -Ha Hx; set_solver end.
  - left. destruct ok, next; simpl; lia.
Qed.

Lemma step_moves i t st :
  (∀ j u, tasks st !! j = Some u → answering u) → auto_failures (shared st) = ∅ →
  tasks st !! i = Some t → step_task i t (shared st) ≠ None →
  (work_left (step i st) < work_left st)%nat.
Proof.
  intros Hans Hauto Hi Hne. unfold step, event. rewrite Hi. cbn [act_task].
  destruct (step_task i t (shared st)) as [[t' s']|] eqn:Hs; [|done].
  unfold work_left. cbn [tasks shared]. rewrite length_insert.
  pose proof (sum_list_with_insert rank _ _ _ t' Hi) as Hrank.
  destruct (step_rank _ _ _ _ _ Hs (Hans i t Hi) Hauto) as [Hlt|(Heq & -> & Hlt)].
  - pose proof (sum_list_with_bound (cost s') (<[i:=t']> (tasks st)) 22 (cost_bound s')) as Hc.
    rewrite length_insert in Hc. nia.
  - pose proof (sum_list_with_insert (cost (shared st)) _ _ _ t' Hi) as Hc. nia.
Qed.

Lemma step_stays i st :
  (∀ t, tasks st !! i = Some t → step_task i t (shared st) = None) → step i st = st.
Proof.
  intros Hn. unfold step, event. destruct (tasks st !! i) as [t|] eqn:Hi; [|done].
  cbn [act_task]. by rewrite (Hn t eq_refl).
Qed.

(** Everything a run from the start keeps. *)
Record Good (k : Z) (st : State) : Prop := {
  gd_inv : Inv k st;
  gd_reader : ReaderWake st;
  gd_writer : WriterWake st;
  gd_live : LiveInv st;
}.

Lemma good_step k i st : Good k st → k + 1 < U64_MOD → Good (k + 1) (step i st).
Proof.
  intros [] Hk. split; [by apply inv_event|by apply reader_wake_event|by apply writer_wake_event|].
  by eapply live_step.
Qed.

Lemma good_run schedule k st :
  Good k st → 0 ≤ k → k + Z.of_nat (length schedule) < U64_MOD →
  Good (k + Z.of_nat (length schedule)) (run schedule st).
Proof.
  revert k st. induction schedule as [|i schedule IH]; intros k st Hst Hk Hlen; simpl in *.
  { by rewrite Z.add_0_r. }
  replace (k + Z.of_nat (S (length schedule))) with (k + 1 + Z.of_nat (length schedule)) by lia.
  apply IH; [|lia..]. apply good_step; [done|lia].
Qed.

Lemma good_initial r w ts :
  Forall is_start ts → Forall answering ts → Good 0 (initial r w ts).
Proof.
  intros Hts Hans. destruct (wake_initial r w ts Hts).
  split; [by apply inv_initial|done..|]. split; simpl; try done.
  - intros i t Hi. by eapply (Forall_lookup_1 answering).
  - intros x Hx. unfold w_access in Hx. simpl in Hx. lia.
  - intros x Hx. unfold r_access in Hx. simpl in Hx. lia.
Qed.

Lemma step_work k i st : Good k st → step i st = st ∨ (work_left (step i st) < work_left st)%nat.
Proof.
  intros [_ _ _ Hlive]. destruct (tasks st !! i) as [t|] eqn:Hi.
  - destruct (step_task i t (shared st)) as [p|] eqn:Hs.
    + right. eapply step_moves; [apply Hlive..|exact Hi|]. by rewrite Hs.
    + left. apply step_stays. intros u Hu. by simplify_eq.
  - left. apply step_stays. by rewrite Hi.
Qed.

Lemma run_work schedule k st :
  Good k st → 0 ≤ k → k + Z.of_nat (length schedule) < U64_MOD →
  (work_left (run schedule st) ≤ work_left st)%nat.
Proof.
  revert k st. induction schedule as [|i schedule IH]; intros k st Hst Hk Hlen; [done|].
  change (run (i :: schedule) st) with (run schedule (step i st)). cbn [length] in Hlen.
  assert (work_left (step i st) ≤ work_left st)%nat
    by (destruct (step_work k i st Hst) as [->|?]; lia).
  pose proof (IH (k + 1) (step i st) ltac:(apply good_step; [done|lia]) ltac:(lia) ltac:(lia)). lia.
Qed.

Definition enabled (st : State) (i : nat) : Prop :=
  is_Some (t ← tasks st !! i; step_task i t (shared st)).

(** A round in which every task has a turn makes progress. *)
Lemma round_moves round k st i :
  Good k st → 0 ≤ k → k + Z.of_nat (length round) < U64_MOD →
  i ∈ round → enabled st i → (work_left (run round st) < work_left st)%nat.
Proof.
  revert k st. induction round as [|j round IH]; intros k st Hst Hk Hlen Hi Hen; [set_solver|].
  change (run (j :: round) st) with (run round (step j st)). cbn [length] in Hlen.
  destruct (step_work k j st Hst) as [Hstay|Hlt].
  - rewrite Hstay. destruct (decide (i = j)) as [->|Hne].
    + exfalso. destruct Hst as [_ _ _ Hlive]. destruct Hen as [p Hp].
      destruct (tasks st !! j) as [t|] eqn:Hj; [|done]. simpl in Hp.
      pose proof (step_moves j t st ltac:(apply Hlive) ltac:(apply Hlive) Hj ltac:(by rewrite Hp)).
      rewrite Hstay in *. lia.
    + apply (IH k); [done|done|lia|set_solver|done].
  - pose proof (run_work round (k + 1) (step j st) ltac:(apply good_step; [done|lia]) ltac:(lia)
      ltac:(lia)). lia.
Qed.

Lemma quiescent_or_enabled st : quiescent st ∨ ∃ i, (i < length (tasks st))%nat ∧ enabled st i.
Proof.
  destruct (decide (Exists (enabled st) (seq 0 (length (tasks st))))) as [Hex|Hno].
  - right. apply Exists_exists in Hex as (i & Hi%elem_of_seq & Hen). exists i. split; [lia|done].
  - left. intros i t Hi. destruct (step_task i t (shared st)) as [p|] eqn:Hs; [|done]. exfalso.
    apply Hno, Exists_exists. exists i. pose proof (lookup_lt_Some _ _ _ Hi).
    split; [apply elem_of_seq; lia|]. exists p. by rewrite Hi.
Qed.

Lemma run_quiescent schedule st : quiescent st → run schedule st = st.
Proof.
  induction schedule as [|i schedule IH]; intros Hst; [done|].
  change (run (i :: schedule) st) with (run schedule (step i st)).
  rewrite step_stays; [by apply IH|]. apply Hst.
Qed.

Lemma run_length schedule st : length (tasks (run schedule st)) = length (tasks st).
Proof.
  revert st. induction schedule as [|i schedule IH]; intros st; [done|].
  change (run (i :: schedule) st) with (run schedule (step i st)). rewrite IH.
  unfold step, event. repeat case_match; simpl; by rewrite ?length_insert.
Qed.

Lemma rounds_finish rounds k st :
  Good k st → 0 ≤ k → k + Z.of_nat (length (concat rounds)) < U64_MOD →
  Forall (λ round, ∀ i, (i < length (tasks st))%nat → i ∈ round) rounds →
  (work_left st ≤ length rounds)%nat →
  Forall (λ t, ∃ o, t = Finished o) (tasks (run (concat rounds) st)).
Proof.
  revert k st. induction rounds as [|round rounds IH]; intros k st Hst Hk Hlen Hfair Hwork;
    (destruct (quiescent_or_enabled st) as [Hstuck|(i & Hi & Hen)];
     [rewrite run_quiescent by done; destruct Hst; by eapply quiescent_finished|]).
  - exfalso. destruct Hst as [_ _ _ Hlive]. destruct Hen as [p Hp].
    destruct (tasks st !! i) as [t|] eqn:Hti; [|done]. simpl in Hp, Hwork.
    pose proof (step_moves i t st ltac:(apply Hlive) ltac:(apply Hlive) Hti ltac:(by rewrite Hp)).
    lia.
  - apply Forall_cons in Hfair as [Hround Hfair]. simpl in *. rewrite length_app in Hlen.
    unfold run, proceed. rewrite map_app, run_events_app. fold (proceed round) (proceed (concat rounds)).
    change (run_events (proceed (concat rounds)) (run_events (proceed round) st))
      with (run (concat rounds) (run round st)).
    apply (IH (k + Z.of_nat (length round))); [apply good_run; [done|lia..]|lia|lia| |].
    + by rewrite run_length.
    + pose proof (round_moves round k st i Hst Hk ltac:(lia) (Hround i Hi) Hen). lia.
Qed.

(** Rounds enough for the tasks a session starts with. *)
Definition rounds_needed (ts : list Task) : nat :=
  (22 * length ts + 1) * sum_list_with rank ts.

Lemma initial_work r w ts :
  Forall is_start ts → work_left (initial r w ts) = rounds_needed ts.
Proof.
  intros Hts. unfold work_left, rounds_needed, initial. cbn [tasks shared].
  assert (sum_list_with (cost (from_control_streams r w)) ts = 0%nat) as ->; [|apply Nat.add_0_r].
  induction Hts as [|t ts Ht _ IH]; simpl; [done|]. rewrite IH. by destruct t.
Qed.

(** Rounds in which every task has a turn, enough of them, and no more than
    there are tickets. *)
Definition fair_rounds (ts : list Task) (rounds : list (list nat)) : Prop :=
  Z.of_nat (length (concat rounds)) < U64_MOD ∧
  Forall (λ round, ∀ i, (i < length ts)%nat → i ∈ round) rounds ∧
  (rounds_needed ts ≤ length rounds)%nat.

Definition round_robin (ts : list Task) : list (list nat) :=
  replicate (rounds_needed ts) (seq 0 (length ts)).

Lemma round_robin_fair ts :
  Z.of_nat (rounds_needed ts * length ts) < U64_MOD → fair_rounds ts (round_robin ts).
Proof.
  intros Hlen. unfold round_robin. split_and!.
  - assert (∀ n, length (concat (replicate n (seq 0 (length ts)))) = (n * length ts)%nat) as ->; [|done].
    induction n as [|n IH]; simpl; [done|]. by rewrite length_app, length_seq, IH.
  - apply Forall_replicate. intros i Hi. apply elem_of_seq. lia.
  - by rewrite length_replicate.
Qed.

(** A fair run ends with all tasks finished and everything kept that holds of
    every reachable state. *)
Lemma fair_run r w ts rounds :
  Forall is_start ts → Forall answering ts → fair_rounds ts rounds →
  let st := run (concat rounds) (initial r w ts) in
  Forall (λ t, ∃ o, t = Finished o) (tasks st) ∧ length (tasks st) = length ts ∧
  ∃ k, Good k st.
Proof.
  intros Hts Hans (Hlen & Hfair & Hrounds) st. pose proof (good_initial r w ts Hts Hans) as Hgood.
  split_and!.
  - apply (rounds_finish rounds 0); [done|lia|lia|done|by rewrite initial_work].
  - by unfold st; rewrite run_length.
  - eexists. apply (good_run _ 0); [done|lia|lia].
Qed.

(** C5: Global requests, notifications and accepts terminate, under three
    conditions: no handler drops a decoded request unanswered, no future is
    dropped, and no read or write of the streams waits for ever (a peer that is
    silent has ended its stream). Then any number of tasks sharing the control
    streams, started together and scheduled in fair rounds, have all returned
    after a number of rounds that depends on the tasks only, however their guarded
    messages succeed or fail: no two of them wait for each other, no notification
    is missed, and none waits in its loops for ever. Without the first condition a
    failure that is owed may never be sent, without the second a ticket is never
    served. *)
Theorem requests_finish r w ts rounds :
  Forall is_start ts → Forall answering ts → fair_rounds ts rounds →
  Forall (λ t, ∃ o, t = Finished o) (tasks (run (concat rounds) (initial r w ts))).
Proof. apply fair_run. Qed.
End measure.

(** ** Witness *)

#[local] Existing Instance quic_varint.

Lemma answers_decoded {E A} (c : Io Reader E A) (reply : Reply) :
  reply ≠ DropDecoded → answers (λ _ _, DecodePayload (r_section (c;;; io_ret reply))).
Proof.
  intros Hr name payload r r' [= <-]. unfold r_section, io_bind.
  destruct (c r) as [r1 [a|e|]]; [|done..]. intros [= _ ->]. by apply Hr.
Qed.

Lemma sample_tasks_answering : Forall answering sample_tasks.
Proof.
  apply Forall_cons; split; [|apply Forall_cons; split; [exact I|apply Forall_cons; split; [exact I|constructor]]].
  exact (answers_decoded (decode_from SshBytes) respond_failure ltac:(discriminate)).
Qed.

Lemma requests_finish_witness :
  let st := run (concat (round_robin sample_tasks))
              (initial (MkReader ping_request None) new_writer sample_tasks) in
  Forall (λ t, ∃ o, t = Finished o) (tasks st).
Proof.
  assert (fair_rounds sample_tasks (round_robin sample_tasks)) as Hfair.
  { apply round_robin_fair. vm_compute. reflexivity. }
  exact (requests_finish (MkReader ping_request None) new_writer sample_tasks (round_robin sample_tasks)
           sample_tasks_start sample_tasks_answering Hfair).
Defined.
