(* ===== verification/GlobalPipeline.v ===== *)
(** * Pipelined global requests

    What the tickets are for: any number of requests and notifications, sent
    by concurrent tasks over one pair of control streams, are written in some
    order, each as a whole, and the responses, read in the order of the
    requests, go each to the task that sent its request. *)
From Stdlib Require Import ZArith Lia Strings.Byte Sorting.Sorted.
From stdpp Require Import base list strings gmap fin_maps relations sorting.
From S2P Require Import Prelude Wire Codec Message ChannelErrors Channel Global GlobalProofs.
From S2P Require Import GlobalPairs GlobalWake GlobalProps GlobalLive.
Local Open Scope Z_scope.

(** ** Guarded messages with known bytes *)

Definition sends (message : WSection) (bs : list byte) : Prop :=
  ∀ w, wr_plan w = [] →
    ∃ w', message w = (w', true) ∧ wr_plan w' = [] ∧ wr_out w' = wr_out w ++ bs.
Definition receives (response : RSection ()) (bs : list byte) (accepted : bool) : Prop :=
  ∀ rest fin, response (MkReader (bs ++ rest) fin)
    = (MkReader rest fin, if accepted then Some () else None).

(** ** How many guarded messages were run

    Those before the ticket being served, and the holder's when it has run. *)
Section counting.
Context (done : Task → option Z).

Definition count_ok (serving : Z) (n : nat) (ts : list Task) : Prop :=
  (Z.of_nat n = serving ∧ ∀ i t, ts !! i = Some t → done t = None) ∨
  (Z.of_nat n = serving + 1 ∧ ∃ i t, ts !! i = Some t ∧ is_Some (done t)).

Lemma count_keep serving n ts i t t' :
  count_ok serving n ts → ts !! i = Some t →
  (is_Some (done t) ↔ is_Some (done t')) → count_ok serving n (<[i := t']> ts).
Proof.
  intros Hc Hi Hd. assert (Hi' : <[i := t']> ts !! i = Some t')
    by (by eapply list_lookup_insert_eq, lookup_lt_Some).
  destruct Hc as [[Hn Hnone]|(Hn & j & u & Hu & Hdu)]; [left|right]; (split; [done|]).
  - intros j u [[<- [<- _]]|[Hj Hu]]%list_lookup_insert_Some; [|by eapply Hnone].
    apply eq_None_not_Some. intros Hs. apply Hd in Hs as [x Hs]. by rewrite (Hnone i t Hi) in Hs.
  - destruct (decide (j = i)) as [->|Hj]; [simplify_eq; exists i, t'; naive_solver|].
    exists j, u. by rewrite list_lookup_insert_ne.
Qed.

Context (tickets : Task → gset Z) (holds : Task → option Z).
Context (done_holds : ∀ t x, done t = Some x → holds t = Some x).

(** The holder is the only task that can have run. *)
Lemma count_none next serving auto n ts i t :
  TicketInv tickets holds next serving auto ts → count_ok serving n ts → ts !! i = Some t →
  is_Some (holds t) → done t = None → Z.of_nat n = serving.
Proof.
  intros Hinv [[? _]|(_ & j & u & Hu & x & Hx)] Hi [y Hy] Hd; [done|].
  assert (i = j) as -> by (eapply holds_unique; eauto). congruence.
Qed.

Lemma count_run next serving auto n ts i t t' :
  TicketInv tickets holds next serving auto ts → count_ok serving n ts → ts !! i = Some t →
  is_Some (holds t) → done t = None → is_Some (done t') →
  count_ok serving (S n) (<[i := t']> ts).
Proof.
  intros Hinv Hc Hi Hh Hd Hd'. pose proof (count_none _ _ _ _ _ _ _ Hinv Hc Hi Hh Hd).
  right. split; [lia|]. exists i, t'. split; [by eapply list_lookup_insert_eq, lookup_lt_Some|done].
Qed.

Lemma count_release next serving auto n ts i t t' :
  TicketInv tickets holds next serving auto ts → count_ok serving n ts → ts !! i = Some t →
  is_Some (done t) → done t' = None → count_ok (serving + 1) n (<[i := t']> ts).
Proof.
  intros Hinv [[_ Hnone]|(Hn & _)] Hi [x Hx] Hd'; [by rewrite (Hnone i t Hi) in Hx|].
  left. split; [done|]. intros j u [[<- [<- _]]|[Hj Hu]]%list_lookup_insert_Some; [done|].
  apply eq_None_not_Some. intros [y Hy]. apply Hj.
  eapply (holds_unique tickets holds next serving); eauto.
Qed.
End counting.

Lemma count_bound tickets holds done next serving auto n ts :
  (∀ t x, done t = Some x → holds t = Some x) →
  TicketInv tickets holds next serving auto ts → count_ok done serving n ts → Z.of_nat n ≤ next.
Proof.
  intros Hdh Hinv [[Hn _]|(Hn & i & t & Hi & x & Hx)]; pose proof (ti_bounds _ _ _ _ _ _ Hinv); [lia|].
  apply Hdh in Hx. destruct (ti_holds _ _ _ _ _ _ Hinv i t x Hi Hx) as [-> Ht].
  destruct (ti_own _ _ _ _ _ _ Hinv i t _ Hi Ht). lia.
Qed.

Definition same_access {T} (a a' : OrderedAccess T) : Prop :=
  resource a' = resource a ∧ next_ticket a' = next_ticket a ∧ current_serving a' = current_serving a.

(** ** The writer

    [order]: what the tickets were taken for, in their order. The output has
    the messages of the first [n]. *)
Definition ticket (order : list nat) (x : Z) (i : nat) : Prop :=
  0 ≤ x ∧ order !! Z.to_nat x = Some i.

Lemma ticket_last order i : ticket (order ++ [i]) (Z.of_nat (length order)) i.
Proof.
  split; [lia|]. rewrite Nat2Z.id, lookup_app_r by lia. by rewrite Nat.sub_diag.
Qed.
Lemma ticket_extends order order' x i :
  order `prefix_of` order' → ticket order x i → ticket order' x i.
Proof. intros Hp [? Hx]. split; [done|]. by eapply prefix_lookup_Some. Qed.

Section writer.
Context (bytes : nat → list byte) (out0 : list byte).

Record WriterOk (order : list nat) (n : nat) (a : OrderedAccess Writer) (ts : list Task) : Prop := {
  wk_next : next_ticket a = Z.of_nat (length order);
  wk_plan : wr_plan (resource a) = [];
  wk_out : wr_out (resource a) = out0 ++ concat (map bytes (take n order));
  wk_count : count_ok w_done (current_serving a) n ts;
}.

Lemma writer_keep order n a ts i t t' a' :
  WriterOk order n a ts → ts !! i = Some t → same_access a a' →
  w_done t = None → w_done t' = None → WriterOk order n a' (<[i := t']> ts).
Proof.
  intros [Hn Hp Ho Hc] Hi (H1 & H2 & H3) Hd Hd'. split; rewrite ?H1, ?H2, ?H3; try done.
  eapply count_keep; [exact Hc|exact Hi|]. by rewrite Hd, Hd'.
Qed.

Lemma writer_take order n a ts i t t' x auto :
  TicketInv w_tickets w_holds (next_ticket a) (current_serving a) auto ts →
  WriterOk order n a ts → ts !! i = Some t → next_ticket a + 1 < U64_MOD →
  w_done t = None → w_done t' = None →
  WriterOk (order ++ [x]) n (take_ticket a).2 (<[i := t']> ts).
Proof.
  intros Hinv [Hn Hp Ho Hc] Hi Hk Hd Hd'.
  pose proof (count_bound _ _ _ _ _ _ _ _ w_done_holds Hinv Hc) as Hb.
  split; cbn [take_ticket snd resource next_ticket current_serving].
  - rewrite wrap_u64_small by lia. rewrite length_app. simpl. lia.
  - done.
  - rewrite take_app_le by lia. done.
  - eapply count_keep; [exact Hc|exact Hi|]. by rewrite Hd, Hd'.
Qed.

(** A guarded message is written: the next one in the order of the tickets. *)
Lemma writer_write order n a ts i t t' x j m w ok auto :
  TicketInv w_tickets w_holds (next_ticket a) (current_serving a) auto ts →
  WriterOk order n a ts → ts !! i = Some t →
  w_holds t = Some x → w_done t = None → is_Some (w_done t') →
  ticket order x j → sends m (bytes j) → m (resource a) = (w, ok) →
  ok = true ∧ WriterOk order (S n) (set_resource w a) (<[i := t']> ts).
Proof.
  intros Hinv [Hn Hp Ho Hc] Hi Hh Hd Hd' [Hx0 Hx] Hsend Hm.
  destruct (ti_holds _ _ _ _ _ _ Hinv i t x Hi Hh) as [Hserv _].
  pose proof (count_none _ _ _ w_done_holds _ _ _ _ _ _ _ Hinv Hc Hi ltac:(by eexists) Hd) as Hcount.
  destruct (Hsend _ Hp) as (w2 & Hm2 & Hp2 & Ho2). rewrite Hm2 in Hm. injection Hm as <- <-.
  replace (Z.to_nat x) with n in Hx by lia.
  split; [done|]. split; cbn [resource next_ticket current_serving set_resource]; try done.
  - rewrite Ho2, Ho, (take_S_r _ _ _ Hx), map_app, concat_app, <- app_assoc. simpl.
    by rewrite app_nil_r.
  - eapply count_run; [exact w_done_holds|exact Hinv|exact Hc|exact Hi|by eexists|done|done].
Qed.

Lemma writer_release order n a ts i t t' auto :
  TicketInv w_tickets w_holds (next_ticket a) (current_serving a) auto ts →
  WriterOk order n a ts → ts !! i = Some t → next_ticket a + 1 < U64_MOD →
  is_Some (w_done t) → w_done t' = None →
  WriterOk order n (advance_serving a) (<[i := t']> ts).
Proof.
  intros Hinv [Hn Hp Ho Hc] Hi Hk Hd Hd'. pose proof (ti_bounds _ _ _ _ _ _ Hinv).
  split; cbn [resource next_ticket current_serving advance_serving]; try done.
  rewrite wrap_u64_small by lia. by eapply count_release; [exact w_done_holds|..].
Qed.
End writer.

(** ** The calls of one side *)

(** A request or a notification: its message, how it reads its response, and
    the response that is meant for it. *)
Record Op := MkOp {
  op_write : WSection;
  op_bytes : list byte;
  op_reply : option (RSection () * list byte * bool);
}.
Definition op_ok (o : Op) : Prop :=
  sends (op_write o) (op_bytes o) ∧
  match op_reply o with
  | Some (response, bs, accepted) => receives response bs accepted
  | None => True
  end.
Definition op_result (o : Op) : bool :=
  match op_reply o with Some (_, accepted) => accepted | None => true end.
Definition op_task (o : Op) : Task :=
  match op_reply o with
  | Some (response, _, _) => ReqLock (op_write o) response
  | None => NotifyTake (op_write o)
  end.

Section calls.
Context (ops : list Op).

Definition op_out (i : nat) : list byte := from_option op_bytes [] (ops !! i).
Definition op_in (i : nat) : list byte :=
  match ops !! i ≫= op_reply with Some (_, bs, _) => bs | None => [] end.
Definition asks (i : nat) : Prop := is_Some (ops !! i ≫= op_reply).
Definition requests (order : list nat) : list nat := filter asks order.

(** [wo], [ro]: the tasks in the order of their write and read tickets; [nw],
    [nr]: how many messages were written and responses read. *)
Record Ghost := MkGhost { wo : list nat; ro : list nat; nw : nat; nr : nat }.

(** The output at the start, and the input of the whole run. *)
Context (out0 buf0 : list byte).

(** The responses come in the order of [full], which may still grow. *)
Definition in_order (g : Ghost) (full : list nat) (rest : list byte) : Prop :=
  ro g `prefix_of` full ∧ buf0 = concat (map op_in full) ++ rest.
Definition good (g : Ghost) : Prop := ∃ full rest, in_order g full rest.
Definition own_reply (o : Op) (response : RSection ()) : Prop :=
  ∃ bs accepted, op_reply o = Some (response, bs, accepted).
Definition next_ok (g : Ghost) (i : nat) (o : Op) (next : AfterWrite) : Prop :=
  match next with
  | WriteDone => op_reply o = None
  | ReadResponse y response => own_reply o response ∧ ticket (ro g) y i
  end.

(** What task [i] is doing, by the call it was started for. *)
Definition state_ok (g : Ghost) (i : nat) (o : Op) (t : Task) : Prop :=
  match t with
  | ReqLock m r | ReqTakeWriter m r => m = op_write o ∧ own_reply o r ∧ i ∉ wo g
  | ReqTakeReader wt m r => m = op_write o ∧ own_reply o r ∧ ticket (wo g) wt i
  | ReqUnlock wt rt m r =>
    m = op_write o ∧ own_reply o r ∧ ticket (wo g) wt i ∧ ticket (ro g) rt i
  | NotifyTake m => m = op_write o ∧ op_reply o = None ∧ i ∉ wo g
  | WaitWriter x _ m next | Write x m next =>
    m = op_write o ∧ ticket (wo g) x i ∧ next_ok g i o next
  | WriteDrop _ ok next | WriteNotify ok next => ok = true ∧ i ∈ wo g ∧ next_ok g i o next
  | WaitReader x _ (ForResponse r) | Read x (ForResponse r) =>
    own_reply o r ∧ i ∈ wo g ∧ ticket (ro g) x i
  | ReadDrop _ (ReadDone ok) | ReadNotify (ReadDone ok) | Finished (Returned ok) =>
    i ∈ wo g ∧ (good g → ok = op_result o)
  | _ => False
  end.
Definition task_ok (g : Ghost) (i : nat) (t : Task) : Prop :=
  ∃ o, ops !! i = Some o ∧ state_ok g i o t.

(** A request has its read ticket when it has its write ticket, but for the one
    between the two. *)
Definition pairs_ok (g : Ghost) (ts : list Task) : Prop :=
  (requests (wo g) = ro g ∧ ∀ i t, ts !! i = Some t → half_pair t = None) ∨
  (∃ i t, ts !! i = Some t ∧ is_Some (half_pair t) ∧ requests (wo g) = ro g ++ [i]).

Record Pipe (g : Ghost) (st : State) : Prop := {
  pp_writer : WriterOk op_out out0 (wo g) (nw g) (w_access st) (tasks st);
  pp_next : next_ticket (r_access st) = Z.of_nat (length (ro g));
  pp_tasks i t : tasks st !! i = Some t → task_ok g i t;
  pp_nodup : NoDup (wo g) ∧ ∀ i, i ∈ wo g → is_Some (ops !! i);
  pp_pairs : pairs_ok g (tasks st);
  pp_nr : count_ok r_done (current_serving (r_access st)) (nr g) (tasks st);
  pp_in full rest : in_order g full rest → ∃ fin,
    resource (r_access st) = MkReader (concat (map op_in (drop (nr g) full)) ++ rest) fin;
  pp_sound : poisoned (shared st) = false;
}.

Definition extends (g g' : Ghost) (i : nat) : Prop :=
  wo g `prefix_of` wo g' ∧ ro g `prefix_of` ro g' ∧ (i ∉ wo g → i ∉ wo g').

Lemma task_ok_extends g g' i t : extends g g' i → task_ok g i t → task_ok g' i t.
Proof.
  intros (Hw & Hr & Hi) (o & Ho & Hok). exists o. split; [done|].
  assert (∀ x, ticket (wo g) x i → ticket (wo g') x i) by (intros; by eapply ticket_extends).
  assert (∀ x, ticket (ro g) x i → ticket (ro g') x i) by (intros; by eapply ticket_extends).
  assert (i ∈ wo g → i ∈ wo g') by (intros; by eapply elem_of_prefix).
  assert (good g' → good g) by (intros (full & rest & ? & ?); exists full, rest; split; [by etrans|done]).
  destruct t; simpl in *; try done; repeat case_match; unfold next_ok in *; repeat case_match; naive_solver.
Qed.
Lemma extends_refl g i : extends g g i.
Proof. by split_and!. Qed.
End calls.

(** ** Each step keeps them *)

Section steps.
Context `{VarIntCodec} (ops : list Op) (out0 buf0 : list byte).
Context (Hops : ∀ i o, ops !! i = Some o → op_ok o).
#[local] Abbreviation Pipe := (Pipe ops out0 buf0).
#[local] Abbreviation task_ok := (task_ok ops buf0).

Lemma tasks_ok_insert g g' (ts : list Task) i t' :
  (∀ j u, ts !! j = Some u → task_ok g j u) → (∀ j, j ≠ i → extends g g' j) →
  task_ok g' i t' → ∀ j u, <[i := t']> ts !! j = Some u → task_ok g' j u.
Proof.
  intros Hts He Ht j u [[<- [<- _]]|[Hj Hu]]%list_lookup_insert_Some; [done|].
  eapply task_ok_extends; [by apply He|by apply Hts].
Qed.

Lemma pairs_keep g (ts : list Task) i t t' :
  pairs_ok ops g ts → ts !! i = Some t → half_pair t = None → half_pair t' = None →
  pairs_ok ops g (<[i := t']> ts).
Proof.
  intros [[Hr Hn]|(j & u & Hu & Hh & Hr)] Hi Ht Ht'.
  - left. split; [done|]. intros j u [[<- [<- _]]|[Hj Hu]]%list_lookup_insert_Some; [done|by eapply Hn].
  - right. exists j, u. rewrite list_lookup_insert_ne; [done|]. intros ->. simplify_eq.
    rewrite Ht in Hh. by destruct Hh.
Qed.

(** The steps that change neither stream, take no ticket and release none. *)
Lemma pipe_same g st i t t' s' :
  Pipe g st → tasks st !! i = Some t →
  same_access (s_writer (shared st)) (s_writer s') →
  same_access (s_reader (shared st)) (s_reader s') →
  poisoned s' = poisoned (shared st) →
  w_done t = None → w_done t' = None → r_done t = None → r_done t' = None →
  half_pair t = None → half_pair t' = None →
  task_ok g i t' → Pipe g (MkState s' (<[i := t']> (tasks st))).
Proof.
  intros [Hwr Hn Ht Hnd Hp Hnr Hin Hs] Hi Hw (Hr1 & Hr2 & Hr3) Hps Hwd Hwd' Hrd Hrd' Hh Hh' Hok.
  unfold w_access, r_access in *.
  split; unfold w_access, r_access; cbn [tasks shared]; rewrite ?Hr1, ?Hr2, ?Hr3, ?Hps; try done.
  - by eapply writer_keep.
  - by eapply tasks_ok_insert; [|intros; apply extends_refl|].
  - by eapply pairs_keep.
  - eapply count_keep; [exact Hnr|exact Hi|]. by rewrite Hrd, Hrd'.
Qed.

Lemma extends_take_writer g i j :
  j ≠ i → extends g (MkGhost (wo g ++ [i]) (ro g) (nw g) (nr g)) j.
Proof. intros Hj. split_and!; simpl; [by apply prefix_app_r|done|]. set_solver. Qed.
Lemma extends_take_reader g i j :
  extends g (MkGhost (wo g) (ro g ++ [i]) (nw g) (nr g)) j.
Proof. split_and!; simpl; [done|by apply prefix_app_r|done]. Qed.

(** A task takes a write ticket. *)
Lemma pipe_take_writer k g st i t t' s' :
  Inv k st → k + 1 < U64_MOD → Pipe g st → tasks st !! i = Some t → i ∉ wo g →
  s_writer s' = (take_ticket (s_writer (shared st))).2 →
  s_reader s' = s_reader (shared st) → poisoned s' = poisoned (shared st) →
  w_done t = None → w_done t' = None → r_done t = None → r_done t' = None →
  let g' := MkGhost (wo g ++ [i]) (ro g) (nw g) (nr g) in
  task_ok g' i t' → pairs_ok ops g' (<[i := t']> (tasks st)) →
  Pipe g' (MkState s' (<[i := t']> (tasks st))).
Proof.
  intros Hinv Hk [Hwr Hn Ht Hnd Hp Hnr Hin Hs] Hi Hnew Hw Hr Hps Hwd Hwd' Hrd Hrd' g' Hok Hp'.
  pose proof (inv_next _ _ Hinv) as [Hk1 _].
  split; unfold w_access, r_access in *; cbn [tasks shared g' wo ro nw nr]; rewrite ?Hw, ?Hr, ?Hps; try done.
  - eapply writer_take; [apply Hinv|exact Hwr|exact Hi|unfold w_access in *; lia|done|done].
  - eapply tasks_ok_insert; [done|intros; by apply extends_take_writer|done].
  - destruct Hnd as [Hnd Hlt]. split.
    + apply NoDup_app. split_and!; [done|set_solver|apply NoDup_singleton].
    + intros j [?| ->%list_elem_of_singleton]%elem_of_app; [by apply Hlt|].
      destruct Hok as (o & Ho & _). by exists o.
  - eapply count_keep; [exact Hnr|exact Hi|]. by rewrite Hrd, Hrd'.
Qed.

(** The lock is held by one task. *)
Lemma half_unique st i j t u :
  PairInv st → tasks st !! i = Some t → tasks st !! j = Some u →
  is_Some (half_pair t) → is_Some (half_pair u) → i = j.
Proof.
  intros Hp Hi Hj [x Hx] [y Hy]. assert (Some i = Some j) as [= ->]; [|done].
  rewrite <- (pi_lock _ Hp i t Hi ltac:(by destruct t)).
  by rewrite <- (pi_lock _ Hp j u Hj ltac:(by destruct u)).
Qed.

(** A request takes its read ticket. *)
Lemma pipe_take_reader k g st i wt m r s' :
  Inv k st → k + 1 < U64_MOD → PairInv st → Pipe g st →
  tasks st !! i = Some (ReqTakeReader wt m r) →
  s_writer s' = s_writer (shared st) →
  s_reader s' = (take_ticket (s_reader (shared st))).2 → poisoned s' = poisoned (shared st) →
  let t' := ReqUnlock wt (next_ticket (s_reader (shared st))) m r in
  Pipe (MkGhost (wo g) (ro g ++ [i]) (nw g) (nr g)) (MkState s' (<[i := t']> (tasks st))).
Proof.
  intros Hinv Hk Hpair [Hwr Hn Ht Hnd Hp Hnr Hin Hs] Hi Hw Hr Hps t'.
  pose proof (inv_next _ _ Hinv) as [_ Hk2]. unfold w_access, r_access in *.
  destruct (Ht i _ Hi) as (o & Hio & Hm & Hown & Htw).
  split; unfold w_access, r_access; cbn [tasks shared]; rewrite ?Hw, ?Hr, ?Hps; cbn [take_ticket snd
    resource next_ticket current_serving wo ro nw nr]; try done.
  - by eapply writer_keep.
  - rewrite wrap_u64_small by lia. rewrite length_app. simpl. lia.
  - eapply tasks_ok_insert; [done|intros; apply extends_take_reader|].
    exists o. split; [done|]. split_and!; [done..|]. rewrite Hn. apply ticket_last.
  - destruct Hp as [[_ Hnone]|(j & u & Hu & Hh & Hreq)]; [by specialize (Hnone i _ Hi)|].
    left. split.
    + by rewrite (half_unique _ _ _ _ _ Hpair Hu Hi Hh (ltac:(by eexists) : is_Some (half_pair (ReqTakeReader wt m r)))) in Hreq.
    + intros h v [[_ [<- _]]|[Hj Hv]]%list_lookup_insert_Some; [done|].
      apply eq_None_not_Some. intros Hhv. apply Hj.
      by eapply half_unique; [exact Hpair|exact Hi|exact Hv|eexists|].
  - by eapply count_keep.
  - intros full rest [Hp' Hbuf]. apply Hin. split; [|done]. etrans; [|exact Hp']. by apply prefix_app_r.
Qed.

(** A guarded message is written: the next one in the order of the tickets. *)
Lemma pipe_write k g st i x m next w' ok s' :
  Inv k st → Pipe g st → tasks st !! i = Some (Write x m next) →
  m (resource (s_writer (shared st))) = (w', ok) →
  s_writer s' = set_resource w' (s_writer (shared st)) →
  s_reader s' = s_reader (shared st) → poisoned s' = poisoned (shared st) →
  ok = true ∧ Pipe (MkGhost (wo g) (ro g) (S (nw g)) (nr g))
    (MkState s' (<[i := WriteDrop x true next]> (tasks st))).
Proof.
  intros Hinv [Hwr Hn Ht Hnd Hp Hnr Hin Hs] Hi Hm Hw Hr Hps.
  destruct (Ht i _ Hi) as (o & Hio & -> & Hx & Hnext). unfold w_access, r_access in *.
  assert (Hsend : sends (op_write o) (op_out ops i)).
  { unfold op_out. rewrite Hio. apply (Hops i o Hio). }
  destruct (writer_write _ _ _ _ _ _ _ _ (WriteDrop x true next) _ _ _ _ _ _ (inv_w _ _ Hinv) Hwr Hi
    eq_refl eq_refl ltac:(by eexists) Hx Hsend Hm) as [Hok Hwr']. subst ok.
  split; [done|]. split; unfold w_access, r_access; cbn [tasks shared]; rewrite ?Hw, ?Hr, ?Hps;
    cbn [wo ro nw nr]; try done.
  - eapply tasks_ok_insert; [done|by intros; split_and!|].
    exists o. split; [done|]. destruct Hx. split_and!; [done|by eapply list_elem_of_lookup_2|done].
  - by eapply pairs_keep.
  - by eapply count_keep.
Qed.

Lemma pipe_release_writer k g st i x ok next s' :
  Inv k st → k + 1 < U64_MOD → Pipe g st → tasks st !! i = Some (WriteDrop x ok next) →
  s_writer s' = advance_serving (s_writer (shared st)) →
  s_reader s' = s_reader (shared st) → poisoned s' = poisoned (shared st) →
  Pipe g (MkState s' (<[i := WriteNotify ok next]> (tasks st))).
Proof.
  intros Hinv Hk [Hwr Hn Ht Hnd Hp Hnr Hin Hs] Hi Hw Hr Hps.
  pose proof (inv_next _ _ Hinv) as [? _]. unfold w_access, r_access in *.
  split; unfold w_access, r_access; cbn [tasks shared]; rewrite ?Hw, ?Hr, ?Hps; try done.
  - by eapply writer_release; [apply Hinv|exact Hwr|exact Hi|unfold w_access; lia|eexists|].
  - eapply tasks_ok_insert; [done|by intros; split_and!|]. exact (Ht i _ Hi).
  - by eapply pairs_keep.
  - by eapply count_keep.
Qed.

(** A response is read; when the responses come in order, it is the task's
    own. *)
Lemma pipe_read k g st i x response r' res s' :
  Inv k st → Pipe g st → tasks st !! i = Some (Read x (ForResponse response)) →
  response (resource (s_reader (shared st))) = (r', res) →
  s_reader s' = set_resource r' (s_reader (shared st)) →
  s_writer s' = s_writer (shared st) → poisoned s' = poisoned (shared st) →
  Pipe (MkGhost (wo g) (ro g) (nw g) (S (nr g)))
    (MkState s' (<[i := ReadDrop x (ReadDone (bool_decide (is_Some res)))]> (tasks st))).
Proof.
  intros Hinv [Hwr Hn Ht Hnd Hp Hnr Hin Hs] Hi Hread Hr Hw Hps.
  destruct (Ht i _ Hi) as (o & Hio & (bs & acc & Hown) & Hi' & [Hx0 Hx]). unfold w_access, r_access in *.
  destruct (ti_holds _ _ _ _ _ _ (inv_r _ _ Hinv) i _ x Hi eq_refl) as [Hserv _].
  pose proof (count_none _ _ _ r_done_holds _ _ _ _ _ _ _ (inv_r _ _ Hinv) Hnr Hi
    ltac:(by eexists) eq_refl) as Hcount.
  unfold r_access in *. replace (Z.to_nat x) with (nr g) in Hx by lia.
  assert (Hgood : ∀ full rest, in_order ops buf0 g full rest → res = (if acc then Some () else None) ∧ ∃ fin,
    r' = MkReader (concat (map (op_in ops) (drop (S (nr g)) full)) ++ rest) fin).
  { intros full rest Hg. destruct (Hin _ _ Hg) as [fin Hbuf].
    assert (full !! nr g = Some i) as Hf by (eapply prefix_lookup_Some; [done|apply Hg]).
    destruct (Hops i o Hio) as [_ Hrecv]. rewrite Hown in Hrecv.
    rewrite Hbuf, (drop_S _ _ _ Hf) in Hread. simpl in Hread. unfold op_in at 1 in Hread.
    rewrite Hio in Hread. simpl in Hread. rewrite Hown, <- app_assoc, Hrecv in Hread.
    injection Hread as <- <-. eauto. }
  split; unfold w_access, r_access; cbn [tasks shared]; rewrite ?Hw, ?Hr, ?Hps;
    cbn [resource next_ticket current_serving set_resource wo ro nw nr]; try done.
  - by eapply writer_keep.
  - eapply tasks_ok_insert; [done|by intros; split_and!|].
    exists o. split; [done|]. split; [done|]. intros (full & rest & Hg). destruct (Hgood _ _ Hg) as [-> _].
    unfold op_result. rewrite Hown. by destruct acc.
  - by eapply pairs_keep.
  - eapply count_run; [exact r_done_holds|exact (inv_r _ _ Hinv)|exact Hnr|exact Hi|by eexists|done|by eexists].
  - intros full rest Hg. by destruct (Hgood _ _ Hg) as [_ ?].
Qed.

Lemma pipe_release_reader k g st i x next s' :
  Inv k st → k + 1 < U64_MOD → Pipe g st → tasks st !! i = Some (ReadDrop x next) →
  s_reader s' = advance_serving (s_reader (shared st)) →
  s_writer s' = s_writer (shared st) → poisoned s' = poisoned (shared st) →
  Pipe g (MkState s' (<[i := ReadNotify next]> (tasks st))).
Proof.
  intros Hinv Hk [Hwr Hn Ht Hnd Hp Hnr Hin Hs] Hi Hr Hw Hps.
  pose proof (ti_bounds _ _ _ _ _ _ (inv_r _ _ Hinv)). pose proof (inv_next _ _ Hinv) as [_ ?].
  pose proof (Ht i _ Hi) as Hok. assert (∃ ok, next = ReadDone ok) as [ok ->].
  { destruct Hok as (o & _ & Hok). destruct next; [by eexists|done..]. }
  unfold w_access, r_access in *.
  split; unfold w_access, r_access; cbn [tasks shared]; rewrite ?Hw, ?Hr, ?Hps;
    cbn [resource next_ticket current_serving advance_serving]; try done.
  - by eapply writer_keep.
  - eapply tasks_ok_insert; [done|by intros; split_and!|]. exact Hok.
  - by eapply pairs_keep.
  - rewrite wrap_u64_small by lia.
    eapply count_release; [exact r_done_holds|exact (inv_r _ _ Hinv)|exact Hnr|exact Hi|by eexists|done].
Qed.

Lemma requests_snoc order i :
  requests ops (order ++ [i]) = requests ops order ++ (if decide (asks ops i) then [i] else []).
Proof. unfold requests. rewrite filter_app. cbn. by destruct (decide (asks ops i)). Qed.

Lemma own_reply_asks i o r : ops !! i = Some o → own_reply o r → asks ops i.
Proof. intros Ho (bs & acc & Hr). unfold asks. rewrite Ho. simpl. by rewrite Hr. Qed.

(** A task between its two tickets is alone in it. *)
Lemma half_alone st i t : PairInv st → tasks st !! i = Some t → in_lock t = true →
  half_pair t = None → ∀ j u, tasks st !! j = Some u → half_pair u = None.
Proof.
  intros Hp Hi Hl Hh j u Hu. destruct (half_pair u) eqn:Hhu; [|done]. exfalso.
  assert (Some i = Some j) as [= ->]; [|by simplify_eq].
  rewrite <- (pi_lock _ Hp i t Hi Hl). rewrite <- (pi_lock _ Hp j u Hu); [done|by destruct u].
Qed.

(** The waiting loop of the writer. *)
Lemma pipe_wait_writer g st i x a m next t' s' :
  Pipe g st → LiveInv st → tasks st !! i = Some (WaitWriter x a m next) →
  step_task i (WaitWriter x a m next) (shared st) = Some (t', s') →
  Pipe g (MkState s' (<[i := t']> (tasks st))).
Proof.
  intros Hpipe Hlive Hi Hs. pose proof (pp_sound _ _ _ _ _ Hpipe) as Hsound.
  pose proof (lv_answering _ Hlive i _ Hi) as Hans. pose proof (lv_auto _ Hlive) as Hauto.
  pose proof (pp_tasks _ _ _ _ _ Hpipe i _ Hi) as Hok.
  step_cases Hs; try done;
    (eapply pipe_same; [exact Hpipe|exact Hi|done|done|done|done|done|done|done|done|done|exact Hok]).
Qed.

Lemma pipe_wait_reader g st i x a what t' s' :
  Pipe g st → tasks st !! i = Some (WaitReader x a what) →
  step_task i (WaitReader x a what) (shared st) = Some (t', s') →
  Pipe g (MkState s' (<[i := t']> (tasks st))).
Proof.
  intros Hpipe Hi Hs. pose proof (pp_sound _ _ _ _ _ Hpipe) as Hsound.
  pose proof (pp_tasks _ _ _ _ _ Hpipe i _ Hi) as Hok.
  step_cases Hs; try done;
    (eapply pipe_same; [exact Hpipe|exact Hi|done|done|done|done|done|done|done|done|done|exact Hok]).
Qed.

(** A request, and a notification, take their write ticket. *)
Lemma pipe_request_ticket k g st i m r :
  Inv k st → PairInv st → k + 1 < U64_MOD → Pipe g st → tasks st !! i = Some (ReqTakeWriter m r) →
  let '(x, a) := take_ticket (s_writer (shared st)) in
  ∃ g', Pipe g' (MkState (upd_writer (λ _, a) (shared st)) (<[i := ReqTakeReader x m r]> (tasks st))).
Proof.
  intros Hinv Hpair Hk Hpipe Hi. cbn [take_ticket].
  destruct (pp_tasks _ _ _ _ _ Hpipe i _ Hi) as (o & Hio & -> & Hown & Hnew).
  pose proof (wk_next _ _ _ _ _ _ (pp_writer _ _ _ _ _ Hpipe)) as Hnw.
  eexists. eapply pipe_take_writer; [done|done|done|exact Hi|done|done..| |].
  - exists o. split; [done|]. split_and!; [done|done|].
    unfold w_access in Hnw. cbn [wo]. rewrite Hnw. apply ticket_last.
  - right. eexists i, _. split; [by eapply list_lookup_insert_eq, lookup_lt_Some|]. split; [by eexists|].
    cbn [wo ro]. rewrite requests_snoc, decide_True by (by eapply own_reply_asks).
    destruct (pp_pairs _ _ _ _ _ Hpipe) as [[-> _]|(j & u & Hu & [x Hx] & _)]; [done|].
    by rewrite (half_alone _ _ _ Hpair Hi eq_refl eq_refl j u Hu) in Hx.
Qed.

Lemma pipe_notice_ticket k g st i m :
  Inv k st → k + 1 < U64_MOD → Pipe g st → tasks st !! i = Some (NotifyTake m) →
  let '(x, a) := take_ticket (s_writer (shared st)) in
  ∃ g', Pipe g' (MkState (upd_writer (λ _, a) (shared st))
    (<[i := WaitWriter x DrainLoad m WriteDone]> (tasks st))).
Proof.
  intros Hinv Hk Hpipe Hi. cbn [take_ticket].
  destruct (pp_tasks _ _ _ _ _ Hpipe i _ Hi) as (o & Hio & -> & Hown & Hnew).
  pose proof (wk_next _ _ _ _ _ _ (pp_writer _ _ _ _ _ Hpipe)) as Hnw.
  eexists. eapply pipe_take_writer; [done|done|done|exact Hi|done|done..| |].
  - exists o. split; [done|]. split_and!; [done| |done].
    unfold w_access in Hnw. cbn [wo]. rewrite Hnw. apply ticket_last.
  - eapply pairs_keep; [|exact Hi|done|done]. unfold pairs_ok. cbn [wo ro].
    rewrite requests_snoc, decide_False, app_nil_r; [apply Hpipe|].
    unfold asks. rewrite Hio. simpl. rewrite Hown. by intros [].
Qed.

(** What follows a guarded write or read. *)
Lemma pipe_write_notify g st i ok next :
  Pipe g st → tasks st !! i = Some (WriteNotify ok next) →
  Pipe g (MkState (upd_writer notify_waiters (shared st)) (<[i := after_write ok next]> (tasks st))).
Proof.
  intros Hpipe Hi. destruct (pp_tasks _ _ _ _ _ Hpipe i _ Hi) as (o & Hio & -> & Hin & Hnext).
  eapply pipe_same; [exact Hpipe|exact Hi|done|done|done|done| |done| |done| |]; [by destruct next..|].
  exists o. split; [done|].
  destruct next as [|y r]; [split; [done|]; intros _; unfold op_result; by rewrite Hnext|].
  destruct Hnext as [Hown Ht]. by split_and!.
Qed.

Lemma pipe_step k g i st :
  Good k st → PairInv st → k + 1 < U64_MOD → Pipe g st → ∃ g', Pipe g' (step i st).
Proof.
  intros [Hinv _ _ Hlive] Hpair Hk Hpipe. unfold step, event.
  destruct (tasks st !! i) as [t|] eqn:Hi; [|by exists g]. cbn [act_task].
  destruct (step_task i t (shared st)) as [[t' s']|] eqn:Hs; [|by exists g].
  pose proof (pp_tasks _ _ _ _ _ Hpipe i t Hi) as (o & Hio & Hok).
  destruct t; try done.
  - (* ReqLock *)
    step_cases Hs. exists g. eapply pipe_same; [exact Hpipe|exact Hi|done..|]. by exists o.
  - injection Hs as <- <-. by eapply pipe_request_ticket.
  - (* ReqTakeReader *)
    simpl in Hs. injection Hs as <- <-. eexists. by eapply pipe_take_reader.
  - (* ReqUnlock *)
    step_cases Hs. exists g. eapply pipe_same; [exact Hpipe|exact Hi|done..|].
    exists o. split; [done|]. destruct Hok as (-> & Hown & Htw & Htr). by split_and!.
  - injection Hs as <- <-. by eapply pipe_notice_ticket.
  - exists g. by eapply pipe_wait_writer.
  - (* Write *)
    simpl in Hs. destruct (message (resource (s_writer (shared st)))) as [w' ok] eqn:Hm.
    destruct (pipe_write k g st i ticket0 message next w' ok
      (log_write ticket0 (upd_writer (set_resource w') (shared st))) Hinv Hpipe Hi Hm eq_refl eq_refl eq_refl)
      as [Hok' Hp]. subst ok. injection Hs as <- <-. by eexists.
  - simpl in Hs. injection Hs as <- <-. exists g. by eapply pipe_release_writer.
  - injection Hs as <- <-. exists g. by apply pipe_write_notify.
  - exists g. by eapply pipe_wait_reader.
  - (* Read *)
    destruct what as [response|handler]; [|done].
    simpl in Hs. destruct (response (resource (s_reader (shared st)))) as [r' res] eqn:Hr.
    injection Hs as <- <-. eexists. by eapply pipe_read.
  - simpl in Hs. injection Hs as <- <-. exists g. by eapply pipe_release_reader.
  - (* ReadNotify *)
    simpl in Hs. injection Hs as <- <-. exists g. destruct next as [ok| |]; [|done..].
    eapply pipe_same; [exact Hpipe|exact Hi|done..|]. by exists o.
Qed.

Lemma pipe_run schedule k g st :
  Good k st → PairInv st → 0 ≤ k → k + Z.of_nat (length schedule) < U64_MOD →
  Pipe g st → ∃ g', Pipe g' (run schedule st).
Proof.
  revert k g st. induction schedule as [|i schedule IH]; intros k g st Hst Hpair Hk Hlen Hp; [by exists g|].
  change (run (i :: schedule) st) with (run schedule (step i st)). cbn [length] in Hlen.
  destruct (pipe_step k g i st Hst Hpair ltac:(lia) Hp) as [g' Hp'].
  apply (IH (k + 1) g'); [|by eapply pair_event; [apply Hst|lia|]|lia|lia|done].
  apply good_step; [done|lia].
Qed.

Lemma op_task_start : Forall is_start (map op_task ops) ∧ Forall answering (map op_task ops).
Proof.
  split; apply Forall_map, Forall_true; intros o; unfold compose, op_task; by destruct (op_reply o) as [[[]]|].
Qed.

Lemma pipe_initial r w :
  wr_plan w = [] → wr_out w = out0 → rd_buf r = buf0 →
  Pipe (MkGhost [] [] 0 0) (initial r w (map op_task ops)).
Proof.
  intros Hp Ho Hb.
  assert (Ht : ∀ i t, map op_task ops !! i = Some t → ∃ o, ops !! i = Some o ∧ t = op_task o).
  { intros i t Hi. apply list_lookup_fmap_Some in Hi as (o & ? & ?). eauto. }
  assert (∀ o, w_done (op_task o) = None ∧ r_done (op_task o) = None ∧ half_pair (op_task o) = None) as Hn.
  { intros o. unfold op_task. by destruct (op_reply o) as [[[]]|]. }
  split; simpl; unfold w_access, r_access; simpl; try done.
  - split; simpl; [done|done|by rewrite Ho, app_nil_r|].
    left. split; [done|]. intros i t Hi. destruct (Ht i t Hi) as (o & _ & ->). apply Hn.
  - intros i t Hi. destruct (Ht i t Hi) as (o & Hio & ->). exists o. split; [done|].
    unfold op_task. destruct (op_reply o) as [[[resp bs] acc]|] eqn:Hr; simpl.
    + split; [done|]. split; [by exists bs, acc|set_solver].
    + split_and!; [done..|set_solver].
  - split; [constructor|set_solver].
  - left. split; [done|]. intros i t Hi. destruct (Ht i t Hi) as (o & _ & ->). apply Hn.
  - left. split; [done|]. intros i t Hi. destruct (Ht i t Hi) as (o & _ & ->). apply Hn.
  - intros full rest [_ Hbuf]. exists (rd_end r). rewrite drop_0, <- Hbuf, <- Hb. by destruct r.
Qed.

(** When all have finished, every ticket was served. *)
Lemma all_served st :
  LiveInv st → poisoned (shared st) = false →
  (∀ i t, tasks st !! i = Some t → ∃ o, t = Finished o) →
  next_ticket (w_access st) ≤ current_serving (w_access st) ∧
  next_ticket (r_access st) ≤ current_serving (r_access st).
Proof.
  intros Hlive Hsound Hf.
  assert (Hundoomed : ¬ doomed st).
  { intros [Hd|(i & t & Hi & Hd)]; [congruence|]. by destruct (Hf i t Hi) as [o ->]. }
  split; apply Z.le_ngt; intros Hlt.
  - destruct (lv_w _ Hlive (current_serving (w_access st)) ltac:(lia)) as [(i & t & Hi & Hx)|?]; [|done].
    destruct (Hf i t Hi) as [? ->]. by apply not_elem_of_empty in Hx.
  - destruct (lv_r _ Hlive (current_serving (r_access st)) ltac:(lia)) as [(i & t & Hi & Hx)|?]; [|done].
    destruct (Hf i t Hi) as [? ->]. by apply not_elem_of_empty in Hx.
Qed.

(** When all have finished, everything was written and read. *)
Lemma pipe_finished k g st :
  Good k st → Pipe g st → length (tasks st) = length ops →
  Forall (λ t, ∃ o, t = Finished o) (tasks st) →
  wo g ≡ₚ seq 0 (length ops) ∧ nw g = length (wo g) ∧
  ro g = requests ops (wo g) ∧ nr g = length (ro g).
Proof.
  intros Hst Hp Hlen Hfin. pose proof (gd_inv _ _ Hst) as Hinv. pose proof (gd_live _ _ Hst) as Hlive.
  assert (Hf : ∀ i t, tasks st !! i = Some t → ∃ o, t = Finished o)
    by (intros; by eapply (Forall_lookup_1 (λ t, ∃ o, t = Finished o))).
  destruct (all_served st Hlive (pp_sound _ _ _ _ _ Hp) Hf) as [Hw Hr].
  destruct (pp_writer _ _ _ _ _ Hp) as [Hn1 _ _ Hnw]. pose proof (pp_next _ _ _ _ _ Hp) as Hn2.
  pose proof (ti_bounds _ _ _ _ _ _ (inv_w _ _ Hinv)). pose proof (ti_bounds _ _ _ _ _ _ (inv_r _ _ Hinv)).
  split_and!.
  - apply NoDup_Permutation; [apply Hp|apply NoDup_seq|]. intros i. rewrite elem_of_seq. split.
    + intros Hi. destruct (proj2 (pp_nodup _ _ _ _ _ Hp) i Hi) as [o Ho].
      pose proof (lookup_lt_Some _ _ _ Ho). lia.
    + intros [_ Hi]. destruct (lookup_lt_is_Some_2 (tasks st) i ltac:(lia)) as [t Ht].
      destruct (pp_tasks _ _ _ _ _ Hp i t Ht) as (o & _ & Hok). destruct (Hf i t Ht) as [[ok| |] ->]; [|done..].
      apply Hok.
  - destruct Hnw as [[Hc _]|(_ & i & t & Hi & x & Hx)];
      [lia|by destruct (Hf i t Hi) as [? ->]].
  - destruct (pp_pairs _ _ _ _ _ Hp) as [[-> _]|(i & t & Hi & [x Hx] & _)]; [done|].
    by destruct (Hf i t Hi) as [? ->].
  - destruct (pp_nr _ _ _ _ _ Hp) as [[Hc _]|(_ & i & t & Hi & x & Hx)];
      [lia|by destruct (Hf i t Hi) as [? ->]].
Qed.
End steps.

(** ** The whole run

    The messages in the order in which they are written. *)
Definition op_frame (o : Op) : list byte :=
  match op_reply o with Some (_, bs, _) => bs | None => [] end.
Definition collect (ops : list Op) (order : list nat) : list Op := omap (λ i, ops !! i) order.

Lemma collect_out ops order :
  (∀ i, i ∈ order → is_Some (ops !! i)) →
  concat (map (op_out ops) order) = concat (map op_bytes (collect ops order)).
Proof.
  induction order as [|i order IH]; intros Hi; [done|]. simpl. rewrite IH by set_solver.
  unfold op_out at 1. destruct (Hi i ltac:(set_solver)) as [o Ho]. by rewrite Ho.
Qed.

Lemma collect_in ops order :
  concat (map (op_in ops) (requests ops order)) = concat (map op_frame (collect ops order)).
Proof.
  induction order as [|i order IH]; [done|]. unfold requests in *. rewrite filter_cons. simpl.
  destruct (decide (asks ops i)) as [Ha|Ha]; simpl; rewrite IH; clear IH; unfold asks, op_in in *.
  - destruct (ops !! i) as [o|]; simpl in *; [|by destruct Ha].
    destruct Ha as [[[resp bs] acc] Hr]. unfold op_frame at 2. by rewrite Hr.
  - destruct (ops !! i) as [o|]; simpl in *; [|done]. unfold op_frame at 2.
    destruct (op_reply o) as [p|]; [|done]. exfalso. apply Ha. by exists p.
Qed.

Lemma collect_seq ops pre : collect (pre ++ ops) (seq (length pre) (length ops)) = ops.
Proof.
  revert pre. induction ops as [|o ops IH]; intros pre; [done|]. unfold collect in *. simpl.
  rewrite list_lookup_middle by done. f_equal. specialize (IH (pre ++ [o])).
  rewrite <- app_assoc, length_app, Nat.add_1_r in IH. exact IH.
Qed.

Lemma collect_all ops order : order ≡ₚ seq 0 (length ops) → collect ops order ≡ₚ ops.
Proof.
  intros Hp. unfold collect. rewrite Hp. pose proof (collect_seq ops []) as Hs. unfold collect in Hs.
  simpl in Hs. by rewrite Hs.
Qed.

Section theorem.
Context `{VarIntCodec}.

(** However the tasks that send requests and notifications are interleaved, the
    output is their messages, each once and as a whole, in some order; and when
    the input has the responses in the order of the requests, every task reads
    the response to its own and returns what it says. *)
Lemma pipelined_requests (ops : list Op) (r : Reader) (w : Writer) (rounds : list (list nat)) :
  Forall op_ok ops → wr_plan w = [] → fair_rounds (map op_task ops) rounds →
  let st := run (concat rounds) (initial r w (map op_task ops)) in
  ∃ msgs, msgs ≡ₚ ops ∧
    wr_out (resource (w_access st)) = wr_out w ++ concat (map op_bytes msgs) ∧
    ∀ rest, rd_buf r = concat (map op_frame msgs) ++ rest →
      tasks st = map (λ o, Finished (Returned (op_result o))) ops ∧ rd_buf (resource (r_access st)) = rest.
Proof.
  intros Hops Hplan Hfair st. pose proof Hfair as (Hlen & _ & _).
  assert (Hops' : ∀ i o, ops !! i = Some o → op_ok o) by (intros; by eapply Forall_lookup_1).
  destruct (op_task_start ops) as [Hstart Hans].
  destruct (fair_run r w _ rounds Hstart Hans Hfair) as (Hfin & Hlen' & k & Hgood). fold st in Hfin, Hlen', Hgood.
  rewrite length_map in Hlen'.
  destruct (pipe_run ops _ _ Hops' (concat rounds) 0 _ _ (good_initial r w _ Hstart Hans)
    (pair_initial r w _ Hstart) ltac:(lia) ltac:(lia)
    (pipe_initial ops (wr_out w) (rd_buf r) Hops' r w Hplan eq_refl eq_refl)) as [g Hp]. fold st in Hp.
  destruct (pipe_finished ops _ _ _ _ _ Hgood Hp Hlen' Hfin) as (Hperm & Hnw & Hro & Hnr).
  exists (collect ops (wo g)). split; [by apply collect_all|]. split.
  - rewrite (wk_out _ _ _ _ _ _ (pp_writer _ _ _ _ _ Hp)), Hnw, firstn_all.
    rewrite collect_out; [done|]. apply (pp_nodup _ _ _ _ _ Hp).
  - intros rest Hbuf. rewrite <- collect_in, <- Hro in Hbuf.
    assert (Hin : in_order ops (rd_buf r) g (ro g) rest) by done. split.
    + apply list_eq_same_length with (n := length ops); [by rewrite length_map|done|].
      intros i t t' _ Hi Ht'. apply list_lookup_fmap_Some in Ht' as (o' & -> & Ho').
      destruct (pp_tasks _ _ _ _ _ Hp i t Hi) as (o & Ho & Hok). simplify_eq.
      destruct (Forall_lookup_1 _ _ _ _ Hfin Hi) as [[ok| |] ->]; [|done..].
      destruct Hok as [_ Hok]. by rewrite Hok by (by exists (ro g), rest).
    + destruct (pp_in _ _ _ _ _ Hp _ _ Hin) as [fin ->]. by rewrite Hnr, drop_all.
Qed.
End theorem.
