(* ===== verification/GlobalServe.v ===== *)
(** * Served global requests

    The other side of [GlobalPipeline]: concurrent tasks that accept, decode
    and answer the messages of one control stream answer each once, in their
    order; and both sides together, so that every caller gets the answer to its
    own request. *)
From Stdlib Require Import ZArith Lia Strings.Byte Sorting.Sorted.
From stdpp Require Import base list strings gmap fin_maps relations sorting.
From S2P Require Import Prelude Wire Codec Message ChannelErrors Channel Global GlobalProofs.
From S2P Require Import GlobalPairs GlobalWake GlobalProps GlobalLive GlobalPipeline.
Local Open Scope Z_scope.
Local Open Scope io_scope.

(** ** What the handler does with a message *)

Definition asked (o : Op) : bool := bool_decide (is_Some (op_reply o)).

(** The reply of a request is its response. *)
Definition reply_ok (o : Op) (reply : Reply) : Prop :=
  match op_reply o, reply with
  | None, _ => True
  | Some (_, bs, _), (RespondSuccess m | RespondFailure m) => sends m bs
  | Some _, DropDecoded => False
  end.

(** [payload] is decoded, and [o] replied to. *)
Definition decodes (o : Op) (payload : list byte) (d : Decision) : Prop :=
  ∃ p reply, d = DecodePayload p ∧ reply_ok o reply ∧
    ∀ rest fin, p (MkReader (payload ++ rest) fin) = (MkReader rest fin, Some reply).

Definition served `{VarIntCodec} (handler : Handler) (o : Op) : Prop :=
  ∃ header payload name, op_bytes o = header ++ payload ∧
    reads accept_header_read header (name, asked o) ∧
    decodes o payload (handler name (asked o)).

(** ** The tasks that serve *)

Section serving.
Context `{VarIntCodec} (handler : Handler) (msgs : list Op) (out0 rest : list byte).

(** [so]: the messages in the order of the write tickets taken for their
    replies; [sw], [sr]: how many replies were written, how many headers read. *)
Record Served := MkServed { so : list nat; sw : nat; sr : nat }.

Definition remaining (n : nat) : list byte := concat (map op_bytes (drop n msgs)) ++ rest.
(** The requests among the first [n] messages. *)
Definition received (n : nat) : list nat := requests msgs (seq 0 n).

Definition replies (g : Served) (wt : Z) (m : WSection) : Prop :=
  ∃ k, ticket (so g) wt k ∧ sends m (op_in msgs k).
Definition serve_ok (g : Served) (t : Task) : Prop :=
  match t with
  | AcceptTake h | WaitReader _ _ (ForAccept h) | Read _ (ForAccept h) => h = handler
  | AcceptTakeWriter _ _ _ | Decode _ _ _ => True
  | ReadDrop _ next | ReadNotify next =>
    match next with ReadDone ok => ok = true | SendReply wt m => replies g wt m | AutoFailure _ => False end
  | WaitWriter wt _ m next | Write wt m next => next = WriteDone ∧ replies g wt m
  | WriteDrop _ ok next | WriteNotify ok next => ok = true ∧ next = WriteDone
  | Finished o => o = Returned true
  | _ => False
  end.

(** Between the header and the payload of a message. *)
Definition mid (t : Task) : bool :=
  match t with AcceptTakeWriter _ _ _ | Decode _ _ _ => true | _ => false end.
Definition mid_ok (g : Served) (r : Reader) (t : Task) : Prop :=
  match t with
  | AcceptTakeWriter x name h => ∃ o payload fin,
    msgs !! Z.to_nat x = Some o ∧ asked o = true ∧ decodes o payload (h name true) ∧
    r = MkReader (payload ++ remaining (sr g)) fin ∧ received (sr g) = so g ++ [Z.to_nat x]
  | Decode x wt d => ∃ o payload fin,
    msgs !! Z.to_nat x = Some o ∧ decodes o payload d ∧
    r = MkReader (payload ++ remaining (sr g)) fin ∧ received (sr g) = so g ∧
    match wt with Some wt => asked o = true ∧ ticket (so g) wt (Z.to_nat x) | None => asked o = false end
  | _ => True
  end.

Definition fresh (t : Task) : nat := match t with AcceptTake _ => 1 | _ => 0 end.

Record Serve (g : Served) (st : State) : Prop := {
  sv_writer : WriterOk (op_in msgs) out0 (so g) (sw g) (w_access st) (tasks st);
  sv_tasks i t : tasks st !! i = Some t → serve_ok g t;
  sv_fresh : next_ticket (r_access st) + Z.of_nat (sum_list_with fresh (tasks st))
    = Z.of_nat (length msgs);
  sv_count : count_ok r_done (current_serving (r_access st)) (sr g) (tasks st);
  sv_sound : poisoned (shared st) = false;
  sv_mid i t : tasks st !! i = Some t → mid t = true → mid_ok g (resource (r_access st)) t;
  sv_quiet : (∀ i t, tasks st !! i = Some t → mid t = false) →
    received (sr g) = so g ∧
    ∃ fin, resource (r_access st) = MkReader (remaining (sr g)) fin;
}.

Lemma serve_ok_extends g g' t : so g `prefix_of` so g' → serve_ok g t → serve_ok g' t.
Proof.
  intros Hp. assert (∀ wt m, replies g wt m → replies g' wt m) as Hr.
  { intros wt m (k & Ht & Hm). exists k. split; [by eapply ticket_extends|done]. }
  destruct t; simpl; try done; repeat case_match; naive_solver.
Qed.

Lemma serve_tasks_insert g g' (ts : list Task) i t' :
  (∀ j u, ts !! j = Some u → serve_ok g u) → so g `prefix_of` so g' → serve_ok g' t' →
  ∀ j u, <[i := t']> ts !! j = Some u → serve_ok g' u.
Proof.
  intros Hts Hp Ht j u [[<- [<- _]]|[Hj Hu]]%list_lookup_insert_Some; [done|].
  eapply serve_ok_extends; [exact Hp|by eapply Hts].
Qed.

(** Who holds the reader is alone between a header and a payload. *)
Lemma mid_alone k st i t :
  Inv k st → tasks st !! i = Some t → is_Some (r_holds t) →
  ∀ j u, j ≠ i → tasks st !! j = Some u → mid u = false.
Proof.
  intros Hinv Hi [x Hx] j u Hj Hu. destruct (mid u) eqn:Hm; [|done]. exfalso. apply Hj.
  destruct u; try done; (eapply holds_unique; [apply (inv_r _ _ Hinv)|exact Hu|exact Hi|done|exact Hx]).
Qed.

(** The steps away from the stream that is read. *)
Lemma serve_calm g n st i t t' s' :
  Serve g st → tasks st !! i = Some t →
  WriterOk (op_in msgs) out0 (so g) n (s_writer s') (<[i := t']> (tasks st)) →
  resource (s_reader s') = resource (s_reader (shared st)) →
  next_ticket (s_reader s') + Z.of_nat (fresh t') = next_ticket (s_reader (shared st)) + Z.of_nat (fresh t) →
  count_ok r_done (current_serving (s_reader s')) (sr g) (<[i := t']> (tasks st)) →
  poisoned s' = poisoned (shared st) → mid t = false → mid t' = false → serve_ok g t' →
  Serve (MkServed (so g) n (sr g)) (MkState s' (<[i := t']> (tasks st))).
Proof.
  intros [Hwr Ht Hf Hc Hs Hm Hq] Hi Hwr' Hr Hn Hc' Hps Hmt Hmt' Hok.
  split; unfold w_access, r_access in *; cbn [tasks shared so sw sr]; rewrite ?Hr, ?Hps; try done.
  - by eapply serve_tasks_insert.
  - pose proof (sum_list_with_insert fresh _ _ _ t' Hi). lia.
  - intros j u [[<- [<- _]]|[Hj Hu]]%list_lookup_insert_Some Hu'; [congruence|by apply (Hm j)].
  - intros Hquiet. apply Hq. intros j u Hu. destruct (decide (j = i)) as [->|Hj]; [by simplify_eq|].
    apply (Hquiet j). by rewrite list_lookup_insert_ne.
Qed.

Lemma count_same serving serving' n (ts : list Task) i t t' :
  count_ok r_done serving n ts → ts !! i = Some t → serving' = serving →
  r_done t = None → r_done t' = None → count_ok r_done serving' n (<[i := t']> ts).
Proof.
  intros Hc Hi -> Hd Hd'. eapply count_keep; [exact Hc|exact Hi|]. by rewrite Hd, Hd'.
Qed.

(** The header of the next message is read. *)
Lemma serve_read k g st i x handler' s' r' y :
  Forall (served handler) msgs →
  Inv k st → Serve g st → tasks st !! i = Some (Read x (ForAccept handler')) →
  r_section accept_header_read (resource (s_reader (shared st))) = (r', y) →
  s_reader s' = set_resource r' (s_reader (shared st)) →
  s_writer s' = s_writer (shared st) → poisoned s' = poisoned (shared st) →
  ∃ name want, y = Some (name, want) ∧
    let t' := if want : bool then AcceptTakeWriter x name handler' else Decode x None (handler' name false) in
    Serve (MkServed (so g) (sw g) (S (sr g))) (MkState s' (<[i := t']> (tasks st))).
Proof.
  intros Hmsgs Hinv [Hwr Ht Hf Hc Hs Hm Hq] Hi Hread Hr Hw Hps.
  pose proof (Ht i _ Hi) as Hh. cbn in Hh. subst handler'.
  assert (Hquiet : ∀ j u, tasks st !! j = Some u → mid u = false).
  { intros j u Hu. destruct (decide (j = i)) as [->|Hj]; [by simplify_eq|].
    eapply (mid_alone _ _ _ _ Hinv Hi); [by eexists|exact Hj|exact Hu]. }
  destruct (Hq Hquiet) as [Hrec [fin Hbuf]]. unfold w_access, r_access in *.
  destruct (ti_holds _ _ _ _ _ _ (inv_r _ _ Hinv) i _ x Hi eq_refl) as [Hserv Hin].
  destruct (ti_own _ _ _ _ _ _ (inv_r _ _ Hinv) i _ x Hi Hin) as [Hrange _].
  pose proof (count_none _ _ _ r_done_holds _ _ _ _ _ _ _ (inv_r _ _ Hinv) Hc Hi
    ltac:(by eexists) eq_refl) as Hcount.
  unfold r_access in *. assert (Hx : Z.to_nat x = sr g) by lia.
  destruct (lookup_lt_is_Some_2 msgs (sr g) ltac:(lia)) as [o Ho].
  destruct (Forall_lookup_1 _ _ _ _ Hmsgs Ho) as (header & payload & name & Hbytes & Hhead & Hdec).
  unfold remaining in Hbuf. rewrite (drop_S _ _ _ Ho) in Hbuf. simpl in Hbuf.
  rewrite Hbytes, <- !app_assoc in Hbuf. unfold r_section in Hread. rewrite Hbuf, Hhead in Hread.
  injection Hread as <- <-. exists name, (asked o). split; [done|]. cbv zeta.
  assert (Hreq : received (S (sr g)) = so g ++ (if asked o then [sr g] else [])).
  { unfold received. rewrite seq_S, requests_snoc. unfold received in Hrec. rewrite Hrec. f_equal.
    unfold asked. case_bool_decide as Ha;
      [rewrite decide_True; [done|]|rewrite decide_False; [done|]]; unfold asks; cbn [Nat.add]; by rewrite Ho. }
  set (t' := if asked o then _ else _).
  assert (Ht' : is_Some (r_done t') ∧ w_done t' = None ∧ fresh t' = 0%nat ∧ mid t' = true ∧
    serve_ok (MkServed (so g) (sw g) (S (sr g))) t')
    by (unfold t'; destruct (asked o); split_and!; try done; by eexists).
  destruct Ht' as (Hrd & Hwd & Hfr & Hmt & Hok).
  split; unfold w_access, r_access; cbn [tasks shared so sw sr]; rewrite ?Hr, ?Hw, ?Hps;
    cbn [resource next_ticket current_serving set_resource]; try done.
  - by eapply writer_keep.
  - by eapply serve_tasks_insert.
  - pose proof (sum_list_with_insert fresh _ _ _ t' Hi) as Hsum. cbn in Hsum. lia.
  - eapply count_run; [exact r_done_holds|apply (inv_r _ _ Hinv)|exact Hc|exact Hi|by eexists|done|done].
  - intros j u [[<- [<- _]]|[Hj Hu]]%list_lookup_insert_Some Hmu; [|by rewrite (Hquiet j u Hu) in Hmu].
    unfold t'. destruct (asked o) eqn:Ha; cbn [mid_ok sr so]; rewrite Hx; exists o, payload, fin.
    + by rewrite Hreq.
    + by rewrite Hreq, app_nil_r.
  - intros Hall. by rewrite (Hall i t') in Hmt by (by eapply list_lookup_insert_eq, lookup_lt_Some).
Qed.

(** The write ticket of the reply is taken while the reader is held. *)
Lemma serve_take k g st i x name h s' :
  Inv k st → k + 1 < U64_MOD → Serve g st → tasks st !! i = Some (AcceptTakeWriter x name h) →
  s_writer s' = (take_ticket (s_writer (shared st))).2 →
  s_reader s' = s_reader (shared st) → poisoned s' = poisoned (shared st) →
  Serve (MkServed (so g ++ [Z.to_nat x]) (sw g) (sr g)) (MkState s'
    (<[i := Decode x (Some (next_ticket (s_writer (shared st)))) (h name true)]> (tasks st))).
Proof.
  intros Hinv Hk [Hwr Ht Hf Hc Hs Hm Hq] Hi Hw Hr Hps.
  pose proof (inv_next _ _ Hinv) as [Hk1 _]. pose proof (wk_next _ _ _ _ _ _ Hwr) as Hn.
  destruct (Hm i _ Hi eq_refl) as (o & payload & fin & Ho & Ha & Hdec & Hbuf & Hrec).
  unfold w_access, r_access in *.
  split; unfold w_access, r_access; cbn [tasks shared so sw sr]; rewrite ?Hr, ?Hw, ?Hps; try done.
  - by eapply writer_take; [apply Hinv|exact Hwr|exact Hi|unfold w_access; lia|..].
  - eapply serve_tasks_insert; [exact Ht|by apply prefix_app_r|done].
  - pose proof (sum_list_with_insert fresh _ _ _
      (Decode x (Some (next_ticket (s_writer (shared st)))) (h name true)) Hi) as Hsum. cbn in Hsum. lia.
  - by eapply count_keep; [exact Hc|exact Hi|].
  - intros j u [[<- [<- _]]|[Hj Hu]]%list_lookup_insert_Some Hmu.
    + exists o, payload, fin. split_and!; try done. rewrite Hn. apply ticket_last.
    + by rewrite (mid_alone _ _ _ _ Hinv Hi (ltac:(by eexists)) j u (not_eq_sym Hj) Hu) in Hmu.
  - intros Hall. assert (Hi' := Hall i). rewrite list_lookup_insert_eq in Hi' by (by eapply lookup_lt_Some).
    by specialize (Hi' _ eq_refl).
Qed.

(** The payload is read, and what follows is the reply of a request. *)
Lemma serve_decode k g st i x wt payload s' r' y :
  Inv k st → Serve g st → tasks st !! i = Some (Decode x wt (DecodePayload payload)) →
  payload (resource (s_reader (shared st))) = (r', y) →
  s_reader s' = set_resource r' (s_reader (shared st)) →
  s_writer s' = s_writer (shared st) → poisoned s' = poisoned (shared st) →
  ∃ reply, y = Some reply ∧
    Serve g (MkState s' (<[i := ReadDrop x (reply_next wt reply)]> (tasks st))).
Proof.
  intros Hinv [Hwr Ht Hf Hc Hs Hm Hq] Hi Hread Hr Hw Hps.
  destruct (Hm i _ Hi eq_refl) as (o & bs & fin & Ho & (p & reply & Hp & Hok & Hdec) & Hbuf & Hrec & Hwt).
  injection Hp as ->. unfold w_access, r_access in *. rewrite Hbuf, Hdec in Hread. injection Hread as <- <-.
  exists reply. split; [done|].
  pose proof (mid_alone _ _ _ _ Hinv Hi (ltac:(by eexists))) as Halone.
  split; unfold w_access, r_access; cbn [tasks shared]; rewrite ?Hr, ?Hw, ?Hps;
    cbn [resource next_ticket current_serving set_resource]; try done.
  - by eapply writer_keep.
  - eapply serve_tasks_insert; [exact Ht|done|]. simpl. unfold reply_next.
    destruct wt as [wt|]; [|done]. destruct Hwt as [Ha Hwt].
    unfold asked in Ha. apply bool_decide_eq_true in Ha as [[[resp f] acc] Hf'].
    unfold reply_ok in Hok. rewrite Hf' in Hok.
    destruct reply; [| |done]; (exists (Z.to_nat x); split; [done|]; unfold op_in; rewrite Ho; simpl;
      by rewrite Hf').
  - pose proof (sum_list_with_insert fresh _ _ _ (ReadDrop x (reply_next wt reply)) Hi) as Hsum.
    cbn in Hsum. lia.
  - by eapply count_keep; [exact Hc|exact Hi|].
  - intros j u [[<- [<- _]]|[Hj Hu]]%list_lookup_insert_Some Hmu; [done|].
    by rewrite (Halone j u (not_eq_sym Hj) Hu) in Hmu.
  - intros _. split; [done|]. by exists fin.
Qed.

(** The steps of a task on its way to the writer and back. *)
Lemma serve_writer_step k g i st t t' s' :
  Good k st → k + 1 < U64_MOD → Serve g st → tasks st !! i = Some t →
  step_task i t (shared st) = Some (t', s') →
  match t with WaitWriter _ _ _ _ | Write _ _ _ | WriteDrop _ _ _ | WriteNotify _ _ => True | _ => False end →
  ∃ g', Serve g' (MkState s' (<[i := t']> (tasks st))).
Proof.
  intros [Hinv _ _ Hlive] Hk Hsv Hi Hs Ht.
  pose proof (sv_tasks _ _ Hsv i t Hi) as Hok. pose proof (sv_sound _ _ Hsv) as Hsound.
  pose proof (lv_answering _ Hlive i _ Hi) as Hans. pose proof (lv_auto _ Hlive) as Hauto.
  pose proof (inv_next _ _ Hinv) as [Hk1 _]. pose proof (sv_writer _ _ Hsv) as Hwr.
  pose proof (sv_count _ _ Hsv) as Hc. unfold w_access, r_access in *.
  destruct t as [| | | | | |wt a message next|wt message next| |wt ok next|ok next| | | | | | | | | |]; try done.
  - (* WaitWriter *)
    assert (serve_ok g t' ∧ mid t' = false ∧ fresh t' = 0%nat ∧ w_done t' = None ∧ r_done t' = None ∧
      same_access (s_writer (shared st)) (s_writer s') ∧ s_reader s' = s_reader (shared st) ∧
      poisoned s' = poisoned (shared st) ∧ w_done (WaitWriter wt a message next) = None)
      as (Hok' & Hm' & Hf' & Hw' & Hr' & Hsw & Hsr & Hp' & Hwd).
    { step_cases Hs; try done. }
    eexists. eapply serve_calm; [exact Hsv|exact Hi|..]; try done.
    + by eapply writer_keep.
    + by rewrite Hsr.
    + rewrite Hsr, Hf'. cbn [fresh]. lia.
    + eapply count_same; [exact Hc|exact Hi|by rewrite Hsr|done|done].
  - (* Write *)
    destruct Hok as [-> (j & Hj & Hsend)]. simpl in Hs.
    destruct (message (resource (s_writer (shared st)))) as [w' ok] eqn:Hm.
    destruct (writer_write _ _ _ _ _ _ _ _ (WriteDrop wt true WriteDone) _ _ _ _ _ _ (inv_w _ _ Hinv) Hwr Hi
      eq_refl eq_refl ltac:(by eexists) Hj Hsend Hm) as [Hok' Hwr']. subst ok. injection Hs as <- <-.
    eexists. eapply serve_calm; [exact Hsv|exact Hi|exact Hwr'|..]; try done. by eapply count_same.
  - (* WriteDrop *)
    destruct Hok as [-> ->]. simpl in Hs. injection Hs as <- <-.
    eexists. eapply serve_calm; [exact Hsv|exact Hi|..]; try done; [|by eapply count_same].
    by eapply writer_release; [apply Hinv|exact Hwr|exact Hi|unfold w_access; lia|eexists|].
  - (* WriteNotify *)
    destruct Hok as [-> ->]. simpl in Hs. injection Hs as <- <-.
    eexists. eapply serve_calm; [exact Hsv|exact Hi|..]; try done; [by eapply writer_keep|by eapply count_same].
Qed.

(** Those of a task around its turn on the reader. *)
Lemma serve_turn_step k g i st t t' s' :
  Good k st → k + 1 < U64_MOD → Serve g st → tasks st !! i = Some t →
  step_task i t (shared st) = Some (t', s') →
  match t with AcceptTake _ | WaitReader _ _ _ | ReadDrop _ _ | ReadNotify _ => True | _ => False end →
  ∃ g', Serve g' (MkState s' (<[i := t']> (tasks st))).
Proof.
  intros [Hinv _ _ Hlive] Hk Hsv Hi Hs Ht.
  pose proof (sv_tasks _ _ Hsv i t Hi) as Hok. pose proof (sv_sound _ _ Hsv) as Hsound.
  pose proof (inv_next _ _ Hinv) as [_ Hk2]. pose proof (sv_writer _ _ Hsv) as Hwr.
  pose proof (sv_count _ _ Hsv) as Hc. pose proof (ti_bounds _ _ _ _ _ _ (inv_r _ _ Hinv)) as Hbr.
  unfold w_access, r_access in *.
  destruct t as [| | | | |h| | | | | |x a what| | | | |x next|next| | |]; try done.
  - (* AcceptTake *)
    simpl in Hs. injection Hs as <- <-. eexists. eapply serve_calm; [exact Hsv|exact Hi|..]; try done.
    + by eapply writer_keep.
    + cbn [take_ticket snd next_ticket s_reader upd_reader fresh]. rewrite wrap_u64_small by lia. lia.
    + by eapply count_same.
  - (* WaitReader *)
    destruct what as [?|h]; [done|].
    assert (serve_ok g t' ∧ mid t' = false ∧ fresh t' = 0%nat ∧ w_done t' = None ∧ r_done t' = None ∧ s' = shared st)
      as (Hok' & Hm' & Hf' & Hw' & Hr' & ->).
    { step_cases Hs; done. }
    eexists. eapply serve_calm; [exact Hsv|exact Hi|..]; try done; [by eapply writer_keep|by rewrite Hf'|].
    by eapply count_same.
  - (* ReadDrop *)
    simpl in Hs. injection Hs as <- <-. eexists. eapply serve_calm; [exact Hsv|exact Hi|..]; try done.
    + by eapply writer_keep.
    + cbn [s_reader upd_reader advance_serving current_serving]. rewrite wrap_u64_small by lia.
      by eapply count_release; [exact r_done_holds|apply (inv_r _ _ Hinv)|exact Hc|exact Hi|eexists|].
  - (* ReadNotify *)
    simpl in Hs. injection Hs as <- <-.
    assert (serve_ok g (after_read next) ∧ mid (after_read next) = false ∧ fresh (after_read next) = 0%nat ∧
      w_done (after_read next) = None ∧ r_done (after_read next) = None) as (Hok' & Hm' & Hf' & Hw' & Hr').
    { destruct next as [ok|wt m|wt]; simpl in *; [by subst ok|by split_and!|done]. }
    eexists. eapply serve_calm; [exact Hsv|exact Hi|..]; try done; [by eapply writer_keep|by rewrite Hf'|].
    by eapply count_same.
Qed.

Lemma serve_step k g i st :
  Forall (served handler) msgs →
  Good k st → k + 1 < U64_MOD → Serve g st → ∃ g', Serve g' (step i st).
Proof.
  intros Hmsgs Hgood Hk Hsv. unfold step, event.
  destruct (tasks st !! i) as [t|] eqn:Hi; [|by exists g]. cbn [act_task].
  destruct (step_task i t (shared st)) as [[t' s']|] eqn:Hs; [|by exists g].
  pose proof (sv_tasks _ _ Hsv i t Hi) as Hok. pose proof (gd_inv _ _ Hgood) as Hinv.
  destruct t as [| | | | | | | | | | | |x what|x name h|x wt decision| | | | | |]; try done;
    try (by eapply serve_writer_step); try (by eapply serve_turn_step).
  - (* Read *)
    destruct what as [?|h]; [done|]. simpl in Hs.
    destruct (r_section accept_header_read (resource (s_reader (shared st)))) as [r' y] eqn:Hr.
    destruct (serve_read k g st i x h (log_read x (upd_reader (set_resource r') (shared st))) r' y
      Hmsgs Hinv Hsv Hi Hr eq_refl eq_refl eq_refl) as (name & want & -> & Hg).
    destruct want; injection Hs as <- <-; by eexists.
  - (* AcceptTakeWriter *)
    simpl in Hs. injection Hs as <- <-. eexists. by eapply serve_take.
  - (* Decode *)
    destruct (sv_mid _ _ Hsv i _ Hi eq_refl) as (o & bs & fin & _ & (p & reply & -> & _) & _).
    simpl in Hs. destruct (p (resource (s_reader (shared st)))) as [r' y] eqn:Hr.
    destruct (serve_decode k g st i x wt p (upd_reader (set_resource r') (shared st)) r' y
      Hinv Hsv Hi Hr eq_refl eq_refl eq_refl) as (reply' & -> & Hg).
    injection Hs as <- <-. by eexists.
Qed.

Lemma serve_run schedule k g st :
  Forall (served handler) msgs → Good k st → 0 ≤ k → k + Z.of_nat (length schedule) < U64_MOD →
  Serve g st → ∃ g', Serve g' (run schedule st).
Proof.
  intros Hmsgs. revert k g st. induction schedule as [|i schedule IH]; intros k g st Hst Hk Hlen Hs; [by exists g|].
  change (run (i :: schedule) st) with (run schedule (step i st)). cbn [length] in Hlen.
  destruct (serve_step k g i st Hmsgs Hst ltac:(lia) Hs) as [g' Hs'].
  apply (IH (k + 1) g'); [|lia|lia|done]. apply good_step; [done|lia].
Qed.

Definition serving_tasks : list Task := replicate (length msgs) (accept_global_request handler).

Lemma serve_initial r w :
  wr_plan w = [] → wr_out w = out0 → rd_buf r = concat (map op_bytes msgs) ++ rest →
  Serve (MkServed [] 0 0) (initial r w serving_tasks).
Proof.
  intros Hp Ho Hb.
  assert (Ht : ∀ i t, serving_tasks !! i = Some t → t = AcceptTake handler).
  { intros i t Hi. by apply lookup_replicate in Hi as [-> _]. }
  assert (Hc : ∀ d, d (AcceptTake handler) = None → count_ok d 0 0 serving_tasks).
  { intros d Hd. left. split; [done|]. intros i t Hi. by rewrite (Ht i t Hi). }
  split; simpl; unfold w_access, r_access; simpl; try done.
  - split; simpl; [done|done|by rewrite Ho, app_nil_r|by apply Hc].
  - intros i t Hi. by rewrite (Ht i t Hi).
  - unfold serving_tasks. clear. induction (length msgs) as [|n IH]; simpl in *; lia.
  - by apply Hc.
  - intros i t Hi Hm. by rewrite (Ht i t Hi) in Hm.
  - intros _. split; [done|]. exists (rd_end r). unfold remaining. rewrite drop_0, <- Hb. by destruct r.
Qed.

(** When all have finished, every message was read and every request answered. *)
Lemma serve_finished k g st :
  Good k st → Serve g st → Forall (λ t, ∃ o, t = Finished o) (tasks st) →
  sw g = length (so g) ∧ so g = requests msgs (seq 0 (length msgs)) ∧
  (∃ fin, resource (r_access st) = MkReader rest fin) ∧
  Forall (λ t, t = Finished (Returned true)) (tasks st).
Proof.
  intros Hst Hs Hfin. pose proof (gd_inv _ _ Hst) as Hinv. pose proof (gd_live _ _ Hst) as Hlive.
  assert (Hf : ∀ i t, tasks st !! i = Some t → ∃ o, t = Finished o)
    by (intros; by eapply (Forall_lookup_1 (λ t, ∃ o, t = Finished o))).
  destruct (all_served st Hlive (sv_sound _ _ Hs) Hf) as [Hw Hr].
  destruct (sv_writer _ _ Hs) as [Hn1 _ _ Hnw].
  pose proof (ti_bounds _ _ _ _ _ _ (inv_w _ _ Hinv)). pose proof (ti_bounds _ _ _ _ _ _ (inv_r _ _ Hinv)).
  assert (Hnone : ∀ d n serving, (∀ o, d (Finished o) = None) →
    count_ok d serving n (tasks st) → Z.of_nat n = serving).
  { intros d n serving Hd [[? _]|(_ & i & t & Hi & x & Hx)]; [done|].
    destruct (Hf i t Hi) as [? ->]. by rewrite Hd in Hx. }
  apply (Hnone w_done _ _ (λ _, eq_refl)) in Hnw.
  pose proof (Hnone r_done _ _ (λ _, eq_refl) (sv_count _ _ Hs)) as Hnr.
  assert (Hfresh : sum_list_with fresh (tasks st) = 0%nat).
  { clear -Hfin. induction Hfin as [|t ts [o ->] _ IH]; simpl; [done|]. by rewrite IH. }
  pose proof (sv_fresh _ _ Hs). assert (Hsr : sr g = length msgs) by lia.
  destruct (sv_quiet _ _ Hs) as [Hrec [fin Hbuf]]; [intros i t Hi; by destruct (Hf i t Hi) as [? ->]|].
  unfold received, remaining in *. rewrite Hsr in *. split_and!; [lia|done| |].
  - exists fin. by rewrite Hbuf, drop_all.
  - apply Forall_lookup_2. intros i t Hi. destruct (Hf i t Hi) as [o ->].
    pose proof (sv_tasks _ _ Hs i _ Hi) as Hok. simpl in Hok. by subst o.
Qed.
End serving.

Section theorem.
Context `{VarIntCodec}.

Lemma serving_start handler n :
  answers handler →
  Forall is_start (replicate n (accept_global_request handler)) ∧
  Forall answering (replicate n (accept_global_request handler)).
Proof. intros Ha. split; by apply Forall_replicate. Qed.

(** Accepting tasks read one message each and answer the requests in their
    order. *)
Lemma served_requests handler (msgs : list Op) (r : Reader) (w : Writer) rest (rounds : list (list nat)) :
  Forall (served handler) msgs → answers handler → wr_plan w = [] →
  rd_buf r = concat (map op_bytes msgs) ++ rest →
  let ts := replicate (length msgs) (accept_global_request handler) in
  fair_rounds ts rounds →
  let st := run (concat rounds) (initial r w ts) in
  Forall (λ t, t = Finished (Returned true)) (tasks st) ∧ rd_buf (resource (r_access st)) = rest ∧
  wr_out (resource (w_access st)) = wr_out w ++ concat (map op_frame msgs).
Proof.
  intros Hmsgs Ha Hplan Hbuf ts Hfair st. pose proof Hfair as (Hlen & _ & _).
  destruct (serving_start handler (length msgs) Ha) as [Hstart Hans].
  destruct (fair_run r w _ rounds Hstart Hans Hfair) as (Hfin & _ & k & Hgood). fold ts st in Hfin, Hgood.
  destruct (serve_run handler msgs (wr_out w) rest (concat rounds) 0 _ _ Hmsgs (good_initial r w _ Hstart Hans)
    ltac:(lia) ltac:(lia) (serve_initial handler msgs (wr_out w) rest r w Hplan eq_refl Hbuf)) as [g Hs].
  change (run _ _) with st in Hs.
  destruct (serve_finished handler msgs _ _ _ _ _ Hgood Hs Hfin) as (Hsw & Hso & [fin Hrest] & Hret).
  split; [done|]. split; [by rewrite Hrest|].
  rewrite (wk_out _ _ _ _ _ _ (sv_writer _ _ _ _ _ _ Hs)), Hsw, firstn_all, Hso, collect_in.
  f_equal. exact (f_equal (λ l, concat (map op_frame l)) (collect_seq msgs [])).
Qed.

(** C3: Concurrent callers get the answers to their own requests. One side sends
    any requests and notifications from concurrent tasks, the other serves them
    from as many tasks, each in any fair interleaving. Then the messages are
    written in some order, each once and as a whole; the server reads every one
    of them, decodes it, and answers the requests, and only them, in that
    order; and from these answers every caller reads exactly the one to its own
    request and returns what it says, and nothing is left over on either
    stream. *)
Theorem global_calls_answered (ops : list Op) (handler : Handler) (r rs : Reader) (w ws : Writer)
    (callers servers : list (list nat)) :
  Forall op_ok ops → Forall (served handler) ops → answers handler →
  wr_plan w = [] → wr_plan ws = [] →
  let serving := replicate (length ops) (accept_global_request handler) in
  fair_rounds (map op_task ops) callers → fair_rounds serving servers →
  let client := run (concat callers) (initial r w (map op_task ops)) in
  let server := run (concat servers) (initial rs ws serving) in
  ∃ msgs, msgs ≡ₚ ops ∧
    wr_out (resource (w_access client)) = wr_out w ++ concat (map op_bytes msgs) ∧
    ∀ rest, rd_buf rs = concat (map op_bytes msgs) ++ rest →
      Forall (λ t, t = Finished (Returned true)) (tasks server) ∧
      rd_buf (resource (r_access server)) = rest ∧
      wr_out (resource (w_access server)) = wr_out ws ++ concat (map op_frame msgs) ∧
      ∀ rest', rd_buf r = concat (map op_frame msgs) ++ rest' →
        tasks client = map (λ o, Finished (Returned (op_result o))) ops ∧
        rd_buf (resource (r_access client)) = rest'.
Proof.
  intros Hops Hserved Ha Hp Hps serving Hfair Hfairs client server.
  destruct (pipelined_requests ops r w callers Hops Hp Hfair) as (msgs & Hperm & Hout & Hin).
  exists msgs. split; [done|]. split; [done|]. intros rest Hbuf.
  subst server serving. rewrite <- (Permutation_length Hperm) in Hfairs |- *.
  assert (Hserved' : Forall (served handler) msgs) by by rewrite Hperm.
  destruct (served_requests handler msgs rs ws rest servers Hserved' Ha Hps Hbuf Hfairs)
    as (Hret & Hrest & Hreplies).
  split; [done|]. split; [done|]. split; [done|]. exact Hin.
Qed.
End theorem.

(** ** The crate's own calls *)

Lemma writes_sends {E} (c : Io Writer E ()) bs : writes c bs () → sends (w_section c) bs.
Proof.
  intros Hc w Hw. destruct (writes_ok Hc w Hw) as (w' & Hr & Ho & Hp).
  exists w'. unfold w_section. by rewrite Hr.
Qed.

Section calls.
Context `{VarIntLaws}.

(** What a call is on the wire. *)
Definition call_header (name : SshString) (want : bool) : list byte :=
  msg SSH_MSG_GLOBAL_REQUEST ++ field_wire (ssh_string_bytes name) ++ [if want then x01 else x00].

Section request.
Context {Rq Su P : Type} {PEe PEd SEe SEd : Type}.
Context `{WantReplyGlobalRequest Rq Su P, !EncodeInto P PEe, !DecodeFrom P PEd, !WireFormat P,
          !EncodeInto Su SEe, !DecodeFrom Su SEd, !WireFormat Su}.

(** A request of type [Rq], and the answer it gets. *)
Definition answer_wire (answer : option Su) : list byte :=
  match answer with
  | Some s => msg SSH_MSG_REQUEST_SUCCESS ++ wire s
  | None => msg SSH_MSG_REQUEST_FAILURE
  end.
Definition request_op (rq : Rq) (answer : option Su) : Op :=
  MkOp (w_section (send_request_write (SE := SEd) rq))
    (call_header (global_request_type rq) true ++ wire (global_payload rq))
    (Some (r_section (send_request_read (Success := Su) (PE := PEe);;; io_ret ()), answer_wire answer,
           bool_decide (is_Some answer))).

Lemma request_op_task rq answer : op_task (request_op rq answer) = send_global_request rq.
Proof. done. Qed.

Lemma success_reads s : wire_ok s →
  reads (send_request_read (Success := Su) (PE := PEe)) (msg SSH_MSG_REQUEST_SUCCESS ++ wire s) s.
Proof.
  intros Hs rest fin. unfold send_request_read, msg. rewrite <- (assoc_L (++)).
  erewrite io_bind_ok; [|apply reads_map_err, decode_varint_reads; eauto with wire].
  eval_eqb. by apply reads_map_err, wire_decode.
Qed.
Lemma failure_reads rest fin :
  send_request_read (Success := Su) (PE := PEe) (MkReader (msg SSH_MSG_REQUEST_FAILURE ++ rest) fin)
  = (MkReader rest fin, Err send_request_error.Rejected).
Proof.
  unfold send_request_read, msg.
  erewrite io_bind_ok; [|apply reads_map_err, decode_varint_reads; eauto with wire].
  by eval_eqb.
Qed.

Lemma request_op_ok rq answer :
  ssh_string_ok (global_request_type rq) → wire_ok (global_payload rq) →
  (∀ s, answer = Some s → wire_ok s) → op_ok (request_op rq answer).
Proof.
  intros Hn Hp Ha. split.
  - apply writes_sends. unfold request_op, call_header. cbn [op_bytes]. rewrite <- !(assoc_L (++)).
    apply global_request_wire_writes; [done|by apply wire_encode].
  - intros rest fin. cbn [request_op]. unfold r_section, io_bind, answer_wire.
    destruct answer as [s|]; [by rewrite (success_reads s (Ha s eq_refl))|by rewrite failure_reads].
Qed.

(** A handler that decodes the payload and answers. *)
Definition answering_handler (answer : P → option Su) : Decision :=
  DecodePayload (r_section (let! p := decode_from P in
    io_ret (match answer p with Some s => respond_success s | None => respond_failure end))).

Lemma request_served handler rq answer :
  ssh_string_ok (global_request_type rq) → wire_ok (global_payload rq) →
  (∀ s, answer (global_payload rq) = Some s → wire_ok s) →
  handler (global_request_type rq) true = answering_handler answer →
  served handler (request_op rq (answer (global_payload rq))).
Proof.
  intros Hn Hp Ha Hh. eexists _, _, (global_request_type rq). split; [reflexivity|].
  split; [by apply (accept_header_reads _ true)|].
  change (asked _) with true. rewrite Hh.
  eexists _, (match answer (global_payload rq) with Some s => respond_success s | None => respond_failure end).
  split; [reflexivity|]. split.
  - unfold reply_ok. cbn [request_op op_reply]. unfold answer_wire.
    destruct (answer (global_payload rq)) as [s|]; apply writes_sends.
    + apply respond_success_write_writes, wire_encode. by apply Ha.
    + apply respond_failure_write_writes.
  - intros rest fin. unfold r_section, io_bind. by rewrite (wire_decode _ Hp).
Qed.
End request.

Section notification.
Context {N P : Type} {PEe PEd : Type}.
Context `{NotifyGlobalRequest N P, !EncodeInto P PEe, !DecodeFrom P PEd, !WireFormat P}.

Definition notification_op (n : N) : Op :=
  MkOp (w_section (send_notification_write n))
    (call_header (global_notice_type n) false ++ wire (global_notice_payload n)) None.

Lemma notification_op_task n : op_task (notification_op n) = send_global_notification n.
Proof. done. Qed.

Lemma notification_op_ok n :
  ssh_string_ok (global_notice_type n) → wire_ok (global_notice_payload n) → op_ok (notification_op n).
Proof.
  intros Hn Hp. split; [|done]. apply writes_sends. unfold notification_op, call_header, msg. cbn [op_bytes].
  rewrite <- !(assoc_L (++)). unfold send_notification_write.
  eapply writes_bind; [eauto with wire|]. eapply writes_bind; [eauto with wire|].
  eapply writes_bind; [apply writes_map_err, (encode_bool_writes false)|]. solve_writes.
Qed.

Lemma notification_served handler n (reply : P → Reply) :
  ssh_string_ok (global_notice_type n) → wire_ok (global_notice_payload n) →
  handler (global_notice_type n) false
    = DecodePayload (r_section (let! p := decode_from P in io_ret (reply p))) →
  served handler (notification_op n).
Proof.
  intros Hn Hp Hh. eexists _, _, (global_notice_type n). split; [reflexivity|].
  split; [by apply (accept_header_reads _ false)|].
  change (asked _) with false. rewrite Hh. eexists _, (reply (global_notice_payload n)).
  split; [reflexivity|]. split; [done|].
  intros rest fin. unfold r_section, io_bind. by rewrite (wire_decode _ Hp).
Qed.
End notification.
End calls.

(** ** Witness *)

#[local] Existing Instance quic_varint.
#[local] Existing Instance quic_varint_laws.

(** Two requests at once, granted by two tasks. *)
Definition ping_granted : Op := request_op ping (Some (MkSshBool true)).
Definition granting : Handler := λ _ _, answering_handler (λ _ : SshBytes, Some (MkSshBool true)).

Lemma granting_answers : answers granting.
Proof.
  intros name payload r r' [= <-]. unfold r_section, io_bind.
  destruct (decode_from SshBytes r) as [r1 [p|e|]]; discriminate.
Qed.
Lemma ping_ok : ssh_string_ok (global_request_type ping) ∧ wire_ok (global_payload ping).
Proof. split; [by apply from_static_ok|vm_compute; congruence]. Qed.
Lemma ping_granted_ok : op_ok ping_granted ∧ served granting ping_granted.
Proof.
  destruct ping_ok as [Hn Hp]. split; [by apply request_op_ok|].
  by apply (request_served granting ping (λ _, Some (MkSshBool true))).
Qed.

Definition two_pings : list Op := [ping_granted; ping_granted].
Definition both_requests : list byte := concat (map op_bytes two_pings).
Definition both_responses : list byte := concat (map op_frame two_pings).
Definition two_serving : list Task := replicate 2 (accept_global_request granting).

Lemma global_calls_answered_witness :
  let client := run (concat (round_robin (map op_task two_pings)))
    (initial (MkReader both_responses None) new_writer (map op_task two_pings)) in
  let server := run (concat (round_robin two_serving))
    (initial (MkReader both_requests None) new_writer two_serving) in
  wr_out (resource (w_access client)) = both_requests ∧
  wr_out (resource (w_access server)) = both_responses ∧
  Forall (λ t, t = Finished (Returned true)) (tasks server) ∧
  tasks client = [Finished (Returned true); Finished (Returned true)] ∧
  rd_buf (resource (r_access client)) = [] ∧ rd_buf (resource (r_access server)) = [].
Proof.
  destruct ping_granted_ok as [Hok Hserved].
  assert (fair_rounds (map op_task two_pings) (round_robin (map op_task two_pings))) as Hc
    by (apply round_robin_fair; vm_compute; reflexivity).
  assert (fair_rounds two_serving (round_robin two_serving)) as Hs
    by (apply round_robin_fair; vm_compute; reflexivity).
  intros client server.
  destruct (global_calls_answered two_pings granting (MkReader both_responses None)
    (MkReader both_requests None) new_writer new_writer _ _ (Forall_replicate op_ok 2 _ Hok)
    (Forall_replicate (served granting) 2 _ Hserved) granting_answers eq_refl eq_refl Hc Hs) as (msgs & Hm & Ho & Hserver).
  assert (msgs = two_pings) as ->
    by (symmetry in Hm; apply Permutation_length_2_inv in Hm as [-> | ->]; reflexivity).
  destruct (Hserver [] eq_refl) as (Hret & Hrest & Hreplies & Hclient).
  destruct (Hclient [] eq_refl) as [Hres Hrest'].
  split; [exact Ho|]. split; [exact Hreplies|]. split; [exact Hret|].
  split; [exact Hres|]. split; [exact Hrest'|exact Hrest].
Defined.
