(* ===== verification/WireTypes.v ===== *)
(** * What a peer can put into the program

    Whatever bytes arrive, a decoder that returns at all returns a value of the
    format: strings are valid UTF-8 and of bounded length, byte strings are
    bounded, integers are those a [VarInt] can hold. *)
From Stdlib Require Import ZArith Lia Strings.Byte.
From stdpp Require Import base list strings gmap fin_maps relations.
From S2P Require Import Prelude Wire Codec Message ChannelErrors Channel SessionMsg ForwardMsg.
From S2P Require Import Conversation Global.
Local Open Scope Z_scope.
Local Open Scope io_scope.

(** ** What a computation can return *)

Definition yields {S E A} (c : Io S E A) (P : A → Prop) : Prop :=
  ∀ s s' a, c s = (s', Ok a) → P a.

Create HintDb typed discriminated.

Lemma yields_ret {S E A} (a : A) (P : A → Prop) : P a → yields (S := S) (E := E) (io_ret a) P.
Proof. intros Hp s s' a'. unfold io_ret. intros. by simplify_eq. Qed.

Lemma yields_fail {S E A} (e : E) (P : A → Prop) : yields (S := S) (io_fail e) P.
Proof. intros s s' a. unfold io_fail. intros. by simplify_eq. Qed.

Lemma yields_bind {S E A B} (c : Io S E A) (k : A → Io S E B) P Q :
  yields c P → (∀ a, P a → yields (k a) Q) → yields (io_bind c k) Q.
Proof.
  intros Hc Hk s s' b (s1 & a & Hr & Hb)%io_bind_inv_ok. eapply Hk; [|exact Hb]. by eapply Hc.
Qed.

Lemma yields_map_err {S E E' A} (c : Io S E A) (f : E → E') P : yields c P → yields (c <?> f) P.
Proof. intros Hc s s' a Hr%map_err_inv_ok. by eapply Hc. Qed.

Lemma yields_on_bi_reader {E A} (c : Io Reader E A) P : yields c P → yields (on_bi_reader c) P.
Proof.
  intros Hc [r w] [r' w'] a. unfold on_bi_reader, io_zoom. simpl.
  destruct (c r) as [r1 x] eqn:Hr. intros. simplify_eq. by eapply Hc.
Qed.

Lemma yields_with_reader {E A} (c : Io Reader E A) P : yields c P → yields (with_reader c) P.
Proof.
  intros Hc ch ch' a. unfold with_reader, io_zoom. destruct (c (reader ch)) as [r1 x] eqn:Hr.
  intros. simplify_eq. by eapply Hc.
Qed.
#[export] Hint Resolve yields_fail yields_map_err yields_on_bi_reader yields_with_reader : typed.

(** Decoders step by step; each value comes with its type. *)
Ltac solve_typed :=
  repeat first
    [ apply yields_ret; simpl in *; tauto
    | eapply yields_bind; [solve [eauto 4 with typed]|intros ? ?]
    | case_match
    | solve [eauto 4 with typed] ].

Section types.
Context `{VarIntLaws}.

Lemma varint_typed : yields (decode_from Z) varint_ok.
Proof. exact varint_read_range. Qed.

Lemma ssh_string_typed : yields (decode_from SshString) ssh_string_ok.
Proof. intros r r' s Hd. by destruct (ssh_string_decode_sound r r' s Hd) as (? & ? & _). Qed.

Lemma ssh_bytes_typed :
  yields (decode_from SshBytes) (λ b, byte_len (ssh_bytes b) ≤ MAX_REMOTE_FIELD_SIZE).
Proof.
  unfold decode_from, SshBytes_decode_from. intros r r' b Hd. io_inv. simpl.
  match goal with Hl : checked_remote_field_len _ _ = _ |- _ =>
    apply checked_remote_field_len_ok in Hl as [-> ?] end.
  match goal with Hr : read_exact _ _ = _ |- _ => apply read_exact_inv_ok in Hr as (_ & _ & Hn) end.
  match goal with Hv : decode_from Z _ = _ |- _ => apply varint_read_range in Hv as [? _] end.
  unfold byte_len. lia.
Qed.

Lemma ssh_bool_typed : yields (decode_from SshBool) (λ _, True).
Proof. by intros ? ? ?. Qed.
End types.
#[export] Hint Resolve varint_typed ssh_string_typed ssh_bytes_typed ssh_bool_typed : typed.

(** A payload whose decoder only returns values of the format: they can be
    encoded again, and the peer reads back the same. *)
Definition well_typed (T : Type) {Ee Ed} `{WireFormat T Ee Ed} : Prop :=
  ∀ (r r' : Reader) (x : T), decode_from T r = (r', Ok x) → wire_ok x ∧
  ∀ w, wr_plan w = [] → ∃ w', encode_into x w = (w', Ok ()) ∧ wr_out w' = wr_out w ++ wire x ∧
    ∀ rest fin, decode_from T (MkReader (wire x ++ rest) fin) = (MkReader rest fin, Ok x).
Arguments well_typed T {_ _ _ _ _}.

Lemma well_typed_of {T Ee Ed} `{WireFormat T Ee Ed} :
  yields (decode_from T) wire_ok → well_typed T.
Proof.
  intros Ht r r' x Hd. assert (wire_ok x) as Hx by (by eapply Ht). split; [done|].
  intros w Hw. destruct (wire_roundtrips x w Hx Hw) as (w' & ? & ? & ? & _). by exists w'.
Qed.

Ltac solve_well_typed :=
  apply well_typed_of; cbn [wire_ok];
  lazymatch goal with |- yields (@decode_from _ _ ?i) ?P =>
    let h := term_head i in change (yields i P); unfold h; solve_typed end.

(** What the headers of the protocol give to the program. *)
Definition event_typed (ev : ChannelEvent) : Prop :=
  match ev with
  | channel_event.Data d => varint_ok (remaining d)
  | channel_event.ExtendedData t d => varint_ok t ∧ varint_ok (remaining d)
  | channel_event.Request rq => ssh_string_ok (request_type rq)
  | _ => True
  end.
Definition reader_event_typed (ev : ReaderEvent) : Prop :=
  match ev with
  | reader_event.Data d => varint_ok (remaining d)
  | reader_event.ExtendedData t d => varint_ok t ∧ varint_ok (remaining d)
  | reader_event.Notice n => ssh_string_ok (notice_type n)
  | _ => True
  end.

Section properties.
Context `{VarIntLaws}.

(** C25: Whatever bytes a peer sends and wherever they end, what the program gets
    from them is of its type. Each of the session and forwarding payloads that
    is accepted has valid, bounded strings and integers below [2^62], so that
    it can be encoded again and is read back as itself; so are the names and
    lengths of the events of a channel, of a channel's opening and of a
    global request. *)
Theorem decoded_well_typed :
  (well_typed ExecRequest ∧ well_typed SubsystemRequest ∧ well_typed ExitStatusRequest ∧
   well_typed ExitSignalRequest ∧ well_typed PtyRequest ∧ well_typed WindowChangeRequest ∧
   well_typed SignalRequest ∧ well_typed EnvRequest) ∧
  (well_typed TcpipForwardRequest ∧ well_typed DirectTcpip ∧ well_typed CancelTcpipForwardRequest ∧
   well_typed TcpipForwardReply ∧ well_typed ForwardedTcpip ∧ well_typed StreamlocalForwardRequest ∧
   well_typed CancelStreamlocalForwardRequest ∧ well_typed ForwardedStreamlocal ∧
   well_typed DirectStreamlocal) ∧
  (∀ r r' ev, reader_next_event r = (r', Ok ev) → reader_event_typed ev) ∧
  (∀ ch ch' ev, next_event ch = (ch', Ok ev) → event_typed ev) ∧
  (∀ {OE AE} b b' m name, accept_header (OE := OE) (AE := AE) b = (b', Ok (m, name)) →
     varint_ok m ∧ ssh_string_ok name) ∧
  (∀ r r' name want, accept_header_read r = (r', Ok (name, want)) → ssh_string_ok name).
Proof.
  split_and!; try solve_well_typed.
  - change (yields reader_next_event reader_event_typed). unfold reader_next_event. solve_typed.
  - change (yields next_event event_typed). unfold next_event. solve_typed.
  - intros OE AE b b' m name. revert b b'.
    assert (yields (accept_header (OE := OE) (AE := AE)) (λ h, varint_ok h.1 ∧ ssh_string_ok h.2))
      as Hy by (unfold accept_header; solve_typed).
    intros b b' Hh. by apply (Hy b b' (m, name)).
  - assert (yields accept_header_read (λ h, ssh_string_ok h.1)) as Hy
      by (unfold accept_header_read; solve_typed).
    intros r r' name want Hh. by apply (Hy r r' (name, want)).
Qed.
End properties.

(** ** Witness *)

#[local] Existing Instance quic_varint.
#[local] Existing Instance quic_varint_laws.

(** A peer encodes the length on two bytes; what is sent on is shorter. *)
Lemma decoded_well_typed_witness :
  decode_from SignalRequest (MkReader [x40; x04; x54; x45; x52; x4d; x21] None)
    = (MkReader [x21] None, Ok (MkSignalRequest (from_static "TERM"))) ∧
  ssh_string_ok (from_static "TERM").
Proof.
  assert (decode_from SignalRequest (MkReader [x40; x04; x54; x45; x52; x4d; x21] None)
    = (MkReader [x21] None, Ok (MkSignalRequest (from_static "TERM")))) as Hd
    by (vm_compute; reflexivity).
  split; [exact Hd|].
  destruct decoded_well_typed as [(_ & _ & _ & _ & _ & _ & Hs & _) _].
  exact (proj1 (Hs _ _ _ Hd)).
Defined.
