(* ===== verification/ForwardSpec.v ===== *)
(** * Forwarding rules of the command line

    [src/src/forward/spec.rs]: the endpoints and rules of [-L], [-R] and [-D],
    how they are displayed, and the grammar that reads them. The wording of a
    parse error is not modelled. *)
From Stdlib Require Import ZArith Lia Strings.Byte.
From stdpp Require Import base list strings gmap fin_maps relations.
From S2P Require Import Prelude Text Peg.
From S2P Require Import Wire Codec Message ForwardMsg.
Local Open Scope Z_scope.
Local Open Scope peg_scope.

Abbreviation text := (list byte) (only parsing).

(** ** Data and display *)

Inductive Endpoint :=
| Tcp (host : text) (port : Z)
| Unix (path : text).

Definition colon : byte := x3a.
Definition has_colon (s : text) : bool := existsb (λ b, bool_decide (b = colon)) s.

Definition endpoint_fmt (self : Endpoint) : text :=
  match self with
  | Tcp [] port => str_bytes "*:" ++ dec port
  | Tcp host port =>
    if has_colon host then str_bytes "[" ++ host ++ str_bytes "]:" ++ dec port
    else host ++ str_bytes ":" ++ dec port
  | Unix path => path
  end.

Record LocalForward := MkLocalForward { lf_bind : Endpoint; lf_connect : Endpoint }.
Record RemoteForward := MkRemoteForward { rf_bind : Endpoint; rf_connect : option Endpoint }.
Record DynamicForward := MkDynamicForward { df_host : text; df_port : Z }.

Definition arrow : text := [xe2; x86; x92].
Definition local_forward_fmt (self : LocalForward) : text :=
  endpoint_fmt (lf_bind self) ++ arrow ++ endpoint_fmt (lf_connect self).
Definition remote_forward_fmt (self : RemoteForward) : text :=
  match rf_connect self with
  | Some c => endpoint_fmt (rf_bind self) ++ arrow ++ endpoint_fmt c
  | None => endpoint_fmt (rf_bind self) ++ str_bytes " (listen-only)"
  end.
Definition dynamic_forward_fmt (self : DynamicForward) : text :=
  match df_host self with
  | [] => str_bytes "*:" ++ dec (df_port self)
  | host => host ++ str_bytes ":" ++ dec (df_port self)
  end.

(** ** The grammar *)

Definition is_byte (c b : byte) : bool := bool_decide (b = c).
Definition path_char (b : byte) : bool := negb (is_byte x3a b).
Definition host_char (b : byte) : bool :=
  negb (is_byte x3a b || is_byte x2f b || is_byte x5b b || is_byte x5d b).
Definition bracket_char (b : byte) : bool := negb (is_byte x5d b).

Definition unix_path : Peg text :=
  literal "/" ;; p <- class_star path_char ;; peg_ret (str_bytes "/" ++ p).
Definition port : Peg Z :=
  peg_try (class_plus is_digit) (λ n, result_ok (parse_unsigned U16_MAX n)).
Definition hostname : Peg text := class_plus host_char.
Definition bracketed_ipv6 : Peg text :=
  literal "[" ;; h <- class_plus bracket_char ;; literal "]" ;; peg_ret h.

Definition connect_endpoint : Peg Endpoint :=
  (p <- unix_path ;; peg_ret (Unix p)) //
  (h <- bracketed_ipv6 ;; literal ":" ;; p <- port ;; peg_ret (Tcp h p)) //
  (h <- hostname ;; literal ":" ;; p <- port ;; peg_ret (Tcp h p)).

Definition local_forward : Peg LocalForward :=
  (b <- unix_path ;; literal ":" ;; c <- connect_endpoint ;; peg_ret (MkLocalForward (Unix b) c)) //
  (h <- bracketed_ipv6 ;; literal ":" ;; bp <- port ;; literal ":" ;; c <- connect_endpoint ;;
   peg_ret (MkLocalForward (Tcp h bp) c)) //
  (literal "*:" ;; bp <- port ;; literal ":" ;; c <- connect_endpoint ;;
   peg_ret (MkLocalForward (Tcp [] bp) c)) //
  (bh <- hostname ;; literal ":" ;; bp <- port ;; literal ":" ;; c <- connect_endpoint ;;
   peg_ret (MkLocalForward (Tcp bh bp) c)) //
  (bp <- port ;; literal ":" ;; c <- connect_endpoint ;;
   peg_ret (MkLocalForward (Tcp (str_bytes "127.0.0.1") bp) c)).

Definition loopback : text := str_bytes CANONICAL_REMOTE_LOOPBACK_HOST.

Definition remote_forward : Peg RemoteForward :=
  (b <- unix_path ;; literal ":" ;; c <- connect_endpoint ;;
   peg_ret (MkRemoteForward (Unix b) (Some c))) //
  (h <- bracketed_ipv6 ;; literal ":" ;; bp <- port ;; literal ":" ;; c <- connect_endpoint ;;
   peg_ret (MkRemoteForward (Tcp h bp) (Some c))) //
  (literal "*:" ;; bp <- port ;; literal ":" ;; c <- connect_endpoint ;;
   peg_ret (MkRemoteForward (Tcp [] bp) (Some c))) //
  (bh <- hostname ;; literal ":" ;; bp <- port ;; literal ":" ;; c <- connect_endpoint ;;
   peg_ret (MkRemoteForward (Tcp bh bp) (Some c))) //
  (bp <- port ;; literal ":" ;; c <- connect_endpoint ;;
   peg_ret (MkRemoteForward (Tcp loopback bp) (Some c))) //
  (h <- bracketed_ipv6 ;; literal ":" ;; bp <- port ;;
   peg_ret (MkRemoteForward (Tcp h bp) None)) //
  (literal "*:" ;; bp <- port ;; peg_ret (MkRemoteForward (Tcp [] bp) None)) //
  (bh <- hostname ;; literal ":" ;; bp <- port ;; peg_ret (MkRemoteForward (Tcp bh bp) None)) //
  (bp <- port ;; peg_ret (MkRemoteForward (Tcp loopback bp) None)).

Definition dynamic_forward : Peg DynamicForward :=
  (h <- bracketed_ipv6 ;; literal ":" ;; p <- port ;; peg_ret (MkDynamicForward h p)) //
  (literal "*:" ;; p <- port ;; peg_ret (MkDynamicForward [] p)) //
  (h <- hostname ;; literal ":" ;; p <- port ;; peg_ret (MkDynamicForward h p)) //
  (p <- port ;; peg_ret (MkDynamicForward (str_bytes "127.0.0.1") p)).

(** [FromStr]. *)
Definition local_forward_from_str (s : text) : option LocalForward := run_rule local_forward s.
Definition remote_forward_from_str (s : text) : option RemoteForward := run_rule remote_forward s.
Definition dynamic_forward_from_str (s : text) : option DynamicForward := run_rule dynamic_forward s.

(** ** Well-formed endpoints *)

Definition port_ok (p : Z) : Prop := 0 ≤ p ≤ U16_MAX.
Definition plain_host (h : text) : Prop := h ≠ [] ∧ forallb host_char h = true.
Definition ipv6_host (h : text) : Prop := has_colon h = true ∧ forallb bracket_char h = true.
Definition path_ok (p : text) : Prop := ∃ q, p = str_bytes "/" ++ q ∧ forallb path_char q = true.

Definition connect_ok (e : Endpoint) : Prop :=
  match e with
  | Tcp h p => port_ok p ∧ (plain_host h ∨ ipv6_host h)
  | Unix p => path_ok p
  end.
(** [*] alone stands for every address, which is the empty host. *)
Definition bind_ok (e : Endpoint) : Prop :=
  match e with
  | Tcp h p => port_ok p ∧ (h = [] ∨ plain_host h ∧ h ≠ str_bytes "*" ∨ ipv6_host h)
  | Unix p => path_ok p
  end.

(** ** Lemmas on the rules *)

Lemma is_byte_spec c b : is_byte c b = true ↔ b = c.
Proof. apply bool_decide_eq_true. Qed.

(** The first byte of the input. *)
Definition starts (p : byte → bool) (s : text) : Prop := ∃ b t, s = b :: t ∧ p b = true.

Lemma fails_byte (c : byte) s :
  (∀ b t, s = b :: t → b ≠ c) → fails (literal (bytes_str [c])) s.
Proof.
  intros Hs. apply fails_literal. rewrite str_bytes_str. destruct s as [|b t]; [done|]. simpl.
  rewrite bool_decide_eq_false_2; [done|]. intros Heq. by apply (Hs b t).
Qed.

Lemma fails_unix_path s : (∀ b t, s = b :: t → b ≠ x2f) → fails unix_path s.
Proof. intros Hs. apply fails_seq, (fails_byte x2f), Hs. Qed.
Lemma fails_bracketed s : (∀ b t, s = b :: t → b ≠ x5b) → fails bracketed_ipv6 s.
Proof. intros Hs. apply fails_seq, (fails_byte x5b), Hs. Qed.
Lemma fails_hostname s : (∀ b t, s = b :: t → host_char b = false) → fails hostname s.
Proof. apply fails_class_plus. Qed.
Lemma fails_port s : (∀ b t, s = b :: t → is_digit b = false) → fails port s.
Proof. intros Hs. by apply fails_try, fails_class_plus. Qed.

Lemma digit_host_char b : is_digit b = true → host_char b = true.
Proof.
  intros Hb. apply is_digit_range in Hb. unfold host_char.
  assert (∀ c, b2z c < 48 ∨ 57 < b2z c → is_byte c b = false) as Hn.
  { intros c Hc. apply bool_decide_eq_false. intros ->. lia. }
  by rewrite !Hn by (vm_compute; auto).
Qed.

Lemma host_char_spec b :
  host_char b = true ↔ b ≠ x3a ∧ b ≠ x2f ∧ b ≠ x5b ∧ b ≠ x5d.
Proof.
  unfold host_char. rewrite negb_true_iff, !orb_false_iff. unfold is_byte.
  rewrite !bool_decide_eq_false. tauto.
Qed.

Lemma eats_port p r :
  port_ok p → (∀ b t, r = b :: t → is_digit b = false) → eats port (dec p) r p.
Proof.
  intros Hp Hr. eapply eats_try.
  - apply eats_class_plus; [apply dec_nonempty|apply dec_all; apply Hp|done].
  - unfold port_ok in Hp. rewrite parse_unsigned_dec by (unfold U16_MAX in *; lia). done.
Qed.

Lemma eats_unix_path p r :
  path_ok p → (∀ b t, r = b :: t → b = x3a) → eats unix_path p r p.
Proof.
  intros (q & -> & Hq) Hr. eapply eats_seq; [apply eats_literal|].
  rewrite <- (app_nil_r q) at 1. eapply eats_seq; [|apply eats_ret].
  apply eats_class_star; [done|]. intros b t Heq. by rewrite (Hr b t Heq).
Qed.

Lemma eats_hostname h r :
  plain_host h → (∀ b t, r = b :: t → b = x3a) → eats hostname h r h.
Proof.
  intros [Hne Hh] Hr. apply eats_class_plus; [done..|]. intros b t Heq. by rewrite (Hr b t Heq).
Qed.

Lemma eats_bracketed h r :
  ipv6_host h → eats bracketed_ipv6 (str_bytes "[" ++ h ++ str_bytes "]") r h.
Proof.
  intros [Hc Hh]. eapply eats_seq; [apply eats_literal|].
  eapply eats_seq; [|rewrite <- (app_nil_r (str_bytes "]")); eapply eats_seq;
                     [apply eats_literal|apply eats_ret]].
  apply eats_class_plus; [by destruct h|done|]. intros b t Heq. by simplify_eq/=.
Qed.

(** ** Host and port

    The three ways a TCP endpoint starts a rule: [K] is what follows. *)
Section host_port.
Context {A : Type} (K : text → Z → Peg A).

Definition bracketed_rule : Peg A :=
  h <- bracketed_ipv6 ;; literal ":" ;; p <- port ;; K h p.
Definition star_rule : Peg A := literal "*:" ;; p <- port ;; K [] p.
Definition hostname_rule : Peg A := h <- hostname ;; literal ":" ;; p <- port ;; K h p.

Definition no_digit_first (r : text) : Prop := ∀ b t, r = b :: t → is_digit b = false.

Lemma eats_host_port (e : Peg text) h u p v r x :
  eats e u (str_bytes ":" ++ dec p ++ v ++ r) h → port_ok p → no_digit_first (v ++ r) →
  eats (K h p) v r x →
  eats (h <- e ;; literal ":" ;; p <- port ;; K h p) (u ++ str_bytes ":" ++ dec p ++ v) r x.
Proof.
  intros He Hp Hv Hk. eapply eats_seq; [by rewrite <- !(assoc_L (++))|].
  eapply eats_seq; [apply eats_literal|]. eapply eats_seq; [by apply eats_port|done].
Qed.

Lemma fails_host_port (e : Peg text) h u p v :
  eats e u (str_bytes ":" ++ dec p ++ v) h → port_ok p → no_digit_first v → fails (K h p) v →
  fails (h <- e ;; literal ":" ;; p <- port ;; K h p) (u ++ str_bytes ":" ++ dec p ++ v).
Proof.
  intros He Hp Hv Hk. eapply fails_seq_r; [done|]. eapply fails_seq_r; [apply eats_literal|].
  eapply fails_seq_r; [by apply eats_port|done].
Qed.
End host_port.

(** How the text of an endpoint starts. *)
Lemma dec_first p : port_ok p → ∃ b t, dec p = b :: t ∧ is_digit b = true.
Proof.
  intros [Hp _]. pose proof (dec_all p Hp) as Hd. destruct (dec p) as [|b t] eqn:E;
    [by apply dec_nonempty in E|]. simpl in Hd. apply andb_prop in Hd as [Hd _]. eauto.
Qed.

Lemma plain_host_no_colon h : plain_host h → has_colon h = false.
Proof.
  intros [_ Hh]. unfold has_colon. apply not_true_iff_false. rewrite existsb_exists.
  intros (b & Hb & Hc). apply bool_decide_eq_true in Hc as ->.
  rewrite forallb_forall in Hh. by apply Hh in Hb.
Qed.

Lemma endpoint_fmt_plain h p :
  plain_host h → endpoint_fmt (Tcp h p) = h ++ str_bytes ":" ++ dec p.
Proof.
  intros Hh. pose proof (plain_host_no_colon h Hh) as Hc. destruct Hh as [Hne _].
  destruct h as [|b h]; [done|]. unfold endpoint_fmt. by rewrite Hc.
Qed.

Lemma endpoint_fmt_ipv6 h p :
  ipv6_host h → endpoint_fmt (Tcp h p) = (str_bytes "[" ++ h ++ str_bytes "]") ++ str_bytes ":" ++ dec p.
Proof.
  intros [Hc _]. unfold endpoint_fmt. destruct h as [|b h]; [done|]. rewrite Hc.
  rewrite <- !(assoc_L (++)). done.
Qed.

Lemma connect_endpoint_eats c : connect_ok c → eats connect_endpoint (endpoint_fmt c) [] c.
Proof.
  destruct c as [h p|p]; unfold connect_endpoint; intros Hc.
  - destruct Hc as [Hp [Hh|Hh]].
    + rewrite endpoint_fmt_plain by done. pose proof Hh as [Hne Hall].
      destruct h as [|b h]; [done|]. simpl in Hall. apply andb_prop in Hall as [Hb _].
      apply host_char_spec in Hb as (H1 & H2 & H3 & H4).
      apply eats_or_r; [|apply eats_or_r].
      * apply fails_seq, fails_unix_path. intros ? ? Heq. by simplify_eq/=.
      * apply fails_seq, fails_bracketed. intros ? ? Heq. by simplify_eq/=.
      * rewrite <- (app_nil_r (dec p)). eapply eats_host_port; [|done..|apply eats_ret].
        apply eats_hostname; [done|]. intros ? ? Heq. by simplify_eq/=.
    + rewrite endpoint_fmt_ipv6 by done. apply eats_or_r, eats_or_l.
      * apply fails_seq, fails_unix_path. intros ? ? Heq. by simplify_eq/=.
      * rewrite <- (app_nil_r (dec p)). eapply eats_host_port; [|done..|apply eats_ret].
        by apply eats_bracketed.
  - apply eats_or_l. unfold endpoint_fmt. rewrite <- (app_nil_r p) at 1.
    eapply eats_seq; [|apply eats_ret]. by apply eats_unix_path.
Qed.

(** A number alone is no endpoint. *)
Lemma connect_endpoint_fails_dec p : port_ok p → fails connect_endpoint (dec p).
Proof.
  intros Hp. destruct (dec_first p Hp) as (b & t & Hd & Hb).
  assert (plain_host (dec p)) as Hh.
  { split; [apply dec_nonempty|]. rewrite forallb_forall. intros x Hx.
    pose proof (dec_all p (proj1 Hp)) as Hall. rewrite forallb_forall in Hall.
    by apply digit_host_char, Hall. }
  apply digit_host_char, host_char_spec in Hb as (H1 & H2 & H3 & H4).
  apply fails_or; [|apply fails_or].
  - apply fails_seq, fails_unix_path. intros ? ? Heq. congruence.
  - apply fails_seq, fails_bracketed. intros ? ? Heq. congruence.
  - rewrite <- (app_nil_r (dec p)). eapply fails_seq_r; [by apply eats_hostname|].
    apply fails_seq, (fails_byte x3a). done.
Qed.

(** A host taken for a port: what follows the port is not an endpoint. *)
Lemma port_rule_fails_host {A} (K : Z → Endpoint → Peg A) h q :
  plain_host h → port_ok q →
  fails (bp <- port ;; literal ":" ;; c <- connect_endpoint ;; K bp c)
    (h ++ str_bytes ":" ++ dec q).
Proof.
  intros [Hne Hh] Hq n. unfold peg_seq at 1, port, peg_try, class_plus. cbn [cur_rest].
  change (str_bytes ":" ++ dec q) with (x3a :: dec q).
  destruct (span_while is_digit (h ++ x3a :: dec q)) as [u v] eqn:Hs.
  destruct u as [|d u]; [done|].
  destruct (result_ok _) as [bp|]; [|done].
  assert (span_while is_digit h = (d :: u, drop (length (d :: u)) h) ∧
          v = drop (length (d :: u)) h ++ x3a :: dec q) as [Hs' ->].
  { rewrite span_while_app_stop in Hs by done. destruct (span_while is_digit h) as [u' v'] eqn:E.
    simplify_eq/=. apply span_while_app in E as ->. simpl. by rewrite drop_app_length. }
  destruct (drop (length (d :: u)) h) as [|b v] eqn:Hv.
  - cbn [app]. unfold advance. cbn [cur_pos].
    change (x3a :: dec q) with (str_bytes ":" ++ dec q).
    eapply fails_seq_r; [apply eats_literal|]. apply fails_seq, connect_endpoint_fails_dec, Hq.
  - apply fails_seq, (fails_byte x3a). intros ? ? Heq. simplify_eq/=.
    assert (b0 ∈ h) as Hin.
    { apply span_while_app in Hs'. rewrite Hs'. set_solver. }
    rewrite forallb_forall in Hh. apply list_elem_of_In, Hh, host_char_spec in Hin as [? _]. done.
Qed.

(** The same when nothing but the host's own digits can be a port. *)
Lemma port_rule_fails_first {A} (K : Z → Peg A) s :
  no_digit_first s → fails (bp <- port ;; K bp) s.
Proof. intros Hs. by apply fails_seq, fails_port. Qed.

(** ** Where an endpoint's text starts *)

Lemma plain_first h r :
  plain_host h → ∃ b t, h ++ r = b :: t ∧ b ≠ x2f ∧ b ≠ x5b.
Proof.
  intros [Hne Hh]. destruct h as [|b h]; [done|]. simpl in Hh.
  apply andb_prop in Hh as [Hb _]. apply host_char_spec in Hb as (_ & ? & ? & _).
  by exists b, (h ++ r).
Qed.

Lemma star_fails h r :
  plain_host h → h ≠ str_bytes "*" → fails (literal "*:") (h ++ str_bytes ":" ++ r).
Proof.
  intros [Hne Hh] Hs. apply fails_literal.
  destruct (strip_prefix _ _) as [q|] eqn:E; [|done]. apply strip_prefix_Some in E.
  exfalso. destruct h as [|b [|b' h]]; simplify_eq/=.
Qed.

Ltac first_byte := intros ? ? ?; simplify_eq/=; done.

(** The rules for the bind endpoint, in the order of the grammar; [F] builds
    the value from the endpoint, [e] reads what follows it. *)
Section bind_rules.
Context {A : Type} (F : Endpoint → Endpoint → A).

Definition then_connect (b : Endpoint) : Peg A :=
  literal ":" ;; c <- connect_endpoint ;; peg_ret (F b c).

Definition bind_then_connect : Peg A :=
  (b <- unix_path ;; then_connect (Unix b)) //
  (h <- bracketed_ipv6 ;; literal ":" ;; bp <- port ;; then_connect (Tcp h bp)) //
  (literal "*:" ;; bp <- port ;; then_connect (Tcp [] bp)) //
  (bh <- hostname ;; literal ":" ;; bp <- port ;; then_connect (Tcp bh bp)).

Lemma then_connect_eats b c :
  connect_ok c → eats (then_connect b) (str_bytes ":" ++ endpoint_fmt c) [] (F b c).
Proof.
  intros Hc. eapply eats_seq; [apply eats_literal|]. rewrite <- (app_nil_r (endpoint_fmt c)).
  eapply eats_seq; [by apply connect_endpoint_eats|apply eats_ret].
Qed.

Lemma colon_no_digit r : no_digit_first (str_bytes ":" ++ r).
Proof. intros b t Heq. by simplify_eq/=. Qed.

Lemma bind_then_connect_eats b c :
  bind_ok b → connect_ok c →
  eats bind_then_connect (endpoint_fmt b ++ str_bytes ":" ++ endpoint_fmt c) [] (F b c).
Proof.
  intros Hb Hc. pose proof (then_connect_eats b c Hc) as Ht. unfold bind_then_connect.
  destruct b as [h p|p].
  - destruct Hb as [Hp [->|[[Hh Hs]|Hh]]].
    + apply eats_or_r; [apply fails_seq, fails_unix_path; first_byte|].
      apply eats_or_r; [apply fails_seq, fails_bracketed; first_byte|]. apply eats_or_l.
      change (endpoint_fmt (Tcp [] p)) with (str_bytes "*:" ++ dec p). rewrite <- (assoc_L (++)).
      eapply eats_seq; [apply eats_literal|].
      eapply eats_seq; [apply eats_port; [done|apply colon_no_digit]|done].
    + rewrite endpoint_fmt_plain, <- !(assoc_L (++)) by done.
      destruct (plain_first h ((str_bytes ":" ++ dec p ++ str_bytes ":" ++ endpoint_fmt c) ++ [])
                  Hh) as (b & t & Heq & Hb1 & Hb2).
      apply eats_or_r; [apply fails_seq, fails_unix_path; rewrite <- (assoc_L (++)), Heq; first_byte|].
      apply eats_or_r; [apply fails_seq, fails_bracketed; rewrite <- (assoc_L (++)), Heq; first_byte|].
      apply eats_or_r.
      * apply fails_seq. rewrite app_nil_r. by apply star_fails.
      * apply (eats_host_port (λ h p, then_connect (Tcp h p)) hostname h h p);
          [|done|apply colon_no_digit|done].
        apply eats_hostname; [done|]. first_byte.
    + rewrite endpoint_fmt_ipv6 by done.
      replace (((str_bytes "[" ++ h ++ str_bytes "]") ++ str_bytes ":" ++ dec p) ++
               str_bytes ":" ++ endpoint_fmt c)
        with ((str_bytes "[" ++ h ++ str_bytes "]") ++ str_bytes ":" ++ dec p ++
              str_bytes ":" ++ endpoint_fmt c) by (by rewrite <- !(assoc_L (++))).
      apply eats_or_r; [apply fails_seq, fails_unix_path; first_byte|]. apply eats_or_l.
      apply (eats_host_port (λ h p, then_connect (Tcp h p)) bracketed_ipv6 h _ p);
        [|done|apply colon_no_digit|done].
      by apply eats_bracketed.
  - apply eats_or_l. eapply eats_seq; [|done]. apply eats_unix_path; [done|]. first_byte.
Qed.

(** The short form, a port alone, is not taken for a host. *)
Lemma bind_then_connect_fails_port p c :
  port_ok p → connect_ok c →
  fails bind_then_connect (dec p ++ str_bytes ":" ++ endpoint_fmt c).
Proof.
  intros Hp Hc. destruct (dec_first p Hp) as (b & t & Hd & Hb).
  apply digit_host_char in Hb as Hb'. apply host_char_spec in Hb' as (H1 & H2 & H3 & H4).
  assert (plain_host (dec p)) as Hh.
  { split; [apply dec_nonempty|]. eapply forallb_forall. intros x Hx.
    pose proof (dec_all p (proj1 Hp)) as Hall. rewrite forallb_forall in Hall.
    by apply digit_host_char, Hall. }
  apply fails_or; [apply fails_seq, fails_unix_path; rewrite Hd; first_byte|].
  apply fails_or; [apply fails_seq, fails_bracketed; rewrite Hd; first_byte|].
  apply fails_or.
  - apply fails_seq, star_fails; [done|]. rewrite Hd. intros Heq. injection Heq as -> ->. done.
  - eapply fails_seq_r; [apply eats_hostname; [done|first_byte]|].
    eapply fails_seq_r; [apply eats_literal|].
    destruct c as [h q|q]; [destruct Hc as [Hq [Hh'|Hh']]|].
    + rewrite endpoint_fmt_plain by done. by apply (port_rule_fails_host (λ _ _, _)).
    + rewrite endpoint_fmt_ipv6 by done. apply port_rule_fails_first. first_byte.
    + destruct Hc as (r & -> & _). apply port_rule_fails_first. first_byte.
Qed.
End bind_rules.

(** The two grammars begin with these rules. *)
Lemma peg_or_assoc {A} (e1 e2 e3 : Peg A) c : ((e1 // e2) // e3) c = (e1 // (e2 // e3)) c.
Proof. unfold peg_or. by destruct (e1 c). Qed.

Lemma port_then_connect_eats {A} (F : Z → Endpoint → A) p c :
  port_ok p → connect_ok c →
  eats (bp <- port ;; literal ":" ;; c <- connect_endpoint ;; peg_ret (F bp c))
    (dec p ++ str_bytes ":" ++ endpoint_fmt c) [] (F p c).
Proof.
  intros Hp Hc. eapply eats_seq; [apply eats_port; [done|apply colon_no_digit]|].
  by apply (then_connect_eats (λ _, F p) (Unix [])).
Qed.

(** An endpoint alone: nothing follows the port. *)
Section bare.
Context {A : Type}.

Lemma then_connect_fails_end (F : Endpoint → Endpoint → A) b : fails (then_connect F b) [].
Proof. by apply fails_seq, (fails_byte x3a). Qed.

Lemma host_port_fails_end (F : Endpoint → Endpoint → A) (e : Peg (list byte)) h u p :
  eats e u (str_bytes ":" ++ dec p) h → port_ok p →
  fails (h <- e ;; literal ":" ;; bp <- port ;; then_connect F (Tcp h bp))
    (u ++ str_bytes ":" ++ dec p).
Proof.
  intros He Hp. rewrite <- (app_nil_r (dec p)) in *.
  apply (fails_host_port (λ h p, then_connect F (Tcp h p)) e h u p []); [done..|].
  apply then_connect_fails_end.
Qed.

Lemma bind_then_connect_fails_bare (F : Endpoint → Endpoint → A) h p :
  bind_ok (Tcp h p) → fails (bind_then_connect F) (endpoint_fmt (Tcp h p)).
Proof.
  intros [Hp [->|[[Hh Hs]|Hh]]]; unfold bind_then_connect.
  - change (endpoint_fmt (Tcp [] p)) with (str_bytes "*:" ++ dec p).
    apply fails_or; [apply fails_seq, fails_unix_path; first_byte|].
    apply fails_or; [apply fails_seq, fails_bracketed; first_byte|]. apply fails_or.
    + eapply fails_seq_r; [apply eats_literal|]. rewrite <- (app_nil_r (dec p)).
      eapply fails_seq_r; [by apply eats_port|]. apply then_connect_fails_end.
    + apply (host_port_fails_end F hostname (str_bytes "*") (str_bytes "*") p); [|done].
      apply eats_hostname; [|first_byte]. by split.
  - rewrite endpoint_fmt_plain by done.
    destruct (plain_first h (str_bytes ":" ++ dec p) Hh) as (b & t & Heq & Hb1 & Hb2).
    apply fails_or; [apply fails_seq, fails_unix_path; rewrite Heq; first_byte|].
    apply fails_or; [apply fails_seq, fails_bracketed; rewrite Heq; first_byte|].
    apply fails_or; [by apply fails_seq, star_fails|].
    apply (host_port_fails_end F hostname h h p); [|done].
    apply eats_hostname; [done|first_byte].
  - rewrite endpoint_fmt_ipv6 by done.
    apply fails_or; [apply fails_seq, fails_unix_path; first_byte|]. apply fails_or.
    + apply (host_port_fails_end F bracketed_ipv6 h); [|done]. by apply eats_bracketed.
    + apply fails_or; [by apply fails_seq, fails_literal|].
      apply fails_seq, fails_hostname. first_byte.
Qed.

Lemma host_port_eats_end (F : list byte → Z → A) (e : Peg (list byte)) h u p :
  eats e u (str_bytes ":" ++ dec p) h → port_ok p →
  eats (h <- e ;; literal ":" ;; bp <- port ;; peg_ret (F h bp)) (u ++ str_bytes ":" ++ dec p) []
    (F h p).
Proof.
  intros He Hp. rewrite <- (app_nil_r (dec p)).
  apply (eats_host_port (λ h p, peg_ret (F h p)) e h u p []); [|done|done|apply eats_ret].
  by rewrite !app_nil_r.
Qed.

(** The rules for an endpoint alone. *)
Definition bare_rules (F : list byte → Z → A) : Peg A :=
  (h <- bracketed_ipv6 ;; literal ":" ;; bp <- port ;; peg_ret (F h bp)) //
  (literal "*:" ;; bp <- port ;; peg_ret (F [] bp)) //
  (bh <- hostname ;; literal ":" ;; bp <- port ;; peg_ret (F bh bp)).

Lemma bare_rules_eats (F : list byte → Z → A) h p :
  bind_ok (Tcp h p) → eats (bare_rules F) (endpoint_fmt (Tcp h p)) [] (F h p).
Proof.
  intros [Hp [->|[[Hh Hs]|Hh]]]; unfold bare_rules.
  - change (endpoint_fmt (Tcp [] p)) with (str_bytes "*:" ++ dec p).
    apply eats_or_r; [apply fails_seq, fails_bracketed; first_byte|]. apply eats_or_l.
    eapply eats_seq; [apply eats_literal|]. rewrite <- (app_nil_r (dec p)).
    eapply eats_seq; [by apply eats_port|apply eats_ret].
  - rewrite endpoint_fmt_plain by done.
    destruct (plain_first h ((str_bytes ":" ++ dec p) ++ []) Hh) as (b & t & Heq & Hb1 & Hb2).
    apply eats_or_r; [apply fails_seq, fails_bracketed; rewrite <- (assoc_L (++)), Heq; first_byte|].
    apply eats_or_r; [rewrite app_nil_r; by apply fails_seq, star_fails|].
    apply host_port_eats_end; [|done]. apply eats_hostname; [done|first_byte].
  - rewrite endpoint_fmt_ipv6 by done. apply eats_or_l.
    apply host_port_eats_end; [|done]. by apply eats_bracketed.
Qed.

Lemma bare_rules_fails_port (F : list byte → Z → A) p : port_ok p → fails (bare_rules F) (dec p).
Proof.
  intros Hp. destruct (dec_first p Hp) as (b & t & Hd & Hb).
  apply digit_host_char in Hb as Hb'. apply host_char_spec in Hb' as (H1 & H2 & H3 & H4).
  apply fails_or; [apply fails_seq, fails_bracketed; rewrite Hd; first_byte|]. apply fails_or.
  - apply fails_seq, fails_literal. rewrite Hd. simpl. case_bool_decide as Hc; [|done].
    rewrite <- Hc in Hb. discriminate Hb.
  - rewrite <- (app_nil_r (dec p)). eapply fails_seq_r; [|by apply fails_seq, (fails_byte x3a)].
    apply eats_hostname; [|first_byte]. split; [apply dec_nonempty|].
    eapply forallb_forall. intros x Hx.
    pose proof (dec_all p (proj1 Hp)) as Hall. rewrite forallb_forall in Hall.
    by apply digit_host_char, Hall.
Qed.
End bare.

Lemma plain_dec p : port_ok p → plain_host (dec p).
Proof.
  intros Hp. split; [apply dec_nonempty|]. eapply forallb_forall. intros x Hx.
  pose proof (dec_all p (proj1 Hp)) as Hall. rewrite forallb_forall in Hall.
  by apply digit_host_char, Hall.
Qed.

Lemma bind_then_connect_fails_dec {A} (F : Endpoint → Endpoint → A) p :
  port_ok p → fails (bind_then_connect F) (dec p).
Proof.
  intros Hp. destruct (dec_first p Hp) as (b & t & Hd & Hb).
  apply digit_host_char in Hb as Hb'. apply host_char_spec in Hb' as (H1 & H2 & H3 & H4).
  apply fails_or; [apply fails_seq, fails_unix_path; rewrite Hd; first_byte|].
  apply fails_or; [apply fails_seq, fails_bracketed; rewrite Hd; first_byte|]. apply fails_or.
  - apply fails_seq, fails_literal. rewrite Hd. simpl. case_bool_decide as Hc; [|done].
    rewrite <- Hc in Hb. discriminate Hb.
  - rewrite <- (app_nil_r (dec p)). eapply fails_seq_r; [|by apply fails_seq, (fails_byte x3a)].
    apply eats_hostname; [by apply plain_dec|first_byte].
Qed.

Lemma port_rule_fails_dec {A} (K : Z → Endpoint → Peg A) p :
  port_ok p → fails (bp <- port ;; literal ":" ;; c <- connect_endpoint ;; K bp c) (dec p).
Proof.
  intros Hp. rewrite <- (app_nil_r (dec p)).
  eapply fails_seq_r; [by apply eats_port|]. by apply fails_seq, (fails_byte x3a).
Qed.

Lemma eats_ext {A} (e e' : Peg A) u r a : (∀ c, e c = e' c) → eats e' u r a → eats e u r a.
Proof. intros He H n. by rewrite He, H. Qed.

Lemma local_forward_rules c :
  local_forward c =
  (bind_then_connect MkLocalForward //
   (bp <- port ;; literal ":" ;; c <- connect_endpoint ;;
    peg_ret (MkLocalForward (Tcp (str_bytes "127.0.0.1") bp) c))) c.
Proof. unfold local_forward, bind_then_connect, then_connect, peg_or. by repeat case_match. Qed.

Lemma remote_forward_rules c :
  remote_forward c =
  (bind_then_connect (λ b c, MkRemoteForward b (Some c)) //
   (bp <- port ;; literal ":" ;; c <- connect_endpoint ;;
    peg_ret (MkRemoteForward (Tcp loopback bp) (Some c))) //
   bare_rules (λ h p, MkRemoteForward (Tcp h p) None) //
   (bp <- port ;; peg_ret (MkRemoteForward (Tcp loopback bp) None))) c.
Proof.
  unfold remote_forward, bind_then_connect, then_connect, bare_rules, peg_or. by repeat case_match.
Qed.

Lemma dynamic_forward_rules c :
  dynamic_forward c =
  (bare_rules MkDynamicForward //
   (p <- port ;; peg_ret (MkDynamicForward (str_bytes "127.0.0.1") p))) c.
Proof. unfold dynamic_forward, bare_rules, peg_or. by repeat case_match. Qed.

Lemma port_eats_end {A} (F : Z → A) p : port_ok p → eats (bp <- port ;; peg_ret (F bp)) (dec p) [] (F p).
Proof.
  intros Hp. rewrite <- (app_nil_r (dec p)). eapply eats_seq; [by apply eats_port|apply eats_ret].
Qed.

(** The connect rules fail on a bare endpoint and on a bare port. *)
Lemma port_rule_fails_bare {A} (K : Z → Endpoint → Peg A) h p :
  bind_ok (Tcp h p) →
  fails (bp <- port ;; literal ":" ;; c <- connect_endpoint ;; K bp c) (endpoint_fmt (Tcp h p)).
Proof.
  intros [Hp [->|[[Hh Hs]|Hh]]].
  - apply port_rule_fails_first. first_byte.
  - rewrite endpoint_fmt_plain by done. by apply port_rule_fails_host.
  - rewrite endpoint_fmt_ipv6 by done. apply port_rule_fails_first. first_byte.
Qed.

(** ** Properties *)

(** C24: [-L] reads what it documents. For every bind and connect endpoint
    written the way endpoints are displayed, [bind:connect] is read as the rule
    from [bind] to [connect]; with a port alone in place of the bind endpoint
    the rule listens on 127.0.0.1. *)
Theorem local_forward_reads (b c : Endpoint) (p : Z) :
  bind_ok b → connect_ok c → port_ok p →
  local_forward_from_str (endpoint_fmt b ++ str_bytes ":" ++ endpoint_fmt c)
  = Some (MkLocalForward b c) ∧
  local_forward_from_str (dec p ++ str_bytes ":" ++ endpoint_fmt c)
  = Some (MkLocalForward (Tcp (str_bytes "127.0.0.1") p) c).
Proof.
  intros Hb Hc Hp. split; apply run_rule_eats; eapply eats_ext; try apply local_forward_rules.
  - by apply eats_or_l, bind_then_connect_eats.
  - apply eats_or_r; [rewrite app_nil_r; by apply bind_then_connect_fails_port|].
    by apply (port_then_connect_eats (λ p, MkLocalForward (Tcp _ p))).
Qed.

(** [-R] reads what it documents: the forms of [-L], with [localhost] for
    a port alone, and each of them without a connect endpoint for a rule that
    only listens. *)
Theorem remote_forward_reads (b c : Endpoint) (h : text) (q p : Z) :
  bind_ok b → connect_ok c → bind_ok (Tcp h q) → port_ok p →
  remote_forward_from_str (endpoint_fmt b ++ str_bytes ":" ++ endpoint_fmt c)
  = Some (MkRemoteForward b (Some c)) ∧
  remote_forward_from_str (dec p ++ str_bytes ":" ++ endpoint_fmt c)
  = Some (MkRemoteForward (Tcp (str_bytes "localhost") p) (Some c)) ∧
  remote_forward_from_str (endpoint_fmt (Tcp h q)) = Some (MkRemoteForward (Tcp h q) None) ∧
  remote_forward_from_str (dec p) = Some (MkRemoteForward (Tcp (str_bytes "localhost") p) None).
Proof.
  intros Hb Hc Hl Hp.
  split_and!; apply run_rule_eats; eapply eats_ext; try apply remote_forward_rules.
  - apply eats_or_l. by apply (bind_then_connect_eats (λ b c, MkRemoteForward b (Some c))).
  - apply eats_or_r; [rewrite app_nil_r; by apply bind_then_connect_fails_port|]. apply eats_or_l.
    by apply (port_then_connect_eats (λ p c, MkRemoteForward (Tcp loopback p) (Some c))).
  - apply eats_or_r; [rewrite app_nil_r; by apply bind_then_connect_fails_bare|].
    apply eats_or_r; [rewrite app_nil_r; by apply port_rule_fails_bare|].
    apply eats_or_l. by apply (bare_rules_eats (λ h p, MkRemoteForward (Tcp h p) None)).
  - apply eats_or_r; [rewrite app_nil_r; by apply bind_then_connect_fails_dec|].
    apply eats_or_r; [rewrite app_nil_r; by apply port_rule_fails_dec|].
    apply eats_or_r; [rewrite app_nil_r; by apply bare_rules_fails_port|].
    by apply (port_eats_end (λ p, MkRemoteForward (Tcp loopback p) None)).
Qed.

(** A dynamic rule ([-D]) is read back from its display, unless its host
    has a colon; a port alone is read as that port on 127.0.0.1. *)
Theorem dynamic_forward_roundtrip (d : DynamicForward) :
  bind_ok (Tcp (df_host d) (df_port d)) → has_colon (df_host d) = false →
  dynamic_forward_from_str (dynamic_forward_fmt d) = Some d ∧
  dynamic_forward_from_str (dec (df_port d))
  = Some (MkDynamicForward (str_bytes "127.0.0.1") (df_port d)).
Proof.
  destruct d as [h p]. cbn [df_host df_port]. intros Hb Hc.
  assert (dynamic_forward_fmt (MkDynamicForward h p) = endpoint_fmt (Tcp h p)) as Hf.
  { unfold dynamic_forward_fmt, endpoint_fmt. cbn [df_host df_port]. by rewrite Hc; destruct h. }
  split; apply run_rule_eats; eapply eats_ext; try apply dynamic_forward_rules.
  - rewrite Hf. by apply eats_or_l, bare_rules_eats.
  - apply eats_or_r; [rewrite app_nil_r; apply bare_rules_fails_port, Hb|].
    apply (port_eats_end (λ p, MkDynamicForward _ p)), Hb.
Qed.

(** The display of a dynamic rule loses the brackets of an IPv6 host: it
    is read from [[::1]:1080], and what it displays is not read back. *)
Theorem dynamic_forward_ipv6_display :
  let d := MkDynamicForward (str_bytes "::1") 1080 in
  dynamic_forward_from_str (str_bytes "[::1]:1080") = Some d ∧
  dynamic_forward_from_str (dynamic_forward_fmt d) = None.
Proof. vm_compute. by split. Qed.

(** ** Witnesses *)

Definition sample_bind : Endpoint := Tcp (str_bytes "::1") 8080.
Definition sample_connect : Endpoint := Tcp (str_bytes "22") 80.

Lemma sample_bind_ok : bind_ok sample_bind.
Proof. split; [split; vm_compute; discriminate|]. right; right. split; reflexivity. Defined.
Lemma sample_endpoint_ok : connect_ok sample_connect.
Proof. split; [split; vm_compute; discriminate|]. left. split; [discriminate|reflexivity]. Defined.
Lemma sample_port_ok : port_ok 2222.
Proof. split; vm_compute; discriminate. Defined.

Lemma local_forward_reads_witness :
  local_forward_from_str (str_bytes "[::1]:8080:22:80") =
    Some (MkLocalForward sample_bind sample_connect) ∧
  local_forward_from_str (str_bytes "2222:22:80") =
    Some (MkLocalForward (Tcp (str_bytes "127.0.0.1") 2222) sample_connect).
Proof.
  exact (local_forward_reads sample_bind sample_connect 2222 sample_bind_ok sample_endpoint_ok
           sample_port_ok).
Defined.

Lemma remote_forward_reads_witness :
  remote_forward_from_str (str_bytes "[::1]:8080") = Some (MkRemoteForward sample_bind None) ∧
  remote_forward_from_str (str_bytes "2222") =
    Some (MkRemoteForward (Tcp (str_bytes "localhost") 2222) None).
Proof.
  destruct (remote_forward_reads sample_bind sample_connect (str_bytes "::1") 8080 2222
              sample_bind_ok sample_endpoint_ok sample_bind_ok sample_port_ok) as (_ & _ & H1 & H2).
  split; [exact H1|exact H2].
Defined.

Lemma dynamic_forward_roundtrip_witness :
  dynamic_forward_from_str (str_bytes "*:1080") = Some (MkDynamicForward [] 1080).
Proof.
  refine (proj1 (dynamic_forward_roundtrip (MkDynamicForward [] 1080) _ eq_refl)).
  split; [split; vm_compute; discriminate|left; reflexivity].
Defined.
