(* ===== verification/Net.v ===== *)
(** * Addresses, connections and relays

    The part of [std::net] the forwarding code uses (addresses and their
    [Display]), connections to local and remote targets, and the pair of relay
    tasks that carries a forwarded connection. What the network answers is an
    argument: a function from the target to the stream or the error. *)
From Stdlib Require Import ZArith Lia Strings.Byte.
From stdpp Require Import base list strings gmap fin_maps relations.
From S2P Require Import Prelude Text Wire Codec Message ChannelErrors Channel ForwardMsg Conversation.
Local Open Scope Z_scope.
Local Open Scope io_scope.

Abbreviation text := (list byte) (only parsing).

(** ** Addresses *)

(** By their octets, four and sixteen. *)
Inductive IpAddr := V4 (octets : list byte) | V6 (octets : list byte).
Record SocketAddr := MkSocketAddr { sa_ip : IpAddr; sa_port : Z }.
#[export] Instance IpAddr_eq_dec : EqDecision IpAddr.
Proof. solve_decision. Defined.
#[export] Instance SocketAddr_eq_dec : EqDecision SocketAddr.
Proof. solve_decision. Defined.

Definition ip_ok (a : IpAddr) : Prop :=
  match a with V4 o => length o = 4%nat | V6 o => length o = 16%nat end.

Definition ipv4_fmt (octets : list byte) : text := join_with [x2e] (map (λ b, dec (b2z b)) octets).

(** [{:x}] of a segment. *)
Definition hex_digit (d : Z) : byte := z2b (if d <? 10 then 48 + d else 87 + d).
Fixpoint hex_digits (n : nat) (z : Z) : text :=
  match n with
  | O => []
  | S n => (if z <? 16 then [] else hex_digits n (z / 16)) ++ [hex_digit (z mod 16)]
  end.
Definition hex (z : Z) : text := hex_digits 4 z.

Fixpoint segments (octets : list byte) : list Z :=
  match octets with a :: b :: octets => be_value [a; b] :: segments octets | _ => [] end.

(** The longest run of zero segments, the first of the longest: the position of
    the current segment, the run it ends (start and length), the longest so far. *)
Fixpoint zero_run (i : nat) (current longest : nat * nat) (segs : list Z) : nat * nat :=
  match segs with
  | [] => longest
  | s :: segs =>
    if s =? 0 then
      let current := ((if decide (current.2 = 0%nat) then i else current.1), S current.2) in
      zero_run (S i) current (if (longest.2 <? current.2)%nat then current else longest) segs
    else zero_run (S i) (0, 0)%nat longest segs
  end.

Definition fmt_subslice (chunk : list Z) : text := join_with [x3a] (map hex chunk).

(** [to_ipv4_mapped]: ::ffff:a.b.c.d. *)
Definition ipv4_mapped (octets : list byte) : option (list byte) :=
  if decide (take 12 octets = replicate 10 x00 ++ [xff; xff]) then Some (drop 12 octets) else None.

Definition ipv6_fmt (octets : list byte) : text :=
  match ipv4_mapped octets with
  | Some v4 => str_bytes "::ffff:" ++ ipv4_fmt v4
  | None =>
    let segs := segments octets in
    let '(start, len) := zero_run 0 (0, 0)%nat (0, 0)%nat segs in
    if (1 <? len)%nat
    then fmt_subslice (take start segs) ++ str_bytes "::" ++ fmt_subslice (drop (start + len) segs)
    else fmt_subslice segs
  end.

Definition ip_fmt (a : IpAddr) : text :=
  match a with V4 o => ipv4_fmt o | V6 o => ipv6_fmt o end.

Definition LOCALHOST4 : IpAddr := V4 [x7f; x00; x00; x01].
Definition UNSPECIFIED4 : IpAddr := V4 (replicate 4 x00).
Definition LOCALHOST6 : IpAddr := V6 (replicate 15 x00 ++ [x01]).
Definition UNSPECIFIED6 : IpAddr := V6 (replicate 16 x00).

Example ipv6_examples :
  map (λ o, bytes_str (ipv6_fmt o))
    [replicate 16 x00; replicate 15 x00 ++ [x01]; [x20; x01; x0d; xb8] ++ replicate 8 x00 ++ [x00; x01; x00; x02];
     [x20; x01; x00; x00; x00; x01; x00; x00; x00; x00; x00; x01; x00; x00; x00; x01];
     replicate 10 x00 ++ [xff; xff; x0a; x00; x00; xff]]
  = ["::"; "::1"; "2001:db8::1:2"; "2001:0:1::1:0:1"; "::ffff:10.0.0.255"]%string.
Proof. vm_compute. reflexivity. Qed.

(** ** Connections *)

(** [TcpStream::connect(text)], [TcpStream::connect((host, port))],
    [UnixStream::connect(path)]. *)
Inductive Target :=
| ToAddr (addr : text)
| ToHostPort (host : text) (port : Z)
| ToUnix (path : text).
#[export] Instance Target_eq_dec : EqDecision Target.
Proof. solve_decision. Defined.

(** The two halves of a connected stream, and its local address. *)
Record Stream := MkStream {
  st_local_addr : result SocketAddr ErrorKind;
  st_reader : Reader;
  st_writer : Writer;
}.
Definition Dialer := Target → result Stream ErrorKind.

(** The two ends a handler works on: the channel's streams, the targets it has
    connected to, and the halves of the connection when the relays are done. *)
Record Peer := MkPeer {
  p_reader : Reader;
  p_writer : Writer;
  p_dialed : list Target;
  p_relayed : option Bi;
}.

Definition on_p_reader {E A} : Io Reader E A → Io Peer E A :=
  io_zoom p_reader (λ r s, MkPeer r (p_writer s) (p_dialed s) (p_relayed s)).
Definition on_p_writer {E A} : Io Writer E A → Io Peer E A :=
  io_zoom p_writer (λ w s, MkPeer (p_reader s) w (p_dialed s) (p_relayed s)).

Definition dial (connect : Dialer) (t : Target) : Io Peer ErrorKind Stream := λ s,
  (MkPeer (p_reader s) (p_writer s) (p_dialed s ++ [t]) (p_relayed s), connect t).

(** ** Relays *)

(** What [JoinHandle] gives: the task's result, or that it panicked. *)
Definition join_task {A E} (join : E) (io : ErrorKind → E) (x : result A ErrorKind) : result () E :=
  match x with Ok _ => Ok () | Err e => Err (io e) | Panic => Err join end.

Definition first_err {E} (x y : result () E) : result () E :=
  match x with Ok _ => y | _ => x end.

(** Two tasks on disjoint halves, joined; the first error is returned. *)
Definition relay_bidirectional `{IoCopy} {E} (join : E) (io : ErrorKind → E) (stream : Stream)
    : Io Peer E () := λ s,
  let '((r, tw), x1) := relay (p_reader s, st_writer stream) in
  let '((tr, w), x2) := relay (st_reader stream, p_writer s) in
  (MkPeer r w (p_dialed s) (Some (tr, tw)), first_err (join_task join io x1) (join_task join io x2)).

(** ** Lemmas *)

Lemma on_p_reader_run {E A} (c : Io Reader E A) s r x :
  c (p_reader s) = (r, x) →
  on_p_reader c s = (MkPeer r (p_writer s) (p_dialed s) (p_relayed s), x).
Proof. unfold on_p_reader, io_zoom. by intros ->. Qed.

Lemma on_p_writer_run {E A} (c : Io Writer E A) s w x :
  c (p_writer s) = (w, x) →
  on_p_writer c s = (MkPeer (p_reader s) w (p_dialed s) (p_relayed s), x).
Proof. unfold on_p_writer, io_zoom. by intros ->. Qed.
