(* ===== verification/ByteChannel.v ===== *)
(** * Byte streams over message channels ([src/src/byte_channel.rs])

    A reader and a writer of bytes over a channel of byte vectors. The channel
    is remoc's, the adapters from a stream and to a sink are h3x's: the reader's
    stream is the source's own, the sink adapter is an interface with the laws
    the code relies on. *)
From Stdlib Require Import ZArith Lia Strings.Byte.
From stdpp Require Import base list strings gmap fin_maps relations.
From S2P Require Import Prelude Wire Codec.
Local Open Scope Z_scope.

Inductive Poll (A : Type) := Pending | Ready (a : A).
Arguments Pending {A}.
Arguments Ready {A}.

(** ** The reader *)

Section reader.
Context {RecvError : Type}.

(** What [recv] returns in turn; the channel is pending when nothing is left. *)
Abbreviation Received := (list (result (option (list byte)) RecvError)) (only parsing).

Definition broken_pipe_error (e : RecvError) : ErrorKind := BrokenPipe.

(** The next item of the stream; empty vectors are passed over. *)
Fixpoint next_chunk (rx : Received) : Poll (option (result (list byte) ErrorKind) * Received) :=
  match rx with
  | [] => Pending
  | Ok (Some []) :: rx => next_chunk rx
  | Ok (Some bs) :: rx => Ready (Some (Ok bs), rx)
  | Ok None :: rx => Ready (None, rx)
  | Err e :: rx => Ready (Some (Err (broken_pipe_error e)), rx)
  | Panic :: rx => Ready (Some Panic, rx)
  end.

(** The items up to the end of the stream, in at most [fuel] polls. *)
Fixpoint chunks (fuel : nat) (rx : Received) : list (result (list byte) ErrorKind) :=
  match fuel with
  | O => []
  | S fuel =>
    match next_chunk rx with
    | Ready (Some x, rx) => x :: chunks fuel rx
    | _ => []
    end
  end.
End reader.

(** ** The writer *)

(** The sink: one [send] of the channel for each item, whose sender it keeps. *)
Definition send_item {Tx SendError} (send : Tx → list byte → result () SendError)
    (tx : Tx) (bytes : list byte) : result Tx ErrorKind :=
  (let? _ := result_map_err broken_pipe_error (send tx bytes) in Ok tx)%result.

(** h3x's writer over a sink: [taken] is what it has accepted so far. *)
Class SinkWriter (S : Type) := {
  sink_poll_write : list byte → S → S * Poll (result Z ErrorKind);
  sink_poll_flush : S → S * Poll (result () ErrorKind);
  sink_poll_shutdown : S → S * Poll (result () ErrorKind);
  taken : S → list byte;
}.
(** A write takes bytes exactly when it is ready; flushing takes none. *)
Class SinkWriterLaws (S : Type) `{SinkWriter S} : Prop := {
  sink_write_ready bs s s' n : sink_poll_write bs s = (s', Ready (Ok n)) →
    0 ≤ n ≤ byte_len bs ∧ taken s' = taken s ++ take (Z.to_nat n) bs;
  sink_write_other bs s s' x : sink_poll_write bs s = (s', x) → (∀ n, x ≠ Ready (Ok n)) → taken s' = taken s;
  sink_flush_taken s s' x : sink_poll_flush s = (s', x) → taken s' = taken s;
}.

Section writer.
Context {S : Type} `{SinkWriter S}.

(** [ChannelWriter::poll_write]. *)
Definition poll_write (bs : list byte) (s : S) : S * Poll (result Z ErrorKind) :=
  match sink_poll_write bs s with
  | (s, Ready (Ok written)) =>
    match sink_poll_flush s with
    | (s, Ready (Ok _)) => (s, Ready (Ok written))
    | (s, Ready (Err error)) => (s, Ready (Err error))
    | (s, Ready Panic) => (s, Ready Panic)
    | (s, Pending) => (s, Pending)
    end
  | other => other
  end.
Definition poll_flush (s : S) : S * Poll (result () ErrorKind) := sink_poll_flush s.
Definition poll_shutdown (s : S) : S * Poll (result () ErrorKind) := sink_poll_shutdown s.

(** tokio's [write_all], polled at most [fuel] times: it polls again with the
    same bytes when the write was pending. *)
Fixpoint write_all_polls (fuel : nat) (bs : list byte) (s : S) : S * Poll (result () ErrorKind) :=
  match bs, fuel with
  | [], _ => (s, Ready (Ok ()))
  | _, O => (s, Pending)
  | _, Datatypes.S fuel =>
    match poll_write bs s with
    | (s, Pending) => write_all_polls fuel bs s
    | (s, Ready (Ok n)) =>
      if n =? 0 then (s, Ready (Err WriteZero)) else write_all_polls fuel (drop (Z.to_nat n) bs) s
    | (s, Ready (Err e)) => (s, Ready (Err e))
    | (s, Ready Panic) => (s, Ready Panic)
    end
  end.
End writer.

(** ** Properties *)

(** The bytes of vectors that are sent, empty ones included, arrive in order,
    and an empty vector never ends the stream. *)
Theorem byte_stream_read {RecvError} (sent : list (list byte)) (rest : list (result (option (list byte)) RecvError)) :
  let rx := map (λ bs, Ok (Some bs)) sent ++ Ok None :: rest in
  ∃ parts, chunks (S (length sent)) rx = map Ok parts ∧ concat parts = concat sent ∧ [] ∉ parts.
Proof.
  cbv zeta. exists (filter (λ bs, bs ≠ []) sent). split_and!.
  - assert (∀ fuel, (length sent < fuel)%nat →
      chunks fuel (map (λ bs, Ok (Some bs)) sent ++ Ok None :: rest) = map Ok (filter (λ bs, bs ≠ []) sent))
      as Hc; [|apply Hc; lia].
    induction sent as [|bs sent IH]; intros fuel Hf; (destruct fuel as [|fuel]; [simpl in Hf; lia|]); [done|].
    simpl in Hf. destruct bs as [|b bs].
    + rewrite filter_cons_False by (by intros ?). rewrite <- (IH (S fuel)) by lia. done.
    + rewrite filter_cons_True by done. cbn [map]. rewrite <- (IH fuel) by lia. done.
  - induction sent as [|[|b bs] sent IH]; [done|..].
    + rewrite filter_cons_False by (by intros ?). exact IH.
    + rewrite filter_cons_True by done. cbn [concat]. by rewrite IH.
  - by intros [? _]%list_elem_of_filter.
Qed.

(** A sink that is never pending after it took bytes is written to faithfully. *)
Theorem write_all_exact {S} `{SinkWriterLaws S} (fuel : nat) (bs : list byte) (s s' : S) x :
  (∀ t, (sink_poll_flush t).2 ≠ Pending) →
  write_all_polls fuel bs s = (s', x) →
  ∃ p, taken s' = taken s ++ p ∧ p `prefix_of` bs ∧ (x = Ready (Ok ()) → p = bs).
Proof.
  intros Hflush. revert bs s. induction fuel as [|fuel IH]; intros bs s Hw.
  { exists []. destruct bs; simpl in Hw; simplify_eq; rewrite app_nil_r;
      (split_and!; [done|apply prefix_nil|done]). }
  destruct bs as [|b bs].
  { simpl in Hw. simplify_eq. exists []. by rewrite app_nil_r. }
  cbn [write_all_polls] in Hw. unfold poll_write in Hw.
  assert (∀ t y (z : Poll (result () ErrorKind)), sink_poll_write (b :: bs) s = (t, y) → (∀ n, y ≠ Ready (Ok n)) → z ≠ Ready (Ok ()) →
    ∃ p, taken t = taken s ++ p ∧ p `prefix_of` b :: bs ∧ (z = Ready (Ok ()) → p = b :: bs)) as Hother.
  { intros t y z Ht Hy Hz. exists []. rewrite app_nil_r. split_and!; [|apply prefix_nil|done].
    by eapply sink_write_other. }
  destruct (sink_poll_write (b :: bs) s) as [s1 [|[n|e|]]] eqn:Hs.
  - destruct (IH _ _ Hw) as (p & Hp & Hpre & Hx). exists p. split; [|done].
    rewrite Hp. f_equal. by eapply sink_write_other.
  - apply sink_write_ready in Hs as [Hn Ht1].
    destruct (sink_poll_flush s1) as [s2 y] eqn:Hf. pose proof (sink_flush_taken _ _ _ Hf) as Ht2.
    pose proof (Hflush s1) as Hnp. rewrite Hf in Hnp. destruct y as [|[u|e|]]; [done| | |].
    + destruct (n =? 0) eqn:Hz.
      * simplify_eq. exists []. apply Z.eqb_eq in Hz as ->. rewrite Ht2, Ht1. simpl.
        by split_and!; [|apply prefix_nil|].
      * destruct (IH _ _ Hw) as (p & Hp & Hpre & Hx). exists (take (Z.to_nat n) (b :: bs) ++ p).
        rewrite Hp, Ht2, Ht1, <- (assoc_L (++)). split; [done|].
        split; [|intros ->; rewrite (Hx eq_refl); apply take_drop].
        rewrite <- (take_drop (Z.to_nat n) (b :: bs)) at 2. by apply prefix_app.
    + simplify_eq. exists (take (Z.to_nat n) (b :: bs)). rewrite Ht2, Ht1.
      split_and!; [done|by exists (drop (Z.to_nat n) (b :: bs)); rewrite take_drop|done].
    + simplify_eq. exists (take (Z.to_nat n) (b :: bs)). rewrite Ht2, Ht1.
      split_and!; [done|by exists (drop (Z.to_nat n) (b :: bs)); rewrite take_drop|done].
  - simplify_eq. by eapply Hother.
  - simplify_eq. by eapply Hother.
Qed.

(** A send that fails breaks the pipe; one that does not keeps the sender. *)
Lemma send_item_spec {Tx SendError} (send : Tx → list byte → result () SendError) tx bytes :
  send_item send tx bytes = match send tx bytes with
                            | Ok _ => Ok tx | Err _ => Err BrokenPipe | Panic => Panic end.
Proof. unfold send_item. by destruct (send tx bytes). Qed.

(** ** A channel that is full *)

(** A sink whose sends take a number of polls to complete, in turn. *)
Record Queue := MkQueue { q_taken : list byte; q_busy : nat; q_plan : list nat }.
#[export] Instance queue_writer : SinkWriter Queue := {|
  sink_poll_write bs q :=
    match q_busy q with
    | O => (MkQueue (q_taken q ++ bs) (hd O (q_plan q)) (tl (q_plan q)), Ready (Ok (byte_len bs)))
    | S n => (MkQueue (q_taken q) n (q_plan q), Pending)
    end;
  sink_poll_flush q :=
    match q_busy q with
    | O => (q, Ready (Ok ()))
    | S n => (MkQueue (q_taken q) n (q_plan q), Pending)
    end;
  sink_poll_shutdown q :=
    match q_busy q with
    | O => (q, Ready (Ok ()))
    | S n => (MkQueue (q_taken q) n (q_plan q), Pending)
    end;
  taken := q_taken;
|}.
#[export] Instance queue_laws : SinkWriterLaws Queue.
Proof.
  split.
  - intros bs q q' n. unfold sink_poll_write, taken. simpl. destruct (q_busy q); intros; simplify_eq/=.
    unfold byte_len. rewrite Nat2Z.id, firstn_all. split; [lia|done].
  - intros bs q q' x. unfold sink_poll_write, taken. simpl. destruct (q_busy q); intros; simplify_eq/=; naive_solver.
  - intros q q' x. unfold sink_poll_flush, taken. simpl. destruct (q_busy q); by intros; simplify_eq/=.
Qed.

(** Bytes are sent twice when the channel is full. [poll_write] is pending when
    the flush is, after the bytes were taken; polled again, as an asynchronous
    write is, it takes them again. *)
Theorem pending_write_duplicates (bs : list byte) :
  bs ≠ [] →
  write_all_polls 2 bs (MkQueue [] 0 [1%nat]) = (MkQueue (bs ++ bs) 0 [], Ready (Ok ())).
Proof.
  intros Hbs. destruct bs as [|b bs]; [done|]. cbn [write_all_polls]. unfold poll_write.
  cbn [sink_poll_write sink_poll_flush queue_writer q_busy q_plan q_taken hd tl app].
  destruct (Z.eqb_spec (byte_len (b :: bs)) 0) as [Hz|Hz]; [unfold byte_len in Hz; simpl in Hz; lia|].
  unfold byte_len. rewrite Nat2Z.id, drop_all. done.
Qed.
