(* ===== verification/Tunnels.v ===== *)
(** * Channels served by a connection ([src/src/forward/direct.rs], [socks5.rs])

    The server's handlers of [direct-tcpip], [direct-streamlocal@openssh.com]
    and [socks5] channels, after the dispatcher has read the channel header. *)
From Stdlib Require Import ZArith Lia Strings.Byte.
From stdpp Require Import base list strings gmap fin_maps relations.
From S2P Require Import Prelude Text Wire Codec Message ChannelErrors Channel SessionMsg ForwardMsg.
From S2P Require Import Conversation Net.
Local Open Scope Z_scope.
Local Open Scope io_scope.

(** ** direct.rs *)

Module direct_forward_error.
Inductive DirectForwardError :=
| Decode (source : CodecError)
| DecodeVarint (source : ErrorKind)
| PortOverflow (raw_port : Z)
| Accept (source : WriteChannelOpenConfirmationError)
| Reject (source : WriteChannelOpenFailureError)
| TcpConnect (addr : text) (source : ErrorKind)
| UnixConnect (path : text) (source : ErrorKind)
| Relay (source : ErrorKind)
| RelayJoin.
End direct_forward_error.
Abbreviation DirectForwardError := direct_forward_error.DirectForwardError.

(** [{host}:{port}] *)
Definition host_port (host : text) (port : Z) : text := host ++ [x3a] ++ dec port.

Section direct.
Context `{VarIntCodec, IoCopy}.
Variable connect : Dialer.

Definition send_open_failure (reason : Z) (description : string)
    : Io Peer DirectForwardError () :=
  on_p_writer (reject reason (ssh_string_from description)) <?> direct_forward_error.Reject.

Definition send_open_confirmation : Io Peer DirectForwardError () := λ s,
  let '(w, x) := accept (from_raw_parts (p_reader s) (p_writer s)) DEFAULT_MAX_MESSAGE_SIZE in
  match result_map_err direct_forward_error.Accept x with
  | Ok ch =>
    let '(r, w) := into_inner ch in (MkPeer r w (p_dialed s) (p_relayed s), Ok ())
  | Err e => (MkPeer (p_reader s) w (p_dialed s) (p_relayed s), Err e)
  | Panic => (MkPeer (p_reader s) w (p_dialed s) (p_relayed s), Panic)
  end.

(** Both handlers end alike. *)
Definition connect_and_relay (target : Target) : Io Peer DirectForwardError () :=
  let! connected := io_try (dial connect target) in
  match connected with
  | Ok stream =>
    send_open_confirmation ;;;
    relay_bidirectional direct_forward_error.RelayJoin direct_forward_error.Relay stream
  | _ => send_open_failure CONNECT_FAILED "connect failed"
  end.

Definition handle_direct_tcpip : Io Peer DirectForwardError () :=
  let! dest_host := on_p_reader (decode_one SshString <?> direct_forward_error.Decode) in
  let! dest_port := on_p_reader (decode_one Z <?> direct_forward_error.DecodeVarint) in
  let! _originator_host := on_p_reader (decode_one SshString <?> direct_forward_error.Decode) in
  let! _originator_port := on_p_reader (decode_one Z <?> direct_forward_error.DecodeVarint) in
  match u16_try_from dest_port with
  | None => send_open_failure ADMINISTRATIVELY_PROHIBITED "invalid destination port"
  | Some port => connect_and_relay (ToAddr (host_port (ssh_string_bytes dest_host) port))
  end.

Definition handle_direct_streamlocal : Io Peer DirectForwardError () :=
  let! socket_path := on_p_reader (decode_one SshString <?> direct_forward_error.Decode) in
  let! _reserved_string := on_p_reader (decode_one SshString <?> direct_forward_error.Decode) in
  let! _reserved_port := on_p_reader (decode_one Z <?> direct_forward_error.DecodeVarint) in
  connect_and_relay (ToUnix (ssh_string_bytes socket_path)).
End direct.

(** ** socks5.rs *)

Definition SOCKS5_VERSION : byte := x05.
Definition METHOD_NO_AUTH : byte := x00.
Definition METHOD_NO_ACCEPTABLE : byte := xff.
Definition CMD_CONNECT : byte := x01.
Definition ATYP_IPV4 : byte := x01.
Definition ATYP_DOMAIN : byte := x03.
Definition ATYP_IPV6 : byte := x04.
Definition REP_SUCCEEDED : byte := x00.
Definition REP_CONNECTION_REFUSED : byte := x05.
Definition REP_COMMAND_NOT_SUPPORTED : byte := x07.

Module socks5_error.
Inductive Socks5Error :=
| IoError (source : ErrorKind)
| UnsupportedVersion (version : byte)
| UnsupportedAddressType (atyp : byte)
| InvalidDomain (bytes : list byte)
| RelayJoin.
End socks5_error.
Abbreviation Socks5Error := socks5_error.Socks5Error.

Section socks5.
Context `{IoCopy}.
Variable connect : Dialer.

Definition s_read {A} (c : Io Reader ErrorKind A) : Io Peer Socks5Error A :=
  on_p_reader c <?> socks5_error.IoError.
Definition s_write {A} (c : Io Writer ErrorKind A) : Io Peer Socks5Error A :=
  on_p_writer c <?> socks5_error.IoError.

Definition send_reply (rep atyp : byte) (addr_bytes : list byte) (port : Z)
    : Io Peer Socks5Error () :=
  s_write (write_all ([SOCKS5_VERSION; rep; x00; atyp] ++ addr_bytes ++ be_bytes 2 port)).

Definition send_reply_with_bound_addr (rep : byte) (addr : SocketAddr) : Io Peer Socks5Error () :=
  match sa_ip addr with
  | V4 octets =>
    s_write (write_all ([SOCKS5_VERSION; rep; x00; ATYP_IPV4] ++ octets ++ be_bytes 2 (sa_port addr)))
  | V6 octets =>
    s_write (write_all ([SOCKS5_VERSION; rep; x00; ATYP_IPV6] ++ octets ++ be_bytes 2 (sa_port addr)))
  end.

(** Phase 1: whether the negotiation goes on. *)
Definition negotiate_method : Io Peer Socks5Error bool :=
  let! ver := s_read read_u8 in
  if negb (bool_decide (ver = SOCKS5_VERSION)) then io_fail (socks5_error.UnsupportedVersion ver)
  else
    let! nmethods := s_read read_u8 in
    let! methods := s_read (read_exact (b2z nmethods)) in
    if negb (bool_decide (METHOD_NO_AUTH ∈ methods)) then
      s_write (write_all [SOCKS5_VERSION; METHOD_NO_ACCEPTABLE]) ;;;
      s_write shutdown ;;;
      io_ret false
    else
      s_write (write_all [SOCKS5_VERSION; METHOD_NO_AUTH]) ;;;
      s_write flush ;;;
      io_ret true.

(** The address of the request, as text and as the bytes of a reply. *)
Definition read_address (atyp : byte) : Io Peer Socks5Error (text * list byte) :=
  if bool_decide (atyp = ATYP_IPV4) then
    let! buf := s_read (read_exact 4) in io_ret (ipv4_fmt buf, buf)
  else if bool_decide (atyp = ATYP_DOMAIN) then
    let! len := s_read read_u8 in
    let! buf := s_read (read_exact (b2z len)) in
    if utf8_valid buf then io_ret (buf, len :: buf) else io_fail (socks5_error.InvalidDomain buf)
  else if bool_decide (atyp = ATYP_IPV6) then
    let! buf := s_read (read_exact 16) in io_ret (ipv6_fmt buf, buf)
  else io_fail (socks5_error.UnsupportedAddressType atyp).

(** Phase 2. *)
Definition read_request : Io Peer Socks5Error (byte * byte * (text * list byte) * Z) :=
  let! ver := s_read read_u8 in
  if negb (bool_decide (ver = SOCKS5_VERSION)) then io_fail (socks5_error.UnsupportedVersion ver)
  else
    let! cmd := s_read read_u8 in
    let! _rsv := s_read read_u8 in
    let! atyp := s_read read_u8 in
    let! address := read_address atyp in
    let! dest_port := s_read read_u16 in
    io_ret (cmd, atyp, address, dest_port).

Definition refuse (rep atyp : byte) (addr_bytes : list byte) (port : Z) : Io Peer Socks5Error () :=
  send_reply rep atyp addr_bytes port ;;;
  s_write shutdown.

(** Phases 3 and 4. *)
Definition serve_request (req : byte * byte * (text * list byte) * Z) : Io Peer Socks5Error () :=
  let '(cmd, atyp, (dest_addr, addr_bytes), dest_port) := req in
  if negb (bool_decide (cmd = CMD_CONNECT))
  then refuse REP_COMMAND_NOT_SUPPORTED atyp addr_bytes dest_port
  else
    let! connected := io_try (dial connect (ToAddr (host_port dest_addr dest_port))) in
    match connected with
    | Ok stream =>
      let! local_addr := io_lift (result_map_err socks5_error.IoError (st_local_addr stream)) in
      send_reply_with_bound_addr REP_SUCCEEDED local_addr ;;;
      s_write flush ;;;
      relay_bidirectional socks5_error.RelayJoin socks5_error.IoError stream
    | _ => refuse REP_CONNECTION_REFUSED atyp addr_bytes dest_port
    end.

Definition handle_socks5 : Io Peer Socks5Error () :=
  let! go := negotiate_method in
  if go then let! req := read_request in serve_request req else io_ret ().
End socks5.

(** ** Lemmas *)

(** On streams that do not fail, [c] consumes [bs], answers [out] and returns [a]. *)
Definition serves {E A} (c : Io Peer E A) (bs out : list byte) (a : A) : Prop :=
  ∀ rest fin w d l, wr_plan w = [] →
    ∃ w', c (MkPeer (MkReader (bs ++ rest) fin) w d l) = (MkPeer (MkReader rest fin) w' d l, Ok a) ∧
      wr_out w' = wr_out w ++ out ∧ wr_plan w' = [].

Lemma serves_ret {E A} (a : A) : serves (E := E) (io_ret a) [] [] a.
Proof. intros rest fin w d l Hw. exists w. by rewrite app_nil_r. Qed.

Lemma serves_bind {E A B} (c : Io Peer E A) (k : A → Io Peer E B) bs1 bs2 out1 out2 a b :
  serves c bs1 out1 a → serves (k a) bs2 out2 b →
  serves (io_bind c k) (bs1 ++ bs2) (out1 ++ out2) b.
Proof.
  intros Hc Hk rest fin w d l Hw.
  destruct (Hc (bs2 ++ rest) fin w d l Hw) as (w1 & Hr1 & Ho1 & Hw1).
  destruct (Hk rest fin w1 d l Hw1) as (w2 & Hr2 & Ho2 & Hw2).
  exists w2. rewrite <- (assoc_L (++) bs1), (io_bind_ok _ _ _ _ _ Hr1).
  split; [exact Hr2|]. by rewrite Ho2, Ho1, <- (assoc_L (++)).
Qed.

Lemma serves_map_err {E E' A} (c : Io Peer E A) (f : E → E') bs out a :
  serves c bs out a → serves (c <?> f) bs out a.
Proof.
  intros Hc rest fin w d l Hw. destruct (Hc rest fin w d l Hw) as (w' & Hr & ?).
  exists w'. split; [|done]. unfold map_err. by rewrite Hr.
Qed.

Lemma serves_read {E A} (c : Io Reader E A) bs a : reads c bs a → serves (on_p_reader c) bs [] a.
Proof.
  intros Hc rest fin w d l Hw. exists w. rewrite app_nil_r. split; [|done].
  exact (on_p_reader_run c (MkPeer _ w d l) _ _ (Hc rest fin)).
Qed.

Lemma serves_write {E A} (c : Io Writer E A) out a : writes c out a → serves (on_p_writer c) [] out a.
Proof.
  intros Hc rest fin w d l Hw. destruct (writes_ok Hc w Hw) as (w' & Hr & Ho & Hp).
  exists w'. split; [|done]. exact (on_p_writer_run c (MkPeer _ w d l) _ _ Hr).
Qed.

(** The next step of a handler that reads or writes. *)
Ltac serve_step :=
  match goal with
  | |- serves (io_bind _ _) _ _ _ => eapply serves_bind
  | |- serves (map_err _ _) _ _ _ => eapply serves_map_err
  | |- serves (on_p_reader _) _ _ _ => eapply serves_read
  | |- serves (on_p_writer _) _ _ _ => eapply serves_write
  | |- serves (s_read _) _ _ _ => unfold s_read
  | |- serves (s_write _) _ _ _ => unfold s_write
  | |- serves (io_ret _) _ _ _ => eapply serves_ret
  end.

(** A run of [c], then of what follows it. *)
Lemma serves_then {E A B} (c : Io Peer E A) (k : A → Io Peer E B) bs out a rest fin w d l :
  serves c bs out a → wr_plan w = [] →
  ∃ w', wr_out w' = wr_out w ++ out ∧ wr_plan w' = [] ∧
    io_bind c k (MkPeer (MkReader (bs ++ rest) fin) w d l)
    = k a (MkPeer (MkReader rest fin) w' d l).
Proof.
  intros Hc Hw. destruct (Hc rest fin w d l Hw) as (w' & Hr & Ho & Hp). exists w'.
  split_and!; [done..|]. by apply io_bind_ok.
Qed.

Section relays.
Context `{IoCopyLaws}.

(** A relay whose source ends carries every byte, then shuts its target down. *)
Lemma relay_reliable src w :
  rd_end src = None → wr_plan w = [] →
  ∃ s' n, relay (src, w) = (s', Ok n) ∧ wr_out s'.2 = wr_out w ++ rd_buf src ∧
    wr_shutdown s'.2 = true ∧ wr_flushed s'.2 = length (wr_out s'.2).
Proof.
  intros Hs Hw. destruct (copy_limit_reliable None src w Hw (or_introl Hs)) as ([r' w1] & k & Hc & Hp).
  destruct (copy_limit_ok None src w r' w1 k Hc) as (p & _ & Ho & _ & Heq). simpl in Heq, Hp. subst p.
  unfold relay. unfold copy. rewrite (io_bind_ok _ _ _ _ _ Hc).
  unfold shutdown, on_writer, io_bind, io_zoom, next_outcome. simpl. rewrite Hp. simpl.
  eexists _, k. split_and!; [reflexivity|done..].
Qed.

(** The connection as the relays leave it: each side got what the other sent. *)
Definition tunnelled (stream : Stream) (sent answer : list byte) (w : Writer) (s' : Peer) : Prop :=
  ∃ tr tw, p_relayed s' = Some (tr, tw) ∧
    wr_out tw = wr_out (st_writer stream) ++ sent ∧ wr_shutdown tw = true ∧
    wr_out (p_writer s') = wr_out w ++ answer ++ rd_buf (st_reader stream) ∧
    wr_shutdown (p_writer s') = true.

Definition stream_ok (stream : Stream) : Prop :=
  rd_end (st_reader stream) = None ∧ wr_plan (st_writer stream) = [].

Lemma relay_bidirectional_reliable {E} (join : E) io stream sent w w0 answer d l :
  stream_ok stream → wr_plan w = [] → wr_out w = wr_out w0 ++ answer →
  ∃ s', relay_bidirectional join io stream (MkPeer (MkReader sent None) w d l) = (s', Ok ()) ∧
    p_dialed s' = d ∧ tunnelled stream sent answer w0 s'.
Proof.
  intros [Hr Ht] Hw Ho. unfold relay_bidirectional. cbn [p_reader p_writer p_dialed].
  destruct (relay_reliable (MkReader sent None) (st_writer stream) eq_refl Ht)
    as ([r' tw] & n & -> & Ho1 & Hs1 & _).
  destruct (relay_reliable (st_reader stream) w Hr Hw) as ([tr w'] & n' & -> & Ho2 & Hs2 & _).
  eexists. split_and!; [reflexivity|done|]. exists tr, tw. simpl in *.
  split_and!; [done..| |done]. by rewrite Ho2, Ho, <- (assoc_L (++)).
Qed.
End relays.

Section direct_lemmas.
Context `{VarIntLaws, IoCopyLaws} (connect : Dialer).

Lemma default_size_ok : varint_ok DEFAULT_MAX_MESSAGE_SIZE.
Proof. by apply varint_ok_u32. Qed.
Lemma connect_failed_ok : varint_ok CONNECT_FAILED.
Proof. by apply varint_ok_u32. Qed.

Lemma send_open_failure_serves reason (d : string) :
  varint_ok reason → ssh_string_ok (ssh_string_from d) →
  serves (send_open_failure reason d) []
    (msg SSH_MSG_CHANNEL_OPEN_FAILURE ++ varint_bytes reason ++ field_wire (str_bytes d)) ().
Proof.
  intros Hr Hd. unfold send_open_failure. serve_step. serve_step. by apply reject_writes.
Qed.

Lemma send_open_confirmation_serves :
  serves send_open_confirmation []
    (msg SSH_MSG_CHANNEL_OPEN_CONFIRMATION ++ varint_bytes DEFAULT_MAX_MESSAGE_SIZE) ().
Proof.
  intros rest fin w d l Hw.
  destruct (writes_ok (accept_send_writes DEFAULT_MAX_MESSAGE_SIZE default_size_ok) w Hw)
    as (w' & Hr & Ho & Hp).
  exists w'. split; [|done]. unfold send_open_confirmation, accept. simpl. rewrite Hr. done.
Qed.

(** What the opener is told, given the target the request names, if any. *)
Definition outcome (target : option Target) : result () ChannelOpenFailure :=
  match target with
  | Some target =>
    match connect target with
    | Ok _ => Ok ()
    | _ => Err (MkChannelOpenFailure CONNECT_FAILED (ssh_string_from "connect failed"))
    end
  | None =>
    Err (MkChannelOpenFailure ADMINISTRATIVELY_PROHIBITED (ssh_string_from "invalid destination port"))
  end.

Definition answer_of (x : result () ChannelOpenFailure) : list byte :=
  match x with
  | Ok _ => msg SSH_MSG_CHANNEL_OPEN_CONFIRMATION ++ varint_bytes DEFAULT_MAX_MESSAGE_SIZE
  | Err f => msg SSH_MSG_CHANNEL_OPEN_FAILURE ++ varint_bytes (reason_code f) ++
             field_wire (ssh_string_bytes (description f))
  | Panic => []
  end.

(** The handler's end: it dialled the target and nothing else, answered, and
    where the target accepted, each side got every byte of the other. *)
Definition served (s' : Peer) (peer : Writer) (target : option Target) (sent : list byte) : Prop :=
  p_dialed s' = option_list target ∧
  match connect <$> target with
  | Some (Ok stream) => tunnelled stream sent (answer_of (outcome target)) peer s'
  | _ => p_relayed s' = None ∧ wr_out (p_writer s') = wr_out peer ++ answer_of (outcome target)
  end.

Hypothesis connect_ok : ∀ t, connect t ≠ Panic ∧ ∀ stream, connect t = Ok stream → stream_ok stream.

(** The refusals of the handlers are valid messages. *)
Lemma outcome_valid target :
  match outcome target with
  | Ok _ => True
  | Err f => varint_ok (reason_code f) ∧ ssh_string_ok (description f)
  | Panic => False
  end.
Proof.
  unfold outcome. destruct target as [t|]; [destruct (connect t)|];
    try (split; [by apply varint_ok_u32|by apply from_static_ok]); done.
Qed.

Lemma connect_and_relay_run target sent w :
  wr_plan w = [] →
  ∃ s', connect_and_relay connect target (MkPeer (MkReader sent None) w [] None) = (s', Ok ()) ∧
    served s' w (Some target) sent.
Proof.
  intros Hw. destruct (connect_ok target) as [Hnp Hok].
  unfold connect_and_relay, served, outcome, dial, io_try, io_bind at 1. simpl.
  destruct (connect target) as [stream|e|] eqn:Hc; [| |done].
  - destruct (serves_then send_open_confirmation
      (λ _, relay_bidirectional direct_forward_error.RelayJoin direct_forward_error.Relay stream)
      [] _ () sent None w [target] None send_open_confirmation_serves Hw) as (w' & Ho & Hp & Hr).
    destruct (relay_bidirectional_reliable direct_forward_error.RelayJoin direct_forward_error.Relay
      stream sent w' w _ [target] None (Hok stream eq_refl) Hp Ho) as (s' & Hs & Hd & Ht).
    exists s'. simpl in Hr. by rewrite Hr.
  - destruct (send_open_failure_serves CONNECT_FAILED "connect failed" connect_failed_ok
      (from_static_ok "connect failed" eq_refl eq_refl) sent None w [target] None Hw)
      as (w' & Hr & Ho & Hp).
    by exists (MkPeer (MkReader sent None) w' [target] None).
Qed.

Definition direct_tcpip_target (d : DirectTcpip) : option Target :=
  if dt_dest_port d <=? U16_MAX
  then Some (ToAddr (host_port (ssh_string_bytes (dt_dest_host d)) (dt_dest_port d))) else None.

Lemma handle_direct_tcpip_run d sent w :
  wire_ok d → wr_plan w = [] →
  ∃ s', handle_direct_tcpip connect (MkPeer (MkReader (wire d ++ sent) None) w [] None) = (s', Ok ()) ∧
    served s' w (direct_tcpip_target d) sent.
Proof.
  destruct d as [host port ohost oport]. intros (Hh & Hp & Hoh & Hop) Hw. cbn in Hh, Hp, Hoh, Hop.
  unfold handle_direct_tcpip, direct_tcpip_target. cbn [wire DirectTcpip_wire dt_dest_host dt_dest_port
    dt_originator_host dt_originator_port]. rewrite <- !(assoc_L (++)).
  do 4 (erewrite io_bind_ok;
    [|apply on_p_reader_run; cbn [p_reader];
      first [by apply reads_map_err, decode_string_reads|by apply reads_map_err, decode_varint_reads]];
    cbn [p_reader p_writer p_dialed p_relayed]).
  unfold u16_try_from. destruct (port <=? U16_MAX); [by apply connect_and_relay_run|].
  destruct (send_open_failure_serves ADMINISTRATIVELY_PROHIBITED "invalid destination port"
    ltac:(by apply varint_ok_u32) (from_static_ok "invalid destination port" eq_refl eq_refl)
    sent None w [] None Hw) as (w' & Hr & Ho & Hp').
  by exists (MkPeer (MkReader sent None) w' [] None).
Qed.

Lemma handle_direct_streamlocal_run d sent w :
  wire_ok d → wr_plan w = [] →
  ∃ s', handle_direct_streamlocal connect (MkPeer (MkReader (wire d ++ sent) None) w [] None)
      = (s', Ok ()) ∧
    served s' w (Some (ToUnix (ssh_string_bytes (ds_socket_path d)))) sent.
Proof.
  destruct d as [path]. intros Hp Hw. cbn in Hp.
  unfold handle_direct_streamlocal. cbn [wire DirectStreamlocal_wire ds_socket_path].
  rewrite <- !(assoc_L (++)).
  do 3 (erewrite io_bind_ok;
    [|apply on_p_reader_run; cbn [p_reader];
      first [apply reads_map_err, decode_string_reads; solve [done|by apply from_static_ok]
            |apply reads_map_err, decode_varint_reads; by apply varint_ok_u32]];
    cbn [p_reader p_writer p_dialed p_relayed]).
  by apply connect_and_relay_run.
Qed.
End direct_lemmas.

(** ** Properties *)

(** [carries C handle target]: the opener's header makes the peer accept a
    channel of that type; the handler dials [target c], if there is one, and
    nothing else, and the opener learns the outcome; on success the connection
    gets what the opener sends after the header, the opener what the connection
    sends. *)
Definition carries `{VarIntCodec} (C : Type) {PE PD}
    `{ChannelOpen C, EncodeInto C PE, DecodeFrom C PD, !WireFormat C}
    (connect : Dialer) (handle : Io Peer DirectForwardError ()) (target : C → option Target) : Prop :=
  ∀ c m w peer, varint_ok m → wire_ok c → wr_plan w = [] → wr_plan peer = [] →
  ∃ w' header, wr_out w' = wr_out w ++ header ∧
    (∀ later fin,
       open_channel (OE := ()) (AE := ())
         (Ok (MkReader (answer_of (outcome connect (target c)) ++ later) fin, w)) c m
       = (Some (MkReader later fin, w'),
          result_map_err (λ f, open_channel_error.AwaitConfirmation (await_open_error.Rejected f))
            (outcome connect (target c)))) ∧
    ∀ sent, ∃ incoming s',
      accept_channel (OE := ()) (AE := ()) (Ok (MkReader (header ++ sent) None, peer))
      = (Some (into_raw_parts incoming), Ok incoming) ∧
      channel_type_name incoming = channel_type c ∧
      handle (MkPeer (into_raw_parts incoming).1 (into_raw_parts incoming).2 [] None) = (s', Ok ()) ∧
      served connect s' peer (target c) sent.

Lemma carries_run `{VarIntLaws} (C : Type) {PE PD}
    `{ChannelOpen C, EncodeInto C PE, DecodeFrom C PD, !WireFormat C}
    (connect : Dialer) handle (target : C → option Target) :
  (∀ c : C, ssh_string_ok (channel_type c)) →
  (∀ c sent w, wire_ok c → wr_plan w = [] →
     ∃ s', handle (MkPeer (MkReader (wire c ++ sent) None) w [] None) = (s', Ok ()) ∧
       served connect s' w (target c) sent) →
  carries C connect handle target.
Proof.
  intros Hn Hrun c m w peer Hm Hc Hw Hpeer.
  destruct (open_channel_run (OE := ()) (AE := ()) c m (wire c) w Hm (Hn c) (wire_encode c Hc) Hw)
    as (w' & Ho & _ & Hopen).
  exists w', (varint_bytes DSHELL_CHANNEL_STREAM_KIND ++ channel_header m (channel_type c) ++ wire c).
  split_and!; [done| |].
  - intros later fin. rewrite Hopen. pose proof (outcome_valid connect (target c)) as Hv.
    destruct (outcome connect (target c)) as [[]|[code d]|]; [| |done]; simpl in *.
    + by rewrite (confirmation_reads _ default_size_ok).
    + by rewrite rejection_run by apply Hv.
  - intros sent. destruct (Hrun c sent peer Hc Hpeer) as (s' & Hs & Hserved).
    exists (MkIncomingChannel (channel_type c) m (MkReader (wire c ++ sent) None) peer), s'.
    rewrite <- !(assoc_L (++)), accept_channel_run by done. split_and!; done.
Qed.

Section carried.
Context `{VarIntLaws, IoCopyLaws}.

(** C17: A direct channel is a tunnel to the target it names. Between the
    opener's [open_channel] and the peer's [accept_channel] and handler: the
    handler connects to exactly the host and port, or socket, of the open
    message, never to anything else; the opener gets its confirmation exactly
    when that connection succeeded, and otherwise the reason (a port above
    65535, a failed connection); then both directions carry every byte and are
    shut down. *)
Theorem direct_tunnel (connect : Dialer) :
  (∀ t, connect t ≠ Panic ∧ ∀ stream, connect t = Ok stream → stream_ok stream) →
  carries DirectTcpip connect (handle_direct_tcpip connect) direct_tcpip_target ∧
  carries DirectStreamlocal connect (handle_direct_streamlocal connect)
    (λ d, Some (ToUnix (ssh_string_bytes (ds_socket_path d)))).
Proof.
  intros Hc. split; apply carries_run.
  - intros c. by apply from_static_ok.
  - intros. by apply handle_direct_tcpip_run.
  - intros c. by apply from_static_ok.
  - intros. by apply handle_direct_streamlocal_run.
Qed.
End carried.

(** ** The SOCKS5 protocol *)

(** A destination, as text, and as a request or a reply carries it. *)
Inductive Destination := DestIp (a : IpAddr) | DestDomain (name : text).
Definition dest_ok (d : Destination) : Prop :=
  match d with
  | DestIp a => ip_ok a
  | DestDomain name => utf8_valid name = true ∧ (length name < 256)%nat
  end.
Definition dest_text (d : Destination) : text :=
  match d with DestIp a => ip_fmt a | DestDomain name => name end.
Definition dest_atyp (d : Destination) : byte :=
  match d with DestIp (V4 _) => ATYP_IPV4 | DestIp (V6 _) => ATYP_IPV6 | DestDomain _ => ATYP_DOMAIN end.
Definition dest_bytes (d : Destination) : list byte :=
  match d with
  | DestIp (V4 o) | DestIp (V6 o) => o
  | DestDomain name => z2b (byte_len name) :: name
  end.

Definition greeting (methods : list byte) : list byte :=
  [SOCKS5_VERSION; z2b (byte_len methods)] ++ methods.
Definition socks_request (cmd rsv : byte) (d : Destination) (port : Z) : list byte :=
  [SOCKS5_VERSION; cmd; rsv; dest_atyp d] ++ dest_bytes d ++ be_bytes 2 port.
Definition socks_reply (rep : byte) (d : Destination) (port : Z) : list byte :=
  socks_request rep x00 d port.

(** ** Reading the protocol *)

Lemma b2z_byte_len bs : (length bs < 256)%nat → b2z (z2b (byte_len bs)) = Z.of_nat (length bs).
Proof. intros. apply b2z_z2b_small. unfold byte_len. lia. Qed.

Lemma s_read_serves {A} (c : Io Reader ErrorKind A) bs a : reads c bs a → serves (s_read c) bs [] a.
Proof. intros. unfold s_read. by apply serves_map_err, serves_read. Qed.
Lemma s_write_serves {A} (c : Io Writer ErrorKind A) bs a : writes c bs a → serves (s_write c) [] bs a.
Proof. intros. unfold s_write. by apply serves_map_err, serves_write. Qed.

Lemma serves_eq {E A} (c : Io Peer E A) bs bs' out out' a :
  serves c bs out a → bs = bs' → out = out' → serves c bs' out' a.
Proof. by intros ? -> ->. Qed.

Lemma negotiate_serves methods :
  METHOD_NO_AUTH ∈ methods → (length methods < 256)%nat →
  serves negotiate_method (greeting methods) [SOCKS5_VERSION; METHOD_NO_AUTH] true.
Proof.
  intros Hm Hl. unfold negotiate_method, greeting. eapply serves_eq.
  - eapply serves_bind; [apply s_read_serves, (reads_read_u8 SOCKS5_VERSION)|]. simpl.
    eapply serves_bind; [apply s_read_serves, (reads_read_u8 (z2b (byte_len methods)))|].
    eapply serves_bind; [apply s_read_serves, reads_read_exact, b2z_byte_len, Hl|].
    rewrite bool_decide_eq_true_2 by done. simpl.
    eapply serves_bind; [apply s_write_serves, writes_write_all|].
    eapply serves_bind; [apply s_write_serves, writes_flush|apply serves_ret].
  - by rewrite !app_nil_r.
  - done.
Qed.

Lemma read_address_serves d :
  dest_ok d → serves (read_address (dest_atyp d)) (dest_bytes d) [] (dest_text d, dest_bytes d).
Proof.
  intros Hd. unfold read_address. destruct d as [[o|o]|name]; simpl in *.
  - eapply serves_eq; [eapply serves_bind;
      [apply s_read_serves, reads_read_exact; by rewrite Hd|apply serves_ret]| |done].
    by rewrite app_nil_r.
  - eapply serves_eq; [eapply serves_bind;
      [apply s_read_serves, reads_read_exact; by rewrite Hd|apply serves_ret]| |done].
    by rewrite app_nil_r.
  - destruct Hd as [Hu Hl]. eapply serves_eq.
    + eapply serves_bind; [apply s_read_serves, (reads_read_u8 (z2b (byte_len name)))|].
      eapply serves_bind; [apply s_read_serves, reads_read_exact, b2z_byte_len, Hl|].
      rewrite Hu. apply serves_ret.
    + by rewrite app_nil_r.
    + done.
Qed.

Lemma read_request_serves cmd rsv d port :
  dest_ok d → 0 ≤ port ≤ U16_MAX →
  serves read_request (socks_request cmd rsv d port) []
    (cmd, dest_atyp d, (dest_text d, dest_bytes d), port).
Proof.
  intros Hd Hp. unfold read_request, socks_request. eapply serves_eq.
  - eapply serves_bind; [apply s_read_serves, (reads_read_u8 SOCKS5_VERSION)|]. simpl.
    eapply serves_bind; [apply s_read_serves, (reads_read_u8 cmd)|].
    eapply serves_bind; [apply s_read_serves, (reads_read_u8 rsv)|].
    eapply serves_bind; [apply s_read_serves, (reads_read_u8 (dest_atyp d))|].
    eapply serves_bind; [by apply read_address_serves|].
    eapply serves_bind; [by apply s_read_serves, reads_read_u16|apply serves_ret].
  - by rewrite app_nil_r.
  - done.
Qed.

(** A refusal ends with the shutdown of the channel. *)
Lemma refuse_run rep d port rest fin w w0 out dl l :
  wr_plan w = [] → wr_out w = wr_out w0 ++ out →
  ∃ s', refuse rep (dest_atyp d) (dest_bytes d) port (MkPeer (MkReader rest fin) w dl l) = (s', Ok ()) ∧
    p_dialed s' = dl ∧ p_relayed s' = l ∧
    wr_out (p_writer s') = wr_out w0 ++ out ++ socks_reply rep d port ∧
    wr_shutdown (p_writer s') = true.
Proof.
  intros Hw Ho. unfold refuse, send_reply.
  destruct (serves_then (s_write (write_all ([SOCKS5_VERSION; rep; x00; dest_atyp d] ++ dest_bytes d ++
      be_bytes 2 port))) (λ _, s_write shutdown) [] _ () rest fin w dl l
      (s_write_serves _ _ _ (writes_write_all _)) Hw) as (w' & Ho' & Hp' & Hr).
  simpl in Hr. simpl. rewrite Hr. unfold s_write, on_p_writer, io_zoom, map_err, shutdown, next_outcome.
  cbn [p_writer]. rewrite Hp'. eexists. split_and!; [reflexivity|done..| |done].
  simpl. by rewrite Ho', Ho, <- (assoc_L (++)).
Qed.

(** ** What a run of the handler says about its input *)

Lemma be_bytes_value bs : be_bytes (length bs) (be_value bs) = bs.
Proof.
  induction bs as [|b bs IH] using rev_ind; [done|].
  rewrite length_app, Nat.add_comm. simpl. rewrite be_value_snoc.
  rewrite Z.div_add_l, Z.div_small, Z.add_0_r by (lia || apply b2z_range). rewrite IH. f_equal.
  rewrite <- (z2b_b2z b) at 2. unfold z2b, wrap_u8. by rewrite Z.add_comm, Z.mod_add by lia.
Qed.

Lemma s_read_inv {A} (c : Io Reader ErrorKind A) s s' a :
  s_read c s = (s', Ok a) → c (p_reader s) = (p_reader s', Ok a) ∧ p_dialed s' = p_dialed s.
Proof.
  unfold s_read, on_p_reader, io_zoom, map_err.
  destruct (c (p_reader s)) as [r [?|?|]]; intros; by simplify_eq/=.
Qed.

Lemma s_write_inv {A} (c : Io Writer ErrorKind A) s s' x :
  s_write c s = (s', x) → p_reader s' = p_reader s ∧ p_dialed s' = p_dialed s.
Proof.
  unfold s_write, on_p_writer, io_zoom, map_err.
  destruct (c (p_writer s)) as [w y]; intros; by simplify_eq/=.
Qed.

Lemma read_u8_inv s s' b :
  s_read read_u8 s = (s', Ok b) →
  rd_buf (p_reader s) = b :: rd_buf (p_reader s') ∧ p_dialed s' = p_dialed s.
Proof.
  intros [Hr Hd]%s_read_inv. split; [|done]. unfold read_u8 in Hr.
  destruct (rd_buf (p_reader s)); [done|]. by injection Hr as <- <-.
Qed.

Lemma read_exact_inv n s s' bs :
  0 ≤ n → s_read (read_exact n) s = (s', Ok bs) →
  rd_buf (p_reader s) = bs ++ rd_buf (p_reader s') ∧ Z.of_nat (length bs) = n ∧
  p_dialed s' = p_dialed s.
Proof.
  intros Hn [Hr Hd]%s_read_inv. apply read_exact_inv_ok in Hr as (Hb & _ & Hl). auto.
Qed.

Lemma read_u16_inv s s' port :
  s_read read_u16 s = (s', Ok port) →
  rd_buf (p_reader s) = be_bytes 2 port ++ rd_buf (p_reader s') ∧ p_dialed s' = p_dialed s ∧
  0 ≤ port ≤ U16_MAX.
Proof.
  intros [Hr Hd]%s_read_inv. unfold read_u16 in Hr. io_inv.
  match goal with Hx : read_exact _ _ = _ |- _ => apply read_exact_inv_ok in Hx as (Hb & _ & Hl) end.
  assert (length x0 = 2%nat) as Hlen by lia. split_and!; [|done|..].
  - rewrite Hb. f_equal. rewrite <- Hlen. by rewrite be_bytes_value.
  - pose proof (be_value_range x0). lia.
  - pose proof (be_value_range x0) as Hv. rewrite Hlen in Hv. unfold U16_MAX. simpl in Hv. lia.
Qed.

Lemma read_address_inv atyp s s' addr bytes :
  read_address atyp s = (s', Ok (addr, bytes)) →
  p_dialed s' = p_dialed s ∧
  ∃ d, dest_ok d ∧ atyp = dest_atyp d ∧ addr = dest_text d ∧ bytes = dest_bytes d ∧
    rd_buf (p_reader s) = bytes ++ rd_buf (p_reader s').
Proof.
  unfold read_address. repeat case_bool_decide; subst; intros Hr; io_inv.
  - match goal with Hx : s_read _ _ = _ |- _ => apply read_exact_inv in Hx as (Hb & Hl & Hd); [|done] end.
    split; [done|]. eexists (DestIp (V4 _)). split_and!; [|done..|exact Hb]. simpl. lia.
  - match goal with Hx : s_read read_u8 _ = _ |- _ => apply read_u8_inv in Hx as (Hb & Hd) end.
    match goal with Hx : s_read (read_exact _) _ = _ |- _ =>
      apply read_exact_inv in Hx as (Hb' & Hl & Hd'); [|apply b2z_range] end.
    destruct (utf8_valid _) eqn:Hu; [|done]. io_inv. split; [congruence|].
    eexists (DestDomain _).
    assert (dest_bytes (DestDomain addr) = x0 :: addr) as Hbytes.
    { simpl. unfold byte_len. by rewrite Hl, z2b_b2z. }
    split_and!; [|done|reflexivity|by rewrite Hbytes|by rewrite Hb, Hb'].
    split; [done|]. pose proof (b2z_range x0). lia.
  - match goal with Hx : s_read _ _ = _ |- _ => apply read_exact_inv in Hx as (Hb & Hl & Hd); [|done] end.
    split; [done|]. eexists (DestIp (V6 _)). split_and!; [|done..|exact Hb]. simpl. lia.
Qed.

Lemma read_request_inv s s' cmd atyp addr bytes port :
  read_request s = (s', Ok (cmd, atyp, (addr, bytes), port)) →
  p_dialed s' = p_dialed s ∧
  ∃ rsv d, dest_ok d ∧ 0 ≤ port ≤ U16_MAX ∧ addr = dest_text d ∧
    rd_buf (p_reader s) = socks_request cmd rsv d port ++ rd_buf (p_reader s').
Proof.
  unfold read_request. intros Hr. io_inv. case_bool_decide; [|done]. simpl in Hr. io_inv. subst.
  repeat match goal with
  | Hx : s_read read_u8 _ = _ |- _ => apply read_u8_inv in Hx as [? ?]
  | Hx : s_read read_u16 _ = _ |- _ => apply read_u16_inv in Hx as (? & ? & ?)
  | Hx : read_address _ _ = _ |- _ => apply read_address_inv in Hx as (? & d & ? & -> & -> & -> & ?)
  end.
  split; [congruence|]. eexists _, d. split_and!; [done|lia|lia|done|].
  unfold socks_request. rewrite <- (assoc_L (++)). simpl.
  repeat match goal with Hx : rd_buf (p_reader ?a) = _ |- context [rd_buf (p_reader ?a)] => rewrite Hx end.
  by rewrite <- (assoc_L (++)).
Qed.

(** A computation that connects to nothing. *)
Definition quiet {E A} (c : Io Peer E A) : Prop := ∀ s, p_dialed (c s).1 = p_dialed s.

Lemma quiet_bind {E A B} (c : Io Peer E A) (k : A → Io Peer E B) :
  quiet c → (∀ a, quiet (k a)) → quiet (io_bind c k).
Proof.
  intros Hc Hk s. unfold io_bind. specialize (Hc s). destruct (c s) as [s' [a|e|]]; simpl in *; [|done..].
  by rewrite Hk.
Qed.
Lemma quiet_s_read {A} (c : Io Reader ErrorKind A) : quiet (s_read c).
Proof. intros s. unfold s_read, on_p_reader, io_zoom, map_err. by destruct (c _). Qed.
Lemma quiet_s_write {A} (c : Io Writer ErrorKind A) : quiet (s_write c).
Proof. intros s. unfold s_write, on_p_writer, io_zoom, map_err. by destruct (c _). Qed.
Lemma quiet_const {E A} (x : result A E) : quiet (io_lift x).
Proof. done. Qed.
Lemma quiet_relay `{IoCopy} {E} (join : E) io stream : quiet (relay_bidirectional join io stream).
Proof. intros s. unfold relay_bidirectional. by repeat destruct (relay _) as [[??]?]. Qed.

Ltac solve_quiet :=
  repeat (intros || match goal with
  | |- quiet (io_bind _ _) => apply quiet_bind
  | |- quiet (s_read _) => apply quiet_s_read
  | |- quiet (s_write _) => apply quiet_s_write
  | |- quiet (relay_bidirectional _ _ _) => apply quiet_relay
  | |- quiet (io_lift _) => apply quiet_const
  | |- quiet (io_ret _) => done
  | |- quiet (io_fail _) => done
  | |- quiet (if ?b then _ else _) => destruct b
  | |- quiet (match ?x with _ => _ end) => destruct x
  end).

Lemma quiet_negotiate : quiet negotiate_method.
Proof. unfold negotiate_method. solve_quiet. Qed.
Lemma quiet_read_request : quiet read_request.
Proof. unfold read_request, read_address. solve_quiet. Qed.
Lemma quiet_refuse rep atyp bytes port : quiet (refuse rep atyp bytes port).
Proof. unfold refuse, send_reply. solve_quiet. Qed.

Lemma negotiate_inv s s' :
  negotiate_method s = (s', Ok true) →
  ∃ methods, METHOD_NO_AUTH ∈ methods ∧ (length methods < 256)%nat ∧
    rd_buf (p_reader s) = greeting methods ++ rd_buf (p_reader s').
Proof.
  unfold negotiate_method. intros Hr. io_inv. case_bool_decide; [|done]. simpl in Hr. io_inv. subst.
  case_bool_decide; simpl in Hr; io_inv; [|done].
  repeat match goal with
  | Hx : s_read read_u8 _ = _ |- _ => apply read_u8_inv in Hx as [? ?]
  | Hx : s_read (read_exact _) _ = _ |- _ => apply read_exact_inv in Hx as (? & Hl & ?); [|apply b2z_range]
  | Hx : s_write _ _ = _ |- _ => apply s_write_inv in Hx as [? ?]
  end.
  match goal with Hm : METHOD_NO_AUTH ∈ ?m |- _ => exists m end. split_and!; [done|..].
  - match type of Hl with _ = b2z ?n => pose proof (b2z_range n) end. lia.
  - unfold greeting, byte_len. rewrite Hl, z2b_b2z. simpl. congruence.
Qed.

(** Only a request to connect is served by a connection. *)
Lemma serve_request_dialed `{IoCopy} connect cmd atyp addr bytes port s :
  p_dialed (serve_request connect (cmd, atyp, (addr, bytes), port) s).1 =
  p_dialed s ++ (if decide (cmd = CMD_CONNECT) then [ToAddr (host_port addr port)] else []).
Proof.
  unfold serve_request. destruct (decide (cmd = CMD_CONNECT)) as [->|Hc].
  2:{ rewrite bool_decide_eq_false_2 by done. cbn [negb]. by rewrite (quiet_refuse _ _ _ _ s), app_nil_r. }
  rewrite bool_decide_eq_true_2 by done. cbn [negb]. unfold io_bind at 1, io_try, dial.
  destruct (connect _) as [stream|e|]; [| |done].
  - match goal with |- context [(io_bind ?c ?k ?t).1] =>
      assert (quiet (io_bind c k)) as Hq; [|exact (Hq t)] end.
    unfold send_reply_with_bound_addr. solve_quiet.
  - apply quiet_refuse.
Qed.

Section socks5_properties.
Context `{IoCopyLaws} (connect : Dialer).

(** C22: The proxy connects only where a complete, valid request says. Whatever
    the channel sends and however it fails, the handler makes at most one
    connection, and makes it only when the input starts with a greeting that
    offers no authentication and a CONNECT request: then to the host and port of
    that request. *)
Theorem socks5_dials_requested (s : Peer) :
  p_dialed (handle_socks5 connect s).1 = p_dialed s ∨
  ∃ methods rsv d port rest, METHOD_NO_AUTH ∈ methods ∧ (length methods < 256)%nat ∧
    dest_ok d ∧ 0 ≤ port ≤ U16_MAX ∧
    rd_buf (p_reader s) = greeting methods ++ socks_request CMD_CONNECT rsv d port ++ rest ∧
    p_dialed (handle_socks5 connect s).1 = p_dialed s ++ [ToAddr (host_port (dest_text d) port)].
Proof.
  unfold handle_socks5, io_bind at 1 3. pose proof (quiet_negotiate s) as Hq1.
  destruct (negotiate_method s) as [s1 [go|e|]] eqn:Hn; simpl in Hq1; [|by left..].
  destruct go; [|by left]. apply negotiate_inv in Hn as (methods & Hm & Hl & Hb).
  unfold io_bind. pose proof (quiet_read_request s1) as Hq2.
  destruct (read_request s1) as [s2 [[[[cmd atyp] [addr bytes]] port]|e|]] eqn:Hr; simpl in Hq2;
    [|left; simpl; congruence..].
  apply read_request_inv in Hr as (_ & rsv & d & Hd & Hp & -> & Hb').
  rewrite serve_request_dialed, Hq2, Hq1. destruct (decide (cmd = CMD_CONNECT)) as [->|].
  - right. exists methods, rsv, d, port, (rd_buf (p_reader s2)). split_and!; try done; try apply Hp.
    by rewrite Hb, Hb'.
  - left. apply app_nil_r.
Qed.

Hypothesis connect_ok : ∀ t, connect t ≠ Panic ∧ ∀ stream, connect t = Ok stream →
  stream_ok stream ∧ ∃ a, st_local_addr stream = Ok a ∧ ip_ok (sa_ip a).

(** C34: A valid request is served. After a greeting that offers no
    authentication the handler answers with that method; a CONNECT is dialled,
    and when the connection succeeds its local address is replied and both
    directions carry every byte; when it fails, and for another command, the
    reply repeats the destination with the code for it, and the channel is shut
    down. *)
Theorem socks5_serves (methods : list byte) (cmd rsv : byte) (d : Destination) (port : Z)
    (sent : list byte) (w : Writer) :
  METHOD_NO_AUTH ∈ methods → (length methods < 256)%nat → dest_ok d → 0 ≤ port ≤ U16_MAX →
  wr_plan w = [] →
  let target := ToAddr (host_port (dest_text d) port) in
  let accepted := [SOCKS5_VERSION; METHOD_NO_AUTH] in
  ∃ s', handle_socks5 connect
          (MkPeer (MkReader (greeting methods ++ socks_request cmd rsv d port ++ sent) None) w [] None)
        = (s', Ok ()) ∧
    if decide (cmd = CMD_CONNECT) then
      p_dialed s' = [target] ∧
      match connect target with
      | Ok stream => ∃ a, st_local_addr stream = Ok a ∧
        tunnelled stream sent (accepted ++ socks_reply REP_SUCCEEDED (DestIp (sa_ip a)) (sa_port a)) w s'
      | _ => p_relayed s' = None ∧ wr_shutdown (p_writer s') = true ∧
        wr_out (p_writer s') = wr_out w ++ accepted ++ socks_reply REP_CONNECTION_REFUSED d port
      end
    else
      p_dialed s' = [] ∧ p_relayed s' = None ∧ wr_shutdown (p_writer s') = true ∧
      wr_out (p_writer s') = wr_out w ++ accepted ++ socks_reply REP_COMMAND_NOT_SUPPORTED d port.
Proof.
  intros Hm Hl Hd Hp Hw target accepted. unfold handle_socks5.
  destruct (serves_then negotiate_method (λ go : bool, if go then let! req := read_request in
      serve_request connect req else io_ret ()) _ _ true (socks_request cmd rsv d port ++ sent) None w [] None
    (negotiate_serves methods Hm Hl) Hw) as (w1 & Ho1 & Hp1 & ->).
  cbn beta iota.
  destruct (serves_then read_request (λ req, serve_request connect req) _ _ _ sent None w1 [] None
    (read_request_serves cmd rsv d port Hd Hp) Hp1) as (w2 & Ho2 & Hp2 & Hr2).
  rewrite Hr2. cbn beta.
  rewrite app_nil_r in Ho2. rewrite <- Ho2 in Ho1. clear Ho2. unfold serve_request.
  destruct (decide (cmd = CMD_CONNECT)) as [->|Hc].
  2:{ rewrite bool_decide_eq_false_2 by done. cbn [negb].
      destruct (refuse_run REP_COMMAND_NOT_SUPPORTED d port sent None w2 w accepted [] None Hp2 Ho1)
        as (s' & ? & ? & ? & ? & ?). by exists s'. }
  rewrite bool_decide_eq_true_2 by done. cbn [negb]. unfold io_bind at 1, io_try, dial.
  cbn [p_reader p_writer p_dialed p_relayed]. fold target. destruct (connect_ok target) as [Hnp Hok].
  destruct (connect target) as [stream|e|] eqn:Hcon; [| |done].
  - destruct (Hok stream eq_refl) as (Hst & a & Ha & Hip). rewrite Ha.
    assert (∃ w3, serves (E := Socks5Error) (send_reply_with_bound_addr REP_SUCCEEDED a ;;; s_write flush)
              [] w3 () ∧ w3 = socks_reply REP_SUCCEEDED (DestIp (sa_ip a)) (sa_port a))
      as (w3 & Hs & Hw3).
    { eexists. split; [|reflexivity]. unfold send_reply_with_bound_addr.
      destruct (sa_ip a) as [o|o]; (eapply serves_eq; [eapply serves_bind;
        [apply s_write_serves, writes_write_all|apply s_write_serves, writes_flush]|done|
        by rewrite app_nil_r]). }
    destruct (serves_then _ (λ _, relay_bidirectional socks5_error.RelayJoin socks5_error.IoError stream)
      [] _ () sent None w2 [target] None Hs Hp2) as (w4 & Ho4 & Hp4 & Hr4).
    rewrite io_bind_assoc in Hr4. simpl in Hr4. unfold io_bind at 1, io_lift. simpl. rewrite Hr4.
    rewrite Ho1, <- (assoc_L (++)) in Ho4.
    destruct (relay_bidirectional_reliable socks5_error.RelayJoin socks5_error.IoError stream sent w4 w
      _ [target] None Hst Hp4 Ho4) as (s' & Hr & Hd' & Ht).
    exists s'. split_and!; [done..|]. exists a. split; [done|]. by rewrite <- Hw3.
  - destruct (refuse_run REP_CONNECTION_REFUSED d port sent None w2 w accepted [target] None Hp2 Ho1)
      as (s' & ? & ? & ? & ? & ?). by exists s'.
Qed.
End socks5_properties.

(** ** Witnesses *)

#[local] Existing Instance quic_varint.
#[local] Existing Instance quic_varint_laws.
#[local] Existing Instance copy_once.
#[local] Existing Instance copy_once_laws.

(** A network where one host answers. *)
Definition sample_stream : Stream :=
  MkStream (Ok (MkSocketAddr LOCALHOST4 40000)) (MkReader (str_bytes "hello") None) new_writer.
Definition sample_connect : Dialer := λ t,
  if decide (t = ToAddr (str_bytes "localhost:80")) then Ok sample_stream else Err UnexpectedEof.

Lemma sample_connect_ok t :
  sample_connect t ≠ Panic ∧ ∀ stream, sample_connect t = Ok stream →
    stream_ok stream ∧ ∃ a, st_local_addr stream = Ok a ∧ ip_ok (sa_ip a).
Proof.
  unfold sample_connect. case_decide; split; try done. intros ? [= <-].
  split; [done|]. by eexists.
Qed.

Lemma direct_tunnel_witness :
  carries DirectTcpip sample_connect (handle_direct_tcpip sample_connect) direct_tcpip_target ∧
  carries DirectStreamlocal sample_connect (handle_direct_streamlocal sample_connect)
    (λ d, Some (ToUnix (ssh_string_bytes (ds_socket_path d)))).
Proof.
  apply (direct_tunnel sample_connect). intros t. destruct (sample_connect_ok t) as [? Hs].
  split; [done|]. intros stream Heq. by destruct (Hs stream Heq).
Defined.

Lemma socks5_serves_witness :
  ∃ s', handle_socks5 sample_connect
      (MkPeer (MkReader (greeting [x02; x00] ++
         socks_request CMD_CONNECT x00 (DestDomain (str_bytes "localhost")) 80 ++ str_bytes "ping") None)
         new_writer [] None) = (s', Ok ()) ∧
    p_dialed s' = [ToAddr (str_bytes "localhost:80")] ∧
    ∃ a, Ok (MkSocketAddr LOCALHOST4 40000) = Ok (E := ErrorKind) a ∧
      tunnelled sample_stream (str_bytes "ping")
        ([x05; x00] ++ socks_reply x00 (DestIp (sa_ip a)) (sa_port a)) new_writer s'.
Proof.
  apply (socks5_serves sample_connect sample_connect_ok [x02; x00] CMD_CONNECT x00
           (DestDomain (str_bytes "localhost")) 80 (str_bytes "ping") new_writer);
    [apply (bool_decide_unpack _); reflexivity|vm_compute; lia|split; [reflexivity|vm_compute; lia]
    |vm_compute; split; discriminate|reflexivity].
Defined.
