(* ===== verification/Reverse.v ===== *)
(** * Reverse forwarding, the server's side ([src/src/forward/reverse.rs])

    Binding the listeners of a forwarding request, answering it, and opening a
    channel for each accepted connection. The operating system answers through
    an oracle over the calls made so far; a call is recorded when it is made.
    The answer is written while the request holds the control stream's writer
    (Global). *)
From Stdlib Require Import ZArith Lia Strings.Byte.
From stdpp Require Import base list strings gmap fin_maps relations.
From S2P Require Import Prelude Text Wire Codec Message ChannelErrors Channel ForwardMsg.
From S2P Require Import Conversation Net Global GlobalProps.
Local Open Scope Z_scope.
Local Open Scope io_scope.

(** ** The system *)

Inductive SysCall :=
| NewV4
| NewV6
| SetReuseaddr
| SetV6Only
| Bind (addr : SocketAddr)
| Listen (backlog : Z)
| BindUnix (path : text)
| RemoveFile (path : text).

Record Os := MkOs {
  os_call : list SysCall → SysCall → option ErrorKind;
  os_local_addr : list SysCall → result SocketAddr ErrorKind;
  os_lookup : text → result (list SocketAddr) ErrorKind;
}.

(** The control stream of the conversation, held by one responder, and the
    calls made. A responder that fails poisons the session. *)
Record Host := MkHost { h_calls : list SysCall; h_poisoned : bool; h_control : Writer }.

Definition sys (os : Os) (c : SysCall) : Io Host ErrorKind () := λ h,
  (MkHost (h_calls h ++ [c]) (h_poisoned h) (h_control h),
   match os_call os (h_calls h) c with None => Ok () | Some e => Err e end).

Definition with_control {E} (poisoned : E) (c : Io Writer E ()) : Io Host E () := λ h,
  if h_poisoned h then (h, Err poisoned)
  else
    let '(w, x) := c (h_control h) in
    (MkHost (h_calls h) (negb (is_ok x)) w, x).

Definition respond_success_now `{VarIntCodec} {P RE} `{EncodeInto P RE} (response : P)
    : Io Host (RespondSuccessError RE) () :=
  with_control respond_success_error.SessionPoisoned (respond_success_write response).
(** [let _ = self.respond_failure().await] *)
Definition respond_failure_now {E} `{VarIntCodec} : Io Host E () := λ h,
  ((with_control respond_failure_error.SessionPoisoned respond_failure_write h).1, Ok ()).

(** ** Errors *)

Module accept_tcp_forward_error.
Inductive AcceptTcpForwardError :=
| PortOverflow
| ResolveBindAddress (host : text) (source : ErrorKind)
| TcpBind (source : ErrorKind)
| LocalAddr (source : ErrorKind)
| Respond (source : RespondSuccessError ForwardError).
End accept_tcp_forward_error.
Abbreviation AcceptTcpForwardError := accept_tcp_forward_error.AcceptTcpForwardError.

Module accept_unix_forward_error.
Inductive AcceptUnixForwardError :=
| UnixBind (source : ErrorKind)
| Respond (source : RespondSuccessError Empty_set).
End accept_unix_forward_error.
Abbreviation AcceptUnixForwardError := accept_unix_forward_error.AcceptUnixForwardError.

(** ** Bind addresses *)

Definition at_port (port : Z) (a : SocketAddr) : SocketAddr := MkSocketAddr (sa_ip a) port.
Definition port0 (a : IpAddr) : SocketAddr := MkSocketAddr a 0.

Definition bind_candidates (host : text) : list SocketAddr :=
  match bytes_str host with
  | "localhost" => [port0 LOCALHOST6; port0 LOCALHOST4]
  | "" => [port0 UNSPECIFIED6; port0 UNSPECIFIED4]
  | "0.0.0.0" => [port0 UNSPECIFIED4]
  | "::" => [port0 UNSPECIFIED6]
  | "127.0.0.1" => [port0 LOCALHOST4]
  | "::1" => [port0 LOCALHOST6]
  | _ => []
  end%string.

Definition is_v6 (a : SocketAddr) : bool := match sa_ip a with V6 _ => true | V4 _ => false end.
(** [sort_by_key] is stable; two keys are used. *)
Definition v6_first (addrs : list SocketAddr) : list SocketAddr :=
  filter (λ a, is_v6 a = true) addrs ++ filter (λ a, is_v6 a = false) addrs.
(** [Vec::dedup]: of equal neighbours the first stays. *)
Fixpoint dedup (addrs : list SocketAddr) : list SocketAddr :=
  match addrs with
  | a :: (b :: _) as rest => if decide (a = b) then dedup rest else a :: dedup rest
  | _ => addrs
  end.

Definition resolve_bind_candidates (os : Os) (host : text)
    : result (list SocketAddr) AcceptTcpForwardError :=
  let semantic := bind_candidates host in
  if decide (semantic ≠ []) then Ok semantic
  else
    result_map_err (accept_tcp_forward_error.ResolveBindAddress host)
      (match os_lookup os host with
       | Ok addrs => Ok (dedup (v6_first addrs))
       | Err e => Err e
       | Panic => Panic
       end).

Definition bind_tcp_socket (os : Os) (addr : SocketAddr) : Io Host ErrorKind SocketAddr :=
  match sa_ip addr with
  | V4 _ =>
    sys os NewV4 ;;; sys os SetReuseaddr ;;; sys os (Bind addr) ;;; sys os (Listen 1024) ;;;
    io_ret addr
  | V6 _ =>
    sys os NewV6 ;;; sys os SetReuseaddr ;;; sys os SetV6Only ;;; sys os (Bind addr) ;;;
    sys os (Listen 1024) ;;;
    io_ret addr
  end.

(** ** Listeners *)

(** A listener is known by the address it was bound to. *)
Record TcpForwardListener := MkTcpForwardListener {
  advertised_host : text;
  bound_port : Z;
  listeners : list SocketAddr;
}.
Record UnixForwardListener := MkUnixForwardListener { guard : text }.

Fixpoint bind_loop (os : Os) (bind_port : Z) (candidates : list SocketAddr)
    (ls : list SocketAddr) (logical_port : option Z)
    : Io Host AcceptTcpForwardError (list SocketAddr * option Z) :=
  match candidates with
  | [] => io_ret (ls, logical_port)
  | candidate :: candidates =>
    let requested := match logical_port with Some port => port | None => bind_port end in
    let addr := at_port requested candidate in
    let! bound := io_try (bind_tcp_socket os addr) in
    match bound, logical_port with
    | Ok listener, None =>
      (λ h, match os_local_addr os (h_calls h) with
            | Ok local_addr =>
              bind_loop os bind_port candidates (ls ++ [listener]) (Some (sa_port local_addr)) h
            | Err e => (h, Err (accept_tcp_forward_error.LocalAddr e))
            | Panic => (h, Panic)
            end)
    | Ok listener, Some _ => bind_loop os bind_port candidates (ls ++ [listener]) logical_port
    | _, Some _ => bind_loop os bind_port candidates ls logical_port
    | Err source, None => io_fail (accept_tcp_forward_error.TcpBind source)
    | Panic, None => io_panic
    end
  end.

Definition bind_tcp_forward_group (os : Os) (host : text) (bind_port : Z)
    : Io Host AcceptTcpForwardError TcpForwardListener :=
  let! candidates := io_lift (resolve_bind_candidates os host) in
  let! (ls, logical_port) := bind_loop os bind_port candidates [] None in
  match logical_port with
  | None => io_fail (accept_tcp_forward_error.TcpBind AddrNotAvailable)
  | Some bound_port => io_ret (MkTcpForwardListener host bound_port ls)
  end.

(** ** Accepting a request *)

Definition canonical (host : text) : text := str_bytes (canonicalize_remote_bind_host (bytes_str host)).

Definition accept_tcp_forward `{VarIntCodec} (os : Os) (payload : TcpipForwardRequest)
    : Io Host AcceptTcpForwardError TcpForwardListener :=
  let bind_host := canonical (ssh_string_bytes (tf_bind_address payload)) in
  match u16_try_from (tf_bind_port payload) with
  | None => respond_failure_now ;;; io_fail accept_tcp_forward_error.PortOverflow
  | Some bind_port =>
    let! bound := io_try (bind_tcp_forward_group os bind_host bind_port) in
    match bound with
    | Err error => respond_failure_now ;;; io_fail error
    | Panic => io_panic
    | Ok listener =>
      respond_success_now (MkTcpipForwardReply (bound_port listener))
        <?> accept_tcp_forward_error.Respond ;;;
      io_ret listener
    end
  end.

(** [UnixListener::bind] creates the socket file; the guard of the listener
    that is returned removes it. *)
Definition accept_unix_forward `{VarIntCodec} (os : Os) (payload : StreamlocalForwardRequest)
    : Io Host AcceptUnixForwardError UnixForwardListener :=
  let socket_path := ssh_string_bytes (sf_socket_path payload) in
  let! bound := io_try (sys os (BindUnix socket_path)) in
  match bound with
  | Err source => respond_failure_now ;;; io_fail (accept_unix_forward_error.UnixBind source)
  | Panic => io_panic
  | Ok _ =>
    respond_success_now MkEmptyPayload <?> accept_unix_forward_error.Respond ;;;
    io_ret (MkUnixForwardListener socket_path)
  end.

(** [TcpForwardListener::bind]: [tcp_bind] is tokio's, over what it resolves the
    address to; [local_addr] the system's. *)
Section listener_bind.
Context {Addr : Type} (tcp_bind : Addr → result SocketAddr ErrorKind).
Context (local_addr : SocketAddr → result SocketAddr ErrorKind).

Definition TcpForwardListener_bind (addr : Addr) : result TcpForwardListener ErrorKind :=
  (let? listener := tcp_bind addr in
   let? bound_addr := local_addr listener in
   Ok (MkTcpForwardListener (ip_fmt (sa_ip bound_addr)) (sa_port bound_addr) [listener]))%result.
(** It panics without a listener, and when the system no longer knows the
    address. *)
Definition bound_addr (l : TcpForwardListener) : result SocketAddr ErrorKind :=
  match listeners l with
  | listener :: _ => match local_addr listener with Ok a => Ok a | _ => Panic end
  | [] => Panic
  end.
End listener_bind.

(** [UnixForwardListener::bind]. *)
Definition UnixForwardListener_bind (os : Os) (path : text) : Io Host ErrorKind UnixForwardListener :=
  sys os (BindUnix path) ;;; io_ret (MkUnixForwardListener path).

(** [Drop for UnixSocketGuard]. *)
Definition drop_unix_listener (os : Os) (l : UnixForwardListener) : Io Host ErrorKind () := λ h,
  ((sys os (RemoveFile (guard l)) h).1, Ok ()).

(** ** The accept loops *)

(** The channel a connection is opened with. *)
Definition tcp_channel_open (connected_addr : text) (connected_port : Z) (peer : SocketAddr)
    : ForwardedTcpip :=
  MkForwardedTcpip (MkSshString connected_addr) connected_port
    (MkSshString (ip_fmt (sa_ip peer))) (sa_port peer).

(** The tasks a loop spawns, up to the first accept that fails. *)
Fixpoint run_tcp_accept_loop (connected_addr : text) (connected_port : Z)
    (accepts : list (result (Stream * SocketAddr) ErrorKind)) : list (ForwardedTcpip * Stream) :=
  match accepts with
  | Ok (stream, peer) :: accepts =>
    (tcp_channel_open connected_addr connected_port peer, stream) ::
    run_tcp_accept_loop connected_addr connected_port accepts
  | _ => []
  end.

(** [TcpForwardListener::run]: one loop for each listener. *)
Definition tcp_listener_run (l : TcpForwardListener)
    (accepts : list (list (result (Stream * SocketAddr) ErrorKind)))
    : list (list (ForwardedTcpip * Stream)) :=
  zip_with (λ _, run_tcp_accept_loop (advertised_host l) (bound_port l)) (listeners l) accepts.

Fixpoint unix_listener_run (l : UnixForwardListener) (accepts : list (result Stream ErrorKind))
    : list (ForwardedStreamlocal * Stream) :=
  match accepts with
  | Ok stream :: accepts =>
    (MkForwardedStreamlocal (MkSshString (guard l)), stream) :: unix_listener_run l accepts
  | _ => []
  end.

(** ** Relaying *)

(** Whether the relays are joined, or cancelled after some bytes. *)
Inductive RelayFate := Joined | CancelledAt (ch2s s2ch : Z).

Definition relay_until `{IoCopy} (limit : option Z) : Io (Reader * Writer) ErrorKind Z :=
  match limit with None => relay | Some n => copy_take n end.

(** [open_channel_and_relay]: the channel's streams and the connection's, as
    they are left; [None] when the channel could not be opened. *)
Definition open_channel_and_relay `{VarIntCodec, IoCopy} {C PE} `{ChannelOpen C, EncodeInto C PE}
    (open_bi : result Bi ErrorKind) (channel_open : C) (local_stream : Stream) (fate : RelayFate)
    : option Bi * option Bi :=
  match open_channel (AE := ErrorKind) open_bi channel_open DEFAULT_MAX_MESSAGE_SIZE with
  | (Some (reader, writer), Ok ()) =>
    let '(l1, l2) := match fate with
                     | Joined => (None, None)
                     | CancelledAt n m => (Some n, Some m)
                     end in
    let '((r, lw), _) := relay_until l1 (reader, st_writer local_stream) in
    let '((lr, w), _) := relay_until l2 (st_reader local_stream, writer) in
    (Some (r, w), Some (lr, lw))
  | (streams, _) => (streams, None)
  end.

(** ** Lemmas *)

(** A computation that leaves the control stream alone and does not panic. *)
Definition calls_only {E A} (c : Io Host E A) : Prop := ∀ h,
  h_control (c h).1 = h_control h ∧ h_poisoned (c h).1 = h_poisoned h ∧ (c h).2 ≠ Panic.

Lemma calls_only_bind {E A B} (c : Io Host E A) (k : A → Io Host E B) :
  calls_only c → (∀ a, calls_only (k a)) → calls_only (io_bind c k).
Proof.
  intros Hc Hk h. unfold io_bind. specialize (Hc h) as (H1 & H2 & H3).
  destruct (c h) as [h' [a|e|]]; simpl in *; [|done..].
  specialize (Hk a h') as (? & ? & ?). split_and!; [congruence..|done].
Qed.
Lemma calls_only_try {E E' A} (c : Io Host E A) : calls_only c → calls_only (E := E') (io_try c).
Proof.
  intros Hc h. unfold io_try. specialize (Hc h) as (H1 & H2 & H3).
  by destruct (c h) as [h' [a|e|]].
Qed.
Lemma calls_only_sys os c : calls_only (sys os c).
Proof. intros h. unfold sys. by destruct (os_call os _ c). Qed.
Lemma calls_only_lift {E A} (x : result A E) : x ≠ Panic → calls_only (io_lift x).
Proof. intros Hx h. done. Qed.

Lemma calls_only_socket os addr : calls_only (bind_tcp_socket os addr).
Proof.
  unfold bind_tcp_socket. destruct (sa_ip addr);
    repeat (apply calls_only_bind; [apply calls_only_sys|intros _]); by apply calls_only_lift.
Qed.

Lemma bind_tcp_socket_ok os addr h h' l : bind_tcp_socket os addr h = (h', Ok l) → l = addr.
Proof. unfold bind_tcp_socket. destruct (sa_ip addr); intros Hr; by io_inv. Qed.

(** Ports are 16-bit numbers; nothing panics. *)
Definition os_ok (os : Os) : Prop :=
  (∀ tr, os_local_addr os tr ≠ Panic ∧
         ∀ a, os_local_addr os tr = Ok a → 0 ≤ sa_port a ≤ U16_MAX) ∧
  (∀ host, os_lookup os host ≠ Panic).

(** Once a port is chosen the other candidates are bound to it or left out. *)
Lemma bind_loop_rest os bp candidates ls p h :
  ∃ h' used, bind_loop os bp candidates ls (Some p) h = (h', Ok (ls ++ map (at_port p) used, Some p)) ∧
    used `sublist_of` candidates.
Proof.
  revert ls h. induction candidates as [|c cs IH]; intros ls h.
  { exists h, []. split; [|done]. simpl. by rewrite app_nil_r. }
  cbn [bind_loop]. unfold io_bind, io_try. pose proof (calls_only_socket os (at_port p c) h) as Hc.
  destruct (bind_tcp_socket os (at_port p c) h) as [h1 [l|e|]] eqn:Hb; [| |by destruct Hc as (_ & _ & ?)].
  - apply bind_tcp_socket_ok in Hb as ->. destruct (IH (ls ++ [at_port p c]) h1) as (h' & used & Hr & Hs).
    exists h', (c :: used). split; [|by apply sublist_skip]. rewrite Hr. by rewrite <- (assoc_L (++)).
  - destruct (IH ls h1) as (h' & used & Hr & Hs). exists h', used. split; [exact Hr|by apply sublist_cons].
Qed.

Lemma bind_loop_calls os bp candidates ls lp : os_ok os → calls_only (bind_loop os bp candidates ls lp).
Proof.
  intros Hos. revert ls lp. induction candidates as [|c cs IH]; intros ls lp; [by apply calls_only_lift|].
  cbn [bind_loop]. intros h. unfold io_bind, io_try.
  set (addr := at_port _ c). pose proof (calls_only_socket os addr h) as (Hw & Hp & Hnp).
  destruct (bind_tcp_socket os addr h) as [h1 [l|e|]]; [| |done]; simpl in *;
    rewrite <- Hw, <- Hp; (destruct lp as [p|]; [apply IH|]); [|done].
  destruct (os_local_addr os _) eqn:Hl; [apply IH|done|]. by apply (proj1 Hos) in Hl.
Qed.

Lemma bind_group_calls os host bp : os_ok os → calls_only (bind_tcp_forward_group os host bp).
Proof.
  intros Hos. unfold bind_tcp_forward_group. apply calls_only_bind.
  { apply calls_only_lift. unfold resolve_bind_candidates. destruct (decide _); [done|].
    destruct (os_lookup os host) eqn:Hl; [done..|]. by apply (proj2 Hos) in Hl. }
  intros cs. apply calls_only_bind; [by apply bind_loop_calls|].
  intros [ls [p|]]; by apply calls_only_lift.
Qed.

(** The first candidate decides. *)
Lemma bind_loop_first os bp c cs h :
  bind_loop os bp (c :: cs) [] None h =
  match bind_tcp_socket os (at_port bp c) h with
  | (h1, Ok _) =>
    match os_local_addr os (h_calls h1) with
    | Ok a => bind_loop os bp cs [at_port bp c] (Some (sa_port a)) h1
    | Err e => (h1, Err (accept_tcp_forward_error.LocalAddr e))
    | Panic => (h1, Panic)
    end
  | (h1, Err e) => (h1, Err (accept_tcp_forward_error.TcpBind e))
  | (h1, Panic) => (h1, Panic)
  end.
Proof.
  cbn [bind_loop]. unfold io_bind, io_try.
  destruct (bind_tcp_socket os (at_port bp c) h) as [h1 [l|e|]] eqn:Hb; [|done..].
  by apply bind_tcp_socket_ok in Hb as ->.
Qed.

Section answers.
Context `{VarIntLaws}.

Lemma respond_failure_run {E} h :
  h_poisoned h = false → wr_plan (h_control h) = [] →
  ∃ w, respond_failure_now (E := E) h = (MkHost (h_calls h) false w, Ok ()) ∧
    wr_out w = wr_out (h_control h) ++ msg SSH_MSG_REQUEST_FAILURE.
Proof.
  intros Hp Hw. destruct (writes_ok respond_failure_write_writes (h_control h) Hw) as (w & Hr & Ho & _).
  exists w. split; [|done]. unfold respond_failure_now, with_control. by rewrite Hp, Hr.
Qed.

Lemma respond_success_run {P RE} `{EncodeInto P RE} (p : P) pbs h :
  writes (encode_into p) pbs () → h_poisoned h = false → wr_plan (h_control h) = [] →
  ∃ w, respond_success_now p h = (MkHost (h_calls h) false w, Ok ()) ∧
    wr_out w = wr_out (h_control h) ++ msg SSH_MSG_REQUEST_SUCCESS ++ pbs.
Proof.
  intros Hpb Hp Hw.
  destruct (writes_ok (respond_success_write_writes p pbs Hpb) (h_control h) Hw) as (w & Hr & Ho & _).
  exists w. split; [|done]. unfold respond_success_now, with_control. by rewrite Hp, Hr.
Qed.
End answers.

Lemma bind_group_ok os host bind_port h h' l :
  bind_tcp_forward_group os host bind_port h = (h', Ok l) →
  advertised_host l = host ∧ ∃ tr a, os_local_addr os tr = Ok a ∧ bound_port l = sa_port a.
Proof.
  unfold bind_tcp_forward_group. unfold io_bind at 1, io_lift.
  destruct (resolve_bind_candidates os host) as [[|first rest]|e|]; [done| |done..].
  cbv beta iota. unfold io_bind. rewrite bind_loop_first.
  destruct (bind_tcp_socket os (at_port bind_port first) h) as [h1 [b|e|]]; [|done..].
  destruct (os_local_addr os (h_calls h1)) as [a|e|] eqn:Ha; [|done..].
  destruct (bind_loop_rest os bind_port rest [at_port bind_port first] (sa_port a) h1)
    as (h2 & used & Hr & Hs).
  rewrite Hr. intros [= _ <-]. split; [done|]. by exists (h_calls h1), a.
Qed.

(** ** Properties *)

(** The listeners of a forward share one port. When a group is bound, its
    first listener is the first candidate at the requested port, its port is the
    one the system gave that listener, and every other listener is a later
    candidate at that same port; candidates that cannot be bound there are left
    out. When the first candidate cannot be bound the whole group fails, and
    nothing else is tried. *)
Theorem bind_group_one_port (os : Os) (host : text) (bind_port : Z) (h h' : Host) :
  (∀ l, bind_tcp_forward_group os host bind_port h = (h', Ok l) →
     ∃ first rest used local_addr h1, resolve_bind_candidates os host = Ok (first :: rest) ∧
       bind_tcp_socket os (at_port bind_port first) h = (h1, Ok (at_port bind_port first)) ∧
       os_local_addr os (h_calls h1) = Ok local_addr ∧ bound_port l = sa_port local_addr ∧
       used `sublist_of` rest ∧ advertised_host l = host ∧
       listeners l = at_port bind_port first :: map (at_port (bound_port l)) used) ∧
  (∀ first rest e, resolve_bind_candidates os host = Ok (first :: rest) →
     bind_tcp_socket os (at_port bind_port first) h = (h', Err e) →
     bind_tcp_forward_group os host bind_port h
     = (h', Err (accept_tcp_forward_error.TcpBind e))).
Proof.
  unfold bind_tcp_forward_group. split.
  - intros l Hl. unfold io_bind at 1, io_lift in Hl.
    destruct (resolve_bind_candidates os host) as [[|first rest]|e|]; [done| |done..].
    cbv beta iota in Hl. unfold io_bind in Hl. rewrite bind_loop_first in Hl.
    destruct (bind_tcp_socket os (at_port bind_port first) h) as [h1 [b|e|]] eqn:Hb; simplify_eq/=.
    pose proof (bind_tcp_socket_ok _ _ _ _ _ Hb) as ->.
    destruct (os_local_addr os (h_calls h1)) as [a|e|] eqn:Ha; simplify_eq/=.
    destruct (bind_loop_rest os bind_port rest [at_port bind_port first] (sa_port a) h1)
      as (h2 & used & Hr & Hs).
    rewrite Hr in Hl. unfold io_ret in Hl. simplify_eq/=. eauto 15.
  - intros first rest e Hc Hb. unfold io_bind, io_lift. by rewrite Hc, bind_loop_first, Hb.
Qed.

(** A forwarding request is answered once, and truthfully. On a control
    stream that works the request gets success with the port of the listeners
    exactly when they are returned, and failure, and nothing else, whenever the
    call fails; the listeners advertise the canonical form of the host asked
    for, and were bound at the port asked for, which must fit 16 bits. *)
Lemma tcp_forward_run `{VarIntLaws} (os : Os) (payload : TcpipForwardRequest) (h : Host) :
  os_ok os → h_poisoned h = false → wr_plan (h_control h) = [] →
  ∃ h' x, accept_tcp_forward os payload h = (h', x) ∧ h_poisoned h' = false ∧
    match x with
    | Ok l =>
      wr_out (h_control h') = wr_out (h_control h) ++ msg SSH_MSG_REQUEST_SUCCESS ++
                              wire (MkTcpipForwardReply (bound_port l)) ∧
      0 ≤ bound_port l ≤ U16_MAX ∧ tf_bind_port payload ≤ U16_MAX ∧
      advertised_host l = canonical (ssh_string_bytes (tf_bind_address payload)) ∧
      ∃ h1, bind_tcp_forward_group os (advertised_host l) (tf_bind_port payload) h = (h1, Ok l)
    | Err e =>
      wr_out (h_control h') = wr_out (h_control h) ++ msg SSH_MSG_REQUEST_FAILURE ∧
      (U16_MAX < tf_bind_port payload ∧ e = accept_tcp_forward_error.PortOverflow ∨
       tf_bind_port payload ≤ U16_MAX ∧ ∃ h1,
         bind_tcp_forward_group os (canonical (ssh_string_bytes (tf_bind_address payload)))
           (tf_bind_port payload) h = (h1, Err e))
    | Panic => False
    end.
Proof.
  intros Hos Hp Hw. unfold accept_tcp_forward, u16_try_from.
  destruct (Z.leb_spec (tf_bind_port payload) U16_MAX) as [Hle|Hgt].
  2:{ destruct (respond_failure_run (E := AcceptTcpForwardError) h Hp Hw) as (w & Hr & Ho).
      eexists _, _. unfold io_bind. rewrite Hr. split; [reflexivity|]. split_and!; [done|exact Ho|]. left. split; [lia|done]. }
  set (host := canonical _).
  pose proof (bind_group_calls os host (tf_bind_port payload) Hos h) as (Hwr & Hpo & Hnp).
  unfold io_bind at 1, io_try.
  destruct (bind_tcp_forward_group os host (tf_bind_port payload) h) as [h1 [l|e|]] eqn:Hb; [| |done];
    simpl in Hwr, Hpo.
  - pose proof (bind_group_ok os host (tf_bind_port payload) h h1 l Hb) as (Hadv & tr & a & Ha & Hport).
    assert (0 ≤ bound_port l ≤ U16_MAX) as Hr16 by (rewrite Hport; by apply Hos in Ha).
    assert (wire_ok (MkTcpipForwardReply (bound_port l))) as Hport_ok.
    { apply varint_ok_u32. cbn [reply_allocated_port]. unfold U16_MAX, U32_MAX in *. lia. }
    destruct (respond_success_run (MkTcpipForwardReply (bound_port l)) _ h1
      (wire_encode (MkTcpipForwardReply (bound_port l)) Hport_ok)
      ltac:(congruence) ltac:(congruence)) as (w & Hr & Ho).
    eexists _, _. unfold io_bind, map_err. rewrite Hr. split; [reflexivity|]. simpl.
    split_and!; [done|by rewrite Ho, Hwr|lia|lia|lia|done|]. exists h1. by rewrite Hadv.
  - destruct (respond_failure_run (E := AcceptTcpForwardError) h1 ltac:(congruence) ltac:(congruence))
      as (w & Hr & Ho).
    eexists _, _. unfold io_bind. rewrite Hr. split; [reflexivity|]. split_and!; [done|simpl; congruence|]. right. eauto.
Qed.

(** A listener that is bound directly is advertised under the address it has,
    which it keeps reporting; a socket file is removed by the guard of exactly
    the listener that created it, and by none when the bind failed. *)
Lemma tcp_listener_bound {Addr} (tcp_bind : Addr → result SocketAddr ErrorKind) local_addr addr l :
  TcpForwardListener_bind tcp_bind local_addr addr = Ok l →
  ∃ a, bound_addr local_addr l = Ok a ∧ bound_port l = sa_port a ∧ advertised_host l = ip_fmt (sa_ip a).
Proof.
  unfold TcpForwardListener_bind. intros (listener & _ & (a & Ha & [= <-])%and_then_Ok)%and_then_Ok.
  exists a. unfold bound_addr. simpl. by rewrite Ha.
Qed.

Lemma unix_listener_bound (os : Os) (path : text) (h h' : Host) x :
  UnixForwardListener_bind os path h = (h', x) →
  h_calls h' = h_calls h ++ [BindUnix path] ∧
  match x with
  | Ok l => h_calls (drop_unix_listener os l h').1 = h_calls h' ++ [RemoveFile path]
  | Err e => os_call os (h_calls h) (BindUnix path) = Some e
  | Panic => False
  end.
Proof.
  unfold UnixForwardListener_bind, io_bind, sys at 1, io_ret.
  destruct (os_call os (h_calls h) (BindUnix path)) as [e|]; by intros [= <- <-].
Qed.

(** A stream-local forward that cannot be answered leaves its socket file
    behind. When the answer fails, the listener is dropped without the guard
    that would remove the file the bind created; a listener that is returned
    removes exactly its file. *)
Theorem unix_forward_guard `{VarIntCodec} (os : Os) (payload : StreamlocalForwardRequest) (h h' : Host) x :
  let path := ssh_string_bytes (sf_socket_path payload) in
  accept_unix_forward os payload h = (h', x) →
  h_calls h' = h_calls h ++ [BindUnix path] ∧
  match x with
  | Ok l => os_call os (h_calls h) (BindUnix path) = None ∧
      h_calls (drop_unix_listener os l h').1 = h_calls h' ++ [RemoveFile path]
  | Err (accept_unix_forward_error.Respond _) => os_call os (h_calls h) (BindUnix path) = None
  | Err (accept_unix_forward_error.UnixBind e) => os_call os (h_calls h) (BindUnix path) = Some e
  | Panic => True
  end.
Proof.
  intros path. unfold accept_unix_forward, io_bind at 1, io_try, sys at 1. fold path.
  destruct (os_call os (h_calls h) (BindUnix path)) as [e|] eqn:Hb.
  - unfold io_bind, io_fail, respond_failure_now, with_control. simpl.
    destruct (h_poisoned h); [by intros; simplify_eq/=|].
    destruct (respond_failure_write _) as [w y]. by intros; simplify_eq/=.
  - unfold io_bind, map_err, respond_success_now, with_control. simpl.
    destruct (h_poisoned h); [by intros; simplify_eq/=|].
    destruct (respond_success_write _ _) as [w [[]|e|]]; simpl; unfold io_ret; intros [= <- <-]; done.
Qed.

(** ** Witness *)

#[local] Existing Instance quic_varint.
#[local] Existing Instance quic_varint_laws.

(** A system without IPv6 loopback bindings beyond the first, port 4711. *)
Definition sample_os : Os :=
  MkOs (λ _ c, match c with Bind (MkSocketAddr (V4 _) _) => Some AddrInUse | _ => None end)
       (λ _, Ok (MkSocketAddr LOCALHOST6 4711)) (λ _, Ok []).

Lemma sample_os_ok : os_ok sample_os.
Proof. split; [|done]. intros tr. split; [done|]. intros a [= <-]. vm_compute. split; discriminate. Qed.

Definition sample_forward : TcpipForwardRequest := MkTcpipForwardRequest (from_static "localhost") 0.

Example sample_forward_bound :
  (accept_tcp_forward sample_os sample_forward (MkHost [] false new_writer)).2
    = Ok (MkTcpForwardListener (str_bytes "localhost") 4711 [port0 LOCALHOST6]).
Proof. vm_compute. reflexivity. Qed.

Lemma unix_forward_guard_witness :
  let h := MkHost [] true new_writer in
  let path := str_bytes "/run/s.sock" in
  let run := accept_unix_forward sample_os (MkStreamlocalForwardRequest (from_static "/run/s.sock")) h in
  run.2 = Err (accept_unix_forward_error.Respond respond_success_error.SessionPoisoned) ∧
  h_calls run.1 = [BindUnix path].
Proof.
  split; [reflexivity|].
  exact (proj1 (unix_forward_guard sample_os (MkStreamlocalForwardRequest (from_static "/run/s.sock"))
                  (MkHost [] true new_writer) _ _ eq_refl)).
Defined.
