(* ===== verification/ForwardClient.v ===== *)
(** * Forwarding, the client's side ([src/src/forward/client.rs])

    Running a local forward, requesting a remote one, and serving the channels
    the server opens for it. The text of an error is a parameter; a request runs
    while it holds the control streams (Global). *)
From Stdlib Require Import ZArith Lia Strings.Byte.
From stdpp Require Import base list strings gmap fin_maps relations.
From S2P Require Import Prelude Text Wire Codec Message ChannelErrors Channel SessionMsg ForwardMsg.
From S2P Require Import Conversation Net Global GlobalProps Tunnels Reverse ForwardSpec.
Local Open Scope Z_scope.
Local Open Scope io_scope.

#[export] Instance Endpoint_eq_dec : EqDecision Endpoint.
Proof. solve_decision. Defined.

(** ** Originators and keys *)

Record DirectOriginator := MkDirectOriginator { do_host : text; do_port : Z }.
Definition from_socket_addr (addr : SocketAddr) : DirectOriginator :=
  MkDirectOriginator (ip_fmt (sa_ip addr)) (sa_port addr).
Definition placeholder : DirectOriginator := MkDirectOriginator (str_bytes "127.0.0.1") 65535.

Definition remote_forward_bind_key (bind : Endpoint) : option (text * Z) :=
  match bind with Tcp host port => Some (canonical host, port) | Unix _ => None end.
Definition forwarded_tcpip_bind_key (host : text) (port : Z) : text * Z := (canonical host, port).

Inductive BindLocalForwardError := TcpBindFailed (source : ErrorKind) | UnixBindFailed (source : ErrorKind).
Record RequestError := MkRequestError { message : text }.
Inductive RequestRemoteForwardError :=
| TcpForwardRejected
| StreamlocalForwardRejected
| TcpForwardRequestFailed (source : RequestError)
| StreamlocalForwardRequestFailed (source : RequestError).
Record RemoteForwardEstablished := MkEstablished { est_bind : Endpoint; est_connect : option Endpoint }.

(** ** Local forwards *)

Inductive LocalListen := ListenTcp (host : text) (port : Z) | ListenUnix (path : text).

Definition local_listen (bind : Endpoint) : LocalListen :=
  match bind with
  | Tcp host port =>
    ListenTcp (if decide (host = str_bytes "" ∨ host = str_bytes "*") then str_bytes "0.0.0.0" else host)
      port
  | Unix path => ListenUnix path
  end.

(** The connections the loop spawns a task for: a failed accept is passed over. *)
Definition accept_loop_tcp (self : LocalForward)
    (accepts : list (result (Stream * SocketAddr) ErrorKind))
    : list (Endpoint * DirectOriginator * Stream) :=
  omap (λ a, match a with
             | Ok (stream, peer) => Some (lf_connect self, from_socket_addr peer, stream)
             | _ => None
             end) accepts.
Definition accept_loop_unix (self : LocalForward) (accepts : list (result (Stream * SocketAddr) ErrorKind))
    : list (Endpoint * DirectOriginator * Stream) :=
  omap (λ a, match a with
             | Ok (stream, _) => Some (lf_connect self, placeholder, stream)
             | _ => None
             end) accepts.

(** [LocalForward::run]: it only returns when the bind fails. *)
Definition local_run (bind : LocalListen → result () ErrorKind) (self : LocalForward)
    (accepts : list (result (Stream * SocketAddr) ErrorKind))
    : result (list (Endpoint * DirectOriginator * Stream)) BindLocalForwardError :=
  match lf_bind self, bind (local_listen (lf_bind self)) with
  | Tcp _ _, Ok _ => Ok (accept_loop_tcp self accepts)
  | Tcp _ _, Err e => Err (TcpBindFailed e)
  | Unix _, Ok _ => Ok (accept_loop_unix self accepts)
  | Unix _, Err e => Err (UnixBindFailed e)
  | _, Panic => Panic
  end.

(** Both relays, whose results are dropped. *)
Definition relay_pair `{IoCopy} (channel : Bi) (stream : Stream) : Bi * Bi :=
  let '((r, lw), _) := relay (channel.1, st_writer stream) in
  let '((lr, w), _) := relay (st_reader stream, channel.2) in
  ((r, w), (lr, lw)).

(** The channel's streams and the connection's as they are left. *)
Definition local_open_and_relay `{VarIntCodec, IoCopy} (open_bi : result Bi ErrorKind)
    (connect : Endpoint) (originator : DirectOriginator) (stream : Stream) : option Bi * option Bi :=
  let open {C PE} `{ChannelOpen C, EncodeInto C PE} (c : C) :=
    let '(s, x) := open_channel (AE := ErrorKind) open_bi c DEFAULT_MAX_MESSAGE_SIZE in (s, is_ok x) in
  let channel_result :=
    match connect with
    | Tcp host port =>
      open (MkDirectTcpip (MkSshString host) port (MkSshString (do_host originator)) (do_port originator))
    | Unix path => open (MkDirectStreamlocal (MkSshString path))
    end in
  match channel_result with
  | (Some channel, true) => let '(ch, l) := relay_pair channel stream in (Some ch, Some l)
  | (s, _) => (s, None)
  end.

(** ** Requesting a remote forward *)

Section request.
Context `{VarIntCodec} (to_string : ∀ {E : Type}, E → text).

(** [send_global_request] on the control streams. *)
Definition send_global_request_now {Rq Success Payload PE SE}
    `{WantReplyGlobalRequest Rq Success Payload, EncodeInto Payload PE, DecodeFrom Success SE}
    (rq : Rq) : Io Bi (SendRequestError PE SE) Success :=
  on_writer (send_request_write rq) ;;;
  on_bi_reader send_request_read.

Definition as_request_error {E} (e : E) : RequestError := MkRequestError (to_string E e).

Definition request (self : RemoteForward)
    : Io Bi RequestRemoteForwardError RemoteForwardEstablished :=
  match rf_bind self with
  | Tcp host port =>
    let canonical_host := canonical host in
    let rq := MkTcpipForwardGlobalRequest
                (MkTcpipForwardRequest (MkSshString canonical_host) port) in
    let! reply := send_global_request_now rq <?> (λ e, TcpForwardRequestFailed (as_request_error e)) in
    let allocated_port := wrap_u16 (reply_allocated_port reply) in
    io_ret (MkEstablished (Tcp canonical_host allocated_port) (rf_connect self))
  | Unix path =>
    let rq := MkStreamlocalForwardGlobalRequest (MkStreamlocalForwardRequest (MkSshString path)) in
    send_global_request_now rq <?> (λ e, StreamlocalForwardRequestFailed (as_request_error e)) ;;;
    io_ret (MkEstablished (Unix path) (rf_connect self))
  end.
End request.

(** ** Forwarded channels *)

Definition connect_locally (connect : Dialer) (endpoint : Endpoint) : Io Peer ErrorKind Stream :=
  match endpoint with
  | Tcp host port => dial connect (ToHostPort host port)
  | Unix path => dial connect (ToUnix path)
  end.

(** What the loop does with one channel: it spawns a handler, answers the
    channel with a refusal, or drops it. *)
Inductive Forwarded :=
| Serve (pending : PendingChannel) (connect : Endpoint)
| Refused (reader : Reader) (writer : Writer)
| Dropped (reader : Reader) (writer : Writer).

Section channels.
Context `{VarIntCodec}.

Definition refuse_pending (pending : PendingChannel) (code : Z) (d : string) : Forwarded :=
  Refused (pending_reader pending) (reject code (from_static d) (pending_writer pending)).1.

(** The mapping found decides; one without a target refuses. *)
Definition serve_mapping (mapping : option RemoteForwardEstablished) (pending : PendingChannel) : Forwarded :=
  match mapping ≫= est_connect with
  | Some connect => Serve pending connect
  | None => refuse_pending pending 2 "no matching forward"
  end.

Definition tcp_mapping (mappings : list RemoteForwardEstablished) (key : text * Z)
    : option RemoteForwardEstablished :=
  snd <$> list_find (λ m, remote_forward_bind_key (est_bind m) = Some key) mappings.
Definition unix_mapping (mappings : list RemoteForwardEstablished) (socket_path : text)
    : option RemoteForwardEstablished :=
  snd <$> list_find (λ m, est_bind m = Unix socket_path) mappings.

Definition accept_forwarded_channel (mappings : list RemoteForwardEstablished)
    (incoming : IncomingChannel) : Forwarded :=
  let dropped := Dropped (incoming_reader incoming) (incoming_writer incoming) in
  match ssh_string_deref (channel_type_name incoming) with
  | "forwarded-tcpip" =>
    match decode_payload ForwardedTcpip incoming with
    | Ok (payload, pending) =>
      let server_port := wrap_u16 (ft_connected_port payload) in
      let server_addr := ssh_string_bytes (ft_connected_address payload) in
      serve_mapping (tcp_mapping mappings (forwarded_tcpip_bind_key server_addr server_port)) pending
    | _ => dropped
    end
  | "forwarded-streamlocal@openssh.com" =>
    match decode_payload ForwardedStreamlocal incoming with
    | Ok (payload, pending) =>
      serve_mapping (unix_mapping mappings (ssh_string_bytes (fs_socket_path payload))) pending
    | _ => dropped
    end
  | _ =>
    match decode_payload ForwardedTcpip incoming with
    | Ok (_, pending) => refuse_pending pending 1 "unsupported channel type"
    | _ => dropped
    end
  end%string.

(** The loop ends with the first accept that fails. *)
Fixpoint accept_forwarded_channels {E} (mappings : list RemoteForwardEstablished)
    (accepts : list (result IncomingChannel E)) : list Forwarded :=
  match accepts with
  | Ok incoming :: accepts =>
    accept_forwarded_channel mappings incoming :: accept_forwarded_channels mappings accepts
  | _ => []
  end.

(** It reports nothing: its errors are logged. *)
Definition handle_forwarded_channel `{IoCopy} (dialer : Dialer) (connect : Endpoint) (s : Peer) : Peer :=
  match connect_locally dialer connect s with
  | (s, Ok stream) =>
    match accept (from_raw_parts (p_reader s) (p_writer s)) DEFAULT_MAX_MESSAGE_SIZE with
    | (_, Ok ch) =>
      let '((r, w), local) := relay_pair (into_inner ch) stream in
      MkPeer r w (p_dialed s) (Some local)
    | (w, _) => MkPeer (p_reader s) w (p_dialed s) (p_relayed s)
    end
  | (s, _) =>
    MkPeer (p_reader s) (reject 2 (from_static "connect failed") (p_writer s)).1 (p_dialed s) (p_relayed s)
  end.
End channels.

(** ** Lemmas *)

Lemma canonical_idem host : canonical (canonical host) = canonical host.
Proof.
  unfold canonical. f_equal. rewrite bytes_str_bytes. unfold canonicalize_remote_bind_host.
  repeat case_decide; try done; exfalso; naive_solver.
Qed.

Lemma wrap_u16_small z : 0 ≤ z ≤ U16_MAX → wrap_u16 z = z.
Proof. intros. unfold wrap_u16. apply Z.mod_small. unfold U16_MAX in *. lia. Qed.

Section lemmas.
Context `{VarIntLaws}.

Lemma send_request_read_success {Su PE SE : Type} `{DecodeFrom Su SE} (su : Su) sbs :
  reads (decode_from Su) sbs su →
  reads (send_request_read (Success := Su) (PE := PE)) (msg SSH_MSG_REQUEST_SUCCESS ++ sbs) su.
Proof.
  intros Hs rest fin. unfold send_request_read, msg. rewrite <- (assoc_L (++)).
  erewrite io_bind_ok; [|apply reads_map_err, decode_varint_reads; eauto with wire].
  eval_eqb. by apply reads_map_err.
Qed.

(** A request on control streams that work, answered with success. *)
Lemma send_request_now_run {Rq Su P PE SE}
    `{WantReplyGlobalRequest Rq Su P, EncodeInto P PE, DecodeFrom Su SE} (rq : Rq) pbs su sbs rest fin w :
  ssh_string_ok (global_request_type rq) → writes (encode_into (global_payload rq)) pbs () →
  reads (decode_from Su) sbs su → wr_plan w = [] →
  ∃ w', send_global_request_now rq (MkReader ((msg SSH_MSG_REQUEST_SUCCESS ++ sbs) ++ rest) fin, w)
      = ((MkReader rest fin, w'), Ok su) ∧
    wr_out w' = wr_out w ++ msg SSH_MSG_GLOBAL_REQUEST ++
                field_wire (ssh_string_bytes (global_request_type rq)) ++ [x01] ++ pbs.
Proof.
  intros Hn Hp Hs Hw.
  destruct (writes_ok (global_request_wire_writes (SE := SE) rq pbs Hn Hp) w Hw) as (w' & Hr & Ho & _).
  exists w'. split; [|done]. unfold send_global_request_now.
  erewrite io_bind_ok; [|by apply on_writer_run].
  apply on_bi_reader_run. by apply send_request_read_success.
Qed.

Lemma list_find_app_first {A} (P : A → Prop) `{∀ x, base.Decision (P x)} (l1 l2 : list A) x :
  Forall (λ y, ¬ P y) l1 → P x → snd <$> list_find P (l1 ++ x :: l2) = Some x.
Proof.
  intros Hf Hx. induction Hf as [|y l1 Hy Hf IH]; simpl; [by rewrite decide_True|].
  rewrite decide_False by done. destruct (list_find P (l1 ++ x :: l2)) as [[i z]|]; [|done]. exact IH.
Qed.
End lemmas.

(** ** Properties *)

Section properties.
Context `{VarIntLaws, IoCopyLaws} (to_string : ∀ {E : Type}, E → text).

(** C14: A remote forward leads back to its target. When the server accepts the
    request the client makes for a TCP bind, the client's [request] takes the
    server's answer for an established forward at the canonical host and at the
    very port the listeners have; and the channel the server opens for any
    connection of these listeners is handed by the client to that forward's
    target, unless an earlier mapping has the same host and port. *)
Theorem remote_forward_reaches (host : text) (port : Z) (target : Endpoint) (os : Os)
    (l : TcpForwardListener) (h h' : Host) (w : Writer) :
  let self := MkRemoteForward (Tcp host port) (Some target) in
  let payload := MkTcpipForwardRequest (MkSshString (canonical host)) port in
  let established := MkEstablished (Tcp (canonical host) (bound_port l)) (Some target) in
  wire_ok payload → os_ok os → h_poisoned h = false → wr_plan (h_control h) = [] → wr_plan w = [] →
  accept_tcp_forward os payload h = (h', Ok l) →
  ∃ answer w', wr_out (h_control h') = wr_out (h_control h) ++ answer ∧
    wr_out w' = wr_out w ++ msg SSH_MSG_GLOBAL_REQUEST ++ field_wire (str_bytes "tcpip-forward") ++
                [x01] ++ wire payload ∧
    (∀ rest fin, request (@to_string) self (MkReader (answer ++ rest) fin, w)
       = ((MkReader rest fin, w'), Ok established)) ∧
    ∀ peer pre post rest fin pw size,
      wire_ok (tcp_channel_open (advertised_host l) (bound_port l) peer) →
      Forall (λ m, remote_forward_bind_key (est_bind m) ≠ Some (canonical host, bound_port l)) pre →
      accept_forwarded_channel (pre ++ established :: post)
        (MkIncomingChannel (from_static "forwarded-tcpip") size
           (MkReader (wire (tcp_channel_open (advertised_host l) (bound_port l) peer) ++ rest) fin) pw)
      = Serve (from_raw_parts (MkReader rest fin) pw) target.
Proof.
  intros self payload established Hpay Hos Hp Hw Hcw Hacc.
  destruct (tcp_forward_run os payload h Hos Hp Hw) as (h1 & x & Hr & _ & Hx).
  rewrite Hacc in Hr. injection Hr as <- <-. destruct Hx as (Ho & Hport & _ & Hadv & _).
  assert (wire_ok (MkTcpipForwardReply (bound_port l))) as Hrep.
  { apply varint_ok_u32. cbn [reply_allocated_port]. unfold U16_MAX, U32_MAX in *. lia. }
  assert (ssh_string_ok (global_request_type (MkTcpipForwardGlobalRequest payload))) as Hn
    by (by apply from_static_ok).
  destruct (writes_ok (global_request_wire_writes (SE := ForwardError)
    (MkTcpipForwardGlobalRequest payload) (wire payload) Hn (wire_encode payload Hpay)) w Hcw)
    as (w' & Hw' & Ho' & _).
  exists (msg SSH_MSG_REQUEST_SUCCESS ++ wire (MkTcpipForwardReply (bound_port l))), w'.
  split; [exact Ho|]. split; [exact Ho'|]. split.
  - intros rest fin. unfold request, self. cbn [rf_bind rf_connect].
    destruct (send_request_now_run (SE := ForwardError) (MkTcpipForwardGlobalRequest payload)
      (wire payload) _ _ rest fin w Hn (wire_encode payload Hpay) (wire_decode _ Hrep) Hcw)
      as (w2 & Hrun & Ho2).
    unfold send_global_request_now in *.
    erewrite io_bind_ok in Hrun by (by apply on_writer_run).
    erewrite io_bind_ok.
    2:{ apply map_err_ok. erewrite io_bind_ok by (by apply on_writer_run). exact Hrun. }
    cbn [reply_allocated_port]. unfold io_ret.
    assert (w' = w2) as <-.
    { unfold on_bi_reader, io_zoom in Hrun. simpl in Hrun.
      destruct (send_request_read _) in Hrun. by simplify_eq/=. }
    by rewrite wrap_u16_small.
  - intros peer pre post rest fin pw size Hopen Hpre. unfold accept_forwarded_channel. cbn [channel_type_name].
    change (ssh_string_deref (from_static "forwarded-tcpip")) with "forwarded-tcpip"%string. cbv beta iota.
    unfold decode_payload. cbn [incoming_reader incoming_writer].
    rewrite (wire_decode _ Hopen). cbv beta iota. cbn [tcp_channel_open ft_connected_port ft_connected_address].
    rewrite wrap_u16_small by done. cbn [ssh_string_bytes]. unfold serve_mapping, tcp_mapping.
    rewrite list_find_app_first; [done| |].
    + unfold forwarded_tcpip_bind_key. rewrite Hadv. cbn [payload tf_bind_address ssh_string_bytes].
      by rewrite !canonical_idem.
    + unfold forwarded_tcpip_bind_key. rewrite Hadv. cbn [payload tf_bind_address ssh_string_bytes].
      cbn [established est_bind remote_forward_bind_key]. by rewrite !canonical_idem.
Qed.
(** C27: A forwarded connection is carried from end to end. The server opens a
    channel for an accepted connection and the client's handler serves it from
    the target, each reading exactly what the other wrote: when the target
    accepts, it receives every byte of the connection and the connection every
    byte of the target, and both are shut down; when it does not, the server
    learns that the connection failed and relays nothing. *)
Theorem forwarded_connection_carried {C PE PD} `{ChannelOpen C, EncodeInto C PE, DecodeFrom C PD,
    !WireFormat C} (c : C) (dialer : Dialer) (connect : Endpoint) (conn : Stream) (w pw : Writer) :
  let target := match connect with Tcp host port => ToHostPort host port | Unix path => ToUnix path end in
  ssh_string_ok (channel_type c) → wire_ok c → wr_plan w = [] → wr_plan pw = [] → stream_ok conn →
  dialer target ≠ Panic → (∀ stream, dialer target = Ok stream → stream_ok stream) →
  ∃ header answer,
    (∀ sent, ∃ incoming,
       accept_channel (OE := ErrorKind) (AE := ErrorKind) (Ok (MkReader (header ++ sent) None, pw))
       = (Some (into_raw_parts incoming), Ok incoming) ∧
       channel_type_name incoming = channel_type c ∧
       incoming_reader incoming = MkReader (wire c ++ sent) None ∧ incoming_writer incoming = pw) ∧
    match dialer target with
    | Ok stream =>
      let client := handle_forwarded_channel dialer connect
                      (MkPeer (MkReader (rd_buf (st_reader conn)) None) pw [] None) in
      p_dialed client = [target] ∧ tunnelled stream (rd_buf (st_reader conn)) answer pw client ∧
      ∃ r' w' lr lw,
        open_channel_and_relay (Ok (MkReader (answer ++ rd_buf (st_reader stream)) None, w)) c conn Joined
        = (Some (r', w'), Some (lr, lw)) ∧
        wr_out w' = wr_out w ++ header ++ rd_buf (st_reader conn) ∧ wr_shutdown w' = true ∧
        wr_out lw = wr_out (st_writer conn) ++ rd_buf (st_reader stream) ∧ wr_shutdown lw = true
    | _ =>
      let client := handle_forwarded_channel dialer connect (MkPeer (MkReader [] None) pw [] None) in
      p_dialed client = [target] ∧ p_relayed client = None ∧ wr_out (p_writer client) = wr_out pw ++ answer ∧
      ∃ w', open_channel_and_relay (Ok (MkReader answer None, w)) c conn Joined
            = (Some (MkReader [] None, w'), None) ∧
        wr_out w' = wr_out w ++ header
    end.
Proof.
  intros target Hn Hc Hw Hpw Hconn Hnp Hok.
  destruct (open_channel_run (OE := ErrorKind) (AE := ErrorKind) c DEFAULT_MAX_MESSAGE_SIZE (wire c) w
    default_size_ok Hn (wire_encode c Hc) Hw) as (w' & Ho & Hp' & Hopen).
  exists (varint_bytes DSHELL_CHANNEL_STREAM_KIND ++
          channel_header DEFAULT_MAX_MESSAGE_SIZE (channel_type c) ++ wire c).
  eexists (answer_of match dialer target with
                     | Ok _ => Ok ()
                     | _ => Err (MkChannelOpenFailure 2 (from_static "connect failed"))
                     end).
  split.
  { intros sent. exists (MkIncomingChannel (channel_type c) DEFAULT_MAX_MESSAGE_SIZE
                           (MkReader (wire c ++ sent) None) pw).
    rewrite <- !(assoc_L (++)), accept_channel_run by (done || apply default_size_ok). done. }
  unfold handle_forwarded_channel, open_channel_and_relay, relay_until.
  assert (∀ s, connect_locally dialer connect s = dial dialer target s) as Hdial
    by (unfold target; by destruct connect). rewrite !Hdial. unfold dial. clear Hdial.
  destruct (dialer target) as [stream|e|]; [| |done]; rewrite Hopen; simpl.
  - destruct (writes_ok (accept_send_writes DEFAULT_MAX_MESSAGE_SIZE default_size_ok) pw Hpw)
      as (pw' & Hr & Hopw & Hppw).
    unfold accept. simpl. rewrite Hr. simpl. destruct (Hok stream eq_refl) as [Hsr Hsw].
    destruct Hconn as [Hcr Hcw]. unfold relay_pair. simpl.
    destruct (relay_reliable (MkReader (rd_buf (st_reader conn)) None) (st_writer stream) eq_refl Hsw)
      as ([r1 tw] & n1 & -> & Ho1 & Hs1 & _).
    destruct (relay_reliable (st_reader stream) pw' Hsr Hppw) as ([r2 pw2] & n2 & -> & Ho2 & Hs2 & _).
    simpl in *. split; [done|]. split.
    { exists r2, tw. split_and!; [done..| |done]. simpl. by rewrite Ho2, Hopw, <- (assoc_L (++)). }
    pose proof (confirmation_reads _ default_size_ok (rd_buf (st_reader stream)) None) as Hconf.
    simpl in Hconf. rewrite Hconf. simpl.
    destruct (relay_reliable (MkReader (rd_buf (st_reader stream)) None) (st_writer conn) eq_refl Hcw)
      as ([r3 lw] & n3 & -> & Ho3 & Hs3 & _).
    destruct (relay_reliable (st_reader conn) w' Hcr Hp') as ([lr w2] & n4 & -> & Ho4 & Hs4 & _).
    simpl in *. exists r3, w2, lr, lw. split_and!; [done| |done..].
    by rewrite Ho4, Ho, <- !(assoc_L (++)).
  - destruct (writes_ok (reject_writes 2 (from_static "connect failed") ltac:(by apply varint_ok_u32)
      ltac:(by apply from_static_ok)) pw Hpw) as (pw' & Hr & Hopw & _).
    rewrite Hr. simpl. split_and!; [done..|exact Hopw|]. exists w'.
    pose proof (rejection_run 2 (from_static "connect failed") [] None ltac:(by apply varint_ok_u32)
      ltac:(by apply from_static_ok)) as Hrej. rewrite app_nil_r in Hrej. simpl in Hrej. rewrite Hrej. done.
Qed.
End properties.

(** ** Witnesses *)

#[local] Existing Instance quic_varint.
#[local] Existing Instance quic_varint_laws.
#[local] Existing Instance copy_once.
#[local] Existing Instance copy_once_laws.

Definition sample_target : Endpoint := Tcp (str_bytes "127.0.0.1") 8080.
Definition sample_listener : TcpForwardListener :=
  MkTcpForwardListener (str_bytes "localhost") 4711 [port0 LOCALHOST6].
Definition sample_payload : TcpipForwardRequest := MkTcpipForwardRequest (from_static "localhost") 0.
Definition sample_established : RemoteForwardEstablished :=
  MkEstablished (Tcp (str_bytes "localhost") 4711) (Some sample_target).
Definition sample_host' : Host := (accept_tcp_forward sample_os sample_payload (MkHost [] false new_writer)).1.

Lemma sample_accepted :
  accept_tcp_forward sample_os sample_payload (MkHost [] false new_writer) = (sample_host', Ok sample_listener).
Proof. vm_compute. reflexivity. Qed.

Lemma sample_payload_ok : wire_ok sample_payload.
Proof. split; [by apply from_static_ok|by apply varint_ok_u32]. Qed.

Lemma sample_peer_ok : wire_ok (tcp_channel_open (str_bytes "localhost") 4711 (MkSocketAddr LOCALHOST4 50000)).
Proof.
  split_and!; [by apply (from_static_ok "localhost")|by apply varint_ok_u32
              |by apply (from_static_ok "127.0.0.1")|by apply varint_ok_u32].
Qed.

Lemma remote_forward_reaches_witness :
  accept_forwarded_channel [sample_established]
    (MkIncomingChannel (from_static "forwarded-tcpip") 1024
       (MkReader (wire (tcp_channel_open (str_bytes "localhost") 4711 (MkSocketAddr LOCALHOST4 50000)) ++ [])
          None) new_writer)
  = Serve (from_raw_parts (MkReader [] None) new_writer) sample_target ∧
  ∃ answer w', wr_out (h_control sample_host') = [] ++ answer ∧
    ∀ rest fin, request (λ _ _, []) (MkRemoteForward (Tcp (str_bytes "localhost") 0) (Some sample_target))
                  (MkReader (answer ++ rest) fin, new_writer)
      = ((MkReader rest fin, w'), Ok sample_established).
Proof.
  destruct (remote_forward_reaches (λ _ _, []) (str_bytes "localhost") 0 sample_target sample_os
    sample_listener (MkHost [] false new_writer) sample_host' new_writer sample_payload_ok sample_os_ok
    eq_refl eq_refl eq_refl sample_accepted) as (answer & w' & Ho & _ & Hreq & Hserve).
  split.
  - exact (Hserve (MkSocketAddr LOCALHOST4 50000) [] [] [] None new_writer 1024 sample_peer_ok
             (List.Forall_nil _)).
  - exists answer, w'. split; [exact Ho|exact Hreq].
Defined.

Definition sample_dialer : Dialer := λ t,
  if decide (t = ToHostPort (str_bytes "127.0.0.1") 8080) then Ok sample_stream else Err ConnectionRefused.

Lemma forwarded_connection_carried_witness :
  ssh_string_ok (from_static "forwarded-tcpip") ∧
  let conn := MkStream (Err NotConnected) (MkReader (str_bytes "ping") None) new_writer in
  let client := handle_forwarded_channel sample_dialer sample_target
                  (MkPeer (MkReader (str_bytes "ping") None) new_writer [] None) in
  p_dialed client = [ToHostPort (str_bytes "127.0.0.1") 8080] ∧
  ∃ answer, tunnelled sample_stream (str_bytes "ping") answer new_writer client.
Proof.
  split; [by apply from_static_ok|]. intros conn client.
  destruct (forwarded_connection_carried
    (tcp_channel_open (str_bytes "localhost") 4711 (MkSocketAddr LOCALHOST4 50000))
    sample_dialer sample_target conn new_writer new_writer) as (header & answer & _ & H).
  - by apply from_static_ok.
  - exact sample_peer_ok.
  - reflexivity.
  - reflexivity.
  - split; reflexivity.
  - vm_compute. discriminate.
  - intros stream [= <-]. split; reflexivity.
  - destruct H as (Hd & Ht & _). split; [exact Hd|]. exists answer. exact Ht.
Defined.
