(* ===== verification/Terminal.v ===== *)
(** * Terminals of a session

    [src/src/session/pty.rs]: the size of the window and the encoded terminal
    modes (RFC 4254, section 8). The attribute structure and its constants come
    from [libc] through [nix] and are parameters: the index of each control
    character, the bits of each flag and the bits each flag type knows. The
    descriptor of the terminal is PtyFd. *)
From Stdlib Require Import ZArith Lia Strings.Byte Arith.Wf_nat.
From stdpp Require Import base list strings gmap fin_maps relations.
From S2P Require Import Prelude Text Wire Codec Message SessionMsg.
Local Open Scope Z_scope.
Local Open Scope result_scope.

(** ** Window size *)

Record DimensionOverflow := MkDimensionOverflow { do_field : string; do_value : Z }.

Definition Errno := Z.
Inductive PtyError :=
| Dimension (source : DimensionOverflow)
| Os (source : Errno).

(** The error keeps [value as u32]. *)
Definition try_u16 (v : Z) (field : string) : result Z DimensionOverflow :=
  match u16_try_from v with
  | Some n => Ok n
  | None => Err (MkDimensionOverflow field (wrap_u32 v))
  end.

Record winsize := MkWinsize { ws_row : Z; ws_col : Z; ws_xpixel : Z; ws_ypixel : Z }.

Definition winsize_from_pty (request : PtyRequest) : result winsize DimensionOverflow :=
  let? col := try_u16 (pty_width_cols request) "width_cols" in
  let? row := try_u16 (pty_height_rows request) "height_rows" in
  let? xpixel := try_u16 (pty_width_px request) "width_px" in
  let? ypixel := try_u16 (pty_height_px request) "height_px" in
  Ok (MkWinsize row col xpixel ypixel).

Definition winsize_from_resize (request : WindowChangeRequest) : result winsize DimensionOverflow :=
  let? col := try_u16 (win_width_cols request) "width_cols" in
  let? row := try_u16 (win_height_rows request) "height_rows" in
  let? xpixel := try_u16 (win_width_px request) "width_px" in
  let? ypixel := try_u16 (win_height_px request) "height_px" in
  Ok (MkWinsize row col xpixel ypixel).

Record PtyPair (Fd : Type) := MkPtyPair { master : Fd; slave : Fd }.
Arguments MkPtyPair {Fd}.
Arguments master {Fd}.
Arguments slave {Fd}.

(** [openpty] and the [TIOCSWINSZ] call are the system's. *)
Definition allocate_pty {Fd} (openpty : winsize → result (Fd * Fd) Errno) (request : PtyRequest)
    : result (PtyPair Fd) PtyError :=
  let? ws := result_map_err Dimension (winsize_from_pty request) in
  let? fds := result_map_err Os (openpty ws) in
  Ok (MkPtyPair fds.1 fds.2).

Definition set_window_size_raw {Fd} (tiocswinsz : Fd → winsize → result () Errno) (fd : Fd)
    (request : WindowChangeRequest) : result () PtyError :=
  let? ws := result_map_err Dimension (winsize_from_resize request) in
  result_map_err Os (tiocswinsz fd ws).

(** ** Terminal attributes *)

Inductive CC :=
| VINTR | VQUIT | VERASE | VKILL | VEOF | VEOL | VEOL2 | VSTART | VSTOP | VSUSP
| VREPRINT | VWERASE | VLNEXT | VDISCARD.
Inductive InputFlag :=
| IGNPAR | PARMRK | INPCK | ISTRIP | INLCR | IGNCR | ICRNL | IUCLC | IXON | IXANY | IXOFF
| IMAXBEL | IUTF8.
Inductive LocalFlag :=
| ISIG | ICANON | ECHO | ECHOE | ECHOK | ECHONL | NOFLSH | TOSTOP | IEXTEN | ECHOCTL | ECHOKE
| PENDIN.
Inductive OutputFlag := OPOST | OLCUC | ONLCR | OCRNL | ONOCR | ONLRET.
Inductive ControlFlag := CS7 | CS8 | PARENB | PARODD.

(** The constants of the platform. *)
Class TermiosConstants := {
  nccs : nat;
  cc_number : CC → nat;
  input_bits : InputFlag → Z;
  local_bits : LocalFlag → Z;
  output_bits : OutputFlag → Z;
  control_bits : ControlFlag → Z;
  input_all : Z; local_all : Z; output_all : Z; control_all : Z;
}.
(** Every index is inside the array of control characters. *)
Class TermiosLaws `{TermiosConstants} : Prop := cc_number_range cc : (cc_number cc < nccs)%nat.

Record Termios := MkTermios {
  control_chars : list byte;
  input_flags : Z;
  local_flags : Z;
  output_flags : Z;
  control_flags : Z;
  input_speed : Z;
  output_speed : Z;
}.

Definition TTY_OP_END : Z := 0.
Definition TTY_OP_ISPEED : Z := 128.
Definition TTY_OP_OSPEED : Z := 129.

(** The speeds are named by the baud rate itself. *)
Definition baud_to_speed (baud : Z) : option Z :=
  if bool_decide (baud ∈ [0; 50; 75; 110; 134; 150; 200; 300; 600; 1200; 1800; 2400; 4800; 9600;
                          19200; 38400; 57600; 115200; 230400])
  then Some baud else None.

Definition cc_index (opcode : Z) : option CC :=
  match opcode with
  | 1 => Some VINTR | 2 => Some VQUIT | 3 => Some VERASE | 4 => Some VKILL | 5 => Some VEOF
  | 6 => Some VEOL | 7 => Some VEOL2 | 8 => Some VSTART | 9 => Some VSTOP | 10 => Some VSUSP
  | 12 => Some VREPRINT | 13 => Some VWERASE | 14 => Some VLNEXT | 18 => Some VDISCARD
  | _ => None
  end.

(** As built for Linux, which has IUCLC and OLCUC. *)
Definition iflag_bit (opcode : Z) : option InputFlag :=
  match opcode with
  | 30 => Some IGNPAR | 31 => Some PARMRK | 32 => Some INPCK | 33 => Some ISTRIP
  | 34 => Some INLCR | 35 => Some IGNCR | 36 => Some ICRNL | 37 => Some IUCLC | 38 => Some IXON
  | 39 => Some IXANY | 40 => Some IXOFF | 41 => Some IMAXBEL | 42 => Some IUTF8
  | _ => None
  end.

Definition lflag_bit (opcode : Z) : option LocalFlag :=
  match opcode with
  | 50 => Some ISIG | 51 => Some ICANON | 53 => Some ECHO | 54 => Some ECHOE | 55 => Some ECHOK
  | 56 => Some ECHONL | 57 => Some NOFLSH | 58 => Some TOSTOP | 59 => Some IEXTEN
  | 60 => Some ECHOCTL | 61 => Some ECHOKE | 62 => Some PENDIN
  | _ => None
  end.

Definition oflag_bit (opcode : Z) : option OutputFlag :=
  match opcode with
  | 70 => Some OPOST | 71 => Some OLCUC | 72 => Some ONLCR | 73 => Some OCRNL | 74 => Some ONOCR
  | 75 => Some ONLRET
  | _ => None
  end.

Definition cflag_bit (opcode : Z) : option ControlFlag :=
  match opcode with
  | 90 => Some CS7 | 91 => Some CS8 | 92 => Some PARENB | 93 => Some PARODD
  | _ => None
  end.

Section modes.
Context `{TermiosConstants}.

(** [flags |= flag] and [flags &= !flag]; the complement keeps known bits only. *)
Definition set_bits (all bits : Z) (on : bool) (flags : Z) : Z :=
  if on then Z.lor flags bits else Z.land flags (Z.land (Z.lnot bits) all).

Definition with_input (f : Z → Z) (t : Termios) : Termios :=
  MkTermios (control_chars t) (f (input_flags t)) (local_flags t) (output_flags t)
    (control_flags t) (input_speed t) (output_speed t).
Definition with_local (f : Z → Z) (t : Termios) : Termios :=
  MkTermios (control_chars t) (input_flags t) (f (local_flags t)) (output_flags t)
    (control_flags t) (input_speed t) (output_speed t).
Definition with_output (f : Z → Z) (t : Termios) : Termios :=
  MkTermios (control_chars t) (input_flags t) (local_flags t) (f (output_flags t))
    (control_flags t) (input_speed t) (output_speed t).
Definition with_control (f : Z → Z) (t : Termios) : Termios :=
  MkTermios (control_chars t) (input_flags t) (local_flags t) (output_flags t)
    (f (control_flags t)) (input_speed t) (output_speed t).
Definition with_ispeed (v : Z) (t : Termios) : Termios :=
  MkTermios (control_chars t) (input_flags t) (local_flags t) (output_flags t)
    (control_flags t) v (output_speed t).
Definition with_ospeed (v : Z) (t : Termios) : Termios :=
  MkTermios (control_chars t) (input_flags t) (local_flags t) (output_flags t)
    (control_flags t) (input_speed t) v.

(** [tio.control_chars[idx] = v]: an index out of range panics. *)
Definition set_cc (idx : nat) (v : byte) (t : Termios) : result Termios Errno :=
  if decide (idx < length (control_chars t))%nat
  then Ok (MkTermios (<[idx := v]> (control_chars t)) (input_flags t) (local_flags t)
             (output_flags t) (control_flags t) (input_speed t) (output_speed t))
  else Panic.

Definition in_range (lo hi z : Z) : bool := (lo <=? z) && (z <=? hi).

(** The effect of one mode, by the match on its opcode. [cfsetispeed] and
    [cfsetospeed] accept every speed of the table. *)
Definition apply_mode (opcode v : Z) (tio : Termios) : result Termios Errno :=
  let on := negb (v =? 0) in
  if opcode =? TTY_OP_ISPEED then
    Ok (match baud_to_speed v with Some speed => with_ispeed speed tio | None => tio end)
  else if opcode =? TTY_OP_OSPEED then
    Ok (match baud_to_speed v with Some speed => with_ospeed speed tio | None => tio end)
  else if in_range 1 18 opcode then
    match cc_index opcode with
    | Some cc => set_cc (cc_number cc) (if v =? 255 then x00 else z2b v) tio
    | None => Ok tio
    end
  else if in_range 30 42 opcode then
    Ok (match iflag_bit opcode with
        | Some flag => with_input (set_bits input_all (input_bits flag) on) tio
        | None => tio
        end)
  else if in_range 50 62 opcode then
    Ok (match lflag_bit opcode with
        | Some flag => with_local (set_bits local_all (local_bits flag) on) tio
        | None => tio
        end)
  else if in_range 70 75 opcode then
    Ok (match oflag_bit opcode with
        | Some flag => with_output (set_bits output_all (output_bits flag) on) tio
        | None => tio
        end)
  else if in_range 90 93 opcode then
    Ok (match cflag_bit opcode with
        | Some flag => with_control (set_bits control_all (control_bits flag) on) tio
        | None => tio
        end)
  else Ok tio.

(** The loop: [modes] is what follows [pos]. A round reads at least the opcode,
    so that the length bounds the rounds. *)
Fixpoint modes_loop (fuel : nat) (modes : list byte) (tio : Termios) : result Termios Errno :=
  match fuel, modes with
  | O, _ | _, [] => Ok tio
  | S fuel, op :: rest =>
    let opcode := b2z op in
    if opcode =? TTY_OP_END then Ok tio
    else if 160 <=? opcode then Ok tio
    else
      match rest with
      | b0 :: b1 :: b2 :: b3 :: rest =>
        let? tio := apply_mode opcode (be_value [b0; b1; b2; b3]) tio in
        modes_loop fuel rest tio
      | _ => Ok tio
      end
  end.

(** [tcgetattr] gives the attributes, [tcsetattr] takes them. *)
Definition apply_terminal_modes (tcgetattr : result Termios Errno)
    (tcsetattr : Termios → result () Errno) (modes : list byte) : result () PtyError :=
  match modes with
  | [] => Ok ()
  | _ =>
    let? tio := result_map_err Os tcgetattr in
    let? tio := result_map_err Os (modes_loop (S (length modes)) modes tio) in
    result_map_err Os (tcsetattr tio)
  end.
End modes.

(** ** The list of modes *)

Definition encode_mode (m : Z * Z) : list byte := z2b m.1 :: be_bytes 4 m.2.
Definition encode_modes (ms : list (Z * Z)) : list byte := concat (map encode_mode ms).
Definition mode_ok (m : Z * Z) : Prop := 1 ≤ m.1 < 160 ∧ 0 ≤ m.2 < 2 ^ 32.

(** Where the list ends: the end of the data, the end opcode, an undefined
    opcode, or a mode that is cut short. *)
Definition ends_modes (tail : list byte) : Prop :=
  match tail with
  | [] => True
  | op :: rest => b2z op = TTY_OP_END ∨ 160 ≤ b2z op ∨ (length rest < 4)%nat
  end.

Lemma z_of_bytes4 b0 b1 b2 b3 :
  be_bytes 4 (be_value [b0; b1; b2; b3]) = [b0; b1; b2; b3] ∧
  0 ≤ be_value [b0; b1; b2; b3] < 2 ^ 32.
Proof.
  split; [|apply (be_value_range [b0; b1; b2; b3])].
  assert (∀ n bs, length bs = n → be_bytes n (be_value bs) = bs) as H; [|by apply (H 4%nat)].
  induction n as [|n IH]; intros bs Hn; [by destruct bs|].
  destruct bs as [|b bs] using rev_ind; [done|]. clear IHbs. rewrite length_app in Hn. simpl in Hn.
  pose proof (b2z_range b). cbn [be_bytes]. rewrite be_value_snoc.
  replace (be_value bs * 256 + b2z b) with (b2z b + be_value bs * 256) by lia.
  rewrite Z.div_add, Z.div_small, Z.add_0_l, IH by lia. f_equal. f_equal.
  apply (inj b2z). rewrite b2z_z2b. unfold wrap_u8. by rewrite Z.mod_add, Z.mod_small by lia.
Qed.

Lemma modes_split (modes : list byte) :
  ∃ ms tail, modes = encode_modes ms ++ tail ∧ Forall mode_ok ms ∧ ends_modes tail.
Proof.
  induction modes as [modes IH] using (induction_ltof1 _ length). unfold ltof in IH.
  destruct modes as [|op rest]; [by exists [], []|].
  destruct (decide (b2z op = TTY_OP_END ∨ 160 ≤ b2z op ∨ (length rest < 4)%nat)) as [He|He].
  { exists [], (op :: rest). by split_and!. }
  destruct rest as [|b0 [|b1 [|b2 [|b3 rest]]]]; try (exfalso; apply He; simpl; lia).
  destruct (IH rest) as (ms & tail & -> & Hms & Ht); [simpl; lia|].
  destruct (z_of_bytes4 b0 b1 b2 b3) as [Hb Hr].
  exists ((b2z op, be_value [b0; b1; b2; b3]) :: ms), tail. split_and!; [|constructor|done].
  - set (v := be_value [b0; b1; b2; b3]) in *.
    change (encode_modes ((b2z op, v) :: ms)) with ((z2b (b2z op) :: be_bytes 4 v) ++ encode_modes ms).
    by rewrite z2b_b2z, Hb.
  - pose proof (b2z_range op). unfold TTY_OP_END in He. split; simpl; [lia|done].
  - done.
Qed.

Section modes_spec.
Context `{TermiosConstants}.

Fixpoint apply_modes (ms : list (Z * Z)) (tio : Termios) : result Termios Errno :=
  match ms with
  | [] => Ok tio
  | m :: ms => let? tio := apply_mode m.1 m.2 tio in apply_modes ms tio
  end.

Lemma length_set_cc idx v tio t :
  set_cc idx v tio = Ok t → length (control_chars t) = length (control_chars tio).
Proof. unfold set_cc. case_decide; intros; simplify_eq/=. apply length_insert. Qed.

Lemma apply_mode_total `{!TermiosLaws} opcode v tio :
  length (control_chars tio) = nccs →
  ∃ t, apply_mode opcode v tio = Ok t ∧ length (control_chars t) = nccs.
Proof.
  intros Hn. unfold apply_mode.
  repeat case_match; try (eexists; split; [reflexivity|done]);
    unfold set_cc; rewrite decide_True by (rewrite Hn; apply cc_number_range);
    (eexists; split; [done|]); simpl; by rewrite length_insert.
Qed.

Lemma apply_modes_total `{!TermiosLaws} ms tio :
  length (control_chars tio) = nccs → ∃ t, apply_modes ms tio = Ok t.
Proof.
  revert tio. induction ms as [|m ms IH]; intros tio Hn; [by eexists|]. simpl.
  destruct (apply_mode_total m.1 m.2 tio Hn) as (t & -> & Ht). by apply IH.
Qed.

Lemma modes_loop_encoded ms tail n tio :
  Forall mode_ok ms → ends_modes tail → (length (encode_modes ms ++ tail) < n)%nat →
  modes_loop n (encode_modes ms ++ tail) tio = apply_modes ms tio.
Proof.
  intros Hms Ht. revert n tio.
  induction Hms as [|[op v] ms [Hop Hv] _ IH]; intros n tio Hn; (destruct n as [|n]; [lia|]).
  - cbn [encode_modes map concat app]. cbn [modes_loop apply_modes].
    destruct tail as [|op rest]; [done|]. simpl in Ht.
    destruct (Z.eqb_spec (b2z op) TTY_OP_END) as [He|He]; [done|].
    destruct (Z.leb_spec 160 (b2z op)); [done|].
    destruct rest as [|b0 [|b1 [|b2 [|b3 rest]]]]; try done.
    exfalso. simpl in Ht. destruct Ht as [?|[?|?]]; [done|lia|lia].
  - cbn [fst snd] in Hop, Hv. unfold encode_modes in *. cbn [map concat] in *.
    unfold encode_mode at 1. unfold encode_mode at 1 in Hn. cbn [fst snd] in *.
    pose proof (be_value_bytes 4 v ltac:(change (256 ^ Z.of_nat 4) with (2 ^ 32); lia)) as Hval.
    pose proof (length_be_bytes 4 v) as Hlen.
    destruct (be_bytes 4 v) as [|b0 [|b1 [|b2 [|b3 [|? ?]]]]]; try done.
    cbn [app modes_loop apply_modes fst snd]. cbv zeta.
    rewrite b2z_z2b_small by lia.
    rewrite (proj2 (Z.eqb_neq _ _)) by (unfold TTY_OP_END; lia).
    rewrite (proj2 (Z.leb_gt _ _)) by lia. rewrite Hval.
    destruct (apply_mode op v tio) as [t|e|]; simpl; [|done..].
    apply IH. simpl in Hn. lia.
Qed.

(** C23: Terminal modes. Any byte string is a list of modes (an opcode from 1
    to 159 and a 32-bit value each) up to where it ends: at the end of the data,
    the end opcode, an undefined opcode, or a mode cut short. The attributes
    given to [tcsetattr] are the current ones with these modes applied in
    order, no other; no mode panics; an empty string leaves the terminal
    alone. *)
Theorem terminal_modes_applied `{!TermiosLaws} (modes : list byte) (tio : Termios)
    (tcsetattr : Termios → result () Errno) :
  length (control_chars tio) = nccs →
  ∃ ms tail t, modes = encode_modes ms ++ tail ∧ Forall mode_ok ms ∧ ends_modes tail ∧
    apply_modes ms tio = Ok t ∧
    apply_terminal_modes (Ok tio) tcsetattr modes =
      (if decide (modes = []) then Ok () else result_map_err Os (tcsetattr t)).
Proof.
  intros Hn. destruct (modes_split modes) as (ms & tail & Hm & Hms & Ht).
  destruct (apply_modes_total ms tio Hn) as [t Hap]. exists ms, tail, t.
  split_and!; [done..|]. unfold apply_terminal_modes.
  destruct modes as [|b modes]; [by rewrite decide_True|]. rewrite decide_False by done.
  cbn [result_map_err and_then]. rewrite Hm at 1 2.
  rewrite modes_loop_encoded by (done || lia). by rewrite Hap.
Qed.

(** C40: The size of a window. [winsize_from_pty] keeps the four dimensions
    when all fit into 16 bits, and otherwise names the first that does not, in
    the order columns, rows, width, height, with its value cut to 32 bits; a
    resize obeys the same rule. *)
Theorem winsize_bounds (p : PtyRequest) (w : WindowChangeRequest) :
  let dims (col row x y : Z) : result winsize DimensionOverflow :=
    match list_find (λ d : Z * string, U16_MAX < d.1)
            [(col, "width_cols"); (row, "height_rows"); (x, "width_px"); (y, "height_px")] with
    | Some (_, (v, field)) => Err (MkDimensionOverflow field (v mod 2 ^ 32))
    | None => Ok (MkWinsize row col x y)
    end in
  winsize_from_pty p = dims (pty_width_cols p) (pty_height_rows p) (pty_width_px p) (pty_height_px p) ∧
  winsize_from_resize w = dims (win_width_cols w) (win_height_rows w) (win_width_px w) (win_height_px w).
Proof.
  assert (∀ v field, try_u16 v field =
            if decide (U16_MAX < v) then Err (MkDimensionOverflow field (v mod 2 ^ 32)) else Ok v) as Ht.
  { intros v field. unfold try_u16, u16_try_from. case_decide.
    - by rewrite (proj2 (Z.leb_gt _ _)) by lia.
    - by rewrite (proj2 (Z.leb_le _ _)) by lia. }
  unfold winsize_from_pty, winsize_from_resize. rewrite !Ht. cbn [list_find fst].
  split; repeat (case_decide; simpl; [done|]); done.
Qed.
End modes_spec.

(** ** The constants of Linux *)

Definition linux_termios : TermiosConstants := {|
  nccs := 32;
  cc_number cc := match cc with
    | VINTR => 0 | VQUIT => 1 | VERASE => 2 | VKILL => 3 | VEOF => 4 | VEOL => 11 | VEOL2 => 16
    | VSTART => 8 | VSTOP => 9 | VSUSP => 10 | VREPRINT => 12 | VWERASE => 14 | VLNEXT => 15
    | VDISCARD => 13 end%nat;
  input_bits f := match f with
    | IGNPAR => 4 | PARMRK => 8 | INPCK => 16 | ISTRIP => 32 | INLCR => 64 | IGNCR => 128
    | ICRNL => 256 | IUCLC => 512 | IXON => 1024 | IXANY => 2048 | IXOFF => 4096
    | IMAXBEL => 8192 | IUTF8 => 16384 end;
  local_bits f := match f with
    | ISIG => 1 | ICANON => 2 | ECHO => 8 | ECHOE => 16 | ECHOK => 32 | ECHONL => 64
    | NOFLSH => 128 | TOSTOP => 256 | IEXTEN => 32768 | ECHOCTL => 512 | ECHOKE => 2048
    | PENDIN => 16384 end;
  output_bits f := match f with
    | OPOST => 1 | OLCUC => 2 | ONLCR => 4 | OCRNL => 8 | ONOCR => 16 | ONLRET => 32 end;
  control_bits f := match f with CS7 => 32 | CS8 => 48 | PARENB => 256 | PARODD => 512 end;
  input_all := 32767; local_all := 65535; output_all := 65535; control_all := 4294967295;
|}.

#[local] Existing Instance linux_termios.
Lemma linux_termios_laws : TermiosLaws.
Proof. intros []; apply Nat.ltb_lt; reflexivity. Qed.

(** The character size is a field of two bits, of which the modes make flags:
    with eight bits in force (48), asking for seven (CS7 on, CS8 off, as RFC
    4254 encodes it) leaves 0, which is five bits, and not 32. *)
Lemma character_size_seven t :
  control_flags t = control_bits CS8 →
  (result_ok (apply_modes [(90, 1); (91, 0)] t) ≫= λ t', Some (control_flags t')) = Some 0 ∧
  control_bits CS7 = 32.
Proof. intros Hc. cbn. by rewrite Hc. Qed.

(** ** Witness *)

Definition sample_termios : Termios := MkTermios (replicate 32 x00) 0 0 0 48 0 0.

Lemma terminal_modes_applied_witness :
  length (control_chars sample_termios) = nccs ∧
  ∃ ms tail t, [x35; x00; x00; x00; x01; x00; xff] = encode_modes ms ++ tail ∧
    Forall mode_ok ms ∧ ends_modes tail ∧ apply_modes ms sample_termios = Ok t ∧
    apply_terminal_modes (Ok sample_termios) (λ _, Ok ()) [x35; x00; x00; x00; x01; x00; xff]
    = Ok ().
Proof.
  split; [reflexivity|].
  destruct (@terminal_modes_applied linux_termios linux_termios_laws
              [x35; x00; x00; x00; x01; x00; xff] sample_termios (λ _, Ok ()) eq_refl)
    as (ms & tail & t & H1 & H2 & H3 & H4 & H5).
  exists ms, tail, t. split; [exact H1|]. split; [exact H2|]. split; [exact H3|].
  split; [exact H4|exact H5].
Defined.
