(* ===== verification/PtyFd.v ===== *)
(** * The terminal's descriptor ([AsyncPtyFd] of [src/src/session/pty.rs])

    Reading and writing the master side of a terminal without blocking. The
    readiness of the descriptor is tokio's [AsyncFd], the calls are the
    system's: an interface with the laws the code relies on. *)
From Stdlib Require Import ZArith Lia Strings.Byte.
From stdpp Require Import base list strings gmap fin_maps relations.
From S2P Require Import Prelude Wire Codec ByteChannel Terminal.
Local Open Scope Z_scope.

(** ** The descriptor *)

(** One direction of an [AsyncFd] whose calls return an [A]: a poll of the
    readiness that returns a guard, and the guard's [try_io] around the call,
    which is read(2) or write(2) here. *)
Class AsyncFd (S A : Type) := {
  poll_ready : S → S * Poll (result () ErrorKind);
  sys_call : S → S * result A ErrorKind;
  try_io : (S → S * result A ErrorKind) → S → S * option (result A ErrorKind);
}.

(** [try_io] returns what the call returned, unless it would block: then it has
    cleared the readiness, so that the next guard takes another event of the
    driver, of which [events] are still to come. *)
Class AsyncFdLaws (S A : Type) `{AsyncFd S A} (events : S → nat) : Prop := {
  try_io_done s s1 x : sys_call s = (s1, x) → x ≠ Err WouldBlock → try_io sys_call s = (s1, Some x);
  try_io_block s s1 : sys_call s = (s1, Err WouldBlock) → ∃ s2, try_io sys_call s = (s2, None);
  events_used s s1 s2 : poll_ready s = (s1, Ready (Ok ())) → try_io sys_call s1 = (s2, None) →
    (events s2 < events s)%nat;
}.

Section poll.
Context {S A : Type} `{AsyncFd S A}.

(** The loop of [poll_read] and of [poll_write]; [None] when the rounds run
    out. *)
Fixpoint poll_io (fuel : nat) (s : S) : S * option (Poll (result A ErrorKind)) :=
  match fuel with
  | O => (s, None)
  | Datatypes.S fuel =>
    match poll_ready s with
    | (s, Pending) => (s, Some Pending)
    | (s, Ready (Err e)) => (s, Some (Ready (Err e)))
    | (s, Ready Panic) => (s, Some (Ready Panic))
    | (s, Ready (Ok _)) =>
      match try_io sys_call s with
      | (s, Some x) => (s, Some (Ready x))
      | (s, None) => poll_io fuel s
      end
    end
  end.
End poll.

(** The room left in the caller's buffer, and the buffer. [advance] asserts
    that it stays within what was initialized, the room. *)
Definition advance (room : Z) (x : result (list byte) ErrorKind) : result (list byte) ErrorKind :=
  match x with
  | Ok bs => if byte_len bs <=? room then Ok bs else Panic
  | x => x
  end.

Section pty.
Context {S : Type}.

(** [AsyncRead::poll_read]: the bytes put into the buffer. *)
Definition pty_poll_read `{AsyncFd S (list byte)} (fuel : nat) (room : Z) (s : S)
    : S * option (Poll (result (list byte) ErrorKind)) :=
  match poll_io fuel s with
  | (s, Some (Ready x)) => (s, Some (Ready (advance room x)))
  | r => r
  end.

(** [AsyncWrite::poll_write]: how many bytes were taken. *)
Definition pty_poll_write `{AsyncFd S Z} (fuel : nat) (s : S) : S * option (Poll (result Z ErrorKind)) :=
  poll_io fuel s.
Definition pty_poll_flush (s : S) : S * Poll (result () ErrorKind) := (s, Ready (Ok ())).
Definition pty_poll_shutdown (s : S) : S * Poll (result () ErrorKind) := (s, Ready (Ok ())).
End pty.

(** [AsyncPtyFd::new]. [o_all] are the bits [OFlag] knows, [getfl] and [setfl]
    the two calls of [fcntl], [register] the one of [AsyncFd::new]. *)
Section new.
Context {Fd Inner : Type} (o_all o_nonblock : Z) (error_kind : Errno → ErrorKind).
Context (getfl : Fd → result Z Errno) (setfl : Fd → Z → result () Errno).
Context (register : Fd → result Inner ErrorKind).

Definition new_pty_fd (fd : Fd) : result Inner ErrorKind :=
  (let? flags := result_map_err error_kind (getfl fd) in
   let oflags := Z.lor (Z.land flags o_all) o_nonblock in
   let? _ := result_map_err error_kind (setfl fd oflags) in
   register fd)%result.
End new.

(** ** Properties *)

(** A round of the loop that has found nothing: the descriptor said that it
    was ready and the call would have blocked. *)
Definition spurious {S A} `{AsyncFd S A} (s s2 : S) : Prop :=
  ∃ s1, poll_ready s = (s1, Ready (Ok ())) ∧ try_io sys_call s1 = (s2, None).

(** What ends it: the descriptor is not ready, and has kept the waker; it is in
    error; or the call has returned something else than that it would block. *)
Definition io_ends {S A} `{AsyncFd S A} (s s' : S) (x : Poll (result A ErrorKind)) : Prop :=
  (poll_ready s = (s', Pending) ∧ x = Pending) ∨
  (∃ e, poll_ready s = (s', Ready (Err e)) ∧ x = Ready (Err e)) ∨
  (poll_ready s = (s', Ready Panic) ∧ x = Ready Panic) ∨
  (∃ s1 r, poll_ready s = (s1, Ready (Ok ())) ∧ sys_call s1 = (s', r) ∧ r ≠ Err WouldBlock ∧ x = Ready r).

Section properties.
Context {S A : Type} `{AsyncFd S A} (events : S → nat) `{!AsyncFdLaws S A events}.

(** The loop of the terminal's descriptor ends, after as many rounds as events
    were still to come, and never with [WouldBlock] from the call: either the
    descriptor is not ready and the caller is woken later, or it is in error,
    or the result is that of exactly one call; the calls before it would all
    have blocked, so that nothing that was read or written is lost. *)
Theorem poll_io_ends (fuel : nat) (s : S) :
  (events s < fuel)%nat →
  ∃ s1 s' x, rtc spurious s s1 ∧ io_ends s1 s' x ∧ poll_io fuel s = (s', Some x).
Proof.
  revert s. induction fuel as [|fuel IH]; intros s Hf; [lia|]. cbn [poll_io].
  destruct (poll_ready s) as [s1 [|[[]|e|]]] eqn:Hp.
  - exists s, s1, Pending. split_and!; [done|by left|done].
  - destruct (sys_call s1) as [s2 r] eqn:Hc.
    assert (r = Err WouldBlock ∨ r ≠ Err WouldBlock) as [->|Hr]
      by (destruct r as [|e|]; [by right|destruct (decide (e = WouldBlock)); naive_solver|by right]).
    + destruct (try_io_block _ _ Hc) as [s3 Ht]. rewrite Ht.
      destruct (IH s3) as (s4 & s' & x & Hrtc & Hx & Hrun).
      { pose proof (events_used _ _ _ Hp Ht). lia. }
      exists s4, s', x. split_and!; [|done..]. eapply rtc_l; [|done]. by exists s1.
    + rewrite (try_io_done _ _ _ Hc Hr). exists s, s2, (Ready r).
      split_and!; [done| |done]. right; right; right. by exists s1, r.
  - exists s, s1, (Ready (Err e)). split_and!; [done| |done]. right; left. by exists e.
  - exists s, s1, (Ready Panic). split_and!; [done| |done]. by right; right; left.
Qed.
End properties.

(** The descriptor is made non-blocking before it is registered: every flag it
    is given is one it had or [O_NONBLOCK], which is set. *)
Lemma new_pty_fd_nonblocking {Fd Inner} o_all o_nonblock error_kind (getfl : Fd → result Z Errno) setfl
    (register : Fd → result Inner ErrorKind) fd inner :
  new_pty_fd o_all o_nonblock error_kind getfl setfl register fd = Ok inner →
  ∃ flags given, getfl fd = Ok flags ∧ setfl fd given = Ok () ∧ register fd = Ok inner ∧
    ∀ i, 0 ≤ i → Z.testbit given i = Z.testbit flags i && Z.testbit o_all i || Z.testbit o_nonblock i.
Proof.
  unfold new_pty_fd. intros (flags & Hg & (u & Hs & Hr)%and_then_Ok)%and_then_Ok.
  destruct (getfl fd) as [f|e|] eqn:Hf; simplify_eq/=.
  destruct (setfl fd _) as [[]|e|] eqn:Hsf in Hs; simplify_eq/=.
  eexists flags, _. split_and!; [done|exact Hsf|done|].
  intros i Hi. by rewrite Z.lor_spec, Z.land_spec.
Qed.

(** ** Witness *)

(** A descriptor by its history: each event finds bytes to read, or nothing. *)
Record Script := MkScript { sc_ready : bool; sc_events : list (option (list byte)) }.

#[local] Instance script_fd : AsyncFd Script (list byte) := {|
  poll_ready s := match sc_events s with
    | [] => (s, Pending)
    | _ => (MkScript true (sc_events s), Ready (Ok ()))
    end;
  sys_call s := match sc_events s with
    | Some bs :: es => (MkScript true es, Ok bs)
    | _ => (s, Err WouldBlock)
    end;
  try_io f s := match f s with
    | (s, Err WouldBlock) => (MkScript false (drop 1 (sc_events s)), None)
    | (s, x) => (s, Some x)
    end;
|}.
#[local] Instance script_fd_laws : AsyncFdLaws Script (list byte) (λ s, length (sc_events s)).
Proof.
  split; simpl.
  - intros s s1 x Hc Hx. rewrite Hc. by destruct x as [|[]|].
  - intros s s1 ->. eauto.
  - intros [ready [|[bs|] es]] s1 s2; simpl; [done|..]; intros Hp Ht; injection Hp as <-;
      cbn in Ht; [done|]. injection Ht as <-. simpl. rewrite drop_0. lia.
Qed.

Lemma poll_io_ends_witness :
  poll_io 3 (MkScript false [None; Some [x68; x69]]) = (MkScript true [], Some (Ready (Ok [x68; x69]))) ∧
  ∃ s1 s' x, rtc spurious (MkScript false [None; Some [x68; x69]]) s1 ∧ io_ends s1 s' x ∧
    poll_io 3 (MkScript false [None; Some [x68; x69]]) = (s', Some x).
Proof.
  split; [reflexivity|].
  apply (poll_io_ends (λ s, length (sc_events s)) 3 (MkScript false [None; Some [x68; x69]])).
  simpl. lia.
Defined.
