(* ===== verification/Setup.v ===== *)
(** * Setting up a session channel ([session_setup] of [src/src/session/dispatcher.rs])

    The requests a client sends before the command: terminal, environment,
    exec or shell. The terminal calls are parameters. *)
From Stdlib Require Import ZArith Lia Strings.Byte.
From stdpp Require Import base list strings gmap fin_maps relations.
From S2P Require Import Prelude Text Wire Codec Message ChannelErrors Channel Progress SessionMsg Terminal.
Local Open Scope Z_scope.
Local Open Scope io_scope.

Abbreviation text := (list byte) (only parsing).

Module session_setup_error.
Inductive SessionSetupError :=
| ReadEvent (source : ReadChannelEventError)
| DecodePayload (request_type : string) (source : SessionCodecError)
| Respond (source : RespondChannelSuccessError Infallible)
| ChannelClosed
| AllocPty (source : PtyError).
End session_setup_error.
Abbreviation SessionSetupError := session_setup_error.SessionSetupError.

Record SessionSetup (Fd : Type) := MkSessionSetup {
  ss_command : list byte;
  ss_is_shell : bool;
  ss_pty : option (PtyPair Fd);
  ss_term_type : option text;
  ss_client_env : list (text * text);
}.
Arguments MkSessionSetup {Fd}.
Arguments ss_command {Fd}.
Arguments ss_is_shell {Fd}.
Arguments ss_pty {Fd}.
Arguments ss_term_type {Fd}.
Arguments ss_client_env {Fd}.

(** The variables of the loop, and what ends it. *)
Record Requested := MkRequested {
  rq_pty : option PtyRequest;
  rq_term : option text;
  rq_env : list (text * text);
}.
Inductive Program := Exec (command : list byte) | Shell.

Section setup.
Context `{VarIntCodec}.

(** [if let Some(r) = responder { let _ = r.respond_...().await; }] *)
Definition answer {E E'} (responder : option ChannelResponder) (respond : ChannelResponder → Io Writer E ())
    : Io SshChannel E' () :=
  match responder with
  | Some r => let! _ := io_try (with_writer (respond r)) in io_ret ()
  | None => io_ret ()
  end.

Definition setup_payload (T : Type) `{DecodeFrom T SessionCodecError} (name : string)
    (incoming : IncomingChannelRequest)
    : Io SshChannel SessionSetupError (T * option ChannelResponder) :=
  request_decode_payload T incoming <?> session_setup_error.DecodePayload name.

(** Each round reads at least one byte; [None] when the fuel runs out. *)
Fixpoint setup_loop (fuel : nat) (rq : Requested)
    : Io SshChannel SessionSetupError (option (Requested * Program)) :=
  match fuel with
  | O => io_ret None
  | S fuel =>
    let! event := next_event <?> session_setup_error.ReadEvent in
    match event with
    | channel_event.Request incoming =>
      match ssh_string_deref (request_type incoming) with
      | "pty-req" =>
        let! (payload, responder) := setup_payload PtyRequest "pty-req" incoming in
        answer responder (λ r, respond_success r MkEmptyPayload) ;;;
        setup_loop fuel (MkRequested (Some payload) (Some (ssh_string_bytes (pty_term_type payload)))
                           (rq_env rq))
      | "env" =>
        let! (payload, responder) := setup_payload EnvRequest "env" incoming in
        answer responder (λ r, respond_success r MkEmptyPayload) ;;;
        setup_loop fuel (MkRequested (rq_pty rq) (rq_term rq)
          (rq_env rq ++ [(ssh_string_bytes (env_name payload), ssh_string_bytes (env_value payload))]))
      | "exec" =>
        let! (payload, responder) := setup_payload ExecRequest "exec" incoming in
        answer responder (λ r, respond_success r MkEmptyPayload) ;;;
        io_ret (Some (rq, Exec (ssh_bytes (exec_command payload))))
      | "shell" =>
        answer (if want_reply incoming then Some MkChannelResponder else None)
          (λ r, respond_success r MkEmptyPayload) ;;;
        io_ret (Some (rq, Shell))
      | _ =>
        answer (if want_reply incoming then Some MkChannelResponder else None) respond_failure ;;;
        setup_loop fuel rq
      end
    | channel_event.Eof | channel_event.Close => io_fail session_setup_error.ChannelClosed
    | _ => setup_loop fuel rq
    end
  end%string.

(** The terminal is allocated when the program is known; its modes are applied
    to the slave, a failure is logged. *)
Context {Fd : Type} `{TermiosConstants}
  (openpty : winsize → result (Fd * Fd) Errno) (tcgetattr : Fd → result Termios Errno)
  (tcsetattr : Fd → Termios → result () Errno).

Definition setup_pty (rq : Requested) : result (option (PtyPair Fd)) SessionSetupError :=
  match rq_pty rq with
  | Some req =>
    match allocate_pty openpty req with
    | Ok pty =>
      match ssh_bytes (pty_terminal_modes req) with
      | [] => Ok (Some pty)
      | modes =>
        match apply_terminal_modes (tcgetattr (slave pty)) (tcsetattr (slave pty)) modes with
        | Panic => Panic
        | _ => Ok (Some pty)
        end
      end
    | Err e => Err (session_setup_error.AllocPty e)
    | Panic => Panic
    end
  | None => Ok None
  end.

Definition session_setup_fuel (fuel : nat)
    : Io SshChannel SessionSetupError (option (SessionSetup Fd)) :=
  let! done := setup_loop fuel (MkRequested None None []) in
  match done with
  | None => io_ret None
  | Some (rq, program) =>
    let! pty := io_lift (setup_pty rq) in
    let '(command, is_shell) := match program with Exec c => (c, false) | Shell => ([], true) end in
    io_ret (Some (MkSessionSetup command is_shell pty (rq_term rq) (rq_env rq)))
  end.

Definition session_setup : Io SshChannel SessionSetupError (option (SessionSetup Fd)) := λ ch,
  session_setup_fuel (S (length (rd_buf (reader ch)))) ch.
End setup.

(** ** What a client sends *)

Inductive SetupMsg :=
| SPty (p : PtyRequest)
| SEnv (e : EnvRequest)
| SOther (name : string).

Section messages.
Context `{VarIntLaws}.

Definition setup_msg_wire (m : SetupMsg) (want : bool) : list byte :=
  match m with
  | SPty p => request_wire (from_static "pty-req") want (wire p)
  | SEnv e => request_wire (from_static "env") want (wire e)
  | SOther name => request_wire (from_static name) want []
  end.
Definition setup_msg_ok (m : SetupMsg) : Prop :=
  match m with
  | SPty p => wire_ok p
  | SEnv e => wire_ok e
  | SOther name =>
    ssh_string_ok (from_static name) ∧ name ∉ ["pty-req"; "env"; "exec"; "shell"]%string
  end.
Definition setup_msg_apply (rq : Requested) (m : SetupMsg) : Requested :=
  match m with
  | SPty p => MkRequested (Some p) (Some (ssh_string_bytes (pty_term_type p))) (rq_env rq)
  | SEnv e => MkRequested (rq_pty rq) (rq_term rq)
                (rq_env rq ++ [(ssh_string_bytes (env_name e), ssh_string_bytes (env_value e))])
  | SOther _ => rq
  end.
Definition setup_msg_reply (m : SetupMsg) (want : bool) : list byte :=
  if want then
    match m with
    | SOther _ => msg SSH_MSG_CHANNEL_FAILURE
    | _ => msg SSH_MSG_CHANNEL_SUCCESS
    end
  else [].

Definition program_wire (p : Program) (want : bool) : list byte :=
  match p with
  | Exec c => request_wire (from_static "exec") want (wire (MkExecRequest (MkSshBytes c)))
  | Shell => request_wire (from_static "shell") want []
  end.
Definition program_ok (p : Program) : Prop :=
  match p with Exec c => wire_ok (MkExecRequest (MkSshBytes c)) | Shell => True end.
Definition program_reply (want : bool) : list byte := if want then msg SSH_MSG_CHANNEL_SUCCESS else [].

(** ** Lemmas *)

Lemma request_wire_app name want payload rest :
  request_wire name want payload ++ rest = request_wire name want [] ++ payload ++ rest.
Proof. unfold request_wire. by rewrite app_nil_r, <- !(assoc_L (++)). Qed.

(** The event of a request, then the rest of the stream. *)
Lemma setup_event name (want : bool) payload rest fin w {B}
    (k : ChannelEvent → Io SshChannel SessionSetupError B) :
  ssh_string_ok name →
  (let! event := next_event <?> session_setup_error.ReadEvent in k event)
    (new_channel (MkReader (request_wire name want payload ++ rest) fin) w)
  = k (channel_event.Request (MkIncomingChannelRequest name want))
      (new_channel (MkReader (payload ++ rest) fin) w).
Proof.
  intros Hn. rewrite request_wire_app. apply io_bind_ok, map_err_ok. by apply next_request_run.
Qed.

Lemma answer_run {E E'} (respond : ChannelResponder → Io Writer E ()) bs (want : bool) r w :
  (∀ x, writes (respond x) bs ()) → wr_plan w = [] →
  ∃ w', answer (E' := E') (if want then Some MkChannelResponder else None) respond (new_channel r w)
      = (new_channel r w', Ok ()) ∧
    wr_out w' = wr_out w ++ (if want then bs else []) ∧ wr_plan w' = [].
Proof.
  intros Hr Hw. destruct want.
  - destruct (writes_ok (Hr MkChannelResponder) w Hw) as (w' & Hrun & Ho & Hp). exists w'.
    split; [|done]. unfold answer, io_bind, io_try.
    by rewrite (with_writer_run _ (new_channel r w) _ _ Hrun).
  - exists w. by rewrite app_nil_r.
Qed.

Lemma setup_payload_run {T : Type} `{EncodeInto T E, DecodeFrom T SessionCodecError, !WireFormat T}
    (name : string) (x : T) (incoming : IncomingChannelRequest) rest fin w :
  wire_ok x →
  setup_payload T name incoming (new_channel (MkReader (wire x ++ rest) fin) w)
  = (new_channel (MkReader rest fin) w,
     Ok (x, if want_reply incoming then Some MkChannelResponder else None)).
Proof.
  intros Hx. unfold setup_payload, request_decode_payload. apply map_err_ok.
  erewrite io_bind_ok; [|apply with_reader_run; by apply wire_decode]. done.
Qed.

Lemma success_writes r : writes (respond_success r MkEmptyPayload) (msg SSH_MSG_CHANNEL_SUCCESS) ().
Proof. rewrite <- (app_nil_r (msg _)). apply respond_success_writes. apply writes_ret. Qed.
End messages.

Section properties.
Context `{VarIntLaws}.

(** One request of the client, as the loop handles it. *)
Lemma setup_loop_msg fuel rq m (want : bool) rest fin w :
  setup_msg_ok m → wr_plan w = [] →
  ∃ w', setup_loop (S fuel) rq (new_channel (MkReader (setup_msg_wire m want ++ rest) fin) w)
      = setup_loop fuel (setup_msg_apply rq m) (new_channel (MkReader rest fin) w') ∧
    wr_out w' = wr_out w ++ setup_msg_reply m want ∧ wr_plan w' = [].
Proof.
  intros Hm Hw. cbn [setup_loop]. destruct m as [p|e|name]; cbn [setup_msg_wire setup_msg_ok] in *.
  - rewrite setup_event by (by apply from_static_ok).
    change (ssh_string_deref _) with "pty-req"%string. cbv beta iota.
    rewrite (io_bind_ok _ _ _ _ _ (setup_payload_run "pty-req" p _ rest fin w Hm)). cbn [want_reply].
    destruct (answer_run (E' := SessionSetupError) (λ r, respond_success r MkEmptyPayload) _ want
      (MkReader rest fin) w success_writes Hw) as (w' & Hr & Ho & Hp).
    exists w'. by rewrite (io_bind_ok _ _ _ _ _ Hr).
  - rewrite setup_event by (by apply from_static_ok).
    change (ssh_string_deref _) with "env"%string. cbv beta iota.
    rewrite (io_bind_ok _ _ _ _ _ (setup_payload_run "env" e _ rest fin w Hm)). cbn [want_reply].
    destruct (answer_run (E' := SessionSetupError) (λ r, respond_success r MkEmptyPayload) _ want
      (MkReader rest fin) w success_writes Hw) as (w' & Hr & Ho & Hp).
    exists w'. by rewrite (io_bind_ok _ _ _ _ _ Hr).
  - destruct Hm as [Hn Hk]. rewrite setup_event by done. cbn [app want_reply].
    destruct (answer_run (E' := SessionSetupError) respond_failure _ want
      (MkReader rest fin) w respond_failure_writes Hw) as (w' & Hr & Ho & Hp).
    exists w'. split; [|done]. unfold ssh_string_deref. cbn [request_type from_static ssh_string_bytes].
    rewrite bytes_str_bytes.
    transitivity ((answer (E' := SessionSetupError) (if want then Some MkChannelResponder else None)
      respond_failure ;;; setup_loop fuel rq) (new_channel (MkReader rest fin) w));
      [|by rewrite (io_bind_ok _ _ _ _ _ Hr)].
    repeat (case_match; try done); exfalso; apply Hk; set_solver.
Qed.

Lemma setup_loop_msgs fuel rq (ms : list (SetupMsg * bool)) rest fin w :
  Forall (λ m, setup_msg_ok m.1) ms → wr_plan w = [] → (length ms ≤ fuel)%nat →
  ∃ w', setup_loop fuel rq
          (new_channel (MkReader (concat (map (λ m, setup_msg_wire m.1 m.2) ms) ++ rest) fin) w)
      = setup_loop (fuel - length ms) (foldl setup_msg_apply rq (map fst ms))
          (new_channel (MkReader rest fin) w') ∧
    wr_out w' = wr_out w ++ concat (map (λ m, setup_msg_reply m.1 m.2) ms) ∧ wr_plan w' = [].
Proof.
  intros Hms. revert fuel rq w. induction Hms as [|[m want] ms Hm Hms IH]; intros fuel rq w Hw Hf.
  { exists w. simpl. by rewrite app_nil_r, Nat.sub_0_r. }
  destruct fuel as [|fuel]; [simpl in Hf; lia|]. simpl in Hf. simpl in Hm.
  cbn [map concat fst snd]. rewrite <- (assoc_L (++)).
  destruct (setup_loop_msg fuel rq m want (concat (map (λ m, setup_msg_wire m.1 m.2) ms) ++ rest) fin w Hm Hw)
    as (w1 & Hr1 & Ho1 & Hp1).
  destruct (IH fuel (setup_msg_apply rq m) w1 Hp1 ltac:(lia)) as (w2 & Hr2 & Ho2 & Hp2).
  exists w2. rewrite Hr1, Hr2. split; [done|]. split; [|done]. by rewrite Ho2, Ho1, <- (assoc_L (++)).
Qed.

Lemma setup_loop_program fuel rq p (want : bool) rest fin w :
  program_ok p → wr_plan w = [] →
  ∃ w', setup_loop (S fuel) rq (new_channel (MkReader (program_wire p want ++ rest) fin) w)
      = (new_channel (MkReader rest fin) w', Ok (Some (rq, p))) ∧
    wr_out w' = wr_out w ++ program_reply want ∧ wr_plan w' = [].
Proof.
  intros Hp Hw. cbn [setup_loop].
  destruct (answer_run (E' := SessionSetupError) (λ r, respond_success r MkEmptyPayload) _ want
      (MkReader rest fin) w success_writes Hw) as (w' & Hr & Ho & Hpl).
  exists w'. split; [|done]. destruct p as [c|]; cbn [program_wire program_ok] in *.
  - rewrite setup_event by (by apply from_static_ok).
    change (ssh_string_deref _) with "exec"%string. cbv beta iota.
    rewrite (io_bind_ok _ _ _ _ _ (setup_payload_run "exec" (MkExecRequest (MkSshBytes c)) _ rest fin w Hp)).
    cbn [want_reply]. by rewrite (io_bind_ok _ _ _ _ _ Hr).
  - rewrite setup_event by (by apply from_static_ok).
    change (ssh_string_deref _) with "shell"%string. cbv beta iota. cbn [app want_reply].
    by rewrite (io_bind_ok _ _ _ _ _ Hr).
Qed.

(** A message is not empty. *)
Lemma request_wire_length name want payload : (0 < length (request_wire name want payload))%nat.
Proof.
  unfold request_wire, msg. destruct (varint_bytes SSH_MSG_CHANNEL_REQUEST) eqn:Hb;
    [by apply varint_bytes_nonempty in Hb|simpl; lia].
Qed.
Lemma setup_msgs_length (ms : list (SetupMsg * bool)) :
  (length ms ≤ length (concat (map (λ m, setup_msg_wire m.1 m.2) ms)))%nat.
Proof.
  induction ms as [|[m want] ms IH]; [done|]. cbn [map concat length fst snd]. rewrite length_app.
  assert (0 < length (setup_msg_wire m want))%nat; [|lia].
  destruct m; apply request_wire_length.
Qed.

Context {Fd : Type} `{TermiosConstants}
  (openpty : winsize → result (Fd * Fd) Errno) (tcgetattr : Fd → result Termios Errno)
  (tcsetattr : Fd → Termios → result () Errno).

(** The setup of a session is what the client asked for. After any requests
    for terminals and environment variables, and any others without a payload,
    and a command or a shell, the setup has that command, the variables in
    order, the terminal type of the last terminal request and its terminal, as
    the system gave it; each request that wants a reply gets success, an
    unknown one failure, in order; and nothing that follows is consumed. *)
Lemma session_setup_run (ms : list (SetupMsg * bool)) (p : Program) (want : bool)
    (rest : list byte) (fin : option ErrorKind) (w : Writer) :
  Forall (λ m, setup_msg_ok m.1) ms → program_ok p → wr_plan w = [] →
  let rq := foldl setup_msg_apply (MkRequested None None []) (map fst ms) in
  ∃ w', session_setup openpty tcgetattr tcsetattr
      (new_channel (MkReader (concat (map (λ m, setup_msg_wire m.1 m.2) ms) ++
                              program_wire p want ++ rest) fin) w)
    = (new_channel (MkReader rest fin) w',
       match setup_pty openpty tcgetattr tcsetattr rq with
       | Ok pty => Ok (Some (match p with
                             | Exec c => MkSessionSetup c false pty (rq_term rq) (rq_env rq)
                             | Shell => MkSessionSetup [] true pty (rq_term rq) (rq_env rq)
                             end))
       | Err e => Err e
       | Panic => Panic
       end) ∧
    wr_out w' = wr_out w ++ concat (map (λ m, setup_msg_reply m.1 m.2) ms) ++ program_reply want ∧ wr_plan w' = [].
Proof.
  intros Hms Hp Hw rq. unfold session_setup, session_setup_fuel. cbn [reader rd_buf].
  pose proof (setup_msgs_length ms) as Hlen.
  set (fuel := S _). assert (length ms < fuel)%nat as Hf
    by (unfold fuel; rewrite length_app; lia).
  destruct (setup_loop_msgs fuel (MkRequested None None []) ms (program_wire p want ++ rest) fin w Hms Hw
    ltac:(lia)) as (w1 & Hr1 & Ho1 & Hp1).
  destruct (fuel - length ms)%nat as [|f] eqn:Hfm; [lia|].
  destruct (setup_loop_program f rq p want rest fin w1 Hp Hp1) as (w2 & Hr2 & Ho2 & Hp2).
  exists w2. fold rq in Hr1. rewrite Hr2 in Hr1. rewrite (io_bind_ok _ _ _ _ _ Hr1).
  split; [|split; [by rewrite Ho2, Ho1, <- (assoc_L (++))|done]].
  unfold io_bind, io_lift, io_ret.
  destruct (setup_pty openpty tcgetattr tcsetattr rq) as [pty|e|]; [|done..].
  by destruct p.
Qed.

(** The bytes left to read. *)
Definition left_to_read (ch : SshChannel) : nat := reader_left (reader ch).

Lemma shrinks_with_reader {E A} (c : Io Reader E A) : decoder c → shrinks left_to_read (with_reader c).
Proof. intros Hc. apply shrinks_zoom; [done..|]. by apply shrinks_decoder. Qed.
Lemma shrinks_answer {E E'} r (respond : ChannelResponder → Io Writer E ()) :
  shrinks left_to_read (E := E') (answer r respond).
Proof.
  destruct r as [r|]; [|apply shrinks_ret]. apply shrinks_bind; [|intros; apply shrinks_ret].
  intros ch ch' a. unfold io_try, with_writer, io_zoom. destruct (respond r (writer ch)) as [w [?|?|]];
    intros; by simplify_eq.
Qed.

Lemma shrinks_setup_payload (T : Type) `{EncodeInto T E, DecodeFrom T SessionCodecError, !WireFormat T}
    name incoming : shrinks left_to_read (setup_payload T name incoming).
Proof.
  apply shrinks_map_err, shrinks_bind; [apply shrinks_with_reader, wire_decoder|].
  intros. apply shrinks_ret.
Qed.

(** Setting up ends. The loop reads at least one byte in each round, so
    that it ends on every stream, whatever the peer sends: with the setup or
    with an error, never for want of fuel. *)
Lemma session_setup_terminates (ch : SshChannel) :
  (session_setup openpty tcgetattr tcsetattr ch).2 ≠ Ok None.
Proof.
  assert (∀ fuel rq ch, (left_to_read ch < fuel)%nat → (setup_loop fuel rq ch).2 ≠ Ok None) as Hloop.
  { induction fuel as [|fuel IH]; intros rq ch0 Hf; [lia|]. cbn [setup_loop].
    assert (∀ {A} (c : Io SshChannel SessionSetupError A) k ch', shrinks left_to_read c →
              (left_to_read ch' < fuel)%nat →
              (∀ a ch'', (left_to_read ch'' < fuel)%nat → (k a ch'').2 ≠ Ok (A := option (Requested * Program)) None) →
              (io_bind c k ch').2 ≠ Ok None) as Hgo.
    { intros A c k ch' Hc Hch Hk. unfold io_bind. destruct (c ch') as [ch1 [a|e|]] eqn:Hr; [|done..].
      apply Hk. apply Hc in Hr. lia. }
    unfold io_bind at 1. destruct ((next_event <?> _) ch0) as [ch1 [ev|e|]] eqn:Hev; [|done..].
    apply map_err_inv_ok, next_event_progress in Hev.
    assert (left_to_read ch1 < fuel)%nat as Hx1 by (unfold left_to_read in *; lia).
    destruct ev; try (by apply IH); try done.
    assert (∀ {E} r (respond : ChannelResponder → Io Writer E ()) rq ch', (left_to_read ch' < fuel)%nat →
      ((answer r respond ;;; setup_loop fuel rq) ch').2 ≠ Ok None) as Hans.
    { intros E r respond rq' ch' Hch. apply Hgo; [apply shrinks_answer|done|]. intros _ ch''. apply IH. }
    assert (∀ {E} r (respond : ChannelResponder → Io Writer E ()) x ch', (left_to_read ch' < fuel)%nat →
      ((answer r respond ;;; io_ret (Some x)) ch').2 ≠ Ok (E := SessionSetupError) (A := option (Requested * Program)) None) as Hend.
    { intros E r respond x ch' Hch. apply Hgo; [apply shrinks_answer|done|]. done. }
    repeat case_match; try apply Hans; try apply Hend; try done;
      (apply Hgo; [apply (shrinks_setup_payload _)|done|]); intros [? ?] ch' Hch; cbv beta iota;
      first [by apply Hans|by apply Hend]. }
  unfold session_setup, session_setup_fuel, io_bind.
  pose proof (Hloop (S (left_to_read ch)) (MkRequested None None []) ch ltac:(lia)) as Hl.
  unfold left_to_read in Hl.
  destruct (setup_loop _ _ ch) as [ch' [[[rq p]|]|e|]]; simpl in *; [|done..].
  unfold io_lift. destruct (setup_pty _ _ _ rq) as [pty|e|]; [|done..]. by destruct p.
Qed.
End properties.

(** ** Witness *)

#[local] Existing Instance quic_varint.
#[local] Existing Instance quic_varint_laws.
#[local] Existing Instance linux_termios.

Definition sample_openpty (ws : winsize) : result (nat * nat) Errno := Ok (5, 6)%nat.
Definition sample_tcgetattr (fd : nat) : result Termios Errno := Ok sample_termios.
Definition sample_tcsetattr (fd : nat) (t : Termios) : result () Errno := Ok ().

Definition sample_pty : PtyRequest :=
  MkPtyRequest (from_static "xterm") 80 24 640 480 (MkSshBytes []).
Definition sample_env : EnvRequest := MkEnvRequest (from_static "LANG") (from_static "C").
Definition sample_requests : list (SetupMsg * bool) :=
  [(SPty sample_pty, true); (SEnv sample_env, false); (SOther "auth-agent-req", true)].

Lemma sample_requests_ok : Forall (λ m : SetupMsg * bool, setup_msg_ok m.1) sample_requests.
Proof.
  repeat constructor; simpl; try (by apply from_static_ok); try (by apply varint_ok_u32);
    try (vm_compute; lia); try (vm_compute; discriminate); try set_solver.
Qed.

Example sample_setup :
  ∃ w', session_setup sample_openpty sample_tcgetattr sample_tcsetattr
      (new_channel (MkReader (concat (map (λ m, setup_msg_wire m.1 m.2) sample_requests) ++
                              program_wire (Exec (str_bytes "ls")) true ++ []) None) new_writer)
    = (new_channel (MkReader [] None) w',
       Ok (Some (MkSessionSetup (str_bytes "ls") false (Some (MkPtyPair 5%nat 6%nat))
                   (Some (str_bytes "xterm")) [(str_bytes "LANG", str_bytes "C")]))) ∧
    wr_out w' = [] ++ (msg 99 ++ [] ++ msg 100 ++ []) ++ msg 99 ∧ wr_plan w' = [].
Proof.
  apply (session_setup_run sample_openpty sample_tcgetattr sample_tcsetattr sample_requests
           (Exec (str_bytes "ls")) true [] None new_writer sample_requests_ok);
    [vm_compute; discriminate|reflexivity].
Qed.

(** The payload of an unknown request is not skipped: it is read as the next
    messages, here as a command. *)
Lemma setup_unknown_payload (c : list byte) w :
  byte_len c ≤ MAX_REMOTE_FIELD_SIZE → wr_plan w = [] →
  ∃ w', session_setup sample_openpty sample_tcgetattr sample_tcsetattr
      (new_channel (MkReader (request_wire (from_static "x11-req") false (program_wire (Exec c) false)) None) w)
    = (new_channel (MkReader [] None) w', Ok (Some (MkSessionSetup c false None None []))).
Proof.
  intros Hc Hw.
  destruct (session_setup_run sample_openpty sample_tcgetattr sample_tcsetattr [(SOther "x11-req", false)]
    (Exec c) false [] None w) as (w' & Hr & _); [|exact Hc|exact Hw|].
  - repeat constructor; [by apply from_static_ok..|set_solver].
  - exists w'. cbn [map concat setup_msg_wire fst snd] in Hr.
    rewrite <- (app_nil_r (request_wire (from_static "x11-req") false _)), request_wire_app.
    rewrite app_nil_r in Hr. exact Hr.
Qed.
