(* ===== verification/Dispatch.v ===== *)
(** * The session dispatcher ([src/src/session/dispatcher.rs])

    Global requests with the tables of forwards, and the loop that accepts
    channels and requests and reaps tasks. The loop is a function of the
    branches [select!] takes, in the order it takes them; what the tasks do is
    Setup, Process, Tunnels and Reverse. *)
From Stdlib Require Import ZArith Lia Strings.Byte.
From stdpp Require Import base list strings gmap fin_maps relations.
From S2P Require Import Prelude Text Wire Codec Message ChannelErrors Channel ForwardMsg.
From S2P Require Import Conversation Net Global GlobalProps Reverse.
Local Open Scope Z_scope.
Local Open Scope io_scope.

(** ** Global requests *)

(** A listener task that was spawned, in the order of the spawns. *)
Inductive Listening := LTcp (l : TcpForwardListener) | LUnix (l : UnixForwardListener).

(** The tables map to the abort handle, the index of the task. *)
Record Forwards := MkForwards {
  tcp_forwards : gmap (string * Z) nat;
  unix_forwards : gmap string nat;
  forward_tasks : list Listening;
  aborted : list nat;
}.

Record Server := MkServer { sv_host : Host; sv_reader : Reader; sv_forwards : Forwards }.

(** The header of the request has been read; the guard of the reader is held. *)
Inductive IncomingGlobal := IRequest (request_type : string) | INotify (request_type : string).

Definition on_host {E E' A} (c : Io Host E A) : Io Server E' (result A E) := λ s,
  let '(h, x) := c (sv_host s) in
  (MkServer h (sv_reader s) (sv_forwards s), match x with Panic => Panic | _ => Ok x end).
Definition on_forwards {E} (f : Forwards → Forwards) : Io Server E () := λ s,
  (MkServer (sv_host s) (sv_reader s) (f (sv_forwards s)), Ok ()).

Definition poison_now {E} : Io Server E () := λ s,
  (MkServer (MkHost (h_calls (sv_host s)) true (h_control (sv_host s))) (sv_reader s) (sv_forwards s),
   Ok ()).

(** [decode_payload]: a payload that cannot be decoded poisons the session. *)
Definition decode_global {E} (T : Type) {DE} `{DecodeFrom T DE} : Io Server E (option T) := λ s,
  let '(r, x) := decode_from T (sv_reader s) in
  let s := MkServer (sv_host s) r (sv_forwards s) in
  match x with
  | Ok v => (s, Ok (Some v))
  | Err _ => let '(s, _) := poison_now (E := E) s in (s, Ok None)
  | Panic => (s, Panic)
  end.

Definition spawn_tcp (bind_addr : string) (l : TcpForwardListener) (f : Forwards) : Forwards :=
  MkForwards (<[(bind_addr, bound_port l) := length (forward_tasks f)]> (tcp_forwards f))
    (unix_forwards f) (forward_tasks f ++ [LTcp l]) (aborted f).
Definition spawn_unix (path : string) (l : UnixForwardListener) (f : Forwards) : Forwards :=
  MkForwards (tcp_forwards f) (<[path := length (forward_tasks f)]> (unix_forwards f))
    (forward_tasks f ++ [LUnix l]) (aborted f).
Definition abort_tcp (key : string * Z) (id : nat) (f : Forwards) : Forwards :=
  MkForwards (delete key (tcp_forwards f)) (unix_forwards f) (forward_tasks f) (aborted f ++ [id]).
Definition abort_unix (path : string) (id : nat) (f : Forwards) : Forwards :=
  MkForwards (tcp_forwards f) (delete path (unix_forwards f)) (forward_tasks f) (aborted f ++ [id]).

Section dispatch.
Context `{VarIntCodec} (os : Os).

Definition fail_now {E} : Io Server E () := on_host (respond_failure_now (E := Infallible)) ;;; io_ret ().
Definition succeed_now {E} : Io Server E () :=
  on_host (respond_success_now MkEmptyPayload) ;;; io_ret ().

Definition canonical_key (host : SshString) : string :=
  canonicalize_remote_bind_host (ssh_string_deref host).

(** The arms of [dispatch_global]. *)
Definition dispatch_tcpip_forward : Io Server Infallible () :=
  let! decoded := decode_global TcpipForwardRequest in
  match decoded with
  | Some payload =>
    let bind_addr := canonical_key (tf_bind_address payload) in
    let! accepted := on_host (accept_tcp_forward os payload) in
    match accepted with
    | Ok listener => on_forwards (spawn_tcp bind_addr listener)
    | _ => io_ret ()
    end
  | None => io_ret ()
  end.
Definition dispatch_cancel_tcpip_forward : Io Server Infallible () :=
  let! decoded := decode_global CancelTcpipForwardRequest in
  match decoded with
  | Some payload =>
    let bind_addr := canonical_key (ctf_bind_address payload) in
    match u16_try_from (ctf_bind_port payload) with
    | None => fail_now
    | Some bind_port => λ s,
      match tcp_forwards (sv_forwards s) !! (bind_addr, bind_port) with
      | Some id => (on_forwards (abort_tcp (bind_addr, bind_port) id) ;;; succeed_now) s
      | None => fail_now s
      end
    end
  | None => io_ret ()
  end.
Definition dispatch_streamlocal_forward : Io Server Infallible () :=
  let! decoded := decode_global StreamlocalForwardRequest in
  match decoded with
  | Some payload =>
    let socket_path := ssh_string_deref (sf_socket_path payload) in
    let! accepted := on_host (accept_unix_forward os payload) in
    match accepted with
    | Ok listener => on_forwards (spawn_unix socket_path listener)
    | _ => io_ret ()
    end
  | None => io_ret ()
  end.
Definition dispatch_cancel_streamlocal_forward : Io Server Infallible () :=
  let! decoded := decode_global CancelStreamlocalForwardRequest in
  match decoded with
  | Some payload =>
    let socket_path := ssh_string_deref (csf_socket_path payload) in λ s,
    match unix_forwards (sv_forwards s) !! socket_path with
    | Some id => (on_forwards (abort_unix socket_path id) ;;; succeed_now) s
    | None => fail_now s
    end
  | None => io_ret ()
  end.

Definition dispatch_global (incoming : IncomingGlobal) : Io Server Infallible () :=
  match incoming with
  | IRequest request_type =>
    if decide (request_type = "tcpip-forward") then dispatch_tcpip_forward
    else if decide (request_type = "cancel-tcpip-forward") then dispatch_cancel_tcpip_forward
    else if decide (request_type = "streamlocal-forward@openssh.com") then dispatch_streamlocal_forward
    else if decide (request_type = "cancel-streamlocal-forward@openssh.com") then
      dispatch_cancel_streamlocal_forward
    else poison_now
  | INotify _ => poison_now
  end%string.
End dispatch.

(** ** The loop *)

Inductive RunSessionOutcome := ConversationClosed | SessionFinished | Shutdown.
Inductive RunSessionError (PE : Type) := SessionChannel (source : PE).
Arguments SessionChannel {PE}.

(** What a channel task ends with: its result, or it panicked. *)
Abbreviation TaskEnd PE := (result () PE) (only parsing).

(** The branch [select!] takes; [accept_ok] is whether the acceptance a [socks5]
    channel makes in the loop succeeds. *)
Inductive Branch (PE : Type) :=
| AcceptChannel (channel_type : string) (accept_ok : bool)
| AcceptChannelFailed
| AcceptGlobal (incoming : IncomingGlobal)
| AcceptGlobalFailed
| ReapChannel (r : TaskEnd PE)
| ReapForward
| ShutdownCancelled.
Arguments AcceptChannel {PE}.
Arguments AcceptChannelFailed {PE}.
Arguments AcceptGlobal {PE}.
Arguments AcceptGlobalFailed {PE}.
Arguments ReapChannel {PE}.
Arguments ReapForward {PE}.
Arguments ShutdownCancelled {PE}.

(** [accept_pending]: the pinned future has not completed since it was last
    set. [running]: the channel tasks in the set. *)
Record Loop := MkLoop {
  accept_pending : bool;
  had_session : bool;
  running : nat;
  server : Server;
}.
Definition loop_start (sv : Server) : Loop := MkLoop true false 0 sv.

Inductive Next (PE : Type) :=
| Continue (l : Loop)
| Break (l : Loop) (outcome : RunSessionOutcome)
| Return (l : Loop) (e : RunSessionError PE)
| Panicked (l : Loop).
Arguments Continue {PE}.
Arguments Break {PE}.
Arguments Return {PE}.
Arguments Panicked {PE}.

Definition spawned (l : Loop) : Loop := MkLoop true (had_session l) (S (running l)) (server l).

(** The channel tasks that remain are awaited: the first error is returned. *)
Fixpoint drain {PE} (n : nat) (ends : list (TaskEnd PE)) : result () (RunSessionError PE) :=
  match n, ends with
  | S n, Err e :: _ => Err (SessionChannel e)
  | S n, _ :: ends => drain n ends
  | _, _ => Ok ()
  end.

(** [tcp_forwards.drain()] and [unix_forwards.drain()]. *)
Definition abort_tables (f : Forwards) : Forwards :=
  MkForwards ∅ ∅ (forward_tasks f)
    (aborted f ++ (map_to_list (tcp_forwards f)).*2 ++ (map_to_list (unix_forwards f)).*2).

(** A [JoinSet] that is dropped aborts its tasks. *)
Definition drop_tasks (f : Forwards) : Forwards :=
  MkForwards ∅ ∅ (forward_tasks f) (aborted f ++ seq 0 (length (forward_tasks f))).

(** [relays_cancelled]: [forward_cancel.cancel()] was reached; the relays of
    connections are tasks of their own. *)
Record Ending := MkEnding { left_forwards : Forwards; relays_cancelled : bool }.

Section loop.
Context `{VarIntCodec} (os : Os) {PE : Type}.

(** A channel task has ended, with an error, or by itself or a panic;
    [JoinSet::join_next] on an empty set disables its branch. *)
Definition reap_channel (l : Loop) (r : TaskEnd PE) : Next PE :=
  match running l with
  | O => Continue l
  | S n =>
    let l := MkLoop (accept_pending l) (had_session l) n (server l) in
    match r with
    | Err error => Return l (SessionChannel error)
    | _ => if had_session l && (n =? 0)%nat then Break l SessionFinished else Continue l
    end
  end.

(** A completed [async fn] panics when it is polled again. *)
Definition loop_step (l : Loop) (b : Branch PE) : Next PE :=
  match b with
  | AcceptChannel channel_type accept_ok =>
    if negb (accept_pending l) then Panicked l
    else
      if decide (channel_type = "session") then
        Continue (MkLoop true true (S (running l)) (server l))
      else if decide (channel_type = "direct-tcpip") then Continue (spawned l)
      else if decide (channel_type = "direct-streamlocal@openssh.com") then Continue (spawned l)
      else if decide (channel_type = "socks5") then
        if accept_ok then Continue (spawned l)
        else Continue (MkLoop false (had_session l) (running l) (server l))
      else Continue l
  | AcceptChannelFailed => if negb (accept_pending l) then Panicked l else Break l ConversationClosed
  | AcceptGlobal incoming =>
    match dispatch_global os incoming (server l) with
    | (sv, Ok _) => Continue (MkLoop (accept_pending l) (had_session l) (running l) sv)
    | (sv, _) => Panicked (MkLoop (accept_pending l) (had_session l) (running l) sv)
    end
  | AcceptGlobalFailed => Break l ConversationClosed
  | ReapChannel r => reap_channel l r
  | ReapForward => Continue l
  | ShutdownCancelled => Break l Shutdown
  end%string.

Fixpoint loop_run (l : Loop) (bs : list (Branch PE)) : Next PE :=
  match bs with
  | [] => Continue l
  | b :: bs => match loop_step l b with Continue l => loop_run l bs | n => n end
  end.

(** [run_session]: what it returns, and what it leaves; [None] while it runs.
    Once the tables are drained the tasks of the listeners are awaited, see
    [awaited]; an early return drops the set. *)
Definition run_session (shutdown : bool) (sv : Server) (bs : list (Branch PE)) (ends : list (TaskEnd PE))
    : option (Ending * result RunSessionOutcome (RunSessionError PE)) :=
  if shutdown then Some (MkEnding (sv_forwards sv) false, Ok Shutdown)
  else
    match loop_run (loop_start sv) bs with
    | Continue _ => None
    | Break l outcome =>
      let f := sv_forwards (server l) in
      match drain (running l) ends with
      | Ok _ => Some (MkEnding (abort_tables f) true, Ok outcome)
      | Err e => Some (MkEnding (drop_tasks f) true, Err e)
      | Panic => Some (MkEnding (drop_tasks f) true, Panic)
      end
    | Return l e => Some (MkEnding (drop_tasks (sv_forwards (server l))) false, Err e)
    | Panicked l => Some (MkEnding (drop_tasks (sv_forwards (server l))) false, Panic)
    end.
End loop.

(** The listeners nobody aborted: [forward_tasks.join_next()] waits for them to
    end by themselves. *)
Definition awaited (f : Forwards) : list nat :=
  filter (λ id, id ∉ aborted f) (seq 0 (length (forward_tasks f))).

(** ** Lemmas on the tables *)

Definition Key : Type := (string * Z) + string.
Definition listening_key (t : Listening) : Key :=
  match t with
  | LTcp l => inl (bytes_str (advertised_host l), bound_port l)
  | LUnix l => inr (bytes_str (guard l))
  end.
Definition table_id (f : Forwards) (k : Key) : option nat :=
  match k with inl k => tcp_forwards f !! k | inr p => unix_forwards f !! p end.

(** What the dispatcher promises of the tables. An entry stands for a listener
    of its key that was not aborted; a listener that was not aborted has its
    entry, unless a later listener took its key. *)
Record forwards_ok (f : Forwards) : Prop := {
  fo_entry k id : table_id f k = Some id →
    (id ∉ aborted f) ∧ ∃ t, forward_tasks f !! id = Some t ∧ listening_key t = k;
  fo_aborted id : id ∈ aborted f → (id < length (forward_tasks f))%nat;
  fo_live id t : forward_tasks f !! id = Some t → id ∉ aborted f →
    table_id f (listening_key t) = Some id ∨
    ∃ id' t', (id < id')%nat ∧ forward_tasks f !! id' = Some t' ∧ listening_key t' = listening_key t;
}.

(** The abstract steps of the tables. *)
Definition spawn_at (k : Key) (t : Listening) (f : Forwards) : Forwards :=
  match k, t with
  | inl (h, p), LTcp l => spawn_tcp h l f
  | inr p, LUnix l => spawn_unix p l f
  | _, _ => f
  end.
Definition abort_at (k : Key) (id : nat) (f : Forwards) : Forwards :=
  match k with inl k => abort_tcp k id f | inr p => abort_unix p id f end.

Inductive forwards_step : Forwards → Forwards → Prop :=
| step_same f : forwards_step f f
| step_spawn f t : forwards_step f (spawn_at (listening_key t) t f)
| step_abort f k id : table_id f k = Some id → forwards_step f (abort_at k id f).

Lemma table_spawn t f k :
  table_id (spawn_at (listening_key t) t f) k
  = if decide (k = listening_key t) then Some (length (forward_tasks f)) else table_id f k.
Proof.
  destruct t, k; cbn [listening_key spawn_at spawn_tcp spawn_unix table_id tcp_forwards unix_forwards];
    case_decide; simplify_eq; try done.
  - by rewrite lookup_insert_eq.
  - rewrite lookup_insert_ne; congruence.
  - by rewrite lookup_insert_eq.
  - rewrite lookup_insert_ne; congruence.
Qed.
Lemma table_abort k id f k' :
  table_id (abort_at k id f) k' = if decide (k' = k) then None else table_id f k'.
Proof.
  destruct k, k'; cbn [abort_at abort_tcp abort_unix table_id tcp_forwards unix_forwards];
    case_decide; simplify_eq; try done.
  - by rewrite lookup_delete_eq.
  - rewrite lookup_delete_ne; congruence.
  - by rewrite lookup_delete_eq.
  - rewrite lookup_delete_ne; congruence.
Qed.
Lemma tasks_spawn t f :
  forward_tasks (spawn_at (listening_key t) t f) = forward_tasks f ++ [t] ∧
  aborted (spawn_at (listening_key t) t f) = aborted f.
Proof. by destruct t. Qed.
Lemma tasks_abort k id f :
  forward_tasks (abort_at k id f) = forward_tasks f ∧ aborted (abort_at k id f) = aborted f ++ [id].
Proof. by destruct k. Qed.

Lemma forwards_ok_spawn t f : forwards_ok f → forwards_ok (spawn_at (listening_key t) t f).
Proof.
  intros [He Ha Hl]. pose proof (tasks_spawn t f) as [Ht Hb]. split; rewrite ?Ht, ?Hb.
  - intros k id. rewrite table_spawn. case_decide as Hk.
    + intros [= <-]. split; [intros Hin%Ha; lia|]. exists t. split; [by apply list_lookup_middle|done].
    + intros (Hn & t' & Hlk & Hkey)%He. split; [done|]. exists t'. split; [by apply lookup_app_l_Some|done].
  - intros id Hin%Ha. rewrite length_app. lia.
  - intros id t' Hlk Hn. rewrite table_spawn. apply lookup_app_Some in Hlk as [Hlk | [Hge Hlk]].
    + case_decide as Hk.
      * right. exists (length (forward_tasks f)), t. split_and!; [by eapply lookup_lt_Some| |done].
        by apply list_lookup_middle.
      * destruct (Hl id t' Hlk Hn) as [ | (id' & t2 & ? & ? & ?)]; [by left|right].
        exists id', t2. split_and!; [done|by apply lookup_app_l_Some|done].
    + apply list_lookup_singleton_Some in Hlk as [Hz <-]. left.
      case_decide; [|done]. f_equal. lia.
Qed.

Lemma forwards_ok_abort k id f :
  table_id f k = Some id → forwards_ok f → forwards_ok (abort_at k id f).
Proof.
  intros Hk [He Ha Hl]. pose proof (tasks_abort k id f) as [Ht Hb]. split; rewrite ?Ht, ?Hb.
  - intros k' id'. rewrite table_abort. case_decide as Hkk; [done|]. intros Hk'.
    destruct (He _ _ Hk') as (Hn & t' & Hlk & Hkey). split; [|eauto].
    rewrite elem_of_app, list_elem_of_singleton. intros [? | ->]; [done|].
    destruct (He _ _ Hk) as (_ & t2 & ? & ?). congruence.
  - intros id' [Hin%Ha|Heq%list_elem_of_singleton]%elem_of_app; [done|]; subst.
    destruct (He _ _ Hk) as (_ & t & ?%lookup_lt_Some & _). done.
  - intros id' t Hlk Hn. rewrite elem_of_app, list_elem_of_singleton in Hn. rewrite table_abort.
    destruct (Hl id' t Hlk ltac:(tauto)) as [Hi|]; [|by right]. left.
    case_decide as Hkk; [|done]. subst. exfalso. apply Hn. right. congruence.
Qed.

Lemma forwards_ok_step f f' : forwards_step f f' → forwards_ok f → forwards_ok f'.
Proof. destruct 1; intros Hok; [done|by apply forwards_ok_spawn|by apply forwards_ok_abort]. Qed.

Definition no_forwards : Forwards := MkForwards ∅ ∅ [] [].
Lemma forwards_ok_none : forwards_ok no_forwards.
Proof. split; [by intros []|by intros ? ?%not_elem_of_nil|done]. Qed.

(** ** The dispatcher refines the abstract steps *)

Section dispatch_proofs.
Context `{VarIntCodec} (os : Os).

Lemma accept_tcp_host payload h h' l :
  accept_tcp_forward os payload h = (h', Ok l) →
  bytes_str (advertised_host l) = canonical_key (tf_bind_address payload).
Proof.
  unfold accept_tcp_forward. destruct (u16_try_from _) as [bp|].
  2:{ unfold io_bind, respond_failure_now, with_control, io_fail.
      destruct (h_poisoned h); [done|]. by destruct (respond_failure_write _). }
  unfold io_bind, io_try.
  destruct (bind_tcp_forward_group _ _ _ h) as [h1 [l'|e|]] eqn:Hb; [| |done].
  - apply bind_group_ok in Hb as [Hb _]. unfold map_err.
    destruct (respond_success_now _ h1) as [h2 [[]|e|]]; [|done..].
    intros [= _ <-]. rewrite Hb. unfold canonical. by rewrite bytes_str_bytes.
  - unfold respond_failure_now, with_control, io_fail.
    destruct (h_poisoned h1); [done|]. by destruct (respond_failure_write _).
Qed.

Lemma accept_unix_guard payload h h' l :
  accept_unix_forward os payload h = (h', Ok l) →
  bytes_str (guard l) = ssh_string_deref (sf_socket_path payload).
Proof.
  unfold accept_unix_forward, io_bind, io_try, sys.
  destruct (os_call _ _ _) as [e|].
  { unfold respond_failure_now, with_control, io_fail. simpl.
    destruct (h_poisoned h); [done|]. by destruct (respond_failure_write _). }
  unfold map_err. destruct (respond_success_now _ _) as [h2 [[]|e|]]; [|done..].
  by intros [= _ <-].
Qed.

Lemma decode_global_forwards {E} (T : Type) {DE} `{DecodeFrom T DE} sv sv' x :
  decode_global (E := E) T sv = (sv', x) → sv_forwards sv' = sv_forwards sv.
Proof.
  unfold decode_global. destruct (decode_from T (sv_reader sv)) as [r [v|e|]]; by intros [= <- _].
Qed.
Lemma fail_now_forwards {E} sv : sv_forwards (fail_now (E := E) sv).1 = sv_forwards sv.
Proof.
  unfold fail_now, io_bind, on_host. destruct (respond_failure_now _) as [h []]; done.
Qed.
Lemma succeed_now_forwards {E} sv : sv_forwards (succeed_now (E := E) sv).1 = sv_forwards sv.
Proof.
  unfold succeed_now, io_bind, on_host. destruct (respond_success_now _ _) as [h []]; done.
Qed.

(** The four handlers, once the payload is decoded. *)
Lemma dispatch_request_cases {T DE} `{DecodeFrom T DE} (k : option T → Io Server Infallible ()) sv :
  (∀ v sv', sv_forwards sv' = sv_forwards sv →
     forwards_step (sv_forwards sv') (sv_forwards (k v sv').1)) →
  forwards_step (sv_forwards sv) (sv_forwards (io_bind (decode_global T) k sv).1).
Proof.
  intros Hk. unfold io_bind.
  destruct (decode_global T sv) as [sv' [v|e|]] eqn:Hd; apply decode_global_forwards in Hd.
  - rewrite <- Hd. by apply Hk.
  - simpl. rewrite Hd. constructor.
  - simpl. rewrite Hd. constructor.
Qed.

Lemma dispatch_tcp_step payload sv :
  forwards_step (sv_forwards sv)
    (sv_forwards ((let! accepted := on_host (accept_tcp_forward os payload) in
       match accepted with
       | Ok listener => on_forwards (spawn_tcp (canonical_key (tf_bind_address payload)) listener)
       | _ => io_ret ()
       end : Io Server Infallible ()) sv).1).
Proof.
  unfold io_bind, on_host. destruct (accept_tcp_forward os payload (sv_host sv)) as [h [l|e|]] eqn:Ha.
  - apply accept_tcp_host in Ha. simpl. rewrite <- Ha.
    exact (step_spawn (sv_forwards sv) (LTcp l)).
  - constructor.
  - constructor.
Qed.
Lemma dispatch_unix_step payload sv :
  forwards_step (sv_forwards sv)
    (sv_forwards ((let! accepted := on_host (accept_unix_forward os payload) in
       match accepted with
       | Ok listener => on_forwards (spawn_unix (ssh_string_deref (sf_socket_path payload)) listener)
       | _ => io_ret ()
       end : Io Server Infallible ()) sv).1).
Proof.
  unfold io_bind, on_host. destruct (accept_unix_forward os payload (sv_host sv)) as [h [l|e|]] eqn:Ha.
  - apply accept_unix_guard in Ha. simpl. rewrite <- Ha.
    exact (step_spawn (sv_forwards sv) (LUnix l)).
  - constructor.
  - constructor.
Qed.

Lemma cancel_step {E} (k : Key) (f : Forwards → option nat) sv :
  f (sv_forwards sv) = table_id (sv_forwards sv) k →
  forwards_step (sv_forwards sv)
    (sv_forwards (match f (sv_forwards sv) with
      | Some id => (on_forwards (abort_at k id) ;;; succeed_now (E := E)) sv
      | None => fail_now sv
      end).1).
Proof.
  intros Hf. destruct (f (sv_forwards sv)) as [id|] eqn:Hid.
  - unfold io_bind, on_forwards. rewrite succeed_now_forwards. simpl. by constructor.
  - rewrite fail_now_forwards. constructor.
Qed.

Definition known_requests : list string :=
  ["tcpip-forward"; "cancel-tcpip-forward"; "streamlocal-forward@openssh.com";
   "cancel-streamlocal-forward@openssh.com"]%string.

Lemma dispatch_unknown name :
  name ∉ known_requests → dispatch_global os (IRequest name) = poison_now.
Proof.
  unfold known_requests. rewrite !not_elem_of_cons. intros (? & ? & ? & ? & _).
  unfold dispatch_global. by rewrite !decide_False.
Qed.

(** The handler of one request takes one abstract step. *)
Lemma dispatch_forwards_step incoming sv :
  forwards_step (sv_forwards sv) (sv_forwards (dispatch_global os incoming sv).1).
Proof.
  destruct incoming as [name|name]; [|constructor].
  unfold dispatch_global. repeat case_decide; [| | | |constructor].
  - apply dispatch_request_cases. intros [v|] sv' Hsv; [apply dispatch_tcp_step|constructor].
  - apply dispatch_request_cases. intros [v|] sv' Hsv; [|constructor].
    destruct (u16_try_from _) as [port|]; [|rewrite fail_now_forwards; constructor].
    exact (cancel_step (E := Infallible) (inl (canonical_key (ctf_bind_address v), port))
             (λ f, tcp_forwards f !! _) sv' eq_refl).
  - apply dispatch_request_cases. intros [v|] sv' Hsv; [apply dispatch_unix_step|constructor].
  - apply dispatch_request_cases. intros [v|] sv' Hsv; [|constructor].
    exact (cancel_step (E := Infallible) (inr (ssh_string_deref (csf_socket_path v)))
             (λ f, unix_forwards f !! _) sv' eq_refl).
Qed.
End dispatch_proofs.

(** ** The loop *)

Section loop_proofs.
Context `{VarIntCodec} (os : Os) {PE : Type}.

Definition next_loop (n : Next PE) : Loop :=
  match n with Continue l | Break l _ | Return l _ | Panicked l => l end.

Lemma loop_step_forwards l b :
  forwards_step (sv_forwards (server l)) (sv_forwards (server (next_loop (loop_step os l b)))).
Proof.
  destruct b as [t ok| |incoming| |r| |]; cbn [loop_step]; unfold reap_channel; try constructor.
  - destruct (accept_pending l); [cbn [negb]|constructor].
    repeat case_decide; [constructor..| |constructor]. destruct ok; constructor.
  - destruct (accept_pending l); constructor.
  - pose proof (dispatch_forwards_step os incoming (server l)) as Hd.
    destruct (dispatch_global os incoming (server l)) as [sv [[]|e|]]; exact Hd.
  - destruct (running l) as [|n]; [constructor|]. cbn [had_session]. destruct r; [destruct (had_session l && (n =? 0)%nat)| |destruct (had_session l && (n =? 0)%nat)]; constructor.
Qed.

Lemma loop_run_forwards l bs :
  forwards_ok (sv_forwards (server l)) → forwards_ok (sv_forwards (server (next_loop (loop_run os l bs)))).
Proof.
  revert l. induction bs as [|b bs IH]; intros l Hl; [done|]. cbn [loop_run].
  pose proof (forwards_ok_step _ _ (loop_step_forwards l b) Hl) as Hn.
  by destruct (loop_step os l b); [apply IH|..].
Qed.

Lemma abort_tables_aborted f k id : table_id f k = Some id → id ∈ aborted (abort_tables f).
Proof.
  intros Hk. unfold abort_tables. cbn [aborted]. rewrite !elem_of_app. right.
  destruct k as [k|p]; [left|right]; apply list_elem_of_fmap.
  - exists (k, id). by rewrite elem_of_map_to_list.
  - exists (p, id). by rewrite elem_of_map_to_list.
Qed.

Lemma awaited_displaced f id :
  forwards_ok f → id ∈ awaited (abort_tables f) →
  ∃ t id' t', forward_tasks f !! id = Some t ∧ (id < id')%nat ∧ forward_tasks f !! id' = Some t' ∧
    listening_key t' = listening_key t.
Proof.
  intros [_ _ Hl]. unfold awaited. rewrite list_elem_of_filter, elem_of_seq.
  intros [Hn [_ Hlt]]. cbn [abort_tables forward_tasks] in Hlt.
  destruct (lookup_lt_is_Some_2 (forward_tasks f) id Hlt) as [t Ht].
  destruct (Hl id t Ht) as [Hk|(id' & t' & ? & ? & ?)].
  - intros Hin. apply Hn. cbn [abort_tables aborted]. rewrite elem_of_app. by left.
  - by apply abort_tables_aborted in Hk.
  - by exists t, id', t'.
Qed.

Lemma drop_tasks_awaited f : awaited (drop_tasks f) = [].
Proof.
  unfold awaited. apply elem_of_nil_inv. intros id. rewrite list_elem_of_filter.
  intros [Hn Hs]. apply Hn. cbn [drop_tasks aborted]. rewrite elem_of_app. by right.
Qed.

(** [SessionFinished] comes from a reap that empties the set. *)
Lemma loop_run_finished l l' bs :
  loop_run os l bs = Break l' SessionFinished →
  running l' = 0%nat ∧ (had_session l = true ∨ ∃ ok, AcceptChannel (PE := PE) "session" ok ∈ bs).
Proof.
  revert l. induction bs as [|b bs IH]; intros l; [done|]. cbn [loop_run].
  destruct (loop_step os l b) as [l1|l1 o|l1 e|l1] eqn:Hs; [|intros [= -> ->]|done..].
  - intros Hr. destruct (IH _ Hr) as [Hrun Hh]. split; [done|].
    destruct Hh as [Hh|(ok & Hin)]; [|right; exists ok; by right].
    destruct b as [t ok| |incoming| |r| |]; cbn [loop_step] in Hs; unfold reap_channel in Hs; [| | | | |by simplify_eq; left|done].
    + destruct (decide (t = "session"%string)) as [->|]; [right; exists ok; by left|left].
      destruct (accept_pending l); cbn [negb] in Hs; [|done].
      repeat case_decide; try destruct ok; by simplify_eq.
    + destruct (accept_pending l); done.
    + left. destruct (dispatch_global os incoming (server l)) as [sv [[]|e|]]; by simplify_eq.
    + done.
    + left. destruct (running l) as [|n]; [by simplify_eq|].
      destruct r; cbn [had_session] in Hs; [destruct (had_session l && (n =? 0)%nat)|done|destruct (had_session l && (n =? 0)%nat)];
        by simplify_eq.
  - destruct b as [t ok| |incoming| |r| |]; cbn [loop_step] in Hs; unfold reap_channel in Hs; try done.
    + destruct (accept_pending l); cbn [negb] in Hs; [|done]. repeat case_decide; try done. by destruct ok.
    + by destruct (accept_pending l).
    + by destruct (dispatch_global os incoming (server l)) as [sv [[]|e|]].
    + destruct (running l) as [|n]; [done|]. cbn [had_session] in Hs.
      destruct r; [|done|]; destruct (had_session l) eqn:Hh, n; simplify_eq/=; eauto.
Qed.
End loop_proofs.

(** ** Answers *)

Section answers.
Context `{VarIntLaws} (os : Os).

(** [sv'] has answered with [bs] and left the stream at [r]. *)
Definition answered (sv : Server) (r : Reader) (f : Forwards) (bs : list byte) (sv' : Server) : Prop :=
  sv_reader sv' = r ∧ sv_forwards sv' = f ∧ h_poisoned (sv_host sv') = false ∧
  wr_out (h_control (sv_host sv')) = wr_out (h_control (sv_host sv)) ++ bs.
Definition working (sv : Server) : Prop :=
  h_poisoned (sv_host sv) = false ∧ wr_plan (h_control (sv_host sv)) = [].

Lemma fail_now_run {E} sv :
  working sv → ∃ sv', fail_now (E := E) sv = (sv', Ok ()) ∧
    answered sv (sv_reader sv) (sv_forwards sv) (msg SSH_MSG_REQUEST_FAILURE) sv'.
Proof.
  intros [Hp Hw]. destruct (respond_failure_run (E := Infallible) (sv_host sv) Hp Hw) as (w & Hr & Ho).
  eexists. unfold fail_now, io_bind, on_host. rewrite Hr. split; [reflexivity|done].
Qed.
Lemma succeed_now_run {E} sv :
  working sv → ∃ sv', succeed_now (E := E) sv = (sv', Ok ()) ∧
    answered sv (sv_reader sv) (sv_forwards sv) (msg SSH_MSG_REQUEST_SUCCESS) sv'.
Proof.
  intros [Hp Hw].
  destruct (respond_success_run (RE := Infallible) MkEmptyPayload [] (sv_host sv) (writes_ret ()) Hp Hw)
    as (w & Hr & Ho).
  eexists. unfold succeed_now, io_bind, on_host. rewrite Hr. split; [reflexivity|].
  by rewrite app_nil_r in Ho.
Qed.

Lemma cancel_run {E} k sv :
  working sv →
  ∃ sv', match table_id (sv_forwards sv) k with
         | Some id => (on_forwards (abort_at k id) ;;; succeed_now (E := E)) sv
         | None => fail_now sv
         end = (sv', Ok ()) ∧
    match table_id (sv_forwards sv) k with
    | Some id => answered sv (sv_reader sv) (abort_at k id (sv_forwards sv)) (msg SSH_MSG_REQUEST_SUCCESS) sv'
    | None => answered sv (sv_reader sv) (sv_forwards sv) (msg SSH_MSG_REQUEST_FAILURE) sv'
    end.
Proof.
  intros Hw. destruct (table_id (sv_forwards sv) k) as [id|]; [|by apply fail_now_run].
  unfold io_bind, on_forwards. set (sv1 := MkServer _ _ _).
  exact (succeed_now_run sv1 Hw).
Qed.

Lemma decode_global_ok {E T DE} `{DecodeFrom T DE} sv r (v : T) :
  decode_from T (sv_reader sv) = (r, Ok v) →
  decode_global (E := E) T sv = (MkServer (sv_host sv) r (sv_forwards sv), Ok (Some v)).
Proof. intros Hd. unfold decode_global. by rewrite Hd. Qed.

Lemma accept_unix_answered payload h :
  h_poisoned h = false → wr_plan (h_control h) = [] →
  ∃ h' x, accept_unix_forward os payload h = (h', x) ∧ h_poisoned h' = false ∧
    match x with
    | Ok l => guard l = ssh_string_bytes (sf_socket_path payload) ∧
        wr_out (h_control h') = wr_out (h_control h) ++ msg SSH_MSG_REQUEST_SUCCESS
    | Err e => wr_out (h_control h') = wr_out (h_control h) ++ msg SSH_MSG_REQUEST_FAILURE
    | Panic => False
    end.
Proof.
  intros Hp Hw. unfold accept_unix_forward, io_bind, io_try, sys.
  set (h1 := MkHost _ _ _). destruct (os_call _ _ _) as [e|].
  - destruct (respond_failure_run (E := AcceptUnixForwardError) h1 Hp Hw) as (w & Hr & Ho).
    rewrite Hr. eexists _, _. split; [reflexivity|]. done.
  - destruct (respond_success_run (RE := Empty_set) MkEmptyPayload [] h1 (writes_ret ()) Hp Hw)
      as (w & Hr & Ho).
    unfold map_err. rewrite Hr. eexists _, _. split; [reflexivity|]. split; [done|].
    split; [done|]. by rewrite app_nil_r in Ho.
Qed.

(** What is not answered: the session is poisoned, nothing is written, no call
    is made and the tables are as they were. *)
Definition refused (sv : Server) (r : Reader) (sv' : Server) : Prop :=
  sv_reader sv' = r ∧ sv_forwards sv' = sv_forwards sv ∧ h_poisoned (sv_host sv') = true ∧
  h_control (sv_host sv') = h_control (sv_host sv) ∧ h_calls (sv_host sv') = h_calls (sv_host sv).

Lemma decode_global_refused {T DE} `{DecodeFrom T DE} (sv : Server) r (e : DE)
    (k : T → Io Server Infallible ()) :
  decode_from T (sv_reader sv) = (r, Err e) →
  ∃ sv', (let! decoded := decode_global T in match decoded with Some v => k v | None => io_ret () end) sv
      = (sv', Ok ()) ∧ refused sv r sv'.
Proof.
  intros Hd. unfold io_bind, decode_global. rewrite Hd. cbn [poison_now]. eexists.
  split; [reflexivity|]. by split_and!.
Qed.

(** C20: A forwarding request is answered exactly once, with what was done, and
    nothing else is answered. On a control stream that works: a forwarding request
    that decodes gets success, with the port of the listeners, exactly when they
    are spawned and entered in the table under the canonical host and that port,
    and otherwise failure with the tables as they were; a cancellation that decodes
    gets success exactly when its key is in the table, and then that listener is
    aborted and its entry removed, and a port above 16 bits is refused. A payload
    that does not decode, a request of another name and any notice are not
    answered, not even with the failure the module's table documents: they poison
    the session, write nothing and leave the tables as they were. *)
Theorem dispatch_answers (sv : Server) :
  os_ok os → working sv →
  (∀ p r, decode_from TcpipForwardRequest (sv_reader sv) = (r, Ok p) →
     ∃ sv', dispatch_global os (IRequest "tcpip-forward") sv = (sv', Ok ()) ∧
       ((∃ l, listening_key (LTcp l) = inl (canonical_key (tf_bind_address p), bound_port l) ∧
              answered sv r (spawn_at (listening_key (LTcp l)) (LTcp l) (sv_forwards sv))
                (msg SSH_MSG_REQUEST_SUCCESS ++ wire (MkTcpipForwardReply (bound_port l))) sv') ∨
        answered sv r (sv_forwards sv) (msg SSH_MSG_REQUEST_FAILURE) sv')) ∧
  (∀ p r, decode_from StreamlocalForwardRequest (sv_reader sv) = (r, Ok p) →
     ∃ sv', dispatch_global os (IRequest "streamlocal-forward@openssh.com") sv = (sv', Ok ()) ∧
       ((∃ l, listening_key (LUnix l) = inr (ssh_string_deref (sf_socket_path p)) ∧
              answered sv r (spawn_at (listening_key (LUnix l)) (LUnix l) (sv_forwards sv))
                (msg SSH_MSG_REQUEST_SUCCESS) sv') ∨
        answered sv r (sv_forwards sv) (msg SSH_MSG_REQUEST_FAILURE) sv')) ∧
  (∀ p r, decode_from CancelTcpipForwardRequest (sv_reader sv) = (r, Ok p) →
     let k := inl (canonical_key (ctf_bind_address p), ctf_bind_port p) in
     ∃ sv', dispatch_global os (IRequest "cancel-tcpip-forward") sv = (sv', Ok ()) ∧
       match (if ctf_bind_port p <=? U16_MAX then table_id (sv_forwards sv) k else None) with
       | Some id => answered sv r (abort_at k id (sv_forwards sv)) (msg SSH_MSG_REQUEST_SUCCESS) sv'
       | None => answered sv r (sv_forwards sv) (msg SSH_MSG_REQUEST_FAILURE) sv'
       end) ∧
  (∀ p r, decode_from CancelStreamlocalForwardRequest (sv_reader sv) = (r, Ok p) →
     let k := inr (ssh_string_deref (csf_socket_path p)) in
     ∃ sv', dispatch_global os (IRequest "cancel-streamlocal-forward@openssh.com") sv = (sv', Ok ()) ∧
       match table_id (sv_forwards sv) k with
       | Some id => answered sv r (abort_at k id (sv_forwards sv)) (msg SSH_MSG_REQUEST_SUCCESS) sv'
       | None => answered sv r (sv_forwards sv) (msg SSH_MSG_REQUEST_FAILURE) sv'
       end) ∧
  (∀ name, name ∉ known_requests →
     ∃ sv', dispatch_global os (IRequest name) sv = (sv', Ok ()) ∧ refused sv (sv_reader sv) sv') ∧
  (∀ name, ∃ sv', dispatch_global os (INotify name) sv = (sv', Ok ()) ∧ refused sv (sv_reader sv) sv') ∧
  (∀ r, (∃ e, decode_from TcpipForwardRequest (sv_reader sv) = (r, Err e)) →
     ∃ sv', dispatch_global os (IRequest "tcpip-forward") sv = (sv', Ok ()) ∧ refused sv r sv') ∧
  (∀ r, (∃ e, decode_from CancelTcpipForwardRequest (sv_reader sv) = (r, Err e)) →
     ∃ sv', dispatch_global os (IRequest "cancel-tcpip-forward") sv = (sv', Ok ()) ∧ refused sv r sv') ∧
  (∀ r, (∃ e, decode_from StreamlocalForwardRequest (sv_reader sv) = (r, Err e)) →
     ∃ sv', dispatch_global os (IRequest "streamlocal-forward@openssh.com") sv = (sv', Ok ()) ∧
       refused sv r sv') ∧
  (∀ r, (∃ e, decode_from CancelStreamlocalForwardRequest (sv_reader sv) = (r, Err e)) →
     ∃ sv', dispatch_global os (IRequest "cancel-streamlocal-forward@openssh.com") sv = (sv', Ok ()) ∧
       refused sv r sv').
Proof.
  intros Hos Hw. split_and!.
  - intros p r Hd. unfold dispatch_global. rewrite decide_True by done.
    unfold dispatch_tcpip_forward. rewrite (io_bind_ok _ _ _ _ _ (decode_global_ok sv r p Hd)).
    unfold io_bind, on_host. cbn [sv_host].
    destruct (tcp_forward_run os p (sv_host sv) Hos (proj1 Hw) (proj2 Hw)) as (h' & x & Hr & Hp & Hx).
    pose proof (accept_tcp_host os p (sv_host sv) h') as Hhost. rewrite Hr in Hhost |- *.
    destruct x as [l|e|]; [| |done]; cbv beta iota.
    + specialize (Hhost l eq_refl). eexists. split; [reflexivity|]. left. exists l.
      cbn [listening_key spawn_at]. rewrite <- Hhost. split; [done|]. by destruct Hx as [Hx _].
    + eexists. split; [reflexivity|]. right. by destruct Hx as [Hx _].
  - intros p r Hd. unfold dispatch_global. rewrite !decide_False, decide_True by done.
    unfold dispatch_streamlocal_forward. rewrite (io_bind_ok _ _ _ _ _ (decode_global_ok sv r p Hd)).
    unfold io_bind, on_host. cbn [sv_host].
    destruct (accept_unix_answered p (sv_host sv) (proj1 Hw) (proj2 Hw)) as (h' & x & Hr & Hp & Hx).
    rewrite Hr. destruct x as [l|e|]; [| |done]; cbv beta iota; (eexists; split; [reflexivity|]);
      [left; exists l|by right].
    destruct Hx as [Hg Hx]. cbn [listening_key spawn_at]. by rewrite Hg.
  - intros p r Hd k. unfold dispatch_global. rewrite decide_False, decide_True by done.
    unfold dispatch_cancel_tcpip_forward. rewrite (io_bind_ok _ _ _ _ _ (decode_global_ok sv r p Hd)).
    unfold u16_try_from. set (sv1 := MkServer _ r _).
    destruct (ctf_bind_port p <=? U16_MAX); [exact (cancel_run k sv1 Hw)|exact (fail_now_run sv1 Hw)].
  - intros p r Hd k. unfold dispatch_global. rewrite !decide_False, decide_True by done.
    unfold dispatch_cancel_streamlocal_forward. rewrite (io_bind_ok _ _ _ _ _ (decode_global_ok sv r p Hd)).
    exact (cancel_run k (MkServer _ r _) Hw).
  - intros name Hn. rewrite dispatch_unknown by done. eexists. split; [reflexivity|]. by split_and!.
  - intros name. eexists. split; [reflexivity|]. by split_and!.
  - intros r [e Hd]. by apply (decode_global_refused sv r e).
  - intros r [e Hd]. by apply (decode_global_refused sv r e).
  - intros r [e Hd]. by apply (decode_global_refused sv r e).
  - intros r [e Hd]. by apply (decode_global_refused sv r e).
Qed.
End answers.

(** ** Properties of the loop *)

Section properties.
Context `{VarIntCodec} (os : Os) {PE : Type}.

(** C12: The tables of forwards tell the truth, whatever the peer sends. The
    handler of a global request refines one abstract step on the tables: nothing
    changes, a listener is entered under its own key, or the listener of an entry
    is aborted and its entry removed. So at every point of the loop an entry
    stands for a listener of that key that was not aborted, and a listener that
    was not aborted has its entry unless a later one took its key. *)
Theorem forwards_refine (sv : Server) :
  (∀ incoming, forwards_step (sv_forwards sv) (sv_forwards (dispatch_global os incoming sv).1)) ∧
  (∀ bs : list (Branch PE), forwards_ok (sv_forwards sv) →
     forwards_ok (sv_forwards (server (next_loop (loop_run os (loop_start sv) bs))))).
Proof.
  split; [intros incoming; apply dispatch_forwards_step|].
  intros bs Hok. by apply (loop_run_forwards os (loop_start sv)).
Qed.

(** C31: How a session ends. It finishes only after a session channel was
    accepted and when no channel task is left; an outcome is returned only after
    the relays were cancelled, and then every listener that is still awaited was
    displaced from its table by a later listener of the same key; an error or a
    panic aborts every listener. *)
Theorem session_ending (sv : Server) (bs : list (Branch PE)) (ends : list (TaskEnd PE)) (e : Ending) x :
  sv_forwards sv = no_forwards → run_session os false sv bs ends = Some (e, x) →
  (x = Ok SessionFinished → (∃ ok, AcceptChannel "session" ok ∈ bs) ∧
     running (next_loop (loop_run os (loop_start sv) bs)) = 0%nat) ∧
  match x with
  | Ok outcome => relays_cancelled e = true ∧
      let tasks := forward_tasks (left_forwards e) in
      ∀ id, id ∈ awaited (left_forwards e) →
        ∃ t id' t', tasks !! id = Some t ∧ (id < id')%nat ∧ tasks !! id' = Some t' ∧
          listening_key t' = listening_key t
  | _ => awaited (left_forwards e) = []
  end.
Proof.
  intros Hsv Hrun. unfold run_session in Hrun.
  assert (forwards_ok (sv_forwards (server (next_loop (loop_run os (loop_start sv) bs))))) as Hok.
  { apply (loop_run_forwards os (loop_start sv)). cbn [loop_start server]. rewrite Hsv.
    apply forwards_ok_none. }
  pose proof (λ l, loop_run_finished (PE := PE) os (loop_start sv) l bs) as Hfin.
  destruct (loop_run os (loop_start sv) bs) as [l|l outcome|l er|l] eqn:Hl; [done| | |];
    cbn [next_loop] in *.
  - destruct (drain (running l) ends) as [u|er|]; simplify_eq; (split; [|]).
    + intros [= ->]. destruct (Hfin l eq_refl) as [Hrn [Hs|Hin]]; [discriminate Hs|by split].
    + split; [done|]. intros id Hid. exact (awaited_displaced _ _ Hok Hid).
    + done.
    + apply drop_tasks_awaited.
    + done.
    + apply drop_tasks_awaited.
  - simplify_eq. split; [done|apply drop_tasks_awaited].
  - simplify_eq. split; [done|apply drop_tasks_awaited].
Qed.

(** A [socks5] channel whose acceptance fails ends the server. The loop
    continues without setting a new [accept_channel]; when the next iteration
    polls it again, a channel or the end of the conversation finds a completed
    future and panics. *)
Theorem socks5_failure_panics (l : Loop) (channel_type : string) (ok : bool) (bs : list (Branch PE)) :
  accept_pending l = true →
  loop_run os l (AcceptChannel "socks5" false :: AcceptChannel channel_type ok :: bs)
    = Panicked (MkLoop false (had_session l) (running l) (server l)) ∧
  loop_run os l (AcceptChannel "socks5" false :: AcceptChannelFailed :: bs)
    = Panicked (MkLoop false (had_session l) (running l) (server l)).
Proof. intros Hl. cbn [loop_run loop_step]. by rewrite Hl. Qed.
End properties.

(** ** Witnesses *)

#[local] Existing Instance quic_varint.
#[local] Existing Instance quic_varint_laws.

Definition socket_request : StreamlocalForwardRequest :=
  MkStreamlocalForwardRequest (from_static "/run/s.sock").
Definition sample_server (bs : list byte) : Server :=
  MkServer (MkHost [] false new_writer) (MkReader bs None) no_forwards.
(** The same path is asked for twice: the file of the first listener was removed
    in between, so that the second bind succeeds. *)
Definition twice : Server := sample_server (wire socket_request ++ wire socket_request).
Definition twice_branches : list (Branch ()) :=
  [AcceptGlobal (IRequest "streamlocal-forward@openssh.com");
   AcceptGlobal (IRequest "streamlocal-forward@openssh.com"); ShutdownCancelled].
Definition twice_left : Forwards :=
  let l := LUnix (MkUnixForwardListener (str_bytes "/run/s.sock")) in MkForwards ∅ ∅ [l; l] [1%nat].

Lemma twice_run :
  run_session sample_os false twice twice_branches [] = Some (MkEnding twice_left true, Ok Shutdown).
Proof. vm_compute. reflexivity. Qed.

(** The session waits for a listener it forgot. When a listener's key is
    entered a second time, the handle of the first task is overwritten without
    being aborted: after the shutdown the first listener is still awaited, and
    its accept loop ends only by an error. *)
Theorem displaced_listener_awaited :
  run_session sample_os false twice twice_branches [] = Some (MkEnding twice_left true, Ok Shutdown) ∧
  awaited twice_left = [0%nat].
Proof. split; [exact twice_run|reflexivity]. Qed.

Lemma session_ending_witness :
  run_session sample_os false twice twice_branches [] = Some (MkEnding twice_left true, Ok Shutdown) ∧
  relays_cancelled (MkEnding twice_left true) = true ∧
  ∃ t id' t', forward_tasks twice_left !! 0%nat = Some t ∧ (0 < id')%nat ∧
    forward_tasks twice_left !! id' = Some t' ∧ listening_key t' = listening_key t.
Proof.
  split; [exact twice_run|].
  pose proof (proj2 (session_ending sample_os twice twice_branches [] _ _ eq_refl twice_run)) as [Hc Ha].
  split; [exact Hc|]. apply (Ha 0%nat). left.
Defined.

Lemma socks5_failure_panics_witness :
  accept_pending (loop_start twice) = true ∧
  loop_run (PE := ()) sample_os (loop_start twice) [AcceptChannel "socks5" false; AcceptChannelFailed]
    = Panicked (MkLoop false false 0 twice).
Proof.
  split; [reflexivity|].
  exact (proj2 (socks5_failure_panics (PE := ()) sample_os (loop_start twice) "session" true [] eq_refl)).
Defined.

Definition cancel_socket : CancelStreamlocalForwardRequest :=
  MkCancelStreamlocalForwardRequest (from_static "/run/s.sock").

Lemma dispatch_answers_witness :
  working (sample_server (wire cancel_socket)) ∧
  ∃ sv', dispatch_global sample_os (IRequest "cancel-streamlocal-forward@openssh.com")
           (sample_server (wire cancel_socket)) = (sv', Ok ()) ∧
    answered (sample_server (wire cancel_socket)) (MkReader [] None) no_forwards
      (msg SSH_MSG_REQUEST_FAILURE) sv'.
Proof.
  split; [split; reflexivity|].
  exact (proj1 (proj2 (proj2 (proj2 (dispatch_answers sample_os (sample_server (wire cancel_socket))
    sample_os_ok (conj eq_refl eq_refl))))) cancel_socket (MkReader [] None) eq_refl).
Defined.
