(* ===== verification/Accounts.v ===== *)
(** * Signals, privileges and accounts

    [src/src/session/signal.rs], [privilege.rs], [pam.rs] and the account
    functions of [src/src/session/mod.rs]. The system calls, the user database
    and the PAM library answer through an oracle over the calls made so far; a
    call is recorded in the trace when it is made. *)
From Stdlib Require Import ZArith Lia Strings.Byte.
From stdpp Require Import base list strings gmap fin_maps relations.
From S2P Require Import Prelude Text Terminal.
Local Open Scope Z_scope.
Local Open Scope io_scope.

(** ** Signals *)

Inductive Signal :=
| SIGABRT | SIGALRM | SIGFPE | SIGHUP | SIGILL | SIGINT | SIGKILL | SIGPIPE | SIGQUIT | SIGSEGV
| SIGTERM | SIGUSR1 | SIGUSR2 | SIGCONT | SIGSTOP | SIGTSTP | SIGTTIN | SIGTTOU.
#[export] Instance Signal_eq_dec : EqDecision Signal.
Proof. solve_decision. Defined.

(** The numbers of the platform, different for different signals. *)
Class SignalNumbers := signal_number : Signal → Z.
Class SignalLaws `{SignalNumbers} : Prop := signal_number_inj s t : signal_number s = signal_number t → s = t.

Definition from_ssh_name (name : string) : option Signal :=
  match name with
  | "ABRT" => Some SIGABRT | "ALRM" => Some SIGALRM | "FPE" => Some SIGFPE
  | "HUP" => Some SIGHUP | "ILL" => Some SIGILL | "INT" => Some SIGINT | "KILL" => Some SIGKILL
  | "PIPE" => Some SIGPIPE | "QUIT" => Some SIGQUIT | "SEGV" => Some SIGSEGV
  | "TERM" => Some SIGTERM | "USR1" => Some SIGUSR1 | "USR2" => Some SIGUSR2
  | "CONT" => Some SIGCONT | "STOP" => Some SIGSTOP | "TSTP" => Some SIGTSTP
  | "TTIN" => Some SIGTTIN | "TTOU" => Some SIGTTOU
  | _ => None
  end%string.

Definition ssh_names : list (Signal * string) :=
  [(SIGABRT, "ABRT"); (SIGALRM, "ALRM"); (SIGFPE, "FPE"); (SIGHUP, "HUP"); (SIGILL, "ILL");
   (SIGINT, "INT"); (SIGKILL, "KILL"); (SIGPIPE, "PIPE"); (SIGQUIT, "QUIT"); (SIGSEGV, "SEGV");
   (SIGTERM, "TERM"); (SIGUSR1, "USR1"); (SIGUSR2, "USR2"); (SIGCONT, "CONT");
   (SIGSTOP, "STOP"); (SIGTSTP, "TSTP"); (SIGTTIN, "TTIN"); (SIGTTOU, "TTOU")]%string.

(** The arms of the match on the number, in order. *)
Definition to_ssh_name `{SignalNumbers} (n : Z) : option string :=
  snd ∘ snd <$> list_find (λ p, n = signal_number p.1) ssh_names.

(** ** Calls to the system *)

Inductive Call :=
| Killpg (pid : Z) (s : Signal)
| Kill (pid : Z) (s : Signal)
| Setgid (gid : Z)
| Initgroups (user : string) (gid : Z)
| Setuid (uid : Z)
| PamContext (service user : string) (password : option string)
| PamSetTty
| PamAuthenticate
| PamAcctMgmt
| PamOpenSession
| PamLeak
| UserFromName (name : string).

(** What the system answers to a call after the calls made so far: an error
    number, or success. *)
Definition Oracle := list Call → Call → option Errno.

Definition call {E} (os : Oracle) (c : Call) (f : Errno → E) : Io (list Call) E () := λ tr,
  (tr ++ [c], match os tr c with None => Ok () | Some e => Err (f e) end).
(** [let _ = call] *)
Definition call_ignore {E} (os : Oracle) (c : Call) : Io (list Call) E () := λ tr, (tr ++ [c], Ok ()).

(** [signal::deliver]. *)
Definition deliver (os : Oracle) (pid : Z) (s : Signal) : Io (list Call) Errno () := λ tr,
  match call os (Killpg pid s) (λ e, e) tr with
  | (tr, Ok ()) => (tr, Ok ())
  | (tr, _) => call os (Kill pid s) (λ e, e) tr
  end.

(** ** [drop_privileges] *)

Inductive DropPrivilegesError :=
| InvalidUsername
| SetGid (gid : Z) (source : Errno)
| InitGroups (username : string) (gid : Z) (source : Errno)
| SetUid (uid : Z) (source : Errno).

(** [CString::new] refuses a NUL byte. *)
Definition cstring_new (s : string) : option string :=
  if decide (x00 ∈ str_bytes s) then None else Some s.

Definition drop_privileges (os : Oracle) (uid gid : Z) (username : string)
    : Io (list Call) DropPrivilegesError () :=
  match cstring_new username with
  | None => io_fail InvalidUsername
  | Some c_username =>
    call os (Setgid gid) (SetGid gid) ;;;
    call os (Initgroups c_username gid) (InitGroups username gid) ;;;
    call os (Setuid uid) (SetUid uid) ;;;
    io_ret ()
  end.

(** ** The user database *)

Record User := MkUser { u_name : string; u_uid : Z; u_gid : Z; u_dir : string; u_shell : string }.
Record UserInfo := MkUserInfo {
  ui_username : string;
  ui_uid : Z;
  ui_gid : Z;
  ui_home : string;
  ui_shell : string;
  ui_pam_env : list (string * string);
}.

Inductive LookupUserError := LookupQuery (source : Errno) | LookupNotFound (username : string).

(** [User::from_name] on the database. *)
Definition Passwd := string → result (option User) Errno.

Definition user_info (user : User) (pam_env : list (string * string)) : UserInfo :=
  MkUserInfo (u_name user) (u_uid user) (u_gid user) (u_dir user) (u_shell user) pam_env.

Definition lookup_user (db : Passwd) (username : string) : result UserInfo LookupUserError :=
  match db username with
  | Err e => Err (LookupQuery e)
  | Panic => Panic
  | Ok None => Err (LookupNotFound username)
  | Ok (Some user) => Ok (user_info user [])
  end.

(** [check_nologin]: the files that exist with what reading them gives. *)
Fixpoint check_nologin_files (read : string → option string) (paths : list string)
    : result () string :=
  match paths with
  | [] => Ok ()
  | path :: paths =>
    match read path with
    | Some msg => Err (if decide (msg = "") then "system is unavailable" else msg)%string
    | None => check_nologin_files read paths
    end
  end.
Definition check_nologin (read : string → option string) (uid : Z) : result () string :=
  if uid =? 0 then Ok ()
  else check_nologin_files read ["/etc/nologin"; "/var/run/nologin"]%string.

(** ** PAM *)

Inductive PamAuthError :=
| CreateContext (source : Errno)
| Authenticate (source : Errno)
| AccountManagement (source : Errno)
| OpenSession (source : Errno)
| UserQuery (source : Errno)
| UserNotFound (username : string)
| ProcessLeaderRequired (pid tid : Z).

(** The thread that runs, the environment of the session, the database. *)
Record PamEnv := MkPamEnv {
  pam_pid : Z;
  pam_tid : Z;
  pam_envlist : list (list byte * list byte);
  pam_users : Passwd;
}.

Definition ensure_process_leader (env : PamEnv) : Io (list Call) PamAuthError () :=
  if pam_pid env =? pam_tid env then io_ret ()
  else io_fail (ProcessLeaderRequired (pam_pid env) (pam_tid env)).

Definition extract_pam_env (env : PamEnv) : list (string * string) :=
  omap (λ '(k, v), if utf8_valid k && utf8_valid v then Some (bytes_str k, bytes_str v) else None)
    (pam_envlist env).

Definition query_user (env : PamEnv) (username : string) : Io (list Call) PamAuthError User := λ tr,
  (tr ++ [UserFromName username],
   match pam_users env username with
   | Err e => Err (UserQuery e)
   | Panic => Panic
   | Ok None => Err (UserNotFound username)
   | Ok (Some user) => Ok user
   end).

(** [authenticate_blocking]. *)
Definition authenticate (os : Oracle) (env : PamEnv) (service username password : string)
    : Io (list Call) PamAuthError UserInfo :=
  ensure_process_leader env ;;;
  call os (PamContext service username (Some password)) CreateContext ;;;
  call_ignore os PamSetTty ;;;
  call os PamAuthenticate Authenticate ;;;
  call os PamAcctMgmt AccountManagement ;;;
  call os PamOpenSession OpenSession ;;;
  let pam_env := extract_pam_env env in
  call_ignore os PamLeak ;;;
  let! user := query_user env username in
  io_ret (user_info user pam_env).

(** [open_session_blocking]. *)
Definition open_session (os : Oracle) (env : PamEnv) (service username : string)
    : Io (list Call) PamAuthError UserInfo :=
  ensure_process_leader env ;;;
  call os (PamContext service username None) CreateContext ;;;
  call_ignore os PamSetTty ;;;
  call os PamAcctMgmt AccountManagement ;;;
  call os PamOpenSession OpenSession ;;;
  let pam_env := extract_pam_env env in
  call_ignore os PamLeak ;;;
  let! user := query_user env username in
  io_ret (user_info user pam_env).

(** ** Lemmas *)

(** The calls of [cs] are made from [tr] on and all succeed. *)
Fixpoint all_succeed (os : Oracle) (tr cs : list Call) : Prop :=
  match cs with [] => True | c :: cs => os tr c = None ∧ all_succeed os (tr ++ [c]) cs end.

(** ** Properties *)

(** C30: Privileges are dropped in the one order that works. From any trace,
    [drop_privileges] makes the calls [setgid], [initgroups], [setuid] in this
    order and stops at the first that fails, with its error: it succeeds exactly
    when all three did, and the user is only changed after both group calls
    have succeeded. A name with a NUL byte is refused before any call. *)
Theorem drop_privileges_order (os : Oracle) (uid gid : Z) (username : string) (tr : list Call) :
  let steps := [Setgid gid; Initgroups username gid; Setuid uid] in
  let run := drop_privileges os uid gid username tr in
  if decide (x00 ∈ str_bytes username) then run = (tr, Err InvalidUsername)
  else
    ∃ made, made `prefix_of` steps ∧ run.1 = tr ++ made ∧ made ≠ [] ∧
      (run.2 = Ok () ↔ all_succeed os tr steps) ∧
      (run.2 = Ok () → made = steps) ∧
      (Setuid uid ∈ made → os tr (Setgid gid) = None ∧
         os (tr ++ [Setgid gid]) (Initgroups username gid) = None) ∧
      (∀ e, run.2 = Err e →
         ∃ c n, last made = Some c ∧ os (tr ++ take (length made - 1) made) c = Some n ∧
           e = match c with
               | Setgid _ => SetGid gid n
               | Initgroups _ _ => InitGroups username gid n
               | _ => SetUid uid n
               end).
Proof.
  intros steps run. case_decide as Hn.
  { unfold run, drop_privileges, cstring_new. by rewrite decide_True. }
  unfold run, drop_privileges, cstring_new. rewrite decide_False by done.
  unfold io_bind, call, io_ret, steps. cbn [all_succeed].
  destruct (os tr (Setgid gid)) as [e1|] eqn:H1.
  { exists [Setgid gid]. simpl. split_and!; try done; [by eexists|naive_solver|set_solver|].
    intros e Heq. simplify_eq. exists (Setgid gid), e1. by rewrite app_nil_r. }
  destruct (os (tr ++ [Setgid gid]) (Initgroups username gid)) as [e2|] eqn:H2.
  { exists [Setgid gid; Initgroups username gid]. simpl. rewrite <- !(assoc_L (++)).
    split_and!; try done; [by eexists|naive_solver|set_solver|].
    intros e Heq. simplify_eq. by exists (Initgroups username gid), e2. }
  destruct (os ((tr ++ [Setgid gid]) ++ [Initgroups username gid]) (Setuid uid)) as [e3|] eqn:H3;
    exists [Setgid gid; Initgroups username gid; Setuid uid]; simpl;
    rewrite <- !(assoc_L (++)) in *; simpl in *.
  - split_and!; try done; [naive_solver|]. intros e Heq. simplify_eq. by exists (Setuid uid), e3.
  - split_and!; try done; naive_solver.
Qed.

(** The two ways to log in, and the calls they make. *)
Definition login (os : Oracle) (env : PamEnv) (service username : string)
    (password : option string) : Io (list Call) PamAuthError UserInfo :=
  match password with
  | Some password => authenticate os env service username password
  | None => open_session os env service username
  end.
Definition checks (password : option string) : list Call :=
  match password with Some _ => [PamAuthenticate; PamAcctMgmt] | None => [PamAcctMgmt] end.
Definition login_calls (service username : string) (password : option string) : list Call :=
  [PamContext service username password; PamSetTty] ++ checks password ++
  [PamOpenSession; PamLeak; UserFromName username].

(** A sequence of calls, each with its error or with its failure ignored. *)
Fixpoint calls {E} (os : Oracle) (cs : list (Call * option (Errno → E))) : Io (list Call) E () :=
  match cs with
  | [] => io_ret ()
  | (c, Some f) :: cs => call os c f ;;; calls os cs
  | (c, None) :: cs => call_ignore os c ;;; calls os cs
  end.

(** It makes the calls in order up to the first that fails and is not ignored. *)
Definition call_ok {E} (os : Oracle) (cs : list (Call * option (Errno → E))) (tr made : list Call)
    : Prop :=
  ∀ pre c f post, cs = pre ++ (c, Some f) :: post → (length pre + 1 < length made)%nat →
    os (tr ++ map fst pre) c = None.

Lemma calls_spec {E} os (cs : list (Call * option (Errno → E))) tr :
  ∃ made, made `prefix_of` map fst cs ∧ (calls os cs tr).1 = tr ++ made ∧ call_ok os cs tr made ∧
    (calls os cs tr).2 ≠ Panic ∧
    (∀ e, (calls os cs tr).2 = Err e →
       ∃ pre c f post n, cs = pre ++ (c, Some f) :: post ∧ made = map fst pre ++ [c] ∧
         os (tr ++ map fst pre) c = Some n ∧ e = f n) ∧
    ((calls os cs tr).2 = Ok () →
       made = map fst cs ∧ ∀ pre c f post, cs = pre ++ (c, Some f) :: post →
                              os (tr ++ map fst pre) c = None).
Proof.
  revert tr. induction cs as [|[c f] cs IH]; intros tr.
  { assert (∀ pre c f post, [] = pre ++ (c : Call, Some (f : Errno → E)) :: post → False) as Hnil
      by (intros [] ? ? ? ?; done).
    exists []. rewrite app_nil_r. split_and!; try done.
    - intros pre c f post Heq. by apply Hnil in Heq.
    - intros _. split; [done|]. intros pre c f post Heq. by apply Hnil in Heq. }
  destruct (IH (tr ++ [c])) as (made & Hpre & Htr & Hok & Hnp & Herr & Hall).
  assert (∀ pre c' f' post, (c, f) :: cs = pre ++ (c', Some f') :: post →
            os tr c = None ∨ f = None →
            (∀ pre' , pre = (c, f) :: pre' → os ((tr ++ [c]) ++ map fst pre') c' = None) →
            os (tr ++ map fst pre) c' = None) as Hcons.
  { intros [|x pre] c' f' post Heq Ho Hp; simplify_eq/=.
    - rewrite app_nil_r. by destruct Ho.
    - specialize (Hp pre eq_refl). by rewrite <- (assoc_L (++)) in Hp. }
  assert ((f = None ∨ os tr c = None) →
          calls os ((c, f) :: cs) tr = calls os cs (tr ++ [c])) as Hgo.
  { intros Hf. cbn [calls]. destruct f as [f|]; [|done]. destruct Hf as [|Ho]; [done|].
    unfold io_bind, call. by rewrite Ho. }
  destruct (decide (f = None ∨ os tr c = None)) as [Hf|Hf].
  - exists (c :: made). rewrite Hgo by done. cbn [map fst]. split_and!.
    + by apply prefix_cons.
    + by rewrite Htr, <- (assoc_L (++)).
    + intros pre c' f' post Heq Hlen. eapply Hcons; [exact Heq|naive_solver|].
      intros pre' Heq'. subst pre. simplify_eq/=. eapply Hok; [done|lia].
    + done.
    + intros e He. destruct (Herr e He) as (pre & c' & f' & post & n & -> & -> & Ho & ->).
      exists ((c, f) :: pre), c', f', post, n. rewrite <- (assoc_L (++)) in Ho. by split_and!.
    + intros Hres. destruct (Hall Hres) as [-> Hc]. split; [done|].
      intros pre c' f' post Heq. eapply Hcons; [exact Heq|naive_solver|].
      intros pre' Heq'. subst pre. simplify_eq/=. by eapply Hc.
  - destruct f as [f|]; [|exfalso; auto]. destruct (os tr c) as [e|] eqn:Ho; [|exfalso; auto].
    exists [c]. cbn [calls]. unfold io_bind, call. rewrite Ho. cbn [map fst].
    split_and!; [by apply prefix_cons, prefix_nil|done| |done| |done].
    + intros [|x pre] c' f' post Heq Hlen; simpl in *; lia.
    + intros e' He. simplify_eq/=. exists [], c, f, cs, e. rewrite app_nil_r. by split_and!.
Qed.

Definition login_steps (service username : string) (password : option string)
    : list (Call * option (Errno → PamAuthError)) :=
  [(PamContext service username password, Some CreateContext); (PamSetTty, None)] ++
  match password with Some _ => [(PamAuthenticate, Some Authenticate)] | None => [] end ++
  [(PamAcctMgmt, Some AccountManagement); (PamOpenSession, Some OpenSession); (PamLeak, None)].

Lemma login_run os env service username password tr :
  login os env service username password tr =
  (if pam_pid env =? pam_tid env then
     (calls os (login_steps service username password) ;;;
      let! user := query_user env username in
      io_ret (user_info user (extract_pam_env env))) tr
   else (tr, Err (ProcessLeaderRequired (pam_pid env) (pam_tid env)))).
Proof.
  unfold login, authenticate, open_session, ensure_process_leader.
  destruct password; (destruct (_ =? _); [|done]); unfold login_steps; cbn [app calls];
    unfold io_bind, io_ret, call, call_ignore;
    repeat match goal with
    | |- context [match os ?t ?c with _ => _ end] => destruct (os t c); [done|]
    end; reflexivity.
Qed.

Lemma login_steps_calls service username password :
  login_calls service username password =
  map fst (login_steps service username password) ++ [UserFromName username].
Proof. by destruct password. Qed.

(** Only two calls have their failure ignored. *)
Lemma login_steps_checked service username password pre c post :
  map fst (login_steps service username password) = pre ++ c :: post →
  c ≠ PamSetTty → c ≠ PamLeak →
  ∃ pre' f post', login_steps service username password = pre' ++ (c, Some f) :: post' ∧
    map fst pre' = pre.
Proof.
  intros Heq H1 H2. apply map_eq_app in Heq as (pre' & l & Hl & Hpre & Hc).
  destruct l as [|[c' f] l]; simplify_eq/=.
  assert ((c, f) ∈ login_steps service username password) as Hin by (rewrite Hl; set_solver).
  destruct f as [f|]; [by eauto|].
  destruct password; unfold login_steps in Hin; set_solver.
Qed.

(** The error a call of a login ends it with, when it fails: each has its own;
    the last one asks the database. *)
Definition login_error (os : Oracle) (env : PamEnv) (tr : list Call) (c : Call) : option PamAuthError :=
  match c with
  | PamContext _ _ _ => CreateContext <$> os tr c
  | PamAuthenticate => Authenticate <$> os tr c
  | PamAcctMgmt => AccountManagement <$> os tr c
  | PamOpenSession => OpenSession <$> os tr c
  | UserFromName name =>
    match pam_users env name with
    | Err e => Some (UserQuery e)
    | Ok None => Some (UserNotFound name)
    | _ => None
    end
  | _ => None
  end.

Lemma login_steps_errors os env service username password tr c f n :
  (c, Some f) ∈ login_steps service username password → os tr c = Some n →
  login_error os env tr c = Some (f n).
Proof.
  intros Hin Hc. destruct password; unfold login_steps in Hin; cbn in Hin;
    repeat (apply elem_of_cons in Hin as [Hin|Hin];
      [simplify_eq; unfold login_error; by rewrite Hc|]); by apply elem_of_nil in Hin.
Qed.

(** C32: No session without the checks. Only the leader of the process logs in,
    another thread is refused before any call. Logging in makes its calls in the
    fixed order and stops at the first refusal: a call that another one follows
    had succeeded, so that no PAM session is opened unless the password (where
    there is one) and the account were accepted; the error is that of the call
    that was made last. It returns the user's entry with the session's environment
    exactly when every call was made and succeeded and the user is in the
    database; when only the user is missing, the session it has opened stays
    open. *)
Theorem login_order (os : Oracle) (env : PamEnv) (service username : string)
    (password : option string) (tr : list Call) :
  let run := login os env service username password tr in
  let steps := login_calls service username password in
  if negb (pam_pid env =? pam_tid env)
  then run = (tr, Err (ProcessLeaderRequired (pam_pid env) (pam_tid env)))
  else
  ∃ made, made `prefix_of` steps ∧ run.1 = tr ++ made ∧
    (∀ pre c post, made = pre ++ c :: post → post ≠ [] → c ≠ PamSetTty → c ≠ PamLeak →
       os (tr ++ pre) c = None) ∧
    (∀ e, run.2 = Err e →
       ∃ pre c, made = pre ++ [c] ∧ login_error os env (tr ++ pre) c = Some e) ∧
    (∀ info, run.2 = Ok info ↔ made = steps ∧
       ∃ user, pam_users env username = Ok (Some user) ∧ info = user_info user (extract_pam_env env)) ∧
    (run.2 = Panic → pam_users env username = Panic) ∧
    (run.2 = Err (UserNotFound username) → PamOpenSession ∈ made).
Proof.
  intros run steps. unfold run. rewrite login_run. destruct (pam_pid env =? pam_tid env); [|done].
  cbn [negb]. destruct (calls_spec os (login_steps service username password) tr)
    as (made & Hpre & Htr & Hok & Hnp & Herr & Hall).
  unfold steps. rewrite login_steps_calls. unfold io_bind.
  pose proof (login_steps_checked service username password) as Hcheck.
  pose proof (login_steps_errors os env service username password) as Hne.
  destruct (calls os (login_steps service username password) tr) as [tr' res]. cbn [fst snd] in *.
  destruct res as [[]|e|]; [clear Herr|clear Hall|done].
  - destruct (Hall eq_refl) as [-> Hc]. subst tr'. unfold query_user.
    set (all := map fst (login_steps service username password)) in *.
    exists (all ++ [UserFromName username]). split_and!; [done| | | | | |].
    + rewrite (assoc_L (++)). by destruct (pam_users env username) as [[?|]|?|].
    + intros pre c post Heq Hp H1 H2. destruct post as [|x post _] using rev_ind; [done|].
      rewrite app_comm_cons, (assoc_L (++)) in Heq. apply app_inj_tail in Heq as [Heq _].
      destruct (Hcheck _ _ _ Heq H1 H2) as (pre' & f & post' & Hl & <-). by eapply Hc.
    + intros e He. exists all, (UserFromName username). split; [done|]. cbn [login_error].
      destruct (pam_users env username) as [[user|]|?|]; simplify_eq/=; done.
    + intros info. destruct (pam_users env username) as [[user|]|?|]; simpl; naive_solver.
    + by destruct (pam_users env username) as [[user|]|?|].
    + intros _. unfold all. destruct password; set_solver.
  - destruct Hpre as [k Hk]. subst tr'.
    destruct (Herr _ eq_refl) as (pre0 & c0 & f0 & post0 & n0 & Hcs & Hmade & Hos & ->).
    assert (login_error os env (tr ++ map fst pre0) c0 = Some (f0 n0)) as Hlog
      by (apply Hne; [rewrite Hcs; set_solver|done]).
    exists made. split_and!; [|done| | | |done|].
    + exists (k ++ [UserFromName username]). by rewrite (assoc_L (++)), <- Hk.
    + intros pre c post Heq Hp H1 H2. subst made. rewrite Heq, <- (assoc_L (++)) in Hk.
      destruct (Hcheck _ _ _ Hk H1 H2) as (pre' & f & post' & Hl & <-).
      eapply Hok; [exact Hl|]. rewrite Heq, length_app, length_map. destruct post as [|x post]; [done|].
      cbn [length]. lia.
    + intros e [= <-]. by eauto.
    + intros info. split; [done|]. intros [Heq _]. exfalso.
      pose proof (f_equal length Hk) as Hl. rewrite Heq, !length_app in Hl. cbn [length] in Hl. lia.
    + intros [= Heq]. rewrite Heq in Hlog. destruct c0; cbn [login_error] in Hlog;
        try (by destruct (os _ _)); try done.
      assert (UserFromName name ∈ map fst (login_steps service username password)) as Hin
        by (rewrite Hcs, map_app; set_solver).
      exfalso. clear -Hin. destruct password; unfold login_steps in Hin; set_solver.
Qed.

(** A name that is read is in the table. *)
Lemma from_ssh_name_table name s : from_ssh_name name = Some s → (s, name) ∈ ssh_names.
Proof.
  intros H. unfold from_ssh_name in H.
  repeat case_match; simplify_eq; apply (bool_decide_unpack _); reflexivity.
Qed.

Lemma from_ssh_name_inj n m s : from_ssh_name n = Some s → from_ssh_name m = Some s → n = m.
Proof.
  intros Hn%from_ssh_name_table Hm%from_ssh_name_table.
  assert (NoDup (map fst ssh_names)) as Hnd by (apply (bool_decide_unpack _); by vm_compute).
  apply list_elem_of_lookup in Hn as [i Hi], Hm as [j Hj].
  assert (i = j) as ->; [|by rewrite Hi in Hj; simplify_eq].
  eapply (NoDup_lookup (map fst ssh_names)); [done| |]; rewrite list_lookup_fmap;
    [by rewrite Hi|by rewrite Hj].
Qed.

(** Signal names. The name of a signal is read back as that signal, and
    the number of a signal has exactly its name; every name that is read is the
    name of the signal it is read as. *)
Theorem signal_names_inverse `{SignalLaws} (s : Signal) (name : string) :
  from_ssh_name name = Some s ↔ to_ssh_name (signal_number s) = Some name.
Proof.
  assert (∀ s, ∃ n, from_ssh_name n = Some s ∧ to_ssh_name (signal_number s) = Some n) as Hs.
  { intros t. assert (∃ i n, ssh_names !! i = Some (t, n) ∧ from_ssh_name n = Some t)
      as (i & n & Hi & Hn).
    { destruct t; match goal with |- context [from_ssh_name _ = Some ?t] =>
        let i := eval vm_compute in (default 0%nat (fst <$> list_find (λ p, p.1 = t) ssh_names)) in
        exists i; eexists; split; reflexivity end. }
    exists n. split; [done|]. unfold to_ssh_name.
    assert (list_find (λ p, signal_number t = signal_number p.1) ssh_names = Some (i, (t, n))) as ->;
      [|done].
    apply list_find_Some. split_and!; [done..|]. intros j [u m] Hj Hlt Heq. simpl in Heq.
    apply signal_number_inj in Heq as <-.
    assert (NoDup (map fst ssh_names)) as Hnd by (apply (bool_decide_unpack _); by vm_compute).
    assert (j = i) as ->; [|lia].
    eapply (NoDup_lookup (map fst ssh_names)); [done| |];
      rewrite list_lookup_fmap; [by rewrite Hj|by rewrite Hi]. }
  destruct (Hs s) as (n & Hn & Hto). rewrite Hto. split; [|by intros [= <-]].
  intros Hname. f_equal. by apply (from_ssh_name_inj n name s).
Qed.

#[local] Instance linux_signals : SignalNumbers := λ s,
  match s with
  | SIGABRT => 6 | SIGALRM => 14 | SIGFPE => 8 | SIGHUP => 1 | SIGILL => 4 | SIGINT => 2
  | SIGKILL => 9 | SIGPIPE => 13 | SIGQUIT => 3 | SIGSEGV => 11 | SIGTERM => 15 | SIGUSR1 => 10
  | SIGUSR2 => 12 | SIGCONT => 18 | SIGSTOP => 19 | SIGTSTP => 20 | SIGTTIN => 21 | SIGTTOU => 22
  end.
#[local] Instance linux_signal_laws : SignalLaws.
Proof. intros [] []; first [reflexivity|discriminate]. Qed.

Lemma signal_names_inverse_witness :
  (from_ssh_name "INT" = Some SIGINT ↔ to_ssh_name (signal_number SIGINT) = Some "INT"%string) ∧
  to_ssh_name 2 = Some "INT"%string.
Proof. split; [exact (signal_names_inverse SIGINT "INT")|reflexivity]. Defined.
