(* ===== verification/Handshake.v ===== *)
(** * Authentication, versions and the opening handshake

    [src/src/auth.rs], [client.rs], [version.rs], [error.rs] and the handshake
    of [webtransport.rs]. The http crate, base64 and h3x are parameters: classes
    with the operations the code calls, and the laws it relies on. *)
From Stdlib Require Import ZArith Lia Strings.Byte Arith.Wf_nat.
From stdpp Require Import base list strings gmap fin_maps relations.
From S2P Require Import Prelude Text Wire Codec Message ChannelErrors Channel Conversation.
Local Open Scope Z_scope.
Local Open Scope io_scope.
Local Open Scope result_scope.

Abbreviation text := (list byte).

(** ** The libraries *)

Class Base64 := {
  DecodeError : Type;
  b64_encode : list byte → text;
  b64_decode : text → result (list byte) DecodeError;
}.
Definition visible (s : text) : Prop := forallb (byte_in 33 126) s = true.
Class Base64Laws `{Base64} : Prop := {
  b64_decode_encode bs : b64_decode (b64_encode bs) = Ok bs;
  b64_encode_visible bs : visible (b64_encode bs);
  b64_encode_nonempty bs : bs ≠ [] → b64_encode bs ≠ [];
}.

(** What [Request::builder()] has been given; a header value is a string, which
    is converted, or a [HeaderValue]. *)
Inductive HeaderArg (V : Type) := HeaderStr (s : text) | HeaderVal (v : V).
Arguments HeaderStr {V}.
Arguments HeaderVal {V}.
Record RequestParts (Uri V : Type) := MkRequestParts {
  rp_method : text;
  rp_uri : Uri;
  rp_headers : list (text * HeaderArg V);
  rp_protocol : text;
}.
Arguments MkRequestParts {Uri V}.
Arguments rp_method {Uri V}.
Arguments rp_uri {Uri V}.
Arguments rp_headers {Uri V}.
Arguments rp_protocol {Uri V}.

Class Http := {
  HeaderValue : Type;
  ToStrError : Type;
  value_from_str : text → option HeaderValue;
  value_to_str : HeaderValue → result text ToStrError;
  HeaderMap : Type;
  header_get : HeaderMap → text → option HeaderValue;
  header_insert : text → HeaderValue → HeaderMap → HeaderMap;
  Authority : Type;
  authority_fmt : Authority → text;
  Uri : Type;
  InvalidUri : Type;
  parse_uri : text → result Uri InvalidUri;
  uri_path : Uri → text;
  Request : Type;
  HttpError : Type;
  build_request : RequestParts Uri HeaderValue → result Request HttpError;
  request_uri : Request → Uri;
  request_headers : Request → HeaderMap;
  Response : Type;
  response_success : Response → bool;
  response_headers : Response → HeaderMap;
  response_with_headers : (HeaderMap → HeaderMap) → Response → Response;
}.

Definition header_arg `{Http} (a : HeaderArg HeaderValue) : option HeaderValue :=
  match a with HeaderStr s => value_from_str s | HeaderVal v => Some v end.

(** The path of a URI with neither query nor fragment. *)
Definition path_only (path : text) : Prop :=
  (∃ rest, path = x2f :: rest) ∧ (x3f ∉ path) ∧ (x23 ∉ path).

Class HttpLaws `{Http} : Prop := {
  value_of_visible s : forallb (byte_in 32 126) s = true →
    ∃ v, value_from_str s = Some v ∧ value_to_str v = Ok s;
  header_get_insert name v m : header_get (header_insert name v m) name = Some v;
  parse_uri_path a path u : path_only path →
    parse_uri (str_bytes "https://" ++ authority_fmt a ++ path) = Ok u → uri_path u = path;
  build_request_uri p r : build_request p = Ok r → request_uri r = rp_uri p;
  build_request_header p r name a : build_request p = Ok r →
    snd <$> list_find (λ h, h.1 = name) (rp_headers p) = Some (name, a) →
    header_get (request_headers r) name = header_arg a;
  response_headers_with f r : response_headers (response_with_headers f r) = f (response_headers r);
}.

(** h3x: the connection and what becomes of it, with its own state. *)
Class H3x `{Http} := {
  Network : Type;
  WEBTRANSPORT_H3 : text;
  Connect : Type;
  Session : Type;
  RequestError : Type;
  EstablishError : Type;
  AcceptError : Type;
  RegisterSessionError : Type;
  OpenStreamError : Type;
  AcceptStreamError : Type;
  execute_hyper_request : Request → Io Network RequestError Response;
  establish : Response → Io Network EstablishError Connect;
  accept_connect : Request → Io Network AcceptError (Response * Connect);
  session_try_from : Connect → Io Network RegisterSessionError Session;
  session_open_bi : Session → Network → Network * result Bi OpenStreamError;
}.

(** ** Text *)

(** [str::eq_ignore_ascii_case]. *)
Definition str_eq_ignore_ascii_case (a b : text) : bool :=
  bool_decide (to_ascii_lowercase a = to_ascii_lowercase b).

(** ** auth.rs and client.rs *)

Inductive AuthCredential := Basic (username password : text) | Certificate.
Definition auth_credential_fmt (self : AuthCredential) : text :=
  match self with
  | Basic username _ =>
    str_bytes "Basic(username=" ++ username ++ str_bytes ", password=<redacted>)"
  | Certificate => str_bytes "Certificate"
  end.

Inductive ParseAuthError (D : Type) :=
| MissingSchemeSeparator
| UnsupportedAuthScheme (scheme : text)
| EmptyCredentials
| InvalidBase64Credentials (source : D)
| CredentialsNotUtf8 (bytes : list byte)
| MissingCredentialSeparator.
Arguments MissingSchemeSeparator {D}.
Arguments UnsupportedAuthScheme {D}.
Arguments EmptyCredentials {D}.
Arguments InvalidBase64Credentials {D}.
Arguments CredentialsNotUtf8 {D}.
Arguments MissingCredentialSeparator {D}.

(** [String::from_utf8]. *)
Definition from_utf8 (bs : list byte) : result text (list byte) :=
  if utf8_valid bs then Ok bs else Err bs.

Definition ok_or {A E} (x : option A) (e : E) : result A E :=
  match x with Some a => Ok a | None => Err e end.
(** [Option::expect]. *)
Definition expect {A E} (x : option A) : result A E :=
  match x with Some a => Ok a | None => Panic end.

Definition parse_authorization_header `{Base64} (header_value : text)
    : result AuthCredential (ParseAuthError DecodeError) :=
  let? (scheme, credentials) := ok_or (split_once x20 header_value) MissingSchemeSeparator in
  if negb (str_eq_ignore_ascii_case scheme (str_bytes "Basic"))
  then Err (UnsupportedAuthScheme scheme)
  else if decide (credentials = []) then Err EmptyCredentials
  else
    let? decoded_bytes := result_map_err InvalidBase64Credentials (b64_decode credentials) in
    let? decoded := result_map_err CredentialsNotUtf8 (from_utf8 decoded_bytes) in
    let? (username, password) := ok_or (split_once x3a decoded) MissingCredentialSeparator in
    Ok (Basic username password).

Definition encode_basic_auth `{Base64, Http} (username password : text)
    : result HeaderValue Empty_set :=
  let encoded := b64_encode (username ++ [x3a] ++ password) in
  expect (value_from_str (str_bytes "Basic " ++ encoded)).

(** ** version.rs *)

Record DshellVersion := MkDshellVersion { version_string : text }.

Inductive NegotiateVersionError (T : Type) :=
| MissingDshellVersionHeader
| InvalidDshellVersionHeaderValue (source : T)
| EmptyDshellVersionHeader
| UnsupportedDshellVersion (offered : text).
Arguments MissingDshellVersionHeader {T}.
Arguments InvalidDshellVersionHeaderValue {T}.
Arguments EmptyDshellVersionHeader {T}.
Arguments UnsupportedDshellVersion {T}.

Definition ssh_version : text := str_bytes "ssh-version".
Definition supported (version : text) : bool :=
  bool_decide (version ∈ map str_bytes SUPPORTED_DSHELL_VERSIONS).

(** The loop over the versions offered. *)
Fixpoint first_supported (offers : list text) : option text :=
  match offers with
  | [] => None
  | offered :: offers =>
    let trimmed := trim offered in
    if supported trimmed then Some trimmed else first_supported offers
  end.

Definition negotiate_version `{Http} (headers : HeaderMap)
    : result DshellVersion (NegotiateVersionError ToStrError) :=
  let? value := ok_or (header_get headers ssh_version) MissingDshellVersionHeader in
  let? header_value := result_map_err InvalidDshellVersionHeaderValue (value_to_str value) in
  if decide (header_value = []) then Err EmptyDshellVersionHeader
  else
    match first_supported (split_on x2c header_value) with
    | Some version => Ok (MkDshellVersion version)
    | None => Err (UnsupportedDshellVersion header_value)
    end.

Definition version_response_header `{Http} (version : DshellVersion)
    : result HeaderValue Empty_set :=
  expect (value_from_str (version_string version)).

(** ** webtransport.rs *)

Inductive BuildClientConnectRequestError (U E : Type) := UriError (source : U) | RequestBuild (source : E).
Arguments UriError {U E}.
Arguments RequestBuild {U E}.

Section webtransport.
Context `{H3x, VarIntCodec}.

Definition BuildError : Type := BuildClientConnectRequestError InvalidUri HttpError.

Inductive ClientConnectConversationError :=
| BuildRequest (source : BuildError)
| Execute (source : RequestError)
| PeerVersion (source : NegotiateVersionError ToStrError)
| Establish (source : EstablishError)
| MissingValidatedPeerVersion
| RegisterSession (source : RegisterSessionError)
| OpenConversation (source : OpenConversationError OpenStreamError AcceptStreamError).

Inductive AcceptServerSessionError :=
| UnexpectedPath (path : text)
| AcceptPeerVersion (source : NegotiateVersionError ToStrError)
| AcceptFailed (source : AcceptError)
| AcceptRegisterSession (source : RegisterSessionError).

Record AcceptedWebTransportSession := MkAccepted {
  acc_response : Response;
  acc_session : Session;
  acc_peer_version : text;
}.

Definition authorization_name : text := str_bytes "authorization".

Definition client_connect_request (authority : Authority) (path : text)
    (authorization : option HeaderValue) : result Request BuildError :=
  let? uri := result_map_err UriError
                (parse_uri (str_bytes "https://" ++ authority_fmt authority ++ path)) in
  let headers :=
    (ssh_version, HeaderStr (str_bytes DSHELL_VERSION)) ::
    match authorization with
    | Some value => [(authorization_name, HeaderVal value)]
    | None => []
    end in
  result_map_err RequestBuild
    (build_request (MkRequestParts (str_bytes "CONNECT") uri headers WEBTRANSPORT_H3)).

Definition peer_version (headers : HeaderMap)
    : result DshellVersion (NegotiateVersionError ToStrError) :=
  negotiate_version headers.

(** A conversation: its session, the version, the control stream. *)
Record ClientConversation := MkConversation {
  conv_session : Session;
  conv_peer_version : text;
  conv_control : Bi;
}.

Definition open_on_session (session : Session) (version : text)
    : Io Network (OpenConversationError OpenStreamError AcceptStreamError) ClientConversation :=
  λ w,
  let '(w', bi) := session_open_bi session w in
  match open bi with
  | (Some control, Ok ()) => (w', Ok (MkConversation session version control))
  | (_, Err e) => (w', Err e)
  | _ => (w', Panic)
  end.

Definition open_client_conversation (authority : Authority) (path : text)
    (authorization : option HeaderValue)
    : Io Network ClientConnectConversationError ClientConversation :=
  let! request :=
    io_lift (result_map_err BuildRequest (client_connect_request authority path authorization)) in
  let! response := execute_hyper_request request <?> Execute in
  let! version :=
    if response_success response then
      let! v := io_lift (result_map_err PeerVersion (peer_version (response_headers response))) in
      io_ret (Some v)
    else io_ret None in
  let! connect := establish response <?> Establish in
  let! version := io_lift (ok_or version MissingValidatedPeerVersion) in
  let! session := session_try_from connect <?> RegisterSession in
  open_on_session session (version_string version) <?> OpenConversation.

Definition accept_server_session (request : Request) (path : text)
    : Io Network AcceptServerSessionError AcceptedWebTransportSession :=
  if negb (bool_decide (uri_path (request_uri request) = path))
  then io_fail (UnexpectedPath (uri_path (request_uri request)))
  else
    let! version :=
      io_lift (result_map_err AcceptPeerVersion (peer_version (request_headers request))) in
    let! (response, connect) := accept_connect request <?> AcceptFailed in
    let! session := session_try_from connect <?> AcceptRegisterSession in
    let! value := io_lift (result_map_err (λ e : Empty_set, match e with end)
                             (version_response_header version)) in
    io_ret (MkAccepted (response_with_headers (header_insert ssh_version value) response) session
              (version_string version)).
End webtransport.

(** ** Lemmas *)

Lemma utf8_valid_app a b : utf8_valid a = true → utf8_valid b = true → utf8_valid (a ++ b) = true.
Proof.
  intros Ha Hb. revert Ha. induction a as [a IH] using (induction_ltof1 _ length).
  unfold ltof in IH. destruct a as [|b0 t0]; [done|]. cbn [utf8_valid app].
  destruct (byte_in 0 127 b0); [apply IH; simpl; lia|].
  destruct t0 as [|b1 t1]; [done|]. cbn [app].
  assert (∀ p t, (length t < length (b0 :: b1 :: t1))%nat →
            p && utf8_valid t = true → p && utf8_valid (t ++ b) = true) as Hgo.
  { intros p t Ht [-> Hv]%andb_prop. by apply IH. }
  destruct (byte_in 194 223 b0); [apply Hgo; simpl; lia|].
  destruct t1 as [|b2 t2]; [done|]. cbn [app].
  destruct (byte_in 224 224 b0); [apply Hgo; simpl; lia|].
  destruct (byte_in 237 237 b0); [apply Hgo; simpl; lia|].
  destruct (byte_in 225 239 b0); [apply Hgo; simpl; lia|].
  destruct t2 as [|b3 t3]; [done|]. cbn [app].
  destruct (byte_in 240 240 b0); [apply Hgo; simpl; lia|].
  destruct (byte_in 241 243 b0); [apply Hgo; simpl; lia|].
  destruct (byte_in 244 244 b0); [apply Hgo; simpl; lia|done].
Qed.

Lemma first_supported_Some offers v :
  first_supported offers = Some v ↔
  ∃ pre offered post, offers = pre ++ offered :: post ∧ trim offered = v ∧ supported v = true ∧
    Forall (λ o, supported (trim o) = false) pre.
Proof.
  induction offers as [|o offers IH]; simpl.
  { split; [done|]. intros ([] & ? & ? & ? & _); done. }
  destruct (supported (trim o)) eqn:Ho.
  - split.
    + intros ?. simplify_eq. by exists [], o, offers.
    + intros ([|o' pre] & offered & post & ? & Ht & Hs & Hf); simplify_eq/=; [done|].
      inversion Hf. congruence.
  - rewrite IH. split.
    + intros (pre & offered & post & -> & Ht & Hs & Hf). exists (o :: pre), offered, post.
      split_and!; [done..|by constructor].
    + intros ([|o' pre] & offered & post & ? & Ht & Hs & Hf); simplify_eq/=; [congruence|].
      inversion Hf; subst. eauto 10.
Qed.

Lemma first_supported_None offers :
  first_supported offers = None ↔ Forall (λ o, supported (trim o) = false) offers.
Proof.
  induction offers as [|o offers IH]; simpl; [done|].
  rewrite Forall_cons, <- IH. destruct (supported (trim o)); split; [done|by intros []|done|by intros []].
Qed.

(** One version is supported, and a header with it is negotiated. *)
Lemma supported_version v : supported v = true ↔ v = str_bytes DSHELL_VERSION.
Proof. unfold supported. rewrite bool_decide_eq_true. set_solver. Qed.

Lemma negotiate_dshell `{HttpLaws} headers value :
  header_get headers ssh_version = Some value → value_to_str value = Ok (str_bytes DSHELL_VERSION) →
  negotiate_version headers = Ok (MkDshellVersion (str_bytes DSHELL_VERSION)).
Proof. intros Hg Hs. unfold negotiate_version. rewrite Hg. simpl. by rewrite Hs. Qed.

Lemma dshell_value `{HttpLaws} :
  ∃ v, value_from_str (str_bytes DSHELL_VERSION) = Some v ∧
       value_to_str v = Ok (str_bytes DSHELL_VERSION).
Proof. by apply value_of_visible. Qed.

(** ** Properties *)

(** C33: Credentials survive the Authorization header. What the client
    encodes, the server parses, never panicking: the username is what precedes
    the first colon of [username:password], so that every credential whose
    username has no colon is read back, with any password. *)
Theorem basic_auth_roundtrip `{Base64Laws, HttpLaws} (username password u p : text) :
  utf8_valid username = true → utf8_valid password = true →
  username ++ [x3a] ++ password = u ++ [x3a] ++ p → x3a ∉ u →
  ∃ value header, encode_basic_auth username password = Ok value ∧
    value_to_str value = Ok header ∧ parse_authorization_header header = Ok (Basic u p).
Proof.
  intros Hu Hp Heq Hnc. unfold encode_basic_auth.
  set (whole := username ++ [x3a] ++ password) in *.
  destruct (value_of_visible (str_bytes "Basic " ++ b64_encode whole)) as (v & Hv & Hs).
  { rewrite forallb_app, andb_true_iff. split; [done|].
    pose proof (b64_encode_visible whole) as Hvis. unfold visible in Hvis.
    rewrite forallb_forall in *. intros x Hx. specialize (Hvis x Hx).
    rewrite byte_in_spec in *. lia. }
  exists v, (str_bytes "Basic " ++ b64_encode whole). rewrite Hv. split_and!; [done..|].
  unfold parse_authorization_header.
  assert (split_once x20 (str_bytes "Basic " ++ b64_encode whole)
            = Some (str_bytes "Basic", b64_encode whole)) as ->.
  { apply split_once_Some. split; [done|]. apply (bool_decide_unpack _). done. }
  cbn [ok_or and_then]. rewrite decide_False.
  2:{ apply b64_encode_nonempty. unfold whole. by destruct username. }
  rewrite b64_decode_encode. cbn [result_map_err and_then]. unfold from_utf8.
  assert (utf8_valid whole = true) as ->.
  { unfold whole. by repeat apply utf8_valid_app. }
  cbn [result_map_err and_then].
  assert (split_once x3a whole = Some (u, p)) as ->; [|done].
  apply split_once_Some. by rewrite Heq.
Qed.

(** The version negotiated is the first one offered that is supported,
    without the white space around it, where the offers are the parts between
    the commas of the header; and a header without any is refused as a whole. *)
Theorem negotiate_first_supported `{Http} (headers : HeaderMap) (value : HeaderValue) (h : text) :
  header_get headers ssh_version = Some value → value_to_str value = Ok h →
  (∀ v, negotiate_version headers = Ok (MkDshellVersion v) ↔
     ∃ pre offered post, h = join_with [x2c] (pre ++ offered :: post) ∧
       Forall (λ o, x2c ∉ o) (pre ++ offered :: post) ∧ trim offered = v ∧ supported v = true ∧
       Forall (λ o, supported (trim o) = false) pre) ∧
  (∀ e, negotiate_version headers = Err e ↔
     h = [] ∧ e = EmptyDshellVersionHeader ∨
     h ≠ [] ∧ e = UnsupportedDshellVersion h ∧
       ∀ offers, h = join_with [x2c] offers → Forall (λ o, x2c ∉ o) offers →
         Forall (λ o, supported (trim o) = false) offers).
Proof.
  intros Hg Hs. unfold negotiate_version. rewrite Hg. cbn [ok_or and_then]. rewrite Hs.
  cbn [result_map_err and_then].
  assert (∀ offers, Forall (λ o, x2c ∉ o) offers → offers ≠ [] → h = join_with [x2c] offers →
            split_on x2c h = offers) as Hsplit.
  { intros offers Hf Hne ->. clear -Hf Hne. induction Hf as [|o offers Ho Hf IH]; [done|].
    destruct offers as [|o' offers]; [by apply split_on_last|].
    cbn [join_with app]. rewrite split_on_run by done. f_equal. by apply IH. }
  destruct (decide (h = [])) as [->|Hne].
  { split; intros v; (split; [|]); [done| | | ].
    - intros (pre & offered & post & Hj & Hf & Ht & Hv & _). exfalso.
      specialize (Hsplit _ Hf ltac:(by destruct pre) Hj). simpl in Hsplit.
      destruct pre as [|? [|]]; simplify_eq/=.
    - intros [= <-]. by left.
    - by intros [[_ ->]|[? _]]. }
  assert (Forall (λ o, x2c ∉ o) (split_on x2c h)) as Hparts by apply split_on_parts.
  pose proof (split_on_join x2c h) as Hjoin.
  destruct (first_supported (split_on x2c h)) as [v0|] eqn:Hfs.
  - pose proof Hfs as Hfs'. apply first_supported_Some in Hfs as (pre & o & post & Hl & Ht & Hv & Hf).
    split.
    + intros v. split.
      * intros [= <-]. exists pre, o, post. rewrite <- Hl. done.
      * intros (pre' & o' & post' & Hj & Hf' & Ht' & Hv' & Hp').
        rewrite (Hsplit _ Hf' ltac:(by destruct pre') Hj) in Hfs'.
        assert (first_supported (pre' ++ o' :: post') = Some v) as Hv2
          by (apply first_supported_Some; eauto 10).
        congruence.
    + intros e. split; [done|]. intros [[? _]|(_ & _ & Hall)]; [done|].
      specialize (Hall _ (eq_sym Hjoin) Hparts). apply first_supported_None in Hall. congruence.
  - split.
    + intros v. split; [done|]. intros (pre' & o' & post' & Hj & Hf' & Ht' & Hv' & Hp').
      rewrite (Hsplit _ Hf' ltac:(by destruct pre') Hj) in Hfs.
      assert (first_supported (pre' ++ o' :: post') = Some v) as Hv2
        by (apply first_supported_Some; eauto 10).
      congruence.
    + intros e. split.
      * intros [= <-]. right. split_and!; [done..|]. intros offers Hj Hf.
        destruct (decide (offers = [])) as [->|Hno]; [by constructor|].
        rewrite <- (Hsplit offers Hf Hno Hj). by apply first_supported_None.
      * by intros [[? _]|(_ & -> & _)].
Qed.

Section handshake.
Context `{HttpLaws, !H3x, VarIntLaws}.

(** The client's request carries the version and, where the path has no query,
    the path. *)
Lemma client_request_spec authority path authorization req :
  client_connect_request authority path authorization = Ok req →
  (path_only path → uri_path (request_uri req) = path) ∧
  negotiate_version (request_headers req) = Ok (MkDshellVersion (str_bytes DSHELL_VERSION)) ∧
  (∀ value, authorization = Some value →
     header_get (request_headers req) authorization_name = Some value).
Proof.
  unfold client_connect_request. intros (uri & Huri & Hb)%and_then_Ok.
  destruct (parse_uri _) as [u|?|] eqn:Hp; simplify_eq/=.
  destruct (build_request _) as [r|?|] eqn:Hr; simplify_eq/=.
  split_and!.
  - intros Hpath. rewrite (build_request_uri _ _ Hr). simpl. exact (parse_uri_path authority path uri Hpath Hp).
  - destruct dshell_value as (v & Hv & Hs). apply (negotiate_dshell _ v); [|done].
    by rewrite (build_request_header _ _ ssh_version (HeaderStr (str_bytes DSHELL_VERSION)) Hr eq_refl).
  - intros value ->. by rewrite (build_request_header _ _ authorization_name (HeaderVal value) Hr eq_refl).
Qed.

Lemma open_on_session_ok session v w w' conv :
  open_on_session session v w = (w', Ok conv) →
  conv_peer_version conv = v ∧ conv_session conv = session ∧
  ∃ r wr, session_open_bi session w = (w', Ok (r, wr)) ∧ (conv_control conv).1 = r ∧
    wr_out (conv_control conv).2 = wr_out wr ++ varint_bytes DSHELL_CONTROL_STREAM_KIND.
Proof.
  unfold open_on_session, open, on_bi, open_stream_kind. intros Hs.
  destruct (session_open_bi session w) as [w1 bi]. destruct bi as [[r wr]|e|]; simplify_eq/=.
  unfold on_writer, io_zoom, map_err in Hs. simpl in Hs.
  destruct (write_stream_kind DSHELL_CONTROL_STREAM_KIND wr) as [wr' x] eqn:Hk.
  destruct x as [[]|e|]; simplify_eq/=. split_and!; [done..|]. exists r, wr. split_and!; [done..|].
  by apply (writes_full (write_stream_kind_writes 0 (msg_ok 0 eq_refl))) in Hk as [Ho _].
Qed.

(** C38: A conversation is only opened at an agreed version. If the client's
    call returns a conversation, the server answered with success and with a
    version the client supports, which is the conversation's, and the control
    stream has been started with its kind. If the server's call returns a
    session, the request was for its path and offered that version, which the
    response names. *)
Theorem handshake_sound (authority : Authority) (path : text) (authorization : option HeaderValue)
    (req : Request) (w w' : Network) :
  (∀ conv, open_client_conversation authority path authorization w = (w', Ok conv) →
     ∃ req response v w1 r wr, client_connect_request authority path authorization = Ok req ∧
       execute_hyper_request req w = (w1, Ok response) ∧ response_success response = true ∧
       negotiate_version (response_headers response) = Ok v ∧
       conv_peer_version conv = version_string v ∧ supported (version_string v) = true ∧
       conv_control conv = (r, wr) ∧
       varint_bytes DSHELL_CONTROL_STREAM_KIND `suffix_of` wr_out wr) ∧
  (∀ acc, accept_server_session req path w = (w', Ok acc) →
     uri_path (request_uri req) = path ∧
     negotiate_version (request_headers req) = Ok (MkDshellVersion (acc_peer_version acc)) ∧
     supported (acc_peer_version acc) = true ∧
     negotiate_version (response_headers (acc_response acc))
       = Ok (MkDshellVersion (acc_peer_version acc))).
Proof.
  assert (∀ headers v, negotiate_version headers = Ok v → supported (version_string v) = true)
    as Hsup.
  { intros headers v. unfold negotiate_version. intros (value & _ & (h & _ & Hh)%and_then_Ok)%and_then_Ok.
    destruct (decide _); [done|]. destruct (first_supported _) eqn:Hf; simplify_eq/=.
    by apply first_supported_Some in Hf as (? & ? & ? & _ & _ & ? & _). }
  split.
  - intros conv Hc. unfold open_client_conversation in Hc. io_inv.
    repeat match goal with
    | Hx : result_map_err _ ?x = Ok _ |- _ => destruct x eqn:?; [|discriminate..]; simplify_eq/=
    end.
    destruct (response_success _) eqn:Hok.
    2:{ unfold io_ret in *. simplify_eq/=. }
    io_inv.
    repeat match goal with
    | Hx : result_map_err _ ?x = Ok _ |- _ => destruct x eqn:?; [|discriminate..]; simplify_eq/=
    end.
    match goal with Ho : open_on_session _ _ _ = _ |- _ =>
      apply open_on_session_ok in Ho as (Hv & _ & r & wr & _ & _ & Hw) end.
    destruct (conv_control conv) as [r' wr'] eqn:Hcc. simpl in Hw.
    eexists _, _, _, _, r', wr'. split_and!; [done..|by eapply Hsup|done|].
    rewrite Hw. by eexists.
  - intros acc Hc. unfold accept_server_session in Hc.
    destruct (bool_decide _) eqn:Hpath; [|done]. apply bool_decide_eq_true in Hpath. simpl in Hc.
    io_inv. repeat match goal with
    | Hx : result_map_err _ ?x = Ok _ |- _ => destruct x eqn:?; [|discriminate..]; simplify_eq/=
    | Hx : (let (_, _) := ?p in _) _ = _ |- _ => destruct p
    end.
    io_inv. simpl. match goal with Hv : peer_version _ = Ok ?v |- _ =>
      pose proof (Hsup _ _ Hv) as Hs; destruct v as [v]; simpl in * end.
    split_and!; [done..|]. apply supported_version in Hs as ->.
    destruct dshell_value as (value & Hval & Hstr).
    unfold version_response_header in *. simpl in *. rewrite Hval in *. simplify_eq/=.
    rewrite response_headers_with. by eapply negotiate_dshell; [apply header_get_insert|].
Qed.

(** C18: Client and server of the same code agree. The request the client
    builds for a path without a query is accepted at that path: the server does
    not refuse the path or the version, and the session has the client's
    version. When the response the server made succeeds and reaches the client,
    it passes the client's check too: the client goes on to establish the
    session and to open the conversation at the server's version. *)
Theorem handshake_agrees (authority : Authority) (path : text) (authorization : option HeaderValue)
    (req : Request) (w : Network) :
  path_only path → client_connect_request authority path authorization = Ok req →
  match accept_server_session req path w with
  | (_, Ok acc) =>
    acc_peer_version acc = str_bytes DSHELL_VERSION ∧
    ∀ w0 w1, execute_hyper_request req w0 = (w1, Ok (acc_response acc)) →
      response_success (acc_response acc) = true →
      open_client_conversation authority path authorization w0 =
      (let! connect := establish (acc_response acc) <?> Establish in
       let! session := session_try_from connect <?> RegisterSession in
       open_on_session session (acc_peer_version acc) <?> OpenConversation) w1
  | (_, Err e) => (∃ a, e = AcceptFailed a) ∨ (∃ r, e = AcceptRegisterSession r)
  | (_, Panic) =>
    (accept_connect req w).2 = Panic ∨ ∃ connect w1, (session_try_from connect w1).2 = Panic
  end.
Proof.
  intros Hpath Hreq. destruct (client_request_spec _ _ _ _ Hreq) as (Hp & Hv & _).
  specialize (Hp Hpath). destruct dshell_value as (value & Hval & Hstr).
  unfold accept_server_session, peer_version. rewrite bool_decide_eq_true_2 by done. simpl.
  rewrite Hv. cbn [result_map_err]. unfold io_bind, io_lift, map_err, io_ret.
  destruct (accept_connect req w) as [w2 [[response connect]|a|]]; simpl; [|by eauto..].
  destruct (session_try_from connect w2) as [w3 [session|r|]] eqn:Hs; simpl; [|by eauto|].
  2:{ right. exists connect, w2. by rewrite Hs. }
  unfold version_response_header. cbn [version_string]. rewrite Hval. simpl. split; [done|].
  intros w0 w1 Hex Hsucc. unfold open_client_conversation. rewrite Hreq. simpl.
  unfold io_bind, io_lift, map_err. simpl. rewrite Hex. simpl. rewrite Hsucc.
  unfold peer_version. rewrite response_headers_with.
  rewrite (negotiate_dshell _ value (header_get_insert _ _ _) Hstr). simpl.
  unfold io_ret. by destruct (establish _ w1) as [w4 [?|?|]].
Qed.
End handshake.

(** ** Instances and witnesses

    Sixteen letters instead of sixty-four; header maps as association lists;
    a network that hands the request over. *)

Definition nibble (z : Z) : byte := z2b (97 + z).
Fixpoint hex_encode (bs : list byte) : text :=
  match bs with [] => [] | b :: bs => nibble (b2z b / 16) :: nibble (b2z b mod 16) :: hex_encode bs end.
Fixpoint hex_decode (s : text) : result (list byte) () :=
  match s with
  | [] => Ok []
  | [_] => Err ()
  | a :: b :: s => let? bs := hex_decode s in Ok (z2b ((b2z a - 97) * 16 + (b2z b - 97)) :: bs)
  end.
#[local] Instance hex : Base64 :=
  {| DecodeError := (); b64_encode := hex_encode; b64_decode := hex_decode |}.

Lemma nibbles b : b2z (nibble (b2z b / 16)) = 97 + b2z b / 16 ∧
  b2z (nibble (b2z b mod 16)) = 97 + b2z b mod 16 ∧ 0 ≤ b2z b / 16 < 16 ∧ 0 ≤ b2z b mod 16 < 16.
Proof.
  pose proof (b2z_range b). pose proof (Z.mod_pos_bound (b2z b) 16 ltac:(lia)).
  assert (0 ≤ b2z b / 16 < 16)
    by (split; [apply Z.div_pos|apply Z.div_lt_upper_bound]; lia).
  unfold nibble. by rewrite !b2z_z2b_small by lia.
Qed.

#[local] Instance hex_laws : Base64Laws.
Proof.
  split; simpl.
  - induction bs as [|b bs IH]; [done|]. cbn [hex_encode hex_decode]. rewrite IH. simpl.
    destruct (nibbles b) as (-> & -> & _). rewrite <- (z2b_b2z b) at 3. do 3 f_equal.
    rewrite (Z.div_mod (b2z b) 16) at 3 by lia. lia.
  - unfold visible. induction bs as [|b bs IH]; [done|]. cbn [hex_encode forallb]. rewrite IH.
    destruct (nibbles b) as (H1 & H2 & ? & ?). rewrite andb_true_r. apply andb_true_intro.
    by rewrite !byte_in_spec, H1, H2; lia.
  - by intros [].
Qed.

Abbreviation Headers := (list (text * text)).
Definition find_header (m : Headers) (name : text) : option text :=
  snd ∘ snd <$> list_find (λ h, h.1 = name) m.
Definition strip_uri (s : text) : text :=
  match strip_prefix (str_bytes "https://example.org") s with Some p => p | None => [] end.
Definition value_ok (s : text) : option text :=
  if forallb (byte_in 32 126) s then Some s else None.
Definition header_text (a : HeaderArg text) : option text :=
  match a with HeaderStr s => value_ok s | HeaderVal v => Some v end.
#[local] Instance plain_http : Http := {|
  HeaderValue := text;
  ToStrError := ();
  value_from_str := value_ok;
  value_to_str v := if forallb (byte_in 32 126) v then Ok v else Err ();
  HeaderMap := Headers;
  header_get := find_header;
  header_insert name v m := (name, v) :: m;
  Authority := ();
  authority_fmt _ := str_bytes "example.org";
  Uri := text;
  InvalidUri := ();
  parse_uri s := match strip_prefix (str_bytes "https://example.org") s with
                 | Some p => Ok p | None => Err () end;
  uri_path u := u;
  Request := RequestParts text text * Headers;
  HttpError := ();
  build_request p :=
    match mapM (λ h, v ← header_text h.2; Some (h.1, v)) (rp_headers p) with
    | Some hs => Ok (p, hs)
    | None => Err ()
    end;
  request_uri r := rp_uri r.1;
  request_headers r := r.2;
  Response := bool * Headers;
  response_success r := r.1;
  response_headers r := r.2;
  response_with_headers f r := (r.1, f r.2);
|}.

Lemma find_header_built (l : list (text * HeaderArg text)) hs name a :
  mapM (λ h, v ← header_text h.2; Some (h.1, v)) l = Some hs →
  snd <$> list_find (λ h, h.1 = name) l = Some (name, a) →
  find_header hs name = header_text a.
Proof.
  revert hs. induction l as [|[n x] l IH]; intros hs; simpl; [done|].
  destruct (header_text x) as [v|] eqn:Hv; [|done]. simpl.
  destruct (mapM _ l) as [hs'|] eqn:Hl; [|done]. simpl. intros [= <-].
  specialize (IH hs' eq_refl). unfold find_header in *. simpl.
  destruct (decide (n = name)) as [Hn|Hn]; repeat case_decide; try done; simpl.
  - intros Hf. injection Hf as _ <-. by rewrite Hv.
  - intros Hf. destruct (list_find (λ h, h.1 = name) l) as [[i y]|]; [|done]. simpl in *.
    rewrite <- IH by done. by destruct (list_find _ hs') as [[? ?]|].
Qed.

#[local] Instance plain_http_laws : HttpLaws.
Proof.
  split; simpl.
  - intros s Hs. exists s. unfold value_ok. by rewrite Hs.
  - intros name v m. unfold find_header. simpl. by rewrite decide_True.
  - by intros [] path u _ [= <-].
  - intros p r. destruct (mapM _ _); [|done]. intros [= <-]. done.
  - intros p r name a. destruct (mapM _ _) as [hs|] eqn:Hm; [|done]. intros [= <-] Hf. simpl.
    by eapply find_header_built.
  - done.
Qed.

(** A network without a state of its own: every request succeeds. *)
#[local] Instance direct : H3x := {|
  Network := ();
  WEBTRANSPORT_H3 := str_bytes "webtransport-h3";
  Connect := ();
  Session := ();
  RequestError := ();
  EstablishError := ();
  AcceptError := ();
  RegisterSessionError := ();
  OpenStreamError := ();
  AcceptStreamError := ();
  execute_hyper_request r := io_ret (true, [(ssh_version, str_bytes DSHELL_VERSION)]);
  establish r := io_ret ();
  accept_connect r := io_ret ((true, []), ());
  session_try_from c := io_ret ();
  session_open_bi s w := (w, Ok (MkReader [] None, new_writer));
|}.
#[local] Existing Instance quic_varint.
#[local] Existing Instance quic_varint_laws.

Lemma basic_auth_roundtrip_witness :
  ∃ value header, encode_basic_auth (str_bytes "al:ice") (str_bytes "s3:ret") = Ok value ∧
    value_to_str value = Ok header ∧
    parse_authorization_header header = Ok (Basic (str_bytes "al") (str_bytes "ice:s3:ret")).
Proof.
  apply (basic_auth_roundtrip (str_bytes "al:ice") (str_bytes "s3:ret"));
    [reflexivity..|apply (bool_decide_unpack _); reflexivity].
Defined.

Definition offer : Headers := [(ssh_version, str_bytes "unknown-v1 , dshell-00,x")].

Lemma negotiate_first_supported_witness :
  negotiate_version offer = Ok (MkDshellVersion (str_bytes "dshell-00")) ∧
  (∀ v, negotiate_version offer = Ok (MkDshellVersion v) ↔
     ∃ pre o post, str_bytes "unknown-v1 , dshell-00,x" = join_with [x2c] (pre ++ o :: post) ∧
       Forall (λ o, x2c ∉ o) (pre ++ o :: post) ∧ trim o = v ∧ supported v = true ∧
       Forall (λ o, supported (trim o) = false) pre).
Proof.
  split; [vm_compute; reflexivity|].
  exact (proj1 (negotiate_first_supported offer (str_bytes "unknown-v1 , dshell-00,x") _
                  eq_refl eq_refl)).
Defined.

Definition ssh_path : text := str_bytes "/ssh/yiyue".
Lemma ssh_path_only : path_only ssh_path.
Proof. split_and!; [by eexists|apply (bool_decide_unpack _); reflexivity..]. Qed.

Definition sample_request : Request :=
  (MkRequestParts (str_bytes "CONNECT") ssh_path
     [(ssh_version, HeaderStr (str_bytes DSHELL_VERSION))] (str_bytes "webtransport-h3"),
   [(ssh_version, str_bytes DSHELL_VERSION)]).

Definition sample_accepted : AcceptedWebTransportSession :=
  MkAccepted ((true, [(ssh_version, str_bytes DSHELL_VERSION)]) : Response) () (str_bytes DSHELL_VERSION).
Lemma sample_accept : accept_server_session sample_request ssh_path () = ((), Ok sample_accepted).
Proof. reflexivity. Qed.
Lemma sample_built : client_connect_request () ssh_path None = Ok sample_request.
Proof. reflexivity. Qed.

Lemma handshake_agrees_witness :
  path_only ssh_path ∧ acc_peer_version sample_accepted = str_bytes DSHELL_VERSION ∧
  ∀ w0 w1, execute_hyper_request sample_request w0 = (w1, Ok (acc_response sample_accepted)) →
    response_success (acc_response sample_accepted) = true →
    open_client_conversation () ssh_path None w0 =
    (let! connect := establish (acc_response sample_accepted) <?> Establish in
     let! session := session_try_from connect <?> RegisterSession in
     open_on_session session (acc_peer_version sample_accepted) <?> OpenConversation) w1.
Proof.
  split; [exact ssh_path_only|].
  pose proof (handshake_agrees () ssh_path None sample_request () ssh_path_only sample_built) as H.
  rewrite sample_accept in H. exact H.
Defined.

Definition sample_conversation : ClientConversation :=
  MkConversation () (str_bytes DSHELL_VERSION)
    (fst (open_stream_kind (OE := OpenStreamError) (AE := AcceptStreamError)
            DSHELL_CONTROL_STREAM_KIND (MkReader [] None, new_writer))).
Lemma sample_opened : open_client_conversation () ssh_path None () = ((), Ok sample_conversation).
Proof. reflexivity. Qed.

Lemma handshake_sound_witness :
  supported (conv_peer_version sample_conversation) = true ∧
  supported (acc_peer_version sample_accepted) = true ∧
  uri_path (request_uri sample_request) = ssh_path.
Proof.
  destruct (handshake_sound (H := plain_http) (H1 := direct) () ssh_path None sample_request () ()) as [Hc Hs].
  destruct (Hc _ sample_opened) as (_ & _ & v & _ & _ & _ & _ & _ & _ & _ & Hv & Hv' & _).
  destruct (Hs _ sample_accept) as (? & _ & ? & _). by rewrite Hv.
Defined.
