(* ===== verification/Bootstrap.v ===== *)
(** * The messages between the parent and the process of a session

    The module [server] of [src/src/session/mod.rs]: what the parent sends to
    the child that authenticates the user and serves the session, and the
    errors that come back. [CallError] is remoc's, the bootstrap of the
    WebTransport session h3x's. A remote function [RFnOnce<(A,), Result<R, E>>]
    is what its call returns: a call that does not reach the child fails with a
    [CallError], which becomes an [E] by the [From] of that error. *)
From Stdlib Require Import ZArith Lia Strings.Byte.
From stdpp Require Import base list strings gmap fin_maps relations.
From S2P Require Import Prelude Text Handshake.

Module auth_error.
Inductive AuthError (CallError : Type) :=
| PamFailed (reason : text)
| UserNotFound (username : text)
| RemoteCall (source : CallError).
#[global] Arguments PamFailed {CallError}.
#[global] Arguments UserNotFound {CallError}.
#[global] Arguments RemoteCall {CallError}.
End auth_error.
Abbreviation AuthError := auth_error.AuthError.

Module session_run_error.
Inductive SessionRunError (CallError : Type) :=
| DropPrivileges (reason : text)
| ConversationBuild (reason : text)
| Session (reason : text)
| RemoteCall (source : CallError).
#[global] Arguments DropPrivileges {CallError}.
#[global] Arguments ConversationBuild {CallError}.
#[global] Arguments Session {CallError}.
#[global] Arguments RemoteCall {CallError}.
End session_run_error.
Abbreviation SessionRunError := session_run_error.SessionRunError.

Section bootstrap.
Context {CallError WebTransportSessionBootstrap World : Type}.

(** The [From] that lifts the error of a call into the error of its function. *)
Class FromCallError (E : Type) := from_call_error : CallError → E.
#[export] Instance AuthError_from : FromCallError (AuthError CallError) := auth_error.RemoteCall.
#[export] Instance SessionRunError_from : FromCallError (SessionRunError CallError) :=
  session_run_error.RemoteCall.

Definition auth_error_display (e : AuthError CallError) : text :=
  match e with
  | auth_error.PamFailed reason => str_bytes "PAM authentication failed: " ++ reason
  | auth_error.UserNotFound username => str_bytes "user not found: " ++ username
  | auth_error.RemoteCall _ => str_bytes "remote call failed"
  end.

Definition session_run_error_display (e : SessionRunError CallError) : text :=
  match e with
  | session_run_error.DropPrivileges reason => str_bytes "failed to drop privileges: " ++ reason
  | session_run_error.ConversationBuild reason =>
    str_bytes "failed to build conversation: " ++ reason
  | session_run_error.Session reason => str_bytes "session dispatcher failed: " ++ reason
  | session_run_error.RemoteCall _ => str_bytes "remote call failed"
  end.

Record AuthRequest := MkAuthRequest {
  auth_username : text;
  auth_credential : AuthCredential;
}.

Record SessionBootstrap := MkSessionBootstrap {
  boot_webtransport_session : WebTransportSessionBootstrap;
  boot_peer_version : text;
}.

(** [RFnOnce]: the body runs in the child, on what is there; a call that does
    not come back has a [CallError]. *)
Definition RFnOnce (A R E : Type) : Type := A → World → World * (CallError + result R E).

Definition StartSessionFn : Type := RFnOnce SessionBootstrap () (SessionRunError CallError).

Record AuthenticatedSession := MkAuthenticatedSession {
  start_session : StartSessionFn;
}.

Definition AuthenticateFn : Type :=
  RFnOnce AuthRequest AuthenticatedSession (AuthError CallError).

(** What the parent gets from a call. *)
Definition call {A R E} `{FromCallError E} (f : RFnOnce A R E) (a : A) : Io World E R := λ w,
  let '(w', x) := f a w in
  (w', match x with inl e => Err (from_call_error e) | inr r => r end).
End bootstrap.

(** A parent has a session to start exactly when the child answered its request
    with one: no failure of the call is taken for an authentication. *)
Lemma session_after_authentication {C B World}
    (f : AuthenticateFn (CallError := C) (WebTransportSessionBootstrap := B) (World := World))
    (r : AuthRequest) (w w' : World) (s : AuthenticatedSession) :
  call f r w = (w', Ok s) ↔ f r w = (w', inr (Ok s)).
Proof.
  unfold call. destruct (f r w) as [w1 [e|[]]]; split; intros Hc; inversion Hc; done.
Qed.
