(* ===== verification/Command.v ===== *)
(** * The command of a session ([CommandMode] and [build_env] of [src/src/session/process.rs])

    Program, arguments and environment of the process a session runs. *)
From Stdlib Require Import ZArith Lia Strings.Byte.
From stdpp Require Import base list strings gmap fin_maps relations.
From S2P Require Import Prelude Text Accounts.
Local Open Scope Z_scope.

Abbreviation text := (list byte) (only parsing).

(** ** [CommandMode] *)

Inductive CommandMode :=
| Exec (shell : text) (command : list byte)
| Shell (shell : text).

Definition program (self : CommandMode) : text :=
  match self with Exec shell _ | Shell shell => shell end.

Definition args (self : CommandMode) : list (list byte) :=
  match self with
  | Exec _ command => [str_bytes "-c"; command]
  | Shell _ => []
  end.

(** [Path::file_name]: the last component, when it is a name; empty components
    and ["."] after the first are not components. *)
Definition file_name (path : text) : option text :=
  match last (filter (λ c, c ≠ [] ∧ c ≠ str_bytes ".") (split_on x2f path)) with
  | Some c => if decide (c = str_bytes "..") then None else Some c
  | None => None
  end.

Definition argv0 (self : CommandMode) : text :=
  let basename := default (program self) (file_name (program self)) in
  match self with
  | Shell _ => str_bytes "-" ++ basename
  | Exec _ _ => basename
  end.

(** ** /etc/environment *)

(** [str::lines]: a line ends at LF or CR LF; nothing follows the last end. *)
Definition strip_cr (l : text) : text :=
  match reverse l with x0d :: r => reverse r | _ => l end.
Definition str_lines (s : text) : list text :=
  let ps := split_on x0a s in
  map strip_cr (match last ps with Some [] => removelast ps | _ => ps end).

Definition quoted_by (q : byte) (value : text) : bool :=
  bool_decide (head value = Some q) && bool_decide (last value = Some q).

Definition environment_line (line : text) : option (text * text) :=
  let line := trim line in
  if decide (line = [] ∨ head line = Some x23) then None
  else
    match split_once x3d line with
    | Some (key, value) =>
      let key := trim key in
      let value := trim value in
      let value :=
        if (2 <=? length value)%nat && (quoted_by x22 value || quoted_by x27 value)
        then removelast (tail value) else value in
      if decide (key = []) then None else Some (key, value)
    | None => None
    end.

(** [content] is the file, when it can be read as text. *)
Definition read_environment_file (content : option text) : list (text * text) :=
  match content with
  | Some content => omap environment_line (str_lines content)
  | None => []
  end.

(** ** The environment *)

(** What the server's own environment and files hold. *)
Record Host := MkHost {
  env_tz : option text;
  env_lang : option text;
  etc_environment : option text;
}.

Definition env_pair (kv : string * string) : text * text := (str_bytes kv.1, str_bytes kv.2).

Definition path_for (uid : Z) : string :=
  if uid =? 0 then "/usr/local/sbin:/usr/local/bin:/usr/sbin:/usr/bin:/sbin:/bin"
  else "/usr/local/bin:/usr/bin:/bin".

Definition baseline (user : UserInfo) : list (text * text) :=
  map env_pair
    [("USER", ui_username user); ("LOGNAME", ui_username user); ("HOME", ui_home user);
     ("SHELL", ui_shell user); ("PATH", path_for (ui_uid user));
     ("MAIL", "/var/mail/" +:+ ui_username user)]%string.

Definition optional_var (name : string) (v : option text) : list (text * text) :=
  match v with Some v => [(str_bytes name, v)] | None => [] end.

Definition build_env (host : Host) (user : UserInfo) (term : option text)
    (client_env : list (text * text)) : list (text * text) :=
  baseline user ++ optional_var "TERM" term ++ optional_var "TZ" (env_tz host) ++
  optional_var "LANG" (env_lang host) ++ read_environment_file (etc_environment host) ++
  map env_pair (ui_pam_env user) ++ client_env.

(** [Command::envs]: the last value of a key stays. *)
Fixpoint env_get (k : text) (env : list (text * text)) : option text :=
  match env with
  | [] => None
  | (k', v) :: env =>
    match env_get k env with
    | Some v => Some v
    | None => if decide (k' = k) then Some v else None
    end
  end.

(** ** The command *)

(** What runs in the child before the program: [setpgid], [setsid], and the
    [ioctl] that takes the controlling terminal. *)
Inductive PreExec := Setpgid (pid pgid : Z) | Setsid | SetControllingTty (fd : Z).

Inductive ChildStdio (Fd : Type) := PipedStdio | FdStdio (stdin stdout stderr : Fd).
Arguments PipedStdio {Fd}.
Arguments FdStdio {Fd}.

(** [tokio::process::Command], with its environment cleared and set. *)
Record ChildCommand (Fd : Type) := MkChildCommand {
  cc_program : text;
  cc_arg0 : text;
  cc_args : list (list byte);
  cc_env : list (text * text);
  cc_current_dir : text;
  cc_stdio : ChildStdio Fd;
  cc_pre_exec : list PreExec;
}.
Arguments MkChildCommand {Fd}.
Arguments cc_program {Fd}.
Arguments cc_arg0 {Fd}.
Arguments cc_args {Fd}.
Arguments cc_env {Fd}.
Arguments cc_current_dir {Fd}.
Arguments cc_stdio {Fd}.
Arguments cc_pre_exec {Fd}.

Definition current_dir (is_dir : string → bool) (user : UserInfo) : text :=
  if is_dir (ui_home user) then str_bytes (ui_home user) else str_bytes "/".

Section command.
Context {Fd : Type} (host : Host) (is_dir : string → bool) (mode : CommandMode) (user : UserInfo)
  (term : option text) (client_env : list (text * text)).

Definition command (stdio : ChildStdio Fd) (pre_exec : list PreExec) : ChildCommand Fd :=
  MkChildCommand (program mode) (argv0 mode) (args mode) (build_env host user term client_env)
    (current_dir is_dir user) stdio pre_exec.
Definition piped_command : ChildCommand Fd := command PipedStdio [Setpgid 0 0].
Definition pty_command (stdin stdout stderr : Fd) : ChildCommand Fd :=
  command (FdStdio stdin stdout stderr) [Setsid; SetControllingTty 0].
End command.

(** ** Lemmas *)

Lemma env_get_app k a b :
  env_get k (a ++ b) = match env_get k b with Some v => Some v | None => env_get k a end.
Proof.
  induction a as [|[k' v] a IH]; [simpl; by destruct (env_get k b)|]. simpl. rewrite IH.
  by destruct (env_get k b).
Qed.

Lemma split_on_snoc c s t : split_on c (s ++ c :: t) = split_on c s ++ split_on c t.
Proof.
  induction s as [|b s IH]; simpl.
  { by rewrite bool_decide_eq_true_2. }
  case_bool_decide; [by rewrite IH|]. rewrite IH.
  destruct (split_on c s) eqn:Hs; [by apply split_on_nonempty in Hs|]. done.
Qed.

(** Lines that are all terminated. *)
Lemma str_lines_cons l s :
  x0a ∉ l → str_lines (l ++ x0a :: s) = strip_cr l :: str_lines s.
Proof.
  intros Hl. unfold str_lines. rewrite split_on_snoc, (split_on_last _ l Hl).
  pose proof (split_on_nonempty x0a s) as Hn.
  destruct (split_on x0a s) as [|p ps]; [done|]. cbn [app].
  change (last (l :: p :: ps)) with (last (p :: ps)).
  change (removelast (l :: p :: ps)) with (l :: removelast (p :: ps)).
  by destruct (last (p :: ps)) as [[]|].
Qed.

Lemma strip_cr_visible l b : b ≠ x0d → strip_cr (l ++ [b]) = l ++ [b].
Proof. intros Hb. unfold strip_cr. rewrite reverse_app. by destruct b. Qed.

Lemma trim_start_visible b t : byte_in 33 126 b = true → trim_start (b :: t) = b :: t.
Proof.
  rewrite byte_in_spec. intros Hb.
  assert (∀ lo hi, hi < 33 ∨ 126 < lo → byte_in lo hi b = false) as Hn
    by (intros lo hi Hr; apply not_true_is_false; rewrite byte_in_spec; lia).
  cbn [trim_start]. unfold ascii_whitespace, whitespace2, whitespace3.
  rewrite !Hn by lia. simpl. destruct t as [|b1 t1]; [done|]. by destruct t1.
Qed.

(** Text between two visible characters is not trimmed. *)
Lemma trim_visible a b s :
  byte_in 33 126 a = true → byte_in 33 126 b = true → trim (a :: s ++ [b]) = a :: s ++ [b].
Proof.
  intros Ha Hb. unfold trim. rewrite trim_start_visible by done.
  pose proof (trim_end_blanks (a :: s) b [] Hb eq_refl) as Ht. exact Ht.
Qed.
Lemma trim_one a : byte_in 33 126 a = true → trim [a] = [a].
Proof.
  intros Ha. unfold trim. rewrite trim_start_visible by done.
  exact (trim_end_blanks [] a [] Ha eq_refl).
Qed.

(** ** /etc/environment as it is written *)

Definition visible (b : byte) : bool := byte_in 33 126 b.

(** A line [KEY="value"]. *)
Definition environment_entry (kv : text * text) : text :=
  kv.1 ++ x3d :: x22 :: kv.2 ++ [x22; x0a].
Definition entry_ok (kv : text * text) : Prop :=
  kv.1 ≠ [] ∧ forallb visible kv.1 = true ∧ (x3d ∉ kv.1) ∧ head kv.1 ≠ Some x23 ∧ x0a ∉ kv.2.

Lemma visible_newline k : forallb visible k = true → x0a ∉ k.
Proof.
  intros Hk Hin%list_elem_of_In. rewrite forallb_forall in Hk. by apply Hk in Hin.
Qed.
Lemma visible_snoc k : forallb visible k = true → k ≠ [] →
  ∃ a s b, visible a = true ∧ visible b = true ∧ (k = [a] ∨ k = a :: s ++ [b]).
Proof.
  intros Hk Hn. destruct k as [|a k]; [done|]. simpl in Hk. apply andb_prop in Hk as [Ha Hk].
  destruct k as [|b s _] using rev_ind.
  - exists a, [], a. auto.
  - rewrite forallb_app in Hk. apply andb_prop in Hk as [_ Hb]. simpl in Hb.
    apply andb_prop in Hb as [Hb _]. exists a, s, b. auto.
Qed.

Lemma trim_all_visible k : forallb visible k = true → trim k = k.
Proof.
  intros Hk. destruct (decide (k = [])) as [->|Hn]; [done|].
  destruct (visible_snoc k Hk Hn) as (a & s & b & Ha & Hb & [->| ->]);
    [by apply trim_one|by apply trim_visible].
Qed.

Lemma environment_line_entry kv :
  entry_ok kv → environment_line (strip_cr (kv.1 ++ x3d :: x22 :: kv.2 ++ [x22])) = Some kv.
Proof.
  destruct kv as [k v]. intros (Hn & Hvis & Heq & Hhash & Hv). cbn [fst snd] in *.
  assert (k ++ x3d :: x22 :: v ++ [x22] = (k ++ x3d :: x22 :: v) ++ [x22]) as Hline
    by by rewrite <- (assoc_L (++)).
  rewrite Hline, strip_cr_visible by done. rewrite <- Hline.
  destruct k as [|a k]; [done|]. unfold environment_line.
  assert (visible a = true) as Ha by (simpl in Hvis; by apply andb_prop in Hvis as [? _]).
  assert (trim ((a :: k) ++ x3d :: x22 :: v ++ [x22]) = (a :: k) ++ x3d :: x22 :: v ++ [x22]) as ->.
  { rewrite Hline. exact (trim_visible a x22 (k ++ x3d :: x22 :: v) Ha eq_refl). }
  rewrite decide_False by (by intros [|]).
  assert (split_once x3d ((a :: k) ++ x3d :: x22 :: v ++ [x22]) = Some (a :: k, x22 :: v ++ [x22])) as ->
    by by apply split_once_Some.
  rewrite (trim_all_visible _ Hvis), (trim_visible x22 x22) by done. unfold quoted_by.
  rewrite (app_comm_cons v [x22] x22), last_snoc, !bool_decide_eq_true_2 by done.
  rewrite decide_False by done. cbn [tail app andb orb]. rewrite removelast_last.
  rewrite length_cons, length_app. destruct (Nat.leb_spec 2 (S (length v + length [x22]))); [done|simpl in *; lia].
Qed.

(** ** Properties *)

(** /etc/environment is read as it is written. A file of lines KEY="value",
    in which no key is empty, starts with [#] or holds [=] or characters that are
    not visible ASCII, and values are any text on one line, quotes and blanks
    included, gives its pairs in order. *)
Theorem environment_roundtrip (kvs : list (text * text)) :
  Forall entry_ok kvs →
  read_environment_file (Some (concat (map environment_entry kvs))) = kvs.
Proof.
  unfold read_environment_file. induction 1 as [|[k v] kvs Hkv Hkvs IH]; [done|].
  cbn [map concat]. unfold environment_entry at 1. cbn [fst snd].
  pose proof Hkv as (Hn & Hvis & Heq & Hhash & Hv). cbn [fst snd] in *.
  assert ((k ++ x3d :: x22 :: v ++ [x22; x0a]) ++ concat (map environment_entry kvs)
    = (k ++ x3d :: x22 :: v ++ [x22]) ++ x0a :: concat (map environment_entry kvs)) as ->
    by (rewrite <- !(assoc_L (++)); cbn [app]; rewrite <- !(assoc_L (++)); reflexivity).
  rewrite str_lines_cons.
  2:{ apply visible_newline in Hvis. rewrite not_elem_of_app, !not_elem_of_cons, not_elem_of_app.
      set_solver. }
  cbn [omap list_omap]. pose proof (environment_line_entry (k, v) Hkv) as He. cbn [fst snd] in He.
  rewrite He. by rewrite IH.
Qed.

(** Who decides a variable of the session. A value the client asked for
    stands, whatever the account says; without one the PAM session's stands, then
    /etc/environment, then the server's LANG and TZ and the terminal type; what
    none of these sets is the account's own: user, home, shell, mail and the path
    for root or for others, and nothing else of the server's environment. *)
Theorem build_env_precedence (host : Host) (user : UserInfo) (term : option text)
    (client_env : list (text * text)) (k : text) :
  let pam := env_get k (map env_pair (ui_pam_env user)) in
  let file := env_get k (read_environment_file (etc_environment host)) in
  let result := env_get k (build_env host user term client_env) in
  match env_get k client_env, pam, file with
  | Some v, _, _ | None, Some v, _ | None, None, Some v => result = Some v
  | None, None, None =>
    result =
      if decide (k = str_bytes "LANG") then env_lang host
      else if decide (k = str_bytes "TZ") then env_tz host
      else if decide (k = str_bytes "TERM") then term
      else if decide (k = str_bytes "MAIL") then Some (str_bytes ("/var/mail/" +:+ ui_username user))
      else if decide (k = str_bytes "PATH") then Some (str_bytes (path_for (ui_uid user)))
      else if decide (k = str_bytes "SHELL") then Some (str_bytes (ui_shell user))
      else if decide (k = str_bytes "HOME") then Some (str_bytes (ui_home user))
      else if decide (k = str_bytes "LOGNAME" ∨ k = str_bytes "USER")
      then Some (str_bytes (ui_username user)) else None
  end.
Proof.
  cbv zeta. unfold build_env. rewrite !env_get_app.
  destruct (env_get k client_env); [done|]. destruct (env_get k (map env_pair _)); [done|].
  destruct (env_get k (read_environment_file _)); [done|].
  assert (∀ name v, env_get k (optional_var name v)
          = if decide (k = str_bytes name) then v else None) as Hopt.
  { intros name [v|]; cbn [optional_var env_get]; repeat case_decide; congruence. }
  rewrite !Hopt. unfold baseline, env_pair. cbn [map fst snd env_get].
  destruct (decide (k = str_bytes "LANG")) as [->|];
    [by destruct (env_lang host)|].
  destruct (decide (k = str_bytes "TZ")) as [->|]; [by destruct (env_tz host)|].
  destruct (decide (k = str_bytes "TERM")) as [->|]; [by destruct term|].
  repeat case_decide; subst; try congruence; naive_solver.
Qed.

(** The name a program is started under. The name of a shell found in a
    directory is its last component, preceded by a dash exactly for an
    interactive shell; a command is passed whole, as the one argument of -c. *)
Theorem argv0_login (dir name : text) (command : list byte) :
  name ≠ [] → x2f ∉ name → name ≠ str_bytes "." → name ≠ str_bytes ".." →
  let shell := dir ++ x2f :: name in
  argv0 (Shell shell) = x2d :: name ∧ args (Shell shell) = [] ∧
  argv0 (Exec shell command) = name ∧ args (Exec shell command) = [str_bytes "-c"; command].
Proof.
  intros Hn Hs Hdot Hdots. cbv zeta.
  assert (file_name (dir ++ x2f :: name) = Some name) as Hf.
  { unfold file_name. rewrite split_on_snoc, (split_on_last _ name Hs), filter_app.
    rewrite filter_cons_True, filter_nil, last_snoc by done. by rewrite decide_False. }
  unfold argv0. cbn [program]. by rewrite Hf.
Qed.

(** ** Witnesses *)

Definition sample_entries : list (text * text) :=
  [(str_bytes "LANG", str_bytes " C.UTF-8 "); (str_bytes "PS1", str_bytes "'$ '=")].
Lemma environment_roundtrip_witness :
  Forall entry_ok sample_entries ∧
  read_environment_file (Some (concat (map environment_entry sample_entries))) = sample_entries.
Proof.
  assert (Forall entry_ok sample_entries) as Hok.
  { repeat constructor; try done; apply (bool_decide_unpack _); vm_compute; done. }
  split; [exact Hok|]. apply (environment_roundtrip _ Hok).
Defined.

Lemma argv0_login_witness :
  argv0 (Shell (str_bytes "/bin" ++ x2f :: str_bytes "zsh")) = x2d :: str_bytes "zsh".
Proof.
  refine (proj1 (argv0_login (str_bytes "/bin") (str_bytes "zsh") [] _ _ _ _));
    apply (bool_decide_unpack _); vm_compute; done.
Defined.

Example unusual_shells :
  argv0 (Shell (str_bytes "/")) = str_bytes "-/" ∧ argv0 (Shell (str_bytes "/bin/sh/.")) = str_bytes "-sh" ∧
  argv0 (Exec (str_bytes "..") []) = str_bytes "..".
Proof. vm_compute. done. Qed.
