(* ===== verification/Process.v ===== *)
(** * The process of a session ([SessionProcess] of [src/src/session/process.rs])

    The child process and its group: waiting, ending it, and its exit status.
    The system answers through an oracle over the calls made so far. *)
From Stdlib Require Import ZArith Lia Strings.Byte.
From stdpp Require Import base list strings gmap fin_maps relations.
From S2P Require Import Prelude Wire Codec Message ChannelErrors Channel SessionMsg Terminal Accounts.
Local Open Scope Z_scope.
Local Open Scope io_scope.

(** ** [std::process::ExitStatus]

    The status word of [wait]: a signal that ended the process in its low seven
    bits, the flag of a core dump, or the exit code. *)
Definition ExitStatus : Type := Z.
Definition term_signal (s : ExitStatus) : Z := Z.land s 127.
Definition signal_of (s : ExitStatus) : option Z :=
  if (1 <=? term_signal s) && (term_signal s <=? 126) then Some (term_signal s) else None.
Definition core_dumped (s : ExitStatus) : bool := bool_decide (is_Some (signal_of s)) && Z.testbit s 7.
Definition code_of (s : ExitStatus) : option Z :=
  if term_signal s =? 0 then Some (Z.land (Z.shiftr s 8) 255) else None.

Module process_error.
Inductive ProcessError :=
| Spawn (source : ErrorKind)
| MissingPid
| DupFd (source : Errno)
| AsyncPty (source : ErrorKind)
| ReadStdout (source : ErrorKind)
| ReadStderr (source : ErrorKind)
| ReadPty (source : ErrorKind)
| WriteData (source : WriteDataError)
| WriteExtendedData (source : WriteExtendedDataError)
| SendExit (source : SendChannelNoticeError SessionCodecError)
| WriteEof (source : WriteChannelEofError)
| WriteClose (source : WriteChannelCloseError)
| Wait (source : ErrorKind)
| Shutdown (source : ErrorKind).
End process_error.
Abbreviation ProcessError := process_error.ProcessError.

(** ** [SessionProcess] *)

Inductive ProcCall :=
| TryWait
| WaitChild
| Sleep25
| Signalled (process_group : Z) (s : Signal).

#[export] Instance ProcCall_eq_dec : EqDecision ProcCall.
Proof. solve_decision. Defined.

(** What the system answers after the calls made so far. *)
Record System := MkSystem {
  sys_try_wait : list ProcCall → result (option ExitStatus) ErrorKind;
  sys_wait : list ProcCall → result ExitStatus ErrorKind;
  sys_now : list ProcCall → Z;
  sys_deliver : list ProcCall → option Errno;
}.

Record SessionProcess := MkSessionProcess {
  process_group : Z;
  reaped : bool;
  proc_calls : list ProcCall;
}.
Definition did (c : ProcCall) (reap : bool) (p : SessionProcess) : SessionProcess :=
  MkSessionProcess (process_group p) (reaped p || reap) (proc_calls p ++ [c]).

Section process.
Context (sys : System).
Abbreviation Proc := (Io SessionProcess ProcessError) (only parsing).

Definition new_process (child_id : option Z) : result SessionProcess ProcessError :=
  match child_id with
  | Some id => Ok (MkSessionProcess id false [])
  | None => Err process_error.MissingPid
  end.

Definition try_wait : Proc (option ExitStatus) := λ p,
  match sys_try_wait sys (proc_calls p) with
  | Ok status => (did TryWait (bool_decide (is_Some status)) p, Ok status)
  | Err e => (did TryWait false p, Err (process_error.Wait e))
  | Panic => (did TryWait false p, Panic)
  end.

Definition wait : Proc ExitStatus := λ p,
  match sys_wait sys (proc_calls p) with
  | Ok status => (did WaitChild true p, Ok status)
  | Err e => (did WaitChild false p, Err (process_error.Wait e))
  | Panic => (did WaitChild false p, Panic)
  end.

(** [signal::deliver]; its failure is logged. *)
Definition signal_group (s : Signal) : Proc () := λ p,
  (did (Signalled (process_group p) s) false p, Ok ()).

(** [None]: the fuel ran out. *)
Fixpoint wait_loop (fuel : nat) (deadline : Z) : Proc (option bool) :=
  match fuel with
  | O => io_ret None
  | S fuel =>
    let! status := try_wait in
    match status with
    | Some _ => io_ret (Some true)
    | None => λ p,
      if deadline <=? sys_now sys (proc_calls p) then (p, Ok (Some false))
      else wait_loop fuel deadline (did Sleep25 false p)
    end
  end.

(** Milliseconds; every round but the last sleeps at least 25. *)
Definition wait_fuel (timeout : Z) : nat := Z.to_nat (timeout / 25 + 2).
Definition wait_for (timeout : Z) : Proc (option bool) := λ p,
  wait_loop (wait_fuel timeout) (sys_now sys (proc_calls p) + timeout) p.

Definition SIGNAL_GRACE : Z := 1000.

Fixpoint signal_loop (signals : list Signal) : Proc (option bool) :=
  match signals with
  | [] => io_ret (Some false)
  | s :: signals =>
    signal_group s ;;;
    let! done := wait_for SIGNAL_GRACE in
    match done with
    | Some false => signal_loop signals
    | _ => io_ret done
    end
  end.

Definition end_process : Proc (option ()) :=
  let! done := signal_loop [SIGHUP; SIGTERM] in
  match done with
  | None => io_ret None
  | Some true => io_ret (Some ())
  | Some false => signal_group SIGKILL ;;; wait ;;; io_ret (Some ())
  end.

Definition terminate : Proc (option ()) := λ p,
  if reaped p then (p, Ok (Some ()))
  else
    (let! status := try_wait in
     match status with
     | Some _ => io_ret (Some ())
     | None => end_process
     end) p.

(** [Drop for SessionProcess]. *)
Definition drop_process (p : SessionProcess) : SessionProcess :=
  if reaped p then p else did (Signalled (process_group p) SIGKILL) false p.
End process.

(** ** What the system promises *)

(** Sleeping takes at least as long as asked, time does not run backwards. *)
Record system_ok (sys : System) : Prop := {
  so_sleep tr : sys_now sys tr + 25 ≤ sys_now sys (tr ++ [Sleep25]);
  so_time tr : sys_now sys tr ≤ sys_now sys (tr ++ [TryWait]);
  so_try_wait tr : sys_try_wait sys tr ≠ Panic;
  so_wait tr : sys_wait sys tr ≠ Panic;
}.

(** The exit of the child was seen by the call [c]. *)
Definition seen (sys : System) (tr : list ProcCall) (c : ProcCall) : bool :=
  match c with
  | TryWait => match sys_try_wait sys tr with Ok (Some _) => true | _ => false end
  | WaitChild => match sys_wait sys tr with Ok _ => true | _ => false end
  | _ => false
  end.
Definition not_reaped (sys : System) (tr : list ProcCall) : Prop :=
  ∀ i c, tr !! i = Some c → seen sys (take i tr) c = false.

(** What holds of a process: [reaped] is set once its exit was seen, and every
    signal went to its group while its exit had not been seen, so that the
    number still named it. *)
Record proc_ok (sys : System) (p : SessionProcess) : Prop := {
  po_reaped : reaped p = false → not_reaped sys (proc_calls p);
  po_signals i g s : proc_calls p !! i = Some (Signalled g s) →
    g = process_group p ∧ not_reaped sys (take i (proc_calls p));
}.

Definition sent (tr : list ProcCall) : list Signal :=
  omap (λ c, match c with Signalled _ s => Some s | _ => None end) tr.

Section process_proofs.
Context (sys : System).

Lemma not_reaped_snoc tr c : not_reaped sys tr → seen sys tr c = false → not_reaped sys (tr ++ [c]).
Proof.
  intros Ht Hc i d Hd. apply lookup_app_Some in Hd as [Hd|[Hge Hd]].
  - rewrite take_app_le by (apply lookup_lt_Some in Hd; lia). by apply Ht.
  - apply list_lookup_singleton_Some in Hd as [Hz <-].
    rewrite take_app_length'; [done|]. lia.
Qed.

Lemma proc_ok_did p c reap :
  proc_ok sys p → (reap = false → reaped p = false → seen sys (proc_calls p) c = false) →
  (∀ g s, c = Signalled g s → g = process_group p ∧ reaped p = false) →
  proc_ok sys (did c reap p).
Proof.
  intros [Hr Hs] Hc Hsig. split; cbn [did reaped proc_calls process_group].
  - intros [Hp Hreap]%orb_false_iff. apply not_reaped_snoc; auto.
  - intros i g s Hi. apply lookup_app_Some in Hi as [Hi|[Hge Hi]].
    + rewrite take_app_le by (apply lookup_lt_Some in Hi; lia). by eapply Hs.
    + apply list_lookup_singleton_Some in Hi as [Hz Heq].
      rewrite take_app_length' by lia. destruct (Hsig g s Heq) as [-> Hp]. auto.
Qed.

(** [p'] follows [p] after at most [n] calls, with the signals [ss]. *)
Record follows (n : Z) (ss : list Signal) (p p' : SessionProcess) : Prop := {
  fw_ok : proc_ok sys p → proc_ok sys p';
  fw_group : process_group p' = process_group p;
  fw_sent : sent (proc_calls p') = sent (proc_calls p) ++ ss;
  fw_calls : Z.of_nat (length (proc_calls p')) ≤ Z.of_nat (length (proc_calls p)) + n;
}.

Lemma follows_refl p n : 0 ≤ n → follows n [] p p.
Proof. intros Hn. split; [done..|by rewrite app_nil_r|lia]. Qed.
Lemma follows_trans n m ss ts p q r :
  follows n ss p q → follows m ts q r → follows (n + m) (ss ++ ts) p r.
Proof.
  intros [? ? Hs ?] [? ? Ht ?]. split; [auto|congruence|by rewrite Ht, Hs, (assoc_L (++))|lia].
Qed.
Lemma follows_le n m ss p q : follows n ss p q → n ≤ m → follows m ss p q.
Proof. intros [????] ?. split; [done..|lia]. Qed.

Lemma sent_snoc tr c : sent (tr ++ [c]) = sent tr ++ sent [c].
Proof. unfold sent. by rewrite omap_app. Qed.

Lemma follows_did p c reap ss :
  (reap = false → reaped p = false → seen sys (proc_calls p) c = false) →
  (∀ g s, c = Signalled g s → g = process_group p ∧ reaped p = false) → sent [c] = ss →
  follows 1 ss p (did c reap p).
Proof.
  intros Hc Hsig <-. split; cbn [did process_group proc_calls].
  - intros Hp. by apply proc_ok_did.
  - done.
  - apply sent_snoc.
  - rewrite length_app. simpl. lia.
Qed.

Lemma try_wait_run p p' x :
  try_wait sys p = (p', x) →
  follows 1 [] p p' ∧ proc_calls p' = proc_calls p ++ [TryWait] ∧
  match x with
  | Ok (Some _) => reaped p' = true
  | Ok None => reaped p' = reaped p
  | Err _ => reaped p' = reaped p
  | Panic => sys_try_wait sys (proc_calls p) = Panic
  end.
Proof.
  unfold try_wait. destruct (sys_try_wait sys (proc_calls p)) as [[s|]|e|] eqn:Hw;
    intros [= <- <-]; cbn [did reaped]; (split; [apply follows_did; [|done..]|split; [done|]]);
    try (cbn [seen]; by rewrite Hw); by rewrite ?orb_true_r, ?orb_false_r.
Qed.

Lemma wait_run p p' x :
  wait sys p = (p', x) →
  follows 1 [] p p' ∧
  match x with
  | Ok _ => reaped p' = true
  | Err _ => reaped p' = reaped p
  | Panic => sys_wait sys (proc_calls p) = Panic
  end.
Proof.
  unfold wait. destruct (sys_wait sys (proc_calls p)) as [s|e|] eqn:Hw;
    intros [= <- <-]; cbn [did reaped]; (split; [apply follows_did; [|done..]|]);
    try (cbn [seen]; by rewrite Hw); by rewrite ?orb_true_r, ?orb_false_r.
Qed.

Lemma signal_group_run p s :
  reaped p = false → follows 1 [s] p (did (Signalled (process_group p) s) false p).
Proof. intros Hp. apply follows_did; [done| |done]. by intros g s' [= -> ->]. Qed.
End process_proofs.

Section terminate_proofs.
Context (sys : System) (Hsys : system_ok sys).

Lemma wait_loop_run fuel deadline p :
  deadline - sys_now sys (proc_calls p) ≤ 25 * (Z.of_nat fuel - 1) → (0 < fuel)%nat →
  ∃ p' x, wait_loop sys fuel deadline p = (p', x) ∧ follows sys (2 * Z.of_nat fuel) [] p p' ∧
    match x with
    | Ok (Some true) => reaped p' = true
    | Ok (Some false) => reaped p' = reaped p
    | Err _ => True
    | Ok None | Panic => False
    end.
Proof.
  revert p. induction fuel as [|fuel IH]; intros p Hd Hf; [lia|]. cbn [wait_loop].
  unfold io_bind. destruct (try_wait sys p) as [p1 x1] eqn:Ht.
  destruct (try_wait_run _ _ _ _ Ht) as (Hfw & Hcalls & Hx).
  destruct x1 as [[s|]|e|]; [| | |by apply so_try_wait in Hx].
  - exists p1, (Ok (Some true)). split_and!; [done|eapply follows_le; [done|lia]|done].
  - destruct (Z.leb_spec deadline (sys_now sys (proc_calls p1))) as [Hle|Hgt].
    { exists p1, (Ok (Some false)). split_and!; [done|eapply follows_le; [done|lia]|done]. }
    assert (follows sys 1 [] p1 (did Sleep25 false p1)) as Hsl by (apply follows_did; done).
    pose proof (so_time _ Hsys (proc_calls p)) as Htime. rewrite <- Hcalls in Htime.
    pose proof (so_sleep _ Hsys (proc_calls p1)) as Hsleep.
    destruct (IH (did Sleep25 false p1)) as (p' & x & Hr & Hfw' & Hx').
    { cbn [did proc_calls]. lia. }
    { lia. }
    exists p', x. split; [done|]. split.
    + eapply follows_le; [exact (follows_trans _ _ _ _ _ _ _ _ Hfw (follows_trans _ _ _ _ _ _ _ _ Hsl Hfw'))|lia].
    + destruct x as [[[]|]|e|]; try done. rewrite Hx'. cbn [did reaped]. by rewrite orb_false_r.
  - eexists p1, (Err e). split_and!; [done|eapply follows_le; [done|lia]|done].
Qed.

Lemma wait_for_run p :
  ∃ p' x, wait_for sys SIGNAL_GRACE p = (p', x) ∧ follows sys 84 [] p p' ∧
    match x with
    | Ok (Some true) => reaped p' = true
    | Ok (Some false) => reaped p' = reaped p
    | Err _ => True
    | Ok None | Panic => False
    end.
Proof. unfold wait_for. apply (wait_loop_run 42); [unfold SIGNAL_GRACE|]; lia. Qed.

Lemma signal_loop_run signals p :
  reaped p = false →
  ∃ p' x ss, signal_loop sys signals p = (p', x) ∧
    follows sys (85 * Z.of_nat (length signals)) ss p p' ∧ ss `prefix_of` signals ∧
    match x with
    | Ok (Some true) => reaped p' = true
    | Ok (Some false) => reaped p' = false ∧ ss = signals
    | Err _ => True
    | Ok None | Panic => False
    end.
Proof.
  revert p. induction signals as [|s signals IH]; intros p Hp.
  { exists p, (Ok (Some false)), []. split_and!; [done|by apply follows_refl|done..]. }
  cbn [signal_loop]. unfold io_bind, signal_group at 1.
  set (p1 := did (Signalled (process_group p) s) false p).
  pose proof (signal_group_run sys p s Hp) as Hs. fold p1 in Hs.
  assert (reaped p1 = false) as Hp1 by (cbn; by rewrite Hp).
  destruct (wait_for_run p1) as (p2 & x2 & Hw & Hfw & Hx2). rewrite Hw.
  pose proof (follows_trans _ _ _ _ _ _ _ _ Hs Hfw) as H12.
  assert (follows sys (85 * Z.of_nat (length (s :: signals))) [s] p p2) as Hone
    by (eapply follows_le; [exact H12|cbn [length]; lia]).
  assert ([s] `prefix_of` s :: signals) as Hpre by by exists signals.
  destruct x2 as [[[]|]|e|]; try done.
  - by exists p2, (Ok (Some true)), [s].
  - destruct (IH p2 ltac:(congruence)) as (p' & x & ss & Hr & Hfw' & Hpre' & Hx).
    exists p', x, (s :: ss). split_and!; [done| |by apply prefix_cons|].
    + eapply follows_le; [exact (follows_trans _ _ _ _ _ _ _ _ H12 Hfw')|cbn [length]; lia].
    + destruct x as [[[]|]|e|]; try done. by destruct Hx as [? ->].
  - by exists p2, (Err e), [s].
Qed.

(** [terminate] returns, and what it did. *)
Lemma terminate_run p :
  ∃ p' x ss, terminate sys p = (p', x) ∧ follows sys 173 ss p p' ∧
    ss `prefix_of` [SIGHUP; SIGTERM; SIGKILL] ∧ (reaped p = true → p' = p) ∧
    match x with
    | Ok (Some _) => reaped p' = true
    | Err _ => True
    | Ok None | Panic => False
    end.
Proof.
  unfold terminate. destruct (reaped p) eqn:Hp.
  { exists p, (Ok (Some ())), []. split_and!; [done|by apply follows_refl|by eexists|done..]. }
  unfold io_bind at 1. destruct (try_wait sys p) as [p1 x1] eqn:Ht.
  destruct (try_wait_run _ _ _ _ Ht) as (Hfw & _ & Hx).
  destruct x1 as [[s|]|e|]; [| | |by apply so_try_wait in Hx].
  - exists p1, (Ok (Some ())), [].
    split_and!; [done|eapply follows_le; [done|lia]|by eexists|done..].
  - unfold end_process, io_bind at 1.
    destruct (signal_loop_run [SIGHUP; SIGTERM] p1 ltac:(congruence))
      as (p2 & x2 & ss & Hr & Hfw2 & Hpre & Hx2). rewrite Hr.
    pose proof (follows_trans _ _ _ _ _ _ _ _ Hfw Hfw2) as H12.
    assert (follows sys 173 ss p p2) as H2 by (eapply follows_le; [exact H12|simpl; lia]).
    assert (ss `prefix_of` [SIGHUP; SIGTERM; SIGKILL]) as Hpre2
      by (etrans; [exact Hpre|by exists [SIGKILL]]).
    destruct x2 as [[[]|]|e|]; try done.
    + by exists p2, (Ok (Some ())), ss.
    + destruct Hx2 as [Hn ->]. unfold io_bind, signal_group.
      pose proof (signal_group_run sys p2 SIGKILL Hn) as Hk.
      set (p3 := did (Signalled (process_group p2) SIGKILL) false p2) in *.
      destruct (wait sys p3) as [p4 x4] eqn:Hw. destruct (wait_run _ _ _ _ Hw) as [Hfw4 Hx4].
      pose proof (follows_trans _ _ _ _ _ _ _ _ H12 (follows_trans _ _ _ _ _ _ _ _ Hk Hfw4)) as H4.
      assert (follows sys 173 [SIGHUP; SIGTERM; SIGKILL] p p4) as H5
        by (eapply follows_le; [exact H4|simpl; lia]).
      destruct x4 as [s|e|]; [| |by apply so_wait in Hx4].
      * by exists p4, (Ok (Some ())), [SIGHUP; SIGTERM; SIGKILL].
      * by exists p4, (Err e), [SIGHUP; SIGTERM; SIGKILL].
    + by exists p2, (Err e), ss.
  - exists p1, (Err e), [].
    split_and!; [done|eapply follows_le; [done|lia]|by eexists|done..].
Qed.
End terminate_proofs.

(** ** Properties *)

(** C15: Ending a session's process takes bounded time and is done in order. For
    any system that keeps time and whatever the child does, [terminate] returns
    after at most 173 calls; it has sent its group SIGHUP, then SIGTERM, then
    SIGKILL, each only when the one before did not end it, and nothing to a
    process that was reaped; no signal ever went to the group after the exit of
    its leader was seen; and unless waiting failed the process is reaped. What is
    dropped is reaped or has been killed. *)
Theorem terminate_ends (sys : System) (p : SessionProcess) :
  system_ok sys → proc_ok sys p →
  ∃ p' x ss, terminate sys p = (p', x) ∧ x ≠ Ok None ∧ x ≠ Panic ∧
    (x = Ok (Some ()) → reaped p' = true) ∧ (reaped p = true → p' = p) ∧
    proc_ok sys p' ∧ sent (proc_calls p') = sent (proc_calls p) ++ ss ∧
    ss `prefix_of` [SIGHUP; SIGTERM; SIGKILL] ∧
    (length (proc_calls p') ≤ length (proc_calls p) + 173)%nat ∧
    (reaped (drop_process p') = true ∨
     last (proc_calls (drop_process p')) = Some (Signalled (process_group p) SIGKILL)).
Proof.
  intros Hsys Hok. destruct (terminate_run sys Hsys p) as (p' & x & ss & Hr & Hfw & Hpre & Hp & Hx).
  destruct Hfw as [Hok' Hg Hs Hc].
  exists p', x, ss. split_and!; try done; [by intros ->|by intros ->|by intros ->|auto|lia|].
  unfold drop_process. destruct (reaped p') eqn:Hreap; [by left|right].
  cbn [did proc_calls]. by rewrite last_snoc, Hg.
Qed.

(** ** Witness *)

(** A child that ignores its signals, on a clock that only sleeping moves. *)
Definition stubborn : System :=
  MkSystem (λ _, Ok None) (λ _, Ok 9)
    (λ tr, 25 * Z.of_nat (length (filter (λ c, c = Sleep25) tr))) (λ _, None).
Lemma stubborn_ok : system_ok stubborn.
Proof.
  split; [| |done..]; intros tr; unfold stubborn; cbn [sys_now];
    rewrite filter_app, length_app, Nat2Z.inj_add.
  - change (Z.of_nat (length (filter (λ c, c = Sleep25) [Sleep25]))) with 1. lia.
  - lia.
Qed.
Definition fresh : SessionProcess := MkSessionProcess 4242 false [].
Lemma fresh_ok sys : proc_ok sys fresh.
Proof. by split. Qed.

Example stubborn_terminated :
  let p' := (terminate stubborn fresh).1 in
  sent (proc_calls p') = [SIGHUP; SIGTERM; SIGKILL] ∧ reaped p' = true ∧
  length (proc_calls p') = 167%nat.
Proof. vm_compute. done. Qed.

Lemma terminate_ends_witness :
  ∃ p' x ss, terminate stubborn fresh = (p', x) ∧ proc_ok stubborn p' ∧
    ss `prefix_of` [SIGHUP; SIGTERM; SIGKILL].
Proof.
  destruct (terminate_ends stubborn fresh stubborn_ok (fresh_ok stubborn))
    as (p' & x & ss & Hr & _ & _ & _ & _ & Hok & _ & Hpre & _).
  exists p', x, ss. split; [exact Hr|]. split; [exact Hok|exact Hpre].
Defined.
