(* ===== verification/SessionRelay.v ===== *)
(** * Running a session's command ([src/src/session/process.rs])

    The relays between a channel and a process, the exit notification, and
    [run_piped] and [run_pty]. A relay is a function of the branches its
    [select!] takes, in the order it takes them; a branch that is disabled
    where it stands is passed over. *)
From Stdlib Require Import ZArith Lia Strings.Byte.
From stdpp Require Import base list strings gmap fin_maps relations.
From S2P Require Import Prelude Text Wire Codec Message ChannelErrors Channel SessionMsg.
From S2P Require Import Terminal Accounts Command Process.
Local Open Scope Z_scope.
Local Open Scope io_scope.

Abbreviation text := (list byte) (only parsing).

(** ** The exit notification *)

Section exit.
Context `{VarIntCodec, SignalNumbers}.

Definition exit_signal_text (n : Z) : text :=
  match to_ssh_name n with
  | Some name => str_bytes name
  | None => str_bytes "signal-" ++ dec n ++ str_bytes "@dshell"
  end.

Definition exit_signal_request (status : ExitStatus) (n : Z) : ExitSignalRequest :=
  MkExitSignalRequest (MkSshString (exit_signal_text n)) (MkSshBool (core_dumped status))
    (from_static "") (from_static "").
Definition exit_status_request (status : ExitStatus) : ExitStatusRequest :=
  MkExitStatusRequest (wrap_u32 (default 255 (code_of status))).

Definition send_exit_notification (status : ExitStatus) : Io Writer ProcessError () :=
  match signal_of status with
  | Some signal_number =>
    notice (MkExitSignalChannelNotice (exit_signal_request status signal_number))
      <?> process_error.SendExit
  | None =>
    notice (MkExitStatusChannelNotice (exit_status_request status)) <?> process_error.SendExit
  end.
End exit.

(** ** Output *)

(** What the output relay works on: the channel's writer, the process, and
    whether the input relay was told to stop. *)
Record Output := MkOutput { o_writer : Writer; o_process : SessionProcess; o_stop : bool }.

Definition on_channel {E A} : Io Writer E A → Io Output E A :=
  io_zoom o_writer (λ w o, MkOutput w (o_process o) (o_stop o)).
Definition on_process {E A} : Io SessionProcess E A → Io Output E A :=
  io_zoom o_process (λ p o, MkOutput (o_writer o) p (o_stop o)).
Definition signal_input_relay_stop {E} : Io Output E () := λ o,
  (MkOutput (o_writer o) (o_process o) true, Ok ()).

(** A read of at most 8192 bytes; none at the end. *)
Inductive PipedBranch :=
| Stdout (r : result (list byte) ErrorKind)
| Stderr (r : result (list byte) ErrorKind)
| ChildExited.

Inductive PtyRead := PtyData (bs : list byte) | PtyEio | PtyError (e : ErrorKind).
Inductive PtyBranch :=
| Master (r : PtyRead)
| MasterExited.

Section output.
Context `{VarIntCodec, SignalNumbers} (sys : System).

Definition observe_exit : Io Output ProcessError ExitStatus :=
  let! status := on_process (wait sys) in
  signal_input_relay_stop ;;;
  on_channel (send_exit_notification status) ;;;
  io_ret status.

Definition read_branch {A} (error : ErrorKind → ProcessError) (r : result (list byte) ErrorKind)
    (done : Io Output ProcessError A) (some : list byte → Io Output ProcessError A)
    : Io Output ProcessError A :=
  match r with
  | Ok [] => done
  | Ok bs => some bs
  | Err e => io_fail (error e)
  | Panic => io_panic
  end.

(** [None] while branches are awaited. The wait after the loop is the branch of
    the child when both pipes are done. *)
Fixpoint relay_output_piped (stdout_done stderr_done : bool) (exit_status : option ExitStatus)
    (bs : list PipedBranch) : Io Output ProcessError (option ExitStatus) :=
  match bs, stdout_done && stderr_done, exit_status with
  | _, true, Some status => io_ret (Some status)
  | [], _, _ => io_ret None
  | Stdout r :: bs, _, _ =>
    if stdout_done then relay_output_piped stdout_done stderr_done exit_status bs
    else
      read_branch process_error.ReadStdout r
        (relay_output_piped true stderr_done exit_status bs)
        (λ chunk, on_channel (data chunk <?> process_error.WriteData) ;;;
                  relay_output_piped stdout_done stderr_done exit_status bs)
  | Stderr r :: bs, _, _ =>
    if stderr_done then relay_output_piped stdout_done stderr_done exit_status bs
    else
      read_branch process_error.ReadStderr r
        (relay_output_piped stdout_done true exit_status bs)
        (λ chunk, on_channel (extended_data SSH_EXTENDED_DATA_STDERR chunk
                                <?> process_error.WriteExtendedData) ;;;
                  relay_output_piped stdout_done stderr_done exit_status bs)
  | ChildExited :: bs, _, Some _ => relay_output_piped stdout_done stderr_done exit_status bs
  | ChildExited :: bs, _, None =>
    let! status := observe_exit in
    relay_output_piped stdout_done stderr_done (Some status) bs
  end.

Fixpoint relay_output_pty (closed : bool) (exit_status : option ExitStatus) (bs : list PtyBranch)
    : Io Output ProcessError (option ExitStatus) :=
  match bs, closed, exit_status with
  | _, true, Some status => io_ret (Some status)
  | [], _, _ => io_ret None
  | Master _ :: bs, true, _ => relay_output_pty closed exit_status bs
  | Master (PtyData [] | PtyEio) :: bs, false, _ => relay_output_pty true exit_status bs
  | Master (PtyData chunk) :: bs, false, _ =>
    on_channel (data chunk <?> process_error.WriteData) ;;; relay_output_pty closed exit_status bs
  | Master (PtyError e) :: bs, false, _ => io_fail (process_error.ReadPty e)
  | MasterExited :: bs, _, Some _ => relay_output_pty closed exit_status bs
  | MasterExited :: bs, _, None =>
    let! status := observe_exit in relay_output_pty closed (Some status) bs
  end.

(** The output relay, then EOF, Close and the end of the stream; [false] while
    it is awaited. *)
Definition serve_output (relay : Io Output ProcessError (option ExitStatus))
    : Io Output ProcessError bool :=
  let! status := relay in
  match status with
  | None => io_ret false
  | Some _ =>
    on_channel (eof <?> process_error.WriteEof) ;;;
    on_channel (close <?> process_error.WriteClose) ;;;
    on_channel (shutdown <?> process_error.Shutdown) ;;;
    io_ret true
  end.

End output.

(** ** Input *)

(** What the input relay works on: the channel's reader, the process's input or
    terminal, the signals it delivered and the sizes it set. *)
Record Input := MkInput {
  i_reader : Reader;
  i_stdin : Writer;
  i_delivered : list (Z * Signal);
  i_sizes : list winsize;
}.

Definition from_channel {E A} : Io Reader E A → Io Input E A :=
  io_zoom i_reader (λ r i, MkInput r (i_stdin i) (i_delivered i) (i_sizes i)).
Definition copying {E A} : Io (Reader * Writer) E A → Io Input E A :=
  io_zoom (λ i, (i_reader i, i_stdin i)) (λ s i, MkInput s.1 s.2 (i_delivered i) (i_sizes i)).

Definition deliver_to_pid (pid : option Z) (signal_name : SshString) (i : Input) : Input :=
  match pid, from_ssh_name (ssh_string_deref signal_name) with
  | Some pid, Some sig =>
    MkInput (i_reader i) (i_stdin i) (i_delivered i ++ [(pid, sig)]) (i_sizes i)
  | _, _ => i
  end.
Definition resize (req : WindowChangeRequest) (i : Input) : Input :=
  match winsize_from_resize req with
  | Ok ws => MkInput (i_reader i) (i_stdin i) (i_delivered i) (i_sizes i ++ [ws])
  | _ => i
  end.

Section input.
Context `{VarIntCodec, IoCopy}.

(** A notice whose payload cannot be decoded ends the relay. *)
Definition on_notice (T : Type) `{DecodeFrom T SessionCodecError} (incoming : IncomingChannelNotice)
    (effect : T → Input → Input) : Io Input Infallible bool :=
  let! req := io_try (from_channel (notice_decode_payload T incoming)) in
  match req with
  | Ok req => λ i, (effect req i, Ok true)
  | Err _ => io_ret false
  | Panic => io_panic
  end.

Definition handle_piped_notice (incoming : IncomingChannelNotice) (pid : option Z)
    : Io Input Infallible bool :=
  if decide (ssh_string_deref (notice_type incoming) = "signal"%string) then
    on_notice SignalRequest incoming (λ req, deliver_to_pid pid (signal_signal_name req))
  else io_ret false.

Definition handle_pty_notice (incoming : IncomingChannelNotice) (pid : option Z)
    : Io Input Infallible bool :=
  if decide (ssh_string_deref (notice_type incoming) = "signal"%string) then
    on_notice SignalRequest incoming (λ req, deliver_to_pid pid (signal_signal_name req))
  else if decide (ssh_string_deref (notice_type incoming) = "window-change"%string) then
    on_notice WindowChangeRequest incoming resize
  else io_ret false.

(** The relay takes [rounds] events, then it sees the stop; [true] when it ended
    by itself. The data of a frame is read up to its length, and copied. *)
Fixpoint relay_input (handle : IncomingChannelNotice → Io Input Infallible bool) (rounds : nat)
    : Io Input Infallible bool :=
  match rounds with
  | O => io_ret false
  | S rounds =>
    let! event := io_try (from_channel reader_next_event) in
    match event with
    | Ok (reader_event.Data d) =>
      let! copied := io_try (copying (copy_take (remaining d))) in
      match copied with
      | Ok _ => relay_input handle rounds
      | Err _ => io_ret true
      | Panic => io_panic
      end
    | Ok (reader_event.Notice incoming) =>
      let! more := handle incoming in
      if (more : bool) then relay_input handle rounds else io_ret true
    | Ok (reader_event.Eof | reader_event.Close) | Err _ => io_ret true
    | Ok _ => relay_input handle rounds
    | Panic => io_panic
    end
  end.

Definition relay_input_piped (pid : option Z) : nat → Io Input Infallible bool :=
  relay_input (λ incoming, handle_piped_notice incoming pid).
Definition relay_input_pty (pid : option Z) : nat → Io Input Infallible bool :=
  relay_input (λ incoming, handle_pty_notice incoming pid).

(** The relay of a session takes [rounds] events; then it sees the stop, or it is
    held up in an event after [n] bytes of its data. *)
Record InputPlan := MkInputPlan {
  in_stdin : Writer;
  in_rounds : nat;
  in_stall : option nat;
}.

(** An event that is not left: the copy waits after [n] bytes, because the client
    sends no more or the process takes no more, or the payload of a notice does
    not come. A copy whose source has ended, or that fails, and the other events
    are left at once. When the event goes on after all, that is the run with one
    round more. *)
Definition held_up (n : nat) : Io Input Infallible bool :=
  let! event := io_try (from_channel reader_next_event) in
  match event with
  | Ok (reader_event.Data d) =>
    let asked := Z.min (Z.of_nat n) (remaining d) in
    let! copied := io_try (copying (copy_take asked)) in
    match copied with
    | Ok k => io_ret (k <? asked)
    | Err _ => io_ret true
    | Panic => io_panic
    end
  | Ok (reader_event.Notice _) => io_ret false
  | Ok _ | Err _ => io_ret true
  | Panic => io_panic
  end.

(** [false]: the task of the relay has not returned. *)
Definition input_task (relay : nat → Io Input Infallible bool) (plan : InputPlan)
    : Io Input Infallible bool :=
  let! ended := relay (in_rounds plan) in
  if (ended : bool) then io_ret true
  else match in_stall plan with None => io_ret true | Some n => held_up n end.

(** [let _ = input_handle.await]: a panic of the task is ignored. *)
Definition await_input (task : Io Input Infallible bool) (i : Input) : Input * bool :=
  match task i with
  | (i, Ok returned) => (i, returned)
  | (i, _) => (i, true)
  end.
End input.

(** ** Running *)

(** What a session finds: the server's variables and files, the directories,
    the child's process id when it was spawned, the descriptors duplicated and
    made asynchronous, and what the process does. *)
Record SessionHost (Fd : Type) := MkSessionHost {
  sh_host : Host;
  sh_is_dir : string → bool;
  sh_spawn : ChildCommand Fd → result (option Z) ErrorKind;
  sh_dup : nat → Fd → result Fd Errno;
  sh_async_pty : Fd → result () ErrorKind;
  sh_process : System;
}.
Arguments MkSessionHost {Fd}.
Arguments sh_host {Fd}.
Arguments sh_is_dir {Fd}.
Arguments sh_spawn {Fd}.
Arguments sh_dup {Fd}.
Arguments sh_async_pty {Fd}.
Arguments sh_process {Fd}.

(** Where a session stands: it has returned, or it waits for its input relay. *)
Inductive SessionEnd := Returned (x : result (option ()) ProcessError) | AwaitingInput.

(** The command that was handed to the system, and what is left. *)
Record SessionRun (Fd : Type) := MkSessionRun {
  sr_command : option (ChildCommand Fd);
  sr_writer : Writer;
  sr_input : option Input;
  sr_process : option SessionProcess;
  sr_end : SessionEnd;
}.
Arguments MkSessionRun {Fd}.
Arguments sr_command {Fd}.
Arguments sr_writer {Fd}.
Arguments sr_input {Fd}.
Arguments sr_process {Fd}.
Arguments sr_end {Fd}.

Section running.
Context `{VarIntCodec, IoCopy, SignalNumbers} {Fd : Type} (sh : SessionHost Fd).

(** The output is awaited with the shutdown: when it is not done once its
    branches are taken, the session was shut down. The process is ended unless
    all went well. *)
Definition finish_process (served : result bool ProcessError) : Io SessionProcess ProcessError (option ()) :=
  match served with
  | Ok true => io_ret (Some ())
  | Err error => let! _ := io_try (E' := ProcessError) (terminate (sh_process sh)) in io_fail error
  | Ok false => terminate (sh_process sh)
  | Panic => io_panic
  end.

(** The input relay is a task beside the output. After the output it is told to
    stop and awaited, then the process is ended, at last it is dropped. *)
Definition run_relays (cmd : ChildCommand Fd) (relay : Io Output ProcessError (option ExitStatus))
    (input : Io Input Infallible bool) (i : Input) (w : Writer) (p : SessionProcess) : SessionRun Fd :=
  let '(o, served) := serve_output relay (MkOutput w p false) in
  let '(o, _) := signal_input_relay_stop (E := ProcessError) o in
  let '(i, returned) := await_input input i in
  match served, returned with
  | Ok _, false | Err _, false =>
    MkSessionRun (Some cmd) (o_writer o) (Some i) (Some (o_process o)) AwaitingInput
  | _, _ =>
    let '(p, x) := finish_process served (o_process o) in
    MkSessionRun (Some cmd) (o_writer o) (Some i) (Some (drop_process p)) (Returned x)
  end.

Definition not_run {A} (cmd : option (ChildCommand Fd)) (w : Writer) (p : option SessionProcess)
    (x : result A ProcessError) : SessionRun Fd :=
  MkSessionRun cmd w None p
    (Returned (match x with Ok _ => Ok (Some ()) | Err e => Err e | Panic => Panic end)).

(** The child's process id, when it was spawned. *)
Definition spawn (cmd : ChildCommand Fd) : result SessionProcess ProcessError :=
  and_then (result_map_err process_error.Spawn (sh_spawn sh cmd)) new_process.

Definition run_piped (channel : SshChannel) (mode : CommandMode) (config : UserInfo)
    (term : option text) (client_env : list (text * text)) (plan : InputPlan) (bs : list PipedBranch)
    : SessionRun Fd :=
  let cmd := piped_command (sh_host sh) (sh_is_dir sh) mode config term client_env in
  match spawn cmd with
  | Ok p =>
    let pid := Some (process_group p) in
    let '(reader, writer) := into_split channel in
    run_relays cmd (relay_output_piped (sh_process sh) false false None bs)
      (input_task (relay_input_piped pid) plan) (MkInput reader (in_stdin plan) [] []) writer p
  | x => not_run (Some cmd) (writer channel) None x
  end.

Definition run_pty (channel : SshChannel) (mode : CommandMode) (pty : PtyPair Fd) (config : UserInfo)
    (term : option text) (client_env : list (text * text)) (plan : InputPlan) (bs : list PtyBranch)
    : SessionRun Fd :=
  let dup n fd := result_map_err process_error.DupFd (sh_dup sh n fd) in
  let async_pty fd := result_map_err process_error.AsyncPty (sh_async_pty sh fd) in
  match (let? stdout := dup 0%nat (slave pty) in
         let? stderr := dup 1%nat (slave pty) in Ok (stdout, stderr))%result with
  | Ok (stdout, stderr) =>
    let cmd := pty_command (sh_host sh) (sh_is_dir sh) mode config term client_env
                 (slave pty) stdout stderr in
    match spawn cmd with
    | Ok p =>
      let pid := Some (process_group p) in
      match (let? master_write := dup 2%nat (master pty) in
             let? _ := async_pty (master pty) in async_pty master_write)%result with
      | Ok _ =>
        let '(reader, writer) := into_split channel in
        run_relays cmd (relay_output_pty (sh_process sh) false None bs)
          (input_task (relay_input_pty pid) plan) (MkInput reader (in_stdin plan) [] []) writer p
      | x => not_run (Some cmd) (writer channel) (Some (drop_process p)) x
      end
    | x => not_run (Some cmd) (writer channel) None x
    end
  | x => not_run None (writer channel) None x
  end.
End running.

(** ** What the output relay sends *)

Inductive Sent := SOut (bs : list byte) | SErr (bs : list byte) | SExit (status : ExitStatus).

Section sent_wire.
Context `{VarIntLaws, SignalNumbers}.

Definition exit_wire (status : ExitStatus) : list byte :=
  match signal_of status with
  | Some n => request_wire (from_static "exit-signal") false (wire (exit_signal_request status n))
  | None => request_wire (from_static "exit-status") false (wire (exit_status_request status))
  end.
Definition sent_wire (s : Sent) : list byte :=
  match s with
  | SOut bs => data_wire bs
  | SErr bs => extended_data_wire SSH_EXTENDED_DATA_STDERR bs
  | SExit status => exit_wire status
  end.
Definition sent_wires (l : list Sent) : list byte := concat (map sent_wire l).
Definition item_out (s : Sent) : list byte := match s with SOut bs => bs | _ => [] end.
Definition item_err (s : Sent) : list byte := match s with SErr bs => bs | _ => [] end.
Definition sent_out (l : list Sent) : list byte := concat (map item_out l).
Definition sent_err (l : list Sent) : list byte := concat (map item_err l).
Definition sent_exits (l : list Sent) : list ExitStatus :=
  omap (λ s, match s with SExit status => Some status | _ => None end) l.

Lemma signal_of_range status n : signal_of status = Some n → 1 ≤ n ≤ 126.
Proof.
  unfold signal_of. destruct (1 <=? term_signal status) eqn:Hlo; [|done].
  destruct (term_signal status <=? 126) eqn:Hhi; [|done]. intros [= <-]. lia.
Qed.

Lemma ascii_string_ok bs :
  forallb (byte_in 0 127) bs = true → byte_len bs ≤ MAX_REMOTE_FIELD_SIZE → ssh_string_ok (MkSshString bs).
Proof. intros Ha Hl. split; [by apply utf8_valid_ascii|done]. Qed.

Lemma exit_signal_text_ok n : 0 ≤ n → ssh_string_ok (MkSshString (exit_signal_text n)).
Proof.
  intros Hpos. unfold exit_signal_text. destruct (to_ssh_name n) as [name|] eqn:Hn.
  - unfold to_ssh_name in Hn. apply fmap_Some in Hn as ([i [s nm]] & Hf & ->).
    apply list_find_Some in Hf as (Hl & _ & _). apply list_elem_of_lookup_2 in Hl.
    assert (Forall (λ p, forallb (byte_in 0 127) (str_bytes p.2) = true ∧
      (Z.of_nat (String.length p.2) <=? MAX_REMOTE_FIELD_SIZE) = true) ssh_names) as Hall
      by (repeat constructor; vm_compute; done).
    rewrite Forall_forall in Hall. destruct (Hall _ Hl). by apply from_static_ok.
  - apply ascii_string_ok.
    + rewrite !forallb_app. apply andb_true_intro. split; [done|].
      apply andb_true_intro. split; [|done].
      rewrite forallb_forall. intros b Hb. pose proof (dec_all n Hpos) as Hd.
      rewrite forallb_forall in Hd. specialize (Hd b Hb). apply is_digit_range in Hd.
      apply byte_in_spec. lia.
    + unfold byte_len. change MAX_REMOTE_FIELD_SIZE with 1048576. rewrite !length_app.
      pose proof (length_dec_digits 20 n) as Hlen. unfold dec.
      change (length (str_bytes "signal-")) with 7%nat. change (length (str_bytes "@dshell")) with 7%nat. lia.
Qed.

Lemma exit_writes status : writes (send_exit_notification status) (exit_wire status) ().
Proof.
  unfold send_exit_notification, exit_wire. destruct (signal_of status) as [n|] eqn:Hn; apply writes_map_err.
  - apply signal_of_range in Hn.
    refine (notice_writes (MkExitSignalChannelNotice (exit_signal_request status n)) _
      (from_static_ok "exit-signal" eq_refl eq_refl) (wire_encode (exit_signal_request status n) _)).
    split; [|split]; [by apply exit_signal_text_ok; lia|by apply from_static_ok..].
  - refine (notice_writes (MkExitStatusChannelNotice (exit_status_request status)) _
      (from_static_ok "exit-status" eq_refl eq_refl) (wire_encode (exit_status_request status) _)).
    apply varint_ok_u32. cbn [status_exit_status exit_status_request]. unfold wrap_u32, U32_MAX.
    pose proof (Z.mod_pos_bound (default 255 (code_of status)) 4294967296). lia.
Qed.

Lemma sent_wires_app a b : sent_wires (a ++ b) = sent_wires a ++ sent_wires b.
Proof. unfold sent_wires. by rewrite map_app, concat_app. Qed.
End sent_wire.

(** ** The output relay on working streams *)

(** The bytes of the reads of a pipe, up to its end. *)
Fixpoint piped_out (done : bool) (bs : list PipedBranch) : list byte :=
  match bs with
  | Stdout (Ok []) :: _ => []
  | Stdout (Ok chunk) :: bs => if done then [] else chunk ++ piped_out done bs
  | _ :: bs => piped_out done bs
  | [] => []
  end.
Fixpoint piped_err (done : bool) (bs : list PipedBranch) : list byte :=
  match bs with
  | Stderr (Ok []) :: _ => []
  | Stderr (Ok chunk) :: bs => if done then [] else chunk ++ piped_err done bs
  | _ :: bs => piped_err done bs
  | [] => []
  end.
Fixpoint master_out (bs : list PtyBranch) : list byte :=
  match bs with
  | Master (PtyData [] | PtyEio) :: _ => []
  | Master (PtyData chunk) :: bs => chunk ++ master_out bs
  | _ :: bs => master_out bs
  | [] => []
  end.

(** Reads that do not fail, of at most the size of the buffer. *)
Definition piped_ok (b : PipedBranch) : Prop :=
  match b with
  | Stdout (Ok bs) | Stderr (Ok bs) => byte_len bs ≤ 8192
  | ChildExited => True
  | _ => False
  end.
Definition pty_ok (b : PtyBranch) : Prop :=
  match b with
  | Master (PtyData bs) => byte_len bs ≤ 8192
  | Master (PtyError _) => False
  | _ => True
  end.
Definition sent_ok (s : Sent) : Prop :=
  match s with SOut bs | SErr bs => byte_len bs ≤ 8192 | SExit _ => True end.

Section output_proofs.
Context `{VarIntLaws, SignalNumbers} (sys : System).

Lemma piped_out_done bs : piped_out true bs = [].
Proof. induction bs as [|[[[|b c]|e|]|r|] bs IH]; done. Qed.
Lemma piped_err_done bs : piped_err true bs = [].
Proof. induction bs as [|[r|[[|b c]|e|]|] bs IH]; done. Qed.

Lemma on_channel_run {E A} (c : Io Writer E A) o w' x :
  c (o_writer o) = (w', x) → on_channel c o = (MkOutput w' (o_process o) (o_stop o), x).
Proof. intros Hc. unfold on_channel. by erewrite io_zoom_run. Qed.

(** A write of a frame, then the rest of the relay. *)
Lemma on_channel_then {B} (c : Io Writer ProcessError ()) s (k : Io Output ProcessError B) o :
  writes c (sent_wire s) () → wr_plan (o_writer o) = [] →
  ∃ o', (on_channel c ;;; k) o = k o' ∧ wr_plan (o_writer o') = [] ∧
    wr_out (o_writer o') = wr_out (o_writer o) ++ sent_wires [s] ∧ o_process o' = o_process o.
Proof.
  intros Hc Hw. destruct (writes_ok Hc _ Hw) as (w' & Hr & Ho & Hp).
  exists (MkOutput w' (o_process o) (o_stop o)).
  rewrite (io_bind_ok _ _ _ _ _ (on_channel_run c o w' _ Hr)).
  unfold sent_wires. cbn [map concat]. by rewrite app_nil_r.
Qed.

Lemma observe_exit_run o status :
  wr_plan (o_writer o) = [] → sys_wait sys (proc_calls (o_process o)) = Ok status →
  ∃ o', observe_exit sys o = (o', Ok status) ∧ wr_plan (o_writer o') = [] ∧
    wr_out (o_writer o') = wr_out (o_writer o) ++ sent_wires [SExit status] ∧
    o_process o' = did WaitChild true (o_process o).
Proof.
  intros Hw Hwait. unfold observe_exit, io_bind, on_process, io_zoom, wait, signal_input_relay_stop.
  rewrite Hwait. cbn [o_writer o_process o_stop].
  destruct (on_channel_then (B := ExitStatus) (send_exit_notification status) (SExit status) (io_ret status)
    (MkOutput (o_writer o) (did WaitChild true (o_process o)) true) (exit_writes status) Hw)
    as (o' & Hr & Hp & Ho & Hproc).
  exists o'. unfold io_bind in Hr. rewrite Hr. done.
Qed.

(** What a relay that is done has sent. *)
Definition if_none {A} (ex : option ExitStatus) (a b : A) : A :=
  match ex with None => a | Some _ => b end.
Definition relayed (o o' : Output) (ex : option ExitStatus) (status : ExitStatus) (out err : list byte)
    (l : list Sent) : Prop :=
  wr_plan (o_writer o') = [] ∧ wr_out (o_writer o') = wr_out (o_writer o) ++ sent_wires l ∧
  sent_out l = out ∧ sent_err l = err ∧ sent_exits l = if_none ex [status] [] ∧
  Forall sent_ok l ∧
  o_process o' = if_none ex (did WaitChild true (o_process o)) (o_process o).

Lemma relayed_cons (s : Sent) o o1 o' ex ex' status out err l :
  wr_out (o_writer o1) = wr_out (o_writer o) ++ sent_wires [s] → sent_ok s →
  if_none ex' (did WaitChild true (o_process o1)) (o_process o1)
    = if_none ex (did WaitChild true (o_process o)) (o_process o) →
  sent_exits [s] ++ if_none ex' [status] [] = if_none ex [status] [] →
  relayed o1 o' ex' status out err l →
  relayed o o' ex status (item_out s ++ out) (item_err s ++ err) (s :: l).
Proof.
  intros Ho Hs Hproc Hex (Hp & Ho' & <- & <- & He & Hok & Hpr). unfold relayed.
  change (s :: l) with ([s] ++ l). rewrite sent_wires_app.
  split_and!; [done|by rewrite Ho', Ho, <- (assoc_L (++))|done|done| |by constructor|congruence].
  unfold sent_exits in *. by rewrite omap_app, He.
Qed.

Lemma relay_piped_cons so se ex b bs o :
  so && se && bool_decide (is_Some ex) = false →
  relay_output_piped sys so se ex (b :: bs) o =
  match b with
  | Stdout r =>
    if so then relay_output_piped sys so se ex bs o
    else
      read_branch process_error.ReadStdout r (relay_output_piped sys true se ex bs)
        (λ chunk, on_channel (data chunk <?> process_error.WriteData) ;;;
                  relay_output_piped sys so se ex bs) o
  | Stderr r =>
    if se then relay_output_piped sys so se ex bs o
    else
      read_branch process_error.ReadStderr r (relay_output_piped sys so true ex bs)
        (λ chunk, on_channel (extended_data SSH_EXTENDED_DATA_STDERR chunk
                                <?> process_error.WriteExtendedData) ;;;
                  relay_output_piped sys so se ex bs) o
  | ChildExited =>
    match ex with
    | Some _ => relay_output_piped sys so se ex bs o
    | None => (let! status := observe_exit sys in relay_output_piped sys so se (Some status) bs) o
    end
  end.
Proof. by destruct so, se, ex, b. Qed.

Lemma chunk_writes chunk :
  byte_len chunk ≤ 8192 →
  writes (data chunk <?> process_error.WriteData) (sent_wire (SOut chunk)) () ∧
  writes (extended_data SSH_EXTENDED_DATA_STDERR chunk <?> process_error.WriteExtendedData)
    (sent_wire (SErr chunk)) ().
Proof.
  intros Hc. assert (byte_len chunk < VARINT_LIMIT) by (unfold VARINT_LIMIT; lia).
  split; apply writes_map_err; [by apply data_writes|by apply extended_data_writes].
Qed.

Lemma member_cons {A} (x y : A) l : x ∈ y :: l → x = y ∨ x ∈ l.
Proof. by rewrite elem_of_cons. Qed.

Lemma relay_piped_run so se ex status bs o :
  wr_plan (o_writer o) = [] → Forall piped_ok bs →
  (so = true ∨ Stdout (Ok []) ∈ bs) → (se = true ∨ Stderr (Ok []) ∈ bs) →
  match ex with
  | Some s => s = status
  | None => ChildExited ∈ bs ∧ sys_wait sys (proc_calls (o_process o)) = Ok status
  end →
  ∃ o' l, relay_output_piped sys so se ex bs o = (o', Ok (Some status)) ∧
    relayed o o' ex status (piped_out so bs) (piped_err se bs) l.
Proof.
  intros Hw Hbs. revert so se ex o Hw. induction Hbs as [|b bs Hb Hbs IH]; intros so se ex o Hw Hso Hse Hex.
  { destruct Hso as [->|?%not_elem_of_nil]; [|done]. destruct Hse as [->|?%not_elem_of_nil]; [|done].
    destruct ex as [s|]; [subst s|by destruct Hex as [?%not_elem_of_nil _]].
    exists o, []. split; [done|]. unfold relayed, sent_wires. cbn. rewrite app_nil_r. done. }
  destruct (so && se && bool_decide (is_Some ex)) eqn:Hdone.
  { apply andb_prop in Hdone as [[-> ->]%andb_prop Hs%bool_decide_eq_true]. destruct ex as [s|]; [|by destruct Hs].
    subst s. exists o, []. rewrite piped_out_done, piped_err_done. split; [by destruct b|].
    unfold relayed, sent_wires. cbn. rewrite app_nil_r. done. }
  rewrite relay_piped_cons by done.
  assert (b ≠ Stdout (Ok []) → so = true ∨ Stdout (Ok []) ∈ bs) as Hso'
    by (intros ?; destruct Hso as [|[|]%member_cons]; [by left|congruence|by right]).
  assert (b ≠ Stderr (Ok []) → se = true ∨ Stderr (Ok []) ∈ bs) as Hse'
    by (intros ?; destruct Hse as [|[|]%member_cons]; [by left|congruence|by right]).
  assert (b ≠ ChildExited → match ex with
    | Some s => s = status
    | None => ChildExited ∈ bs ∧ sys_wait sys (proc_calls (o_process o)) = Ok status end) as Hex'
    by (intros ?; destruct ex; [done|]; destruct Hex as [[|]%member_cons ?]; [congruence|done]).
  destruct b as [[[|b chunk]|e|]|[[|b chunk]|e|]|]; try done.
  - assert (∃ o' l, relay_output_piped sys true se ex bs o = (o', Ok (Some status)) ∧
      relayed o o' ex status [] (piped_err se bs) l) as Hthen.
    { rewrite <- (piped_out_done bs). apply IH; [done|by left|by apply Hse'|by apply Hex']. }
    cbn [piped_out piped_err]. by destruct so.
  - destruct so; cbn [piped_out piped_err].
    { rewrite <- (piped_out_done bs). apply IH; [done|by left|by apply Hse'|by apply Hex']. }
    cbn [read_branch].
    destruct (on_channel_then _ (SOut (b :: chunk)) (relay_output_piped sys false se ex bs) o
      (proj1 (chunk_writes _ Hb)) Hw) as (o1 & Hr1 & Hp1 & Ho1 & Hpr1).
    destruct (IH false se ex o1 Hp1) as (o' & l & Hr & Hrel);
      [by apply Hso'|by apply Hse'|rewrite Hpr1; by apply Hex'|].
    exists o', (SOut (b :: chunk) :: l). rewrite Hr1. split; [done|].
    apply (relayed_cons (SOut (b :: chunk)) o o1 o' ex ex status _ _ l Ho1 Hb); [by rewrite Hpr1|done|done].
  - assert (∃ o' l, relay_output_piped sys so true ex bs o = (o', Ok (Some status)) ∧
      relayed o o' ex status (piped_out so bs) [] l) as Hthen.
    { rewrite <- (piped_err_done bs). apply IH; [done|by apply Hso'|by left|by apply Hex']. }
    cbn [piped_out piped_err]. by destruct se.
  - destruct se; cbn [piped_out piped_err].
    { rewrite <- (piped_err_done bs). apply IH; [done|by apply Hso'|by left|by apply Hex']. }
    cbn [read_branch].
    destruct (on_channel_then _ (SErr (b :: chunk)) (relay_output_piped sys so false ex bs) o
      (proj2 (chunk_writes _ Hb)) Hw) as (o1 & Hr1 & Hp1 & Ho1 & Hpr1).
    destruct (IH so false ex o1 Hp1) as (o' & l & Hr & Hrel);
      [by apply Hso'|by apply Hse'|rewrite Hpr1; by apply Hex'|].
    exists o', (SErr (b :: chunk) :: l). rewrite Hr1. split; [done|].
    apply (relayed_cons (SErr (b :: chunk)) o o1 o' ex ex status _ _ l Ho1 Hb); [by rewrite Hpr1|done|done].
  - cbn [piped_out piped_err]. destruct ex as [s|].
    { apply IH; [done|by apply Hso'|by apply Hse'|done]. }
    destruct Hex as [_ Hwait].
    destruct (observe_exit_run o status Hw Hwait) as (o1 & Hr1 & Hp1 & Ho1 & Hpr1).
    destruct (IH so se (Some status) o1 Hp1) as (o' & l & Hr & Hrel);
      [by apply Hso'|by apply Hse'|done|].
    exists o', (SExit status :: l). rewrite (io_bind_ok _ _ _ _ _ Hr1). split; [done|].
    by apply (relayed_cons (SExit status) o o1 o' None (Some status) status _ _ l Ho1 I).
Qed.
End output_proofs.

Section run_proofs.
Context `{VarIntLaws, SignalNumbers} (sys : System).

(** A terminal is a pipe without an error output. *)
Definition as_piped (b : PtyBranch) : PipedBranch :=
  match b with
  | Master (PtyData bs) => Stdout (Ok bs)
  | Master PtyEio => Stdout (Ok [])
  | Master (PtyError e) => Stdout (Err e)
  | MasterExited => ChildExited
  end.
Lemma relay_pty_piped closed ex bs o :
  Forall pty_ok bs →
  relay_output_pty sys closed ex bs o = relay_output_piped sys closed true ex (map as_piped bs) o.
Proof.
  intros Hbs. revert closed ex o. induction Hbs as [|b bs Hb Hbs IH]; intros closed ex o.
  { by destruct closed, ex. }
  destruct b as [[[|b c]| |e]|]; [| | |done|]; cbn [map as_piped relay_output_pty relay_output_piped];
    destruct closed, ex; cbn [andb read_branch]; try done; try apply IH; unfold io_bind.
  - by destruct (on_channel _ o) as [o1 [[]|er|]].
  - by destruct (on_channel _ o) as [o1 [[]|er|]].
  - by destruct (observe_exit sys o) as [o1 [s|er|]].
  - by destruct (observe_exit sys o) as [o1 [s|er|]].
Qed.
Lemma master_out_piped bs : Forall pty_ok bs → master_out bs = piped_out false (map as_piped bs).
Proof. induction 1 as [|[[[|b c]| |e]|] bs Hb Hbs IH]; cbn; try done. by rewrite IH. Qed.
Lemma piped_ok_pty bs : Forall pty_ok bs → Forall piped_ok (map as_piped bs).
Proof. intros Hbs. apply Forall_fmap. eapply Forall_impl; [exact Hbs|]. by intros [[?| |?]|]. Qed.

(** The frames of a session, then EOF and Close. *)
Definition session_wire (l : list Sent) : list byte :=
  sent_wires l ++ msg SSH_MSG_CHANNEL_EOF ++ msg SSH_MSG_CHANNEL_CLOSE.

Lemma end_output_run o :
  wr_plan (o_writer o) = [] →
  ∃ o', (on_channel (eof <?> process_error.WriteEof) ;;;
         on_channel (close <?> process_error.WriteClose) ;;;
         on_channel (shutdown <?> process_error.Shutdown) ;;; io_ret true) o = (o', Ok true) ∧
    wr_out (o_writer o') = wr_out (o_writer o) ++ msg SSH_MSG_CHANNEL_EOF ++ msg SSH_MSG_CHANNEL_CLOSE ∧
    o_process o' = o_process o.
Proof.
  intros Hw.
  destruct (writes_ok (writes_map_err _ process_error.WriteEof _ _ eof_writes) _ Hw) as (w1 & R1 & O1 & P1).
  destruct (writes_ok (writes_map_err _ process_error.WriteClose _ _ close_writes) _ P1) as (w2 & R2 & O2 & P2).
  destruct (writes_ok (writes_map_err _ process_error.Shutdown _ _ writes_shutdown) _ P2) as (w3 & R3 & O3 & P3).
  exists (MkOutput w3 (o_process o) (o_stop o)).
  rewrite (io_bind_ok _ _ _ _ _ (on_channel_run _ o _ _ R1)).
  rewrite (io_bind_ok _ _ _ _ _ (on_channel_run _ (MkOutput w1 _ _) _ _ R2)).
  rewrite (io_bind_ok _ _ _ _ _ (on_channel_run _ (MkOutput w2 _ _) _ _ R3)).
  split; [done|]. cbn [o_writer o_process]. by rewrite O3, O2, O1, app_nil_r, <- (assoc_L (++)).
Qed.

End run_proofs.

Section complete_runs.
Context `{VarIntLaws, IoCopy, SignalNumbers} {Fd : Type} (sh : SessionHost Fd).

(** The input relay of a session, where it stops when nothing holds it up. *)
Definition input_left_by (relay : nat → Io Input Infallible bool) (plan : InputPlan) (r : Reader) : Input :=
  (relay (in_rounds plan) (MkInput r (in_stdin plan) [] [])).1.

Lemma await_stopped relay plan i :
  in_stall plan = None → await_input (input_task relay plan) i = ((relay (in_rounds plan) i).1, true).
Proof.
  intros Hs. unfold await_input, input_task, io_bind. rewrite Hs.
  by destruct (relay (in_rounds plan) i) as [i' [[]|[]|]].
Qed.

(** The session of a relay that completes. *)
Lemma run_relays_run cmd relay input i i' w p status out err l o' :
  wr_plan w = [] → relay (MkOutput w p false) = (o', Ok (Some status)) →
  relayed (MkOutput w p false) o' None status out err l → await_input input i = (i', true) →
  ∃ w', run_relays sh cmd relay input i w p
      = MkSessionRun (Some cmd) w' (Some i') (Some (did WaitChild true p)) (Returned (Ok (Some ()))) ∧
    wr_out w' = wr_out w ++ session_wire l.
Proof.
  intros Hw Hr (Hp & Ho & _ & _ & _ & _ & Hproc) Hi.
  destruct (end_output_run o' Hp) as (o2 & Hr2 & Ho2 & Hproc2).
  exists (o_writer o2). unfold run_relays, serve_output. rewrite (io_bind_ok _ _ _ _ _ Hr), Hr2.
  unfold signal_input_relay_stop. rewrite Hi. cbn [finish_process io_ret o_process o_writer].
  rewrite Hproc2, Hproc. cbn [if_none o_process].
  unfold drop_process. cbn [did reaped]. rewrite orb_true_r. split; [done|].
  rewrite Ho2, Ho. unfold session_wire. by rewrite <- (assoc_L (++)).
Qed.

Lemma run_piped_run r w mode config term client_env plan pid status bs :
  let cmd := piped_command (sh_host sh) (sh_is_dir sh) mode config term client_env in
  wr_plan w = [] → Forall piped_ok bs → Stdout (Ok []) ∈ bs → Stderr (Ok []) ∈ bs → ChildExited ∈ bs →
  sh_spawn sh cmd = Ok (Some pid) → sys_wait (sh_process sh) [] = Ok status → in_stall plan = None →
  ∃ w' p l, run_piped sh (new_channel r w) mode config term client_env plan bs
      = MkSessionRun (Some cmd) w' (Some (input_left_by (relay_input_piped (Some pid)) plan r))
          (Some p) (Returned (Ok (Some ()))) ∧
    process_group p = pid ∧ reaped p = true ∧
    wr_out w' = wr_out w ++ session_wire l ∧ sent_out l = piped_out false bs ∧
    sent_err l = piped_err false bs ∧ sent_exits l = [status] ∧ Forall sent_ok l.
Proof.
  intros cmd Hw Hbs Hout Herr Hexit Hspawn Hwait Hstall. set (p := MkSessionProcess pid false []).
  destruct (relay_piped_run (sh_process sh) false false None status bs (MkOutput w p false) Hw Hbs)
    as (o' & l & Hr & Hrel); [by right..|done|].
  destruct (run_relays_run cmd _ _ _ _ w p status _ _ l o' Hw Hr Hrel
    (await_stopped (relay_input_piped (Some pid)) plan (MkInput r (in_stdin plan) [] []) Hstall))
    as (w' & Hrun & Ho).
  exists w', (did WaitChild true p), l. unfold run_piped. fold cmd. unfold spawn. rewrite Hspawn.
  cbn [and_then result_map_err new_process into_split reader writer].
  fold p. change (process_group p) with pid. rewrite Hrun.
  destruct Hrel as (_ & _ & ? & ? & ? & ? & _). done.
Qed.

(** The descriptors a terminal session needs: two copies of the slave for the
    child, and the master for both directions. *)
Definition pty_descriptors (pty : PtyPair Fd) (stdout stderr : Fd) : Prop :=
  sh_dup sh 0 (slave pty) = Ok stdout ∧ sh_dup sh 1 (slave pty) = Ok stderr ∧
  ∃ master_write, sh_dup sh 2 (master pty) = Ok master_write ∧
    sh_async_pty sh (master pty) = Ok () ∧ sh_async_pty sh master_write = Ok ().

Lemma run_pty_run r w mode pty stdout stderr config term client_env plan pid status bs :
  let cmd := pty_command (sh_host sh) (sh_is_dir sh) mode config term client_env
               (slave pty) stdout stderr in
  wr_plan w = [] → Forall pty_ok bs → (Master (PtyData []) ∈ bs ∨ Master PtyEio ∈ bs) →
  MasterExited ∈ bs → pty_descriptors pty stdout stderr →
  sh_spawn sh cmd = Ok (Some pid) → sys_wait (sh_process sh) [] = Ok status → in_stall plan = None →
  ∃ w' p l, run_pty sh (new_channel r w) mode pty config term client_env plan bs
      = MkSessionRun (Some cmd) w' (Some (input_left_by (relay_input_pty (Some pid)) plan r))
          (Some p) (Returned (Ok (Some ()))) ∧
    process_group p = pid ∧ reaped p = true ∧
    wr_out w' = wr_out w ++ session_wire l ∧ sent_out l = master_out bs ∧
    sent_err l = [] ∧ sent_exits l = [status] ∧ Forall sent_ok l.
Proof.
  intros cmd Hw Hbs Hclosed Hexit (Hd0 & Hd1 & mw & Hd2 & Ha1 & Ha2) Hspawn Hwait Hstall.
  set (p := MkSessionProcess pid false []).
  pose proof (relay_pty_piped (sh_process sh) false None bs (MkOutput w p false) Hbs) as Hpty.
  destruct (relay_piped_run (sh_process sh) false true None status (map as_piped bs) (MkOutput w p false) Hw)
    as (o' & l & Hr & Hrel).
  { by apply piped_ok_pty. }
  { right. destruct Hclosed as [Hin|Hin]; by apply (list_elem_of_fmap_2 as_piped) in Hin. }
  { by left. }
  { split; [|done]. by apply (list_elem_of_fmap_2 as_piped) in Hexit. }
  rewrite <- Hpty in Hr. rewrite piped_err_done, <- master_out_piped in Hrel by done.
  destruct (run_relays_run cmd _ _ _ _ w p status _ _ l o' Hw Hr Hrel
    (await_stopped (relay_input_pty (Some pid)) plan (MkInput r (in_stdin plan) [] []) Hstall))
    as (w' & Hrun & Ho).
  exists w', (did WaitChild true p), l. unfold run_pty. rewrite Hd0. cbn [and_then result_map_err].
  rewrite Hd1. cbn [and_then result_map_err]. fold cmd. unfold spawn. rewrite Hspawn, Hd2.
  cbn [and_then result_map_err]. rewrite Ha1. cbn [and_then result_map_err]. rewrite Ha2.
  cbn [and_then result_map_err new_process into_split reader writer].
  fold p. change (process_group p) with pid. rewrite Hrun.
  destruct Hrel as (_ & _ & ? & ? & ? & ? & _). done.
Qed.
End complete_runs.

(** ** What a relay does to its process *)

Section tame.
Context `{VarIntCodec, SignalNumbers} (sys : System).

(** A relay only waits for its process. *)
Definition tame {E A} (c : Io Output E A) : Prop := ∀ o,
  let p := o_process o in
  let p' := o_process (c o).1 in
  (proc_ok sys p → proc_ok sys p') ∧ process_group p' = process_group p ∧
  sent (proc_calls p') = sent (proc_calls p) ∧ (reaped p = true → reaped p' = true).

Lemma tame_id {E A} (c : Io Output E A) : (∀ o, o_process (c o).1 = o_process o) → tame c.
Proof. intros Hc o. by rewrite !Hc. Qed.
Lemma tame_bind {E A B} (c : Io Output E A) (k : A → Io Output E B) :
  tame c → (∀ a, tame (k a)) → tame (io_bind c k).
Proof.
  intros Hc Hk o. unfold io_bind. specialize (Hc o) as (H1 & H2 & H3 & H4).
  destruct (c o) as [o1 [a|e|]]; [|done..]. specialize (Hk a o1) as (? & ? & ? & ?). cbn [fst] in *.
  split_and!; [auto|congruence|congruence|auto].
Qed.
Lemma tame_on_channel {E A} (c : Io Writer E A) : tame (on_channel c).
Proof. apply tame_id. intros o. unfold on_channel, io_zoom. by destruct (c (o_writer o)). Qed.
Lemma tame_observe : tame (observe_exit sys).
Proof.
  apply tame_bind.
  - intros o. unfold on_process, io_zoom. destruct (wait sys (o_process o)) as [p x] eqn:Hw.
    destruct (wait_run _ _ _ _ Hw) as [[Hok Hg Hs _] Hx]. cbn [fst o_process].
    rewrite app_nil_r in Hs. split_and!; [done..|].
    intros Hr. unfold wait in Hw. destruct (sys_wait _ _); by simplify_eq/=; rewrite Hr.
  - intros s. apply tame_bind; [by apply tame_id|]. intros _.
    apply tame_bind; [apply tame_on_channel|]. intros _. by apply tame_id.
Qed.

Lemma tame_read {A} error r (done : Io Output ProcessError A) some :
  tame done → (∀ bs, tame (some bs)) → tame (read_branch error r done some).
Proof. intros Hd Hs. destruct r as [[|b bs]|e|]; [done|apply Hs|by apply tame_id..]. Qed.

Lemma tame_piped so se ex bs : tame (relay_output_piped sys so se ex bs).
Proof.
  revert so se ex. induction bs as [|b bs IH]; intros so se ex.
  { destruct so, se, ex; by apply tame_id. }
  destruct (so && se && bool_decide (is_Some ex)) eqn:Hd.
  { apply andb_prop in Hd as [[-> ->]%andb_prop Hs%bool_decide_eq_true]. destruct ex; [|by destruct Hs].
    by destruct b; apply tame_id. }
  intros o. rewrite relay_piped_cons by done. revert o. destruct b as [r|r|].
  - destruct so; [apply IH|]. apply tame_read; [apply IH|]. intros c.
    apply tame_bind; [apply tame_on_channel|intros _; apply IH].
  - destruct se; [apply IH|]. apply tame_read; [apply IH|]. intros c.
    apply tame_bind; [apply tame_on_channel|intros _; apply IH].
  - destruct ex; [apply IH|]. apply tame_bind; [apply tame_observe|intros s; apply IH].
Qed.

Lemma tame_pty closed ex bs : tame (relay_output_pty sys closed ex bs).
Proof.
  revert closed ex. induction bs as [|b bs IH]; intros closed ex.
  { destruct closed, ex; by apply tame_id. }
  assert (∀ c : Io Writer ProcessError (), tame (on_channel c;;; relay_output_pty sys closed ex bs)) as Hwrite
    by (intros c; apply tame_bind; [apply tame_on_channel|intros _; apply IH]).
  destruct b as [[[|b c]| |e]|], closed, ex; cbn [relay_output_pty];
    try apply IH; try apply Hwrite; try (by apply tame_id);
    (apply tame_bind; [apply tame_observe|intros s; apply IH]).
Qed.

Lemma observe_reaped o o' s : observe_exit sys o = (o', Ok s) → reaped (o_process o') = true.
Proof.
  unfold observe_exit, io_bind, on_process, io_zoom.
  destruct (wait sys (o_process o)) as [p [s0|e|]] eqn:Hw; [|done..].
  destruct (wait_run _ _ _ _ Hw) as [_ Hp]. unfold signal_input_relay_stop, on_channel, io_zoom.
  cbn [o_writer o_process o_stop]. destruct (send_exit_notification s0 _) as [w [[]|e|]]; [|done..].
  unfold io_ret. intros [= <- _]. exact Hp.
Qed.

(** A relay that completes has reaped its process. *)
Lemma piped_reaped so se ex bs o o' s :
  (ex = None ∨ reaped (o_process o) = true) →
  relay_output_piped sys so se ex bs o = (o', Ok (Some s)) → reaped (o_process o') = true.
Proof.
  revert so se ex o. induction bs as [|b bs IH]; intros so se ex o Hex.
  { destruct so, se, ex; cbn; intros [= -> _]; by destruct Hex. }
  destruct (so && se && bool_decide (is_Some ex)) eqn:Hd.
  { apply andb_prop in Hd as [[-> ->]%andb_prop Hs%bool_decide_eq_true]. destruct ex as [t|]; [|by destruct Hs].
    destruct b; cbn; intros [= -> _]; by destruct Hex. }
  rewrite relay_piped_cons by done.
  assert (∀ (c : Io Writer ProcessError ()) so se, (on_channel c;;; relay_output_piped sys so se ex bs) o = (o', Ok (Some s)) →
    reaped (o_process o') = true) as Hwrite.
  { intros c so' se'. unfold io_bind. pose proof (tame_on_channel c o) as (_ & _ & _ & Hm).
    destruct (on_channel c o) as [o1 [[]|e|]]; [|done..]. apply IH. destruct Hex; [by left|right; auto]. }
  destruct b as [r|r|].
  - destruct so; [by apply IH|]. destruct r as [[|b c]|e|]; [by apply IH|apply Hwrite|done..].
  - destruct se; [by apply IH|]. destruct r as [[|b c]|e|]; [by apply IH|apply Hwrite|done..].
  - destruct ex as [t|]; [by apply IH|]. unfold io_bind.
    destruct (observe_exit sys o) as [o1 [t|e|]] eqn:Ho; [|done..].
    apply IH. right. by eapply observe_reaped.
Qed.
Lemma pty_reaped closed ex bs o o' s :
  (ex = None ∨ reaped (o_process o) = true) →
  relay_output_pty sys closed ex bs o = (o', Ok (Some s)) → reaped (o_process o') = true.
Proof.
  revert closed ex o. induction bs as [|b bs IH]; intros closed ex o Hex.
  { destruct closed, ex; cbn; intros [= -> _]; by destruct Hex. }
  assert (∀ (c : Io Writer ProcessError ()) closed, (on_channel c;;; relay_output_pty sys closed ex bs) o = (o', Ok (Some s)) →
    reaped (o_process o') = true) as Hwrite.
  { intros c closed'. unfold io_bind. pose proof (tame_on_channel c o) as (_ & _ & _ & Hm).
    destruct (on_channel c o) as [o1 [[]|e|]]; [|done..]. apply IH. destruct Hex; [by left|right; auto]. }
  destruct b as [r|].
  - destruct closed.
    { destruct r as [[]| |], ex; cbn [relay_output_pty]; try (by apply IH);
        cbn; intros [= -> _]; by destruct Hex. }
    destruct r as [[|b c]| |e]; [by apply IH|apply Hwrite|by apply IH|done].
  - destruct ex as [t|]; [destruct closed; [cbn; intros [= -> _]; by destruct Hex|by apply IH]|].
    cbn [relay_output_pty]. enough ((let! status := observe_exit sys in
      relay_output_pty sys closed (Some status) bs) o = (o', Ok (Some s)) → reaped (o_process o') = true)
      by by destruct closed.
    unfold io_bind. destruct (observe_exit sys o) as [o1 [t|e|]] eqn:Ho; [|done..].
    apply IH. right. by eapply observe_reaped.
Qed.

End tame.

Section process_end.
Context `{VarIntCodec, IoCopy, SignalNumbers} {Fd : Type} (sh : SessionHost Fd).
Context (Hsys : system_ok (sh_process sh)).

(** How a process is left: not signalled in vain, and reaped or killed. *)
Definition ended (p : SessionProcess) : Prop :=
  proc_ok (sh_process sh) p ∧
  (reaped p = true ∨ last (proc_calls p) = Some (Signalled (process_group p) SIGKILL)).

Lemma drop_ended p : proc_ok (sh_process sh) p → ended (drop_process p).
Proof.
  intros Hp. unfold ended, drop_process. destruct (reaped p) eqn:Hr; [auto|].
  split; [apply proc_ok_did; [done..|]|right; cbn; by rewrite last_snoc].
  by intros g s [= <- <-].
Qed.
Lemma drop_group p : process_group (drop_process p) = process_group p.
Proof. unfold drop_process. by destruct (reaped p). Qed.

Lemma finish_run served p p' x :
  finish_process sh served p = (p', x) → proc_ok (sh_process sh) p → (served = Ok true → reaped p = true) →
  proc_ok (sh_process sh) p' ∧ process_group p' = process_group p ∧ x ≠ Ok None ∧
  (x = Ok (Some ()) → reaped p' = true).
Proof.
  intros Hf Hp Hserved.
  destruct (terminate_run _ Hsys p) as (p1 & y & ss & Hr & [Hok Hg _ _] & _ & _ & Hy).
  destruct served as [[]|e|]; cbn [finish_process] in Hf.
  - unfold io_ret in Hf. simplify_eq. auto.
  - rewrite Hr in Hf. simplify_eq. split_and!; [auto|done|by intros ->|by intros ->].
  - unfold io_bind, io_try, io_fail in Hf. rewrite Hr in Hf.
    destruct y as [[u|]|e'|]; simplify_eq; split_and!; auto; done.
  - unfold io_panic in Hf. simplify_eq. done.
Qed.

(** The output of a session leaves its process alone, and has reaped it when it
    was served to its end. *)
Lemma serve_output_process relay w p o served :
  tame (sh_process sh) relay → (∀ o o' s, relay o = (o', Ok (Some s)) → reaped (o_process o') = true) →
  proc_ok (sh_process sh) p → serve_output relay (MkOutput w p false) = (o, served) →
  proc_ok (sh_process sh) (o_process o) ∧ process_group (o_process o) = process_group p ∧
  sent (proc_calls (o_process o)) = sent (proc_calls p) ∧
  (served = Ok true → reaped (o_process o) = true).
Proof.
  intros Ht Hreap Hp Hs. pose proof (Ht (MkOutput w p false)) as (Hok & Hg & Hss & _).
  unfold serve_output, io_bind at 1 in Hs.
  destruct (relay (MkOutput w p false)) as [o1 [[s|]|e|]] eqn:Hr; cbn [fst o_process] in *;
    [|unfold io_ret in Hs; simplify_eq; by split_and!; auto
     |simplify_eq; by split_and!; auto|simplify_eq; by split_and!; auto].
  apply Hreap in Hr.
  assert (tame (sh_process sh) (on_channel (eof <?> process_error.WriteEof) ;;;
       on_channel (close <?> process_error.WriteClose) ;;;
       on_channel (shutdown <?> process_error.Shutdown) ;;; io_ret true)) as Htame.
  { repeat (apply tame_bind; [apply tame_on_channel|intros _]). by apply tame_id. }
  specialize (Htame o1). rewrite Hs in Htame. destruct Htame as (? & ? & ? & ?). cbn [fst] in *.
  split_and!; [auto|congruence|congruence|auto].
Qed.

(** Where a session stands with its process. *)
Definition left_with (waits : Prop) (p : SessionProcess) (e : SessionEnd) : Prop :=
  match e with
  | Returned x => ended p ∧ x ≠ Ok None ∧ (x = Ok (Some ()) → reaped p = true)
  | AwaitingInput => proc_ok (sh_process sh) p ∧ sent (proc_calls p) = [] ∧ waits
  end.

Lemma run_relays_left cmd relay input i w p :
  tame (sh_process sh) relay → (∀ o o' s, relay o = (o', Ok (Some s)) → reaped (o_process o') = true) →
  proc_ok (sh_process sh) p → sent (proc_calls p) = [] →
  let s := run_relays sh cmd relay input i w p in
  ∃ p', sr_command s = Some cmd ∧ sr_process s = Some p' ∧ process_group p' = process_group p ∧
    left_with ((await_input input i).2 = false) p' (sr_end s).
Proof.
  intros Ht Hreap Hp Hnone. cbv zeta. unfold run_relays.
  destruct (serve_output relay (MkOutput w p false)) as [o served] eqn:Hs.
  destruct (serve_output_process _ _ _ _ _ Ht Hreap Hp Hs) as (Hop & Hog & Hos & Hor).
  unfold signal_input_relay_stop. destruct (await_input input i) as [i' returned].
  destruct (finish_process sh served (o_process o)) as [p1 y] eqn:Hf. cbn [o_process o_writer]. rewrite Hf.
  destruct (finish_run _ _ _ _ Hf Hop Hor) as (H2 & H3 & H4 & H5).
  assert (left_with (returned = false) (drop_process p1) (Returned y)) as Hret.
  { split; [by apply drop_ended|]. split; [done|]. intros Hy. unfold drop_process.
    rewrite (H5 Hy). exact (H5 Hy). }
  assert (process_group (drop_process p1) = process_group p) as Hg by (rewrite drop_group; congruence).
  assert (left_with (returned = false) (o_process o) AwaitingInput ∨ returned = true) as Hwait.
  { destruct returned; [by right|left]. split_and!; [done|congruence|done]. }
  destruct served as [b|e|], returned; cbn [sr_command sr_process sr_end snd];
    (eexists; split_and!; [done|done| |]); first [exact Hret|exact Hg|idtac];
    [exact Hog|by destruct Hwait|exact Hog|by destruct Hwait].
Qed.

(** A session waits for its input relay exactly in an event it is held up in. *)
Definition held_in (relay : nat → Io Input Infallible bool) (plan : InputPlan) (r : Reader) : Prop :=
  ∃ n i, in_stall plan = Some n ∧
    relay (in_rounds plan) (MkInput r (in_stdin plan) [] []) = (i, Ok false) ∧
    (held_up n i).2 = Ok false.

Lemma await_held relay plan r :
  (await_input (input_task relay plan) (MkInput r (in_stdin plan) [] [])).2 = false →
  held_in relay plan r.
Proof.
  unfold await_input, input_task, io_bind.
  destruct (relay (in_rounds plan) _) as [i [[]|[]|]] eqn:Hr; [done| |done].
  destruct (in_stall plan) as [n|] eqn:Hn; [|done]. intros Hh. exists n, i.
  split; [done|]. split; [done|]. by destruct (held_up n i) as [i' [b|[]|]]; simplify_eq/=.
Qed.

(** A session without a process has failed to start one; a process is that of
    its command. *)
Definition well_left (relay : option Z → nat → Io Input Infallible bool) (plan : InputPlan) (r : Reader)
    (s : SessionRun Fd) : Prop :=
  match sr_process s with
  | None => ∃ x, sr_end s = Returned x ∧ ∀ u, x ≠ Ok u
  | Some p =>
    (∃ cmd, sr_command s = Some cmd ∧ sh_spawn sh cmd = Ok (Some (process_group p))) ∧
    left_with (held_in (relay (Some (process_group p))) plan r) p (sr_end s)
  end.

Lemma spawned cmd p :
  spawn sh cmd = Ok p → ∃ pid, sh_spawn sh cmd = Ok (Some pid) ∧ p = MkSessionProcess pid false [].
Proof.
  unfold spawn. destruct (sh_spawn sh cmd) as [[pid|]|e|]; [|done..]. intros [= <-]. by exists pid.
Qed.

Lemma run_relays_well_left cmd pid output relay plan r w :
  tame (sh_process sh) output → (∀ o o' s, output o = (o', Ok (Some s)) → reaped (o_process o') = true) →
  sh_spawn sh cmd = Ok (Some pid) →
  well_left relay plan r (run_relays sh cmd output (input_task (relay (Some pid)) plan)
    (MkInput r (in_stdin plan) [] []) w (MkSessionProcess pid false [])).
Proof.
  intros Ht Hreap Hspawn.
  destruct (run_relays_left cmd output (input_task (relay (Some pid)) plan) (MkInput r (in_stdin plan) [] [])
    w (MkSessionProcess pid false []) Ht Hreap) as (p' & Hc & Hp & Hg & Hl); [by split|done|].
  unfold well_left. rewrite Hp, Hg. cbn [process_group]. split; [by exists cmd|].
  destruct (sr_end _); [exact Hl|]. destruct Hl as (? & ? & ?%await_held). done.
Qed.

End process_end.

(** ** Witness *)

Section witness.
#[local] Existing Instance quic_varint.
#[local] Existing Instance copy_once.
#[local] Existing Instance linux_signals.

(** A server whose shell is process 4242. *)
Definition sample_user : UserInfo := MkUserInfo "yiyue" 1000 1000 "/home/yiyue" "/bin/sh" [].
Definition sample_host (sys : System) : SessionHost nat :=
  MkSessionHost (MkHost None None None) (λ _, true)
    (λ cmd, if decide (cc_program cmd = str_bytes "/bin/sh") then Ok (Some 4242) else Err NotFound)
    (λ n fd, Ok (10 + n)%nat) (λ _, Ok ()) sys.

(** A session that is shut down while its process runs, and has typed data for
    it: the relay leaves it, or is held up in it. *)
Definition cut_session (stall : option nat) : SessionRun nat :=
  run_piped (sample_host stubborn) (new_channel (MkReader (data_wire (str_bytes "ls")) None) new_writer)
    (Shell (str_bytes "/bin/sh")) sample_user None [] (MkInputPlan new_writer 0 stall)
    [Stdout (Ok (str_bytes "hi"))].
Definition cut_process (stall : option nat) : SessionProcess := default fresh (sr_process (cut_session stall)).

End witness.
