(* ===== verification/SessionClient.v ===== *)
(** * The client of a session ([src/src/session/client.rs])

    The setup requests of a client, its two relays, and what a session carries
    from end to end: the process's output and exit to the client, the client's
    input to the process. *)
From Stdlib Require Import ZArith Lia Strings.Byte.
From stdpp Require Import base list strings gmap fin_maps relations.
From S2P Require Import Prelude Text Wire Codec Message ChannelErrors Channel SessionMsg.
From S2P Require Import Progress Terminal Accounts Command Process SessionRelay.
Local Open Scope Z_scope.
Local Open Scope io_scope.

(** ** Errors and results *)

Module setup_error.
Inductive SetupError :=
| SendExec (source : SendChannelRequestError SessionCodecError Infallible)
| SendShell (source : SendChannelRequestError Infallible Infallible)
| SendPty (source : SendChannelRequestError SessionCodecError Infallible).
End setup_error.
Abbreviation SetupError := setup_error.SetupError.

Module run_error.
Inductive RunError :=
| ReadEvent (source : ReadChannelEventError)
| DecodeExitStatus (source : SessionCodecError)
| DecodeExitSignal (source : SessionCodecError)
| WriteStdout (source : ErrorKind)
| WriteStderr (source : ErrorKind).
End run_error.
Abbreviation RunError := run_error.RunError.

Inductive ExitResult :=
| Status (code : Z)
| Signal (signal_name : SshString) (core_dumped : bool).

Section client.
Context `{VarIntCodec, IoCopy}.

(** ** Setup *)

Definition request_pty (request : PtyRequest) : Io SshChannel SetupError () :=
  Channel.request (MkPtyChannelRequest request) <?> setup_error.SendPty ;;; io_ret ().
Definition exec (command : list byte) : Io SshChannel SetupError () :=
  Channel.request (MkExecChannelRequest (MkExecRequest (MkSshBytes command))) <?> setup_error.SendExec ;;;
  io_ret ().
Definition shell : Io SshChannel SetupError () :=
  Channel.request MkShellChannelRequest <?> setup_error.SendShell ;;; io_ret ().

(** ** Input *)

(** What the loop of the input relay sees: a read of at most 8192 bytes, or
    an item of the stream of sizes. *)
Inductive ClientInput :=
| Typed (r : result (list byte) ErrorKind)
| Resized (size : option (Z * Z)).

Definition end_channel : Io Writer Infallible () :=
  let! _ := io_try eof in
  let! _ := io_try close in
  let! _ := io_try shutdown in
  io_ret ().

Definition window_change (size : Z * Z) : WindowChangeChannelNotice :=
  MkWindowChangeChannelNotice (MkWindowChangeRequest size.1 size.2 0 0).

(** [false]: the inputs are used up, and the loop waits or saw the done signal. *)
Fixpoint stdin_loop (inputs : list ClientInput) : Io Writer Infallible bool :=
  match inputs with
  | [] => io_ret false
  | Typed (Ok [] | Err _) :: _ => io_ret true
  | Typed (Ok bs) :: inputs =>
    let! sent := io_try (data bs) in
    match sent with
    | Ok _ => stdin_loop inputs
    | Err _ => io_ret true
    | Panic => io_panic
    end
  | Typed Panic :: _ => io_panic
  | Resized None :: inputs => stdin_loop inputs
  | Resized (Some size) :: inputs =>
    let! _ := io_try (E := SendChannelNoticeError SessionCodecError) (notice (window_change size)) in
    stdin_loop inputs
  end.

Definition relay_stdin_interactive (inputs : list ClientInput) : Io Writer Infallible () :=
  stdin_loop inputs ;;; end_channel.
(** [relay_stdin]: the same loop without the sizes. *)
Definition relay_stdin (reads : list (result (list byte) ErrorKind)) : Io Writer Infallible () :=
  relay_stdin_interactive (map Typed reads).

(** ** Output *)

Record ClientOutput := MkClientOutput { co_reader : Reader; co_stdout : Writer; co_stderr : Writer }.

Definition on_co_reader {E A} : Io Reader E A → Io ClientOutput E A :=
  io_zoom co_reader (λ r c, MkClientOutput r (co_stdout c) (co_stderr c)).
Definition to_stdout {E A} : Io (Reader * Writer) E A → Io ClientOutput E A :=
  io_zoom (λ c, (co_reader c, co_stdout c)) (λ s c, MkClientOutput s.1 s.2 (co_stderr c)).
Definition to_stderr {E A} : Io (Reader * Writer) E A → Io ClientOutput E A :=
  io_zoom (λ c, (co_reader c, co_stderr c)) (λ s c, MkClientOutput s.1 (co_stdout c) s.2).

(** Copies the data of a frame to a local stream and flushes it. *)
Definition copy_out (d : ChannelDataRead) : Io (Reader * Writer) ErrorKind () :=
  copy_take (remaining d) ;;; on_writer flush.

Definition on_exit_notice (name : string) (n : IncomingChannelNotice)
    : option (Io ClientOutput RunError ExitResult) :=
  if decide (name = "exit-status"%string) then
    Some (let! req := on_co_reader (notice_decode_payload ExitStatusRequest n <?> run_error.DecodeExitStatus) in
          io_ret (Status (wrap_u32 (status_exit_status req))))
  else if decide (name = "exit-signal"%string) then
    Some (let! req := on_co_reader (notice_decode_payload ExitSignalRequest n <?> run_error.DecodeExitSignal) in
          io_ret (Signal (exit_signal_name req) (ssh_bool (exit_core_dumped req))))
  else None.

(** Each round reads at least one byte; [None] when the fuel runs out. *)
Fixpoint relay_output (fuel : nat) (exit_result : option ExitResult)
    : Io ClientOutput RunError (option (option ExitResult)) :=
  match fuel with
  | O => io_ret None
  | S fuel =>
    let! event := io_try (on_co_reader reader_next_event) in
    match event, exit_result with
    | Panic, _ => io_panic
    | Err (read_channel_event_error.DecodeMessageType UnexpectedEof), _ => io_ret (Some exit_result)
    | Err _, Some _ => io_ret (Some exit_result)
    | Err e, None => io_fail (run_error.ReadEvent e)
    | Ok (reader_event.Data d), _ =>
      to_stdout (copy_out d <?> run_error.WriteStdout) ;;; relay_output fuel exit_result
    | Ok (reader_event.ExtendedData _ d), _ =>
      to_stderr (copy_out d <?> run_error.WriteStderr) ;;; relay_output fuel exit_result
    | Ok (reader_event.Notice incoming), _ =>
      match on_exit_notice (ssh_string_deref (notice_type incoming)) incoming with
      | Some decode => let! result := decode in relay_output fuel (Some result)
      | None => io_ret (Some exit_result)
      end
    | Ok reader_event.Close, _ => io_ret (Some exit_result)
    | Ok _, _ => relay_output fuel exit_result
    end
  end.

(** [ClientSession::run] and [run_interactive]: what the output relay returns,
    and the writer as the input relay leaves it. The input relay is dropped when
    the output relay is done; it ends the channel only when it ended before. *)
Definition run (fuel : nat) (channel : SshChannel) (inputs : list ClientInput) (stdout stderr : Writer)
    : ClientOutput * Writer * result (option (option ExitResult)) RunError :=
  let '(reader, writer) := into_split channel in
  let '(out, x) := relay_output fuel None (MkClientOutput reader stdout stderr) in
  let '(writer, ended) := stdin_loop inputs writer in
  (out, match ended with Ok true => (end_channel writer).1 | _ => writer end, x).
End client.

(** ** Lemmas: copying and frames *)

(** How the client reports the end of a process. *)
Definition exit_result `{SignalNumbers} (status : ExitStatus) : ExitResult :=
  match signal_of status with
  | Some n => Signal (MkSshString (exit_signal_text n)) (core_dumped status)
  | None => Status (default 255 (code_of status))
  end.

Lemma default_code_range status : 0 ≤ default 255 (code_of status) ≤ 255.
Proof.
  unfold code_of. destruct (term_signal status =? 0); simpl; [|lia].
  change 255 with (Z.ones 8). rewrite Z.land_ones by lia.
  pose proof (Z.mod_pos_bound (Z.shiftr status 8) (2 ^ 8)). change (Z.ones 8) with 255. lia.
Qed.

Section frames.
Context `{VarIntLaws, IoCopyLaws, SignalNumbers}.

Lemma copy_take_run bs rest fin w :
  wr_plan w = [] →
  ∃ fin' w', copy_take (byte_len bs) (MkReader (bs ++ rest) fin, w)
      = ((MkReader rest fin', w'), Ok (byte_len bs)) ∧
    wr_out w' = wr_out w ++ bs ∧ wr_plan w' = [].
Proof.
  intros Hw. unfold copy_take.
  destruct (copy_limit_reliable (Some (byte_len bs)) (MkReader (bs ++ rest) fin) w Hw)
    as ([src' w'] & k & Hr & Hp).
  { right. eexists. split; [done|]. unfold byte_len. simpl. rewrite length_app. lia. }
  destruct (copy_limit_ok _ _ _ _ _ _ Hr) as (p & Hbuf & Ho & Hk & Hlim). cbn [rd_buf limited] in *.
  assert (p = bs) as ->.
  { rewrite Hlim. unfold byte_len. by rewrite Nat2Z.id, take_app_length. }
  apply app_inv_head in Hbuf. destruct src' as [buf fin']. cbn [rd_buf] in Hbuf. subst buf k.
  exists fin', w'. by rewrite Hr.
Qed.

Lemma copy_out_run bs rest fin w :
  wr_plan w = [] →
  ∃ fin' w', copy_out (MkChannelDataRead (byte_len bs)) (MkReader (bs ++ rest) fin, w)
      = ((MkReader rest fin', w'), Ok ()) ∧
    wr_out w' = wr_out w ++ bs ∧ wr_plan w' = [].
Proof.
  intros Hw. destruct (copy_take_run bs rest fin w Hw) as (fin' & w1 & Hr & Ho & Hp).
  destruct (writes_ok writes_flush w1 Hp) as (w2 & Hf & Ho2 & Hp2).
  exists fin', w2. unfold copy_out. cbn [remaining]. rewrite (io_bind_ok _ _ _ _ _ Hr).
  unfold on_writer. erewrite io_zoom_run by exact Hf. by rewrite Ho2, app_nil_r.
Qed.

Lemma next_event_data bs rest fin :
  byte_len bs < VARINT_LIMIT →
  reader_next_event (MkReader (data_wire bs ++ rest) fin)
  = (MkReader (bs ++ rest) fin, Ok (reader_event.Data (MkChannelDataRead (byte_len bs)))).
Proof.
  intros Hb. unfold data_wire. rewrite !(assoc_L (++)), <- (assoc_L (++) (_ ++ _)).
  apply (next_data_reads (byte_len bs) (byte_len_ok _ Hb)).
Qed.
Lemma next_event_extended t bs rest fin :
  varint_ok t → byte_len bs < VARINT_LIMIT →
  reader_next_event (MkReader (extended_data_wire t bs ++ rest) fin)
  = (MkReader (bs ++ rest) fin, Ok (reader_event.ExtendedData t (MkChannelDataRead (byte_len bs)))).
Proof.
  intros Ht Hb. unfold extended_data_wire. rewrite !(assoc_L (++)), <- (assoc_L (++) (_ ++ _)).
  pose proof (next_extended_data_reads t (byte_len bs) Ht (byte_len_ok _ Hb)) as Hr.
  rewrite (assoc_L (++)) in Hr. apply Hr.
Qed.
Lemma next_event_notice name payload rest fin :
  ssh_string_ok name →
  reader_next_event (MkReader (request_wire name false payload ++ rest) fin)
  = (MkReader (payload ++ rest) fin, Ok (reader_event.Notice (MkIncomingChannelNotice name))).
Proof.
  intros Hn. unfold request_wire. rewrite <- !(assoc_L (++)).
  pose proof (next_notice_reads name Hn) as Hr.
  specialize (Hr (payload ++ rest) fin). rewrite <- !(assoc_L (++)) in Hr. exact Hr.
Qed.
End frames.

Section output_proofs.
Context `{VarIntLaws, IoCopyLaws, SignalNumbers}.

Definition co_working (c : ClientOutput) : Prop :=
  wr_plan (co_stdout c) = [] ∧ wr_plan (co_stderr c) = [].
(** The client took [out] and [err], and [rest] is still to be read. *)
Definition took (c c' : ClientOutput) (rest out err : list byte) : Prop :=
  rd_buf (co_reader c') = rest ∧ co_working c' ∧
  wr_out (co_stdout c') = wr_out (co_stdout c) ++ out ∧
  wr_out (co_stderr c') = wr_out (co_stderr c) ++ err.

Definition item_exit (s : Sent) (ex : option ExitResult) : option ExitResult :=
  match s with SExit status => Some (exit_result status) | _ => ex end.

Lemma reading_event {A E} (c : Io Reader E A) bs rest fin co x :
  c (MkReader (bs ++ rest) fin) = (MkReader rest fin, x) →
  rd_buf (co_reader co) = bs ++ rest → rd_end (co_reader co) = fin →
  on_co_reader c co = (MkClientOutput (MkReader rest fin) (co_stdout co) (co_stderr co), x).
Proof.
  destruct co as [[buf end_] o e]. cbn. intros Hc -> ->. unfold on_co_reader. by erewrite io_zoom_run.
Qed.

(** One item of the server, as the client's loop takes it. *)
Lemma client_item s fuel ex rest fin o e :
  sent_ok s → wr_plan o = [] → wr_plan e = [] →
  ∃ c', relay_output (S fuel) ex (MkClientOutput (MkReader (sent_wire s ++ rest) fin) o e)
      = relay_output fuel (item_exit s ex) c' ∧
    took (MkClientOutput (MkReader (sent_wire s ++ rest) fin) o e) c' rest (item_out s) (item_err s).
Proof.
  intros Hs Ho He. cbn [relay_output]. unfold io_bind at 1, io_try, on_co_reader, io_zoom. cbn [co_reader].
  destruct s as [bs|bs|status]; cbn [sent_wire item_out item_err item_exit sent_ok] in *.
  - rewrite next_event_data by (unfold VARINT_LIMIT; lia). cbn [co_stdout co_stderr].
    destruct (copy_out_run bs rest fin o Ho) as (fin' & w' & Hr & Hw & Hp).
    exists (MkClientOutput (MkReader rest fin') w' e). split.
    + unfold io_bind, map_err, to_stdout, io_zoom. cbn [co_reader co_stdout]. by rewrite Hr.
    + unfold took, co_working. cbn. by rewrite app_nil_r.
  - rewrite next_event_extended by (unfold varint_ok, SSH_EXTENDED_DATA_STDERR, VARINT_LIMIT; lia).
    cbn [co_stdout co_stderr].
    destruct (copy_out_run bs rest fin e He) as (fin' & w' & Hr & Hw & Hp).
    exists (MkClientOutput (MkReader rest fin') o w'). split.
    + unfold io_bind, map_err, to_stderr, io_zoom. cbn [co_reader co_stderr]. by rewrite Hr.
    + unfold took, co_working. cbn. by rewrite app_nil_r.
  - exists (MkClientOutput (MkReader rest fin) o e). split.
    2:{ unfold took, co_working. cbn. by rewrite !app_nil_r. }
    unfold exit_wire, exit_result. destruct (signal_of status) as [n|] eqn:Hn.
    + rewrite next_event_notice by (by apply from_static_ok). cbn [co_stdout co_stderr notice_type].
      change (ssh_string_deref (from_static "exit-signal")) with "exit-signal"%string.
      unfold on_exit_notice. rewrite decide_False, decide_True by done.
      unfold io_bind, on_co_reader, io_zoom, map_err, notice_decode_payload. cbn [co_reader].
      apply signal_of_range in Hn.
      rewrite (wire_decode (exit_signal_request status n)); [done|].
      split; [|split]; [by apply exit_signal_text_ok; lia|by apply from_static_ok..].
    + rewrite next_event_notice by (by apply from_static_ok). cbn [co_stdout co_stderr notice_type].
      change (ssh_string_deref (from_static "exit-status")) with "exit-status"%string.
      unfold on_exit_notice. rewrite decide_True by done.
      unfold io_bind, on_co_reader, io_zoom, map_err, notice_decode_payload. cbn [co_reader].
      pose proof (default_code_range status) as Hrange.
      assert (wrap_u32 (default 255 (code_of status)) = default 255 (code_of status)) as Hwrap
        by (unfold wrap_u32; apply Z.mod_small; lia).
      rewrite (wire_decode (exit_status_request status)).
      * cbn [io_ret result_map_err exit_status_request status_exit_status co_stdout co_stderr]. by rewrite !Hwrap.
      * apply varint_ok_u32. cbn [status_exit_status exit_status_request]. rewrite Hwrap.
        unfold U32_MAX. lia.
Qed.

Definition items_exit (l : list Sent) (ex : option ExitResult) : option ExitResult :=
  foldl (λ ex s, item_exit s ex) ex l.

Lemma client_items l fuel ex rest c :
  Forall sent_ok l → co_working c → rd_buf (co_reader c) = sent_wires l ++ rest → (length l ≤ fuel)%nat →
  ∃ c', relay_output fuel ex c = relay_output (fuel - length l) (items_exit l ex) c' ∧
    took c c' rest (sent_out l) (sent_err l).
Proof.
  intros Hl. revert fuel ex c. induction Hl as [|s l Hs Hl IH]; intros fuel ex c Hw Hb Hf.
  { exists c. rewrite Nat.sub_0_r. unfold took, sent_out, sent_err. cbn in *. by rewrite !app_nil_r. }
  destruct fuel as [|fuel]; [simpl in Hf; lia|]. simpl in Hf.
  destruct c as [[buf fin] o e]. destruct Hw as [Ho He]. cbn [co_reader rd_buf co_stdout co_stderr] in *.
  subst buf. change (s :: l) with ([s] ++ l). rewrite sent_wires_app, <- (assoc_L (++)).
  unfold sent_wires at 1. cbn [map concat]. rewrite app_nil_r.
  destruct (client_item s fuel ex (sent_wires l ++ rest) fin o e Hs Ho He) as (c1 & Hr1 & Hb1 & Hw1 & Ho1 & He1).
  destruct (IH fuel (item_exit s ex) c1 Hw1 Hb1 ltac:(lia)) as (c2 & Hr2 & Hb2 & Hw2 & Ho2 & He2).
  exists c2. rewrite Hr1, Hr2. split; [done|]. unfold took. split_and!; [done|apply Hw2..| |].
  - rewrite Ho2, Ho1. unfold sent_out. cbn [map concat app]. by rewrite <- (assoc_L (++)).
  - rewrite He2, He1. unfold sent_err. cbn [map concat app]. by rewrite <- (assoc_L (++)).
Qed.

Lemma items_exit_status l ex status : sent_exits l = [status] → items_exit l ex = Some (exit_result status).
Proof.
  revert ex. induction l as [|s l IH]; intros ex; [done|]. unfold items_exit. cbn [foldl].
  destruct s as [bs|bs|t]; cbn [sent_exits omap list_omap item_exit]; [apply IH..|].
  intros [= -> Hl]. clear IH. fold (items_exit l (Some (exit_result status))).
  induction l as [|[bs|bs|t] l IH]; [done|by apply IH..|done].
Qed.

(** A whole session, as the client takes it. *)
Lemma client_session l fuel status rest fin o e :
  Forall sent_ok l → sent_exits l = [status] → wr_plan o = [] → wr_plan e = [] →
  (length l + 2 ≤ fuel)%nat →
  ∃ c', relay_output fuel None (MkClientOutput (MkReader (session_wire l ++ rest) fin) o e)
      = (c', Ok (Some (Some (exit_result status)))) ∧
    wr_out (co_stdout c') = wr_out o ++ sent_out l ∧ wr_out (co_stderr c') = wr_out e ++ sent_err l.
Proof.
  intros Hl Hex Ho He Hf. unfold session_wire. rewrite <- !(assoc_L (++)).
  set (tl := msg SSH_MSG_CHANNEL_EOF ++ msg SSH_MSG_CHANNEL_CLOSE ++ rest).
  destruct (client_items l fuel None tl (MkClientOutput (MkReader (sent_wires l ++ tl) fin) o e) Hl
    (conj Ho He) eq_refl) as ([[buf fin'] o' e'] & Hr & Hb & _ & Ho' & He'); [lia|].
  rewrite Hr, (items_exit_status _ _ _ Hex). cbn [co_reader rd_buf co_stdout co_stderr] in *. subst buf.
  destruct (fuel - length l)%nat as [|[|n]] eqn:En; [lia..|].
  exists (MkClientOutput (MkReader rest fin') o' e'). split; [|split; [exact Ho'|exact He']].
  cbn [relay_output]. unfold io_bind, io_try, on_co_reader, io_zoom. cbn [co_reader].
  unfold tl. rewrite next_eof_reads. cbn [co_reader co_stdout co_stderr].
  rewrite next_close_reads. reflexivity.
Qed.
End output_proofs.

Section session.
Context `{VarIntLaws, IoCopyLaws, SignalNumbers} {Fd : Type} (sh : SessionHost Fd).

(** What the channel of [w'] holds after [w], as a client takes it: the exit
    of [status], with [out] and [err] on its streams. *)
Definition delivers (w w' : Writer) (status : ExitStatus) (out err : list byte) : Prop :=
  ∃ bs rounds, wr_out w' = wr_out w ++ bs ∧
    ∀ fuel rest fin o e, (rounds ≤ fuel)%nat → wr_plan o = [] → wr_plan e = [] →
      ∃ c, relay_output fuel None (MkClientOutput (MkReader (bs ++ rest) fin) o e)
          = (c, Ok (Some (Some (exit_result status)))) ∧
        wr_out (co_stdout c) = wr_out o ++ out ∧ wr_out (co_stderr c) = wr_out e ++ err.

Lemma session_delivers w w' l status :
  wr_out w' = wr_out w ++ session_wire l → Forall sent_ok l → sent_exits l = [status] →
  delivers w w' status (sent_out l) (sent_err l).
Proof.
  intros Ho Hl Hex. exists (session_wire l), (length l + 2)%nat. split; [done|].
  intros fuel rest fin o e Hf Hw1 Hw2. by apply client_session.
Qed.

(** A session carries its process's output and exit from end to end. When
    the process's pipes are read to their ends and its exit is seen, in whatever
    order and pieces, the session reports success with the process reaped, and a
    client that reads the channel returns how the process ended, with exactly the
    bytes of the process's output and errors, in order, on its own streams; for a
    terminal both come as output. *)
Theorem session_output_carried (r : Reader) (w : Writer) (mode : CommandMode) (config : UserInfo)
    (term : option text) (client_env : list (text * text)) (plan : InputPlan) (pid : Z) (status : ExitStatus) :
  wr_plan w = [] → sys_wait (sh_process sh) [] = Ok status → in_stall plan = None →
  (∀ bs, Forall piped_ok bs → Stdout (Ok []) ∈ bs → Stderr (Ok []) ∈ bs → ChildExited ∈ bs →
     sh_spawn sh (piped_command (sh_host sh) (sh_is_dir sh) mode config term client_env) = Ok (Some pid) →
     let run := run_piped sh (new_channel r w) mode config term client_env plan bs in
     ∃ p, sr_process run = Some p ∧ sr_end run = Returned (Ok (Some ())) ∧ reaped p = true ∧
       delivers w (sr_writer run) status (piped_out false bs) (piped_err false bs)) ∧
  (∀ pty stdout stderr bs,
     Forall pty_ok bs → (Master (PtyData []) ∈ bs ∨ Master PtyEio ∈ bs) → MasterExited ∈ bs →
     pty_descriptors sh pty stdout stderr →
     sh_spawn sh (pty_command (sh_host sh) (sh_is_dir sh) mode config term client_env
       (slave pty) stdout stderr) = Ok (Some pid) →
     let run := run_pty sh (new_channel r w) mode pty config term client_env plan bs in
     ∃ p, sr_process run = Some p ∧ sr_end run = Returned (Ok (Some ())) ∧ reaped p = true ∧
       delivers w (sr_writer run) status (master_out bs) []).
Proof.
  intros Hw Hwait Hstall. split.
  - intros bs Hbs Ho He Hx Hs. cbv zeta.
    destruct (run_piped_run sh r w mode config term client_env plan pid status bs
      Hw Hbs Ho He Hx Hs Hwait Hstall) as (w' & p & l & -> & _ & Hp & Hout & <- & <- & Hex & Hl).
    exists p. do 3 (split; [done|]). by apply session_delivers.
  - intros pty stdout stderr bs Hbs Hc Hx Hd Hs. cbv zeta.
    destruct (run_pty_run sh r w mode pty stdout stderr config term client_env plan pid status bs
      Hw Hbs Hc Hx Hd Hs Hwait Hstall) as (w' & p & l & -> & _ & Hp & Hout & <- & <- & Hex & Hl).
    exists p. do 3 (split; [done|]). by apply session_delivers.
Qed.
End session.

(** ** Input *)

(** What the client's loop takes before the end of its input. *)
Fixpoint live (inputs : list ClientInput) : list ClientInput :=
  match inputs with
  | [] | Typed (Ok []) :: _ => []
  | i :: inputs => i :: live inputs
  end.
Definition input_ok (i : ClientInput) : Prop :=
  match i with
  | Typed (Ok bs) => byte_len bs ≤ 8192
  | Typed _ => False
  | Resized (Some (cols, rows)) => 0 ≤ cols ≤ U16_MAX ∧ 0 ≤ rows ≤ U16_MAX
  | Resized None => True
  end.
Definition typed (inputs : list ClientInput) : list byte :=
  concat (map (λ i, match i with Typed (Ok bs) => bs | _ => [] end) inputs).
Definition sizes (inputs : list ClientInput) : list winsize :=
  omap (λ i, match i with Resized (Some (cols, rows)) => Some (MkWinsize rows cols 0 0) | _ => None end)
    inputs.

Section input_proofs.
Context `{VarIntLaws, IoCopyLaws}.

Definition resize_request (size : Z * Z) : WindowChangeRequest := MkWindowChangeRequest size.1 size.2 0 0.
Definition input_wire (i : ClientInput) : list byte :=
  match i with
  | Typed (Ok bs) => data_wire bs
  | Resized (Some size) => request_wire (from_static "window-change") false (wire (resize_request size))
  | _ => []
  end.

Lemma resize_request_ok cols rows :
  0 ≤ cols ≤ U16_MAX → 0 ≤ rows ≤ U16_MAX → wire_ok (resize_request (cols, rows)).
Proof. unfold U16_MAX. intros ??. split_and!; apply varint_ok_u32; unfold U32_MAX; simpl; lia. Qed.

Lemma window_change_writes size :
  wire_ok (resize_request size) →
  writes (notice (PE := SessionCodecError) (window_change size)) (input_wire (Resized (Some size))) ().
Proof.
  intros Hs. exact (notice_writes (window_change size) _
    (from_static_ok "window-change" eq_refl eq_refl) (wire_encode (resize_request size) Hs)).
Qed.

(** A call whose error is ignored, on a transport that works. *)
Lemma io_try_writes {E E'} (c : Io Writer E ()) bs w :
  writes c bs () → wr_plan w = [] →
  ∃ w', io_try (E' := E') c w = (w', Ok (Ok ())) ∧ wr_out w' = wr_out w ++ bs ∧ wr_plan w' = [].
Proof.
  intros Hc Hw. destruct (writes_ok Hc w Hw) as (w' & Hr & Ho & Hp). exists w'.
  unfold io_try. by rewrite Hr.
Qed.

Lemma stdin_loop_run inputs w :
  Forall input_ok inputs → wr_plan w = [] →
  ∃ w' ended, stdin_loop inputs w = (w', Ok ended) ∧
    wr_out w' = wr_out w ++ concat (map input_wire (live inputs)) ∧ wr_plan w' = [].
Proof.
  intros Hi. revert w. induction Hi as [|i inputs Hi Hall IH]; intros w Hw.
  { exists w, false. by rewrite app_nil_r. }
  destruct i as [[[|b bs]|e|]|[[cols rows]|]]; try done; cbn [stdin_loop live].
  - exists w, true. by rewrite app_nil_r.
  - cbn [input_ok] in Hi.
    assert (byte_len (b :: bs) < VARINT_LIMIT) as Hlen by (unfold VARINT_LIMIT; lia).
    destruct (io_try_writes (E' := Infallible) _ _ w (data_writes _ Hlen) Hw) as (w1 & Hr & Ho & Hp).
    destruct (IH w1 Hp) as (w2 & ended & Hr2 & Ho2 & Hp2). exists w2, ended. rewrite (io_bind_ok _ _ _ _ _ Hr).
    split; [exact Hr2|]. split; [|done]. rewrite Ho2, Ho, <- (assoc_L (++)). done.
  - destruct Hi as [Hc Hrows].
    destruct (io_try_writes (E' := Infallible) _ _ w
      (window_change_writes _ (resize_request_ok cols rows Hc Hrows)) Hw) as (w1 & Hr & Ho & Hp).
    destruct (IH w1 Hp) as (w2 & ended & Hr2 & Ho2 & Hp2). exists w2, ended. rewrite (io_bind_ok _ _ _ _ _ Hr).
    split; [exact Hr2|]. split; [|done]. rewrite Ho2, Ho, <- (assoc_L (++)). done.
  - by apply IH.
Qed.

Lemma end_channel_run w :
  wr_plan w = [] → ∃ w', end_channel w = (w', Ok ()) ∧
    wr_out w' = wr_out w ++ msg SSH_MSG_CHANNEL_EOF ++ msg SSH_MSG_CHANNEL_CLOSE.
Proof.
  intros Hw. unfold end_channel.
  destruct (io_try_writes (E' := Infallible) _ _ _ eof_writes Hw) as (w1 & R1 & O1 & P1).
  destruct (io_try_writes (E' := Infallible) _ _ _ close_writes P1) as (w2 & R2 & O2 & P2).
  destruct (io_try_writes (E' := Infallible) _ _ _ writes_shutdown P2) as (w3 & R3 & O3 & P3).
  exists w3. rewrite (io_bind_ok _ _ _ _ _ R1), (io_bind_ok _ _ _ _ _ R2), (io_bind_ok _ _ _ _ _ R3).
  split; [done|]. by rewrite O3, O2, O1, app_nil_r, <- (assoc_L (++)).
Qed.

(** The server's loop on what the client sent. *)
Definition fed (i i' : Input) (rest : list byte) (l : list ClientInput) : Prop :=
  rd_buf (i_reader i') = rest ∧ wr_plan (i_stdin i') = [] ∧
  wr_out (i_stdin i') = wr_out (i_stdin i) ++ typed l ∧ i_sizes i' = i_sizes i ++ sizes l ∧
  i_delivered i' = i_delivered i.

Lemma relay_data handle n bs rest i :
  byte_len bs ≤ 8192 → wr_plan (i_stdin i) = [] → rd_buf (i_reader i) = data_wire bs ++ rest →
  ∃ i', relay_input handle (S n) i = relay_input handle n i' ∧ fed i i' rest [Typed (Ok bs)].
Proof.
  intros Hb Hw Hbuf. destruct i as [[buf fin] stdin del szs]. cbn [i_reader rd_buf i_stdin] in *. subst buf.
  destruct (copy_take_run bs rest fin stdin Hw) as (fin' & w' & Hr & Ho & Hp).
  exists (MkInput (MkReader rest fin') w' del szs). split.
  - cbn [relay_input]. unfold io_bind at 1, io_try at 1, from_channel, io_zoom. cbn [i_reader].
    rewrite next_event_data by (unfold VARINT_LIMIT; lia). cbn [i_stdin i_delivered i_sizes].
    unfold io_bind, io_try, copying, io_zoom. cbn [i_reader i_stdin remaining]. by rewrite Hr.
  - unfold fed, typed, sizes. cbn. by rewrite !app_nil_r.
Qed.

Lemma relay_resize pid n cols rows rest i :
  0 ≤ cols ≤ U16_MAX → 0 ≤ rows ≤ U16_MAX → wr_plan (i_stdin i) = [] →
  rd_buf (i_reader i) = input_wire (Resized (Some (cols, rows))) ++ rest →
  ∃ i', relay_input_pty pid (S n) i = relay_input_pty pid n i' ∧ fed i i' rest [Resized (Some (cols, rows))].
Proof.
  intros Hc Hr Hw Hbuf. destruct i as [[buf fin] stdin del szs]. cbn [i_reader rd_buf i_stdin input_wire] in *.
  subst buf. exists (MkInput (MkReader rest fin) stdin del (szs ++ [MkWinsize rows cols 0 0])). split.
  - unfold relay_input_pty. cbn [relay_input]. unfold io_bind at 1, io_try at 1, from_channel at 1, io_zoom.
    cbn [i_reader]. rewrite next_event_notice by (by apply from_static_ok).
    cbn [i_stdin i_delivered i_sizes]. unfold handle_pty_notice at 1. cbn [notice_type].
    change (ssh_string_deref (from_static "window-change")) with "window-change"%string.
    rewrite decide_False, decide_True by done.
    unfold on_notice, io_bind, io_try, from_channel, io_zoom, notice_decode_payload.
    cbn [i_reader i_stdin i_delivered i_sizes].
    rewrite (wire_decode (resize_request (cols, rows)) (resize_request_ok cols rows Hc Hr)).
    unfold resize, winsize_from_resize, try_u16, u16_try_from. cbn [resize_request win_width_cols win_height_rows
      win_width_px win_height_px fst snd].
    rewrite !(proj2 (Z.leb_le _ U16_MAX)) by (unfold U16_MAX in *; lia). reflexivity.
  - unfold fed, typed, sizes. cbn. by rewrite !app_nil_r.
Qed.
End input_proofs.

Section input_session.
Context `{VarIntLaws, IoCopyLaws}.

Definition no_resize (i : ClientInput) : Prop := match i with Resized (Some _) => False | _ => True end.

Lemma fed_cons i i1 i2 rest rest' x l :
  fed i i1 rest' [x] → fed i1 i2 rest l → fed i i2 rest (x :: l).
Proof.
  intros (_ & _ & Ho1 & Hs1 & Hd1) (Hb & Hw & Ho2 & Hs2 & Hd2). unfold fed.
  split_and!; [done..| | |congruence].
  - rewrite Ho2, Ho1. unfold typed. cbn [map concat]. by rewrite app_nil_r, <- (assoc_L (++)).
  - rewrite Hs2, Hs1, <- (assoc_L (++)). f_equal. unfold sizes.
    by rewrite <- omap_app.
Qed.
Lemma fed_nil i rest : rd_buf (i_reader i) = rest → wr_plan (i_stdin i) = [] → fed i i rest [].
Proof. intros Hb Hw. unfold fed, typed, sizes. cbn. by rewrite !app_nil_r. Qed.

Lemma relay_inputs handle l n rest i :
  Forall input_ok l →
  (Forall no_resize l ∨ ∃ pid, handle = (λ incoming, handle_pty_notice incoming pid)) →
  wr_plan (i_stdin i) = [] → rd_buf (i_reader i) = concat (map input_wire l) ++ rest →
  (length l ≤ n)%nat →
  ∃ m i', relay_input handle n i = relay_input handle m i' ∧ (n ≤ m + length l)%nat ∧ fed i i' rest l.
Proof.
  intros Hl. revert n i. induction Hl as [|x l Hx Hl IH]; intros n i Hh Hw Hb Hn.
  { exists n, i. split; [done|]. split; [simpl; lia|]. by apply fed_nil. }
  destruct n as [|n]; [simpl in Hn; lia|]. simpl in Hn. cbn [map concat] in Hb. rewrite <- (assoc_L (++)) in Hb.
  assert (Forall no_resize l ∨ ∃ pid, handle = (λ incoming, handle_pty_notice incoming pid)) as Hh'
    by (destruct Hh as [Hf|]; [left; by inversion Hf|by right]).
  destruct x as [[bs|e|]|[[cols rows]|]]; try done.
  - destruct (relay_data handle n bs _ i Hx Hw Hb) as (i1 & Hr1 & Hf1).
    destruct (IH n i1 Hh' (proj1 (proj2 Hf1)) (proj1 Hf1) ltac:(lia)) as (m & i2 & Hr2 & Hm & Hf2).
    exists m, i2. rewrite Hr1, Hr2. split; [done|]. split; [simpl; lia|]. by eapply fed_cons.
  - destruct Hh as [Hf|[pid ->]]; [by inversion Hf|]. destruct Hx as [Hc Hrow].
    destruct (relay_resize pid n cols rows _ i Hc Hrow Hw Hb) as (i1 & Hr1 & Hf1).
    destruct (IH n i1 Hh' (proj1 (proj2 Hf1)) (proj1 Hf1) ltac:(lia)) as (m & i2 & Hr2 & Hm & Hf2).
    exists m, i2. unfold relay_input_pty in Hr1. rewrite Hr1, Hr2.
    split; [done|]. split; [simpl; lia|]. by eapply fed_cons.
  - destruct (IH (S n) i Hh' Hw Hb ltac:(lia)) as (m & i2 & Hr2 & Hm & Hf2).
    exists m, i2. split; [done|]. split; [simpl; lia|]. exact Hf2.
Qed.

Lemma relay_inputs_end handle l n rest i :
  Forall input_ok l →
  (Forall no_resize l ∨ ∃ pid, handle = (λ incoming, handle_pty_notice incoming pid)) →
  wr_plan (i_stdin i) = [] →
  rd_buf (i_reader i) = concat (map input_wire l) ++ msg SSH_MSG_CHANNEL_EOF ++ rest →
  (length l < n)%nat →
  ∃ i', relay_input handle n i = (i', Ok true) ∧ fed i i' rest l.
Proof.
  intros Hl Hh Hw Hb Hn.
  destruct (relay_inputs handle l n (msg SSH_MSG_CHANNEL_EOF ++ rest) i Hl Hh Hw Hb ltac:(lia))
    as (m & [[buf fin] stdin del szs] & Hr & Hm & Hf & Hp & Hrest). cbn [i_reader rd_buf] in Hf. subst buf.
  exists (MkInput (MkReader rest fin) stdin del szs). destruct m as [|m]; [lia|]. rewrite Hr. split.
  - cbn [relay_input]. unfold io_bind, io_try, from_channel, io_zoom. cbn [i_reader].
    by rewrite next_eof_reads.
  - done.
Qed.

Lemma live_ok inputs : Forall input_ok inputs → Forall input_ok (live inputs).
Proof. induction 1 as [|[[[|b bs]|e|]|s] inputs Hx Hi IH]; cbn; auto. Qed.
Lemma live_length inputs : (length (live inputs) ≤ length inputs)%nat.
Proof. induction inputs as [|[[[|b bs]|e|]|s] inputs IH]; cbn; lia. Qed.

(** C8: A session carries the client's input from end to end. Whatever pieces
    the client reads from its terminal until its end, and whatever sizes its
    window takes meanwhile, the process's terminal is written exactly the bytes
    typed, in order, its size is set to each size in turn, nothing is signalled,
    and the server's relay ends by itself; for a process on pipes the same holds
    of the bytes when the client sends no sizes. *)
Theorem session_input_carried (inputs : list ClientInput) (pid : option Z) (w : Writer) :
  Forall input_ok inputs → wr_plan w = [] →
  ∃ w' bs, relay_stdin_interactive inputs w = (w', Ok ()) ∧ wr_out w' = wr_out w ++ bs ∧
    ∀ rounds rest fin stdin, (length inputs < rounds)%nat → wr_plan stdin = [] →
      let start := MkInput (MkReader (bs ++ rest) fin) stdin [] [] in
      (∃ i, relay_input_pty pid rounds start = (i, Ok true) ∧
         wr_out (i_stdin i) = wr_out stdin ++ typed (live inputs) ∧
         i_sizes i = sizes (live inputs) ∧ i_delivered i = []) ∧
      (Forall no_resize (live inputs) →
       ∃ i, relay_input_piped pid rounds start = (i, Ok true) ∧
         wr_out (i_stdin i) = wr_out stdin ++ typed (live inputs) ∧ i_delivered i = []).
Proof.
  intros Hi Hw. destruct (stdin_loop_run inputs w Hi Hw) as (w1 & ended & Hr1 & Ho1 & Hp1).
  destruct (end_channel_run w1 Hp1) as (w2 & Hr2 & Ho2).
  exists w2, (concat (map input_wire (live inputs)) ++ msg SSH_MSG_CHANNEL_EOF ++ msg SSH_MSG_CHANNEL_CLOSE).
  unfold relay_stdin_interactive. rewrite (io_bind_ok _ _ _ _ _ Hr1). split; [done|].
  split; [by rewrite Ho2, Ho1, <- (assoc_L (++))|].
  intros rounds rest fin stdin Hn Hs. cbv zeta. rewrite <- !(assoc_L (++)).
  pose proof (live_length inputs) as Hlen. pose proof (live_ok _ Hi) as Hok.
  set (start := MkInput _ stdin [] []). split.
  - destruct (relay_inputs_end (λ incoming, handle_pty_notice incoming pid) (live inputs) rounds
      (msg SSH_MSG_CHANNEL_CLOSE ++ rest) start Hok) as (i & Hr & _ & _ & Ho & Hsz & Hd);
      [right; by exists pid|done..|lia|].
    exists i. done.
  - intros Hno. destruct (relay_inputs_end (λ incoming, handle_piped_notice incoming pid) (live inputs) rounds
      (msg SSH_MSG_CHANNEL_CLOSE ++ rest) start Hok) as (i & Hr & _ & _ & Ho & _ & Hd);
      [by left|done..|lia|].
    exists i. done.
Qed.

(** Extended data from a client breaks the input relay. The relay ignores
    the event and does not read the data that follows it, so that the next event
    is read from the data: data that holds a Close ends the input. *)
Theorem extended_input_misread (handle : IncomingChannelNotice → Io Input Infallible bool) (rounds : nat)
    (t : Z) (typed_later : list byte) fin stdin del szs :
  varint_ok t → byte_len (msg SSH_MSG_CHANNEL_CLOSE) < VARINT_LIMIT →
  relay_input handle (S (S rounds))
    (MkInput (MkReader (extended_data_wire t (msg SSH_MSG_CHANNEL_CLOSE) ++ data_wire typed_later) fin)
       stdin del szs)
  = (MkInput (MkReader (data_wire typed_later) fin) stdin del szs, Ok true).
Proof.
  intros Ht Hb. cbn [relay_input]. unfold io_bind at 1, io_try at 1, from_channel at 1, io_zoom.
  cbn [i_reader]. rewrite next_event_extended by done. cbn [i_stdin i_delivered i_sizes].
  unfold io_bind, io_try, from_channel, io_zoom. cbn [i_reader i_stdin i_delivered i_sizes].
  by rewrite next_close_reads.
Qed.
End input_session.

(** A process that does not take its input holds up the end of its session. A
    session that is shut down when the client has sent data of which the process
    takes nothing waits for the input relay, with the process as it was: not
    waited for, not signalled, not dropped. *)
Theorem shutdown_held_up `{VarIntLaws, IoCopyLaws, SignalNumbers} {Fd : Type} (sh : SessionHost Fd)
    (data rest : list byte) (w stdin : Writer) (mode : CommandMode) (config : UserInfo)
    (term : option text) (client_env : list (text * text)) (pid : Z) :
  byte_len data < VARINT_LIMIT → wr_plan stdin = [] →
  sh_spawn sh (piped_command (sh_host sh) (sh_is_dir sh) mode config term client_env) = Ok (Some pid) →
  let run := run_piped sh (new_channel (MkReader (data_wire data ++ rest) None) w) mode config term
               client_env (MkInputPlan stdin 0 (Some 0%nat)) [] in
  sr_end run = AwaitingInput ∧ sr_process run = Some (MkSessionProcess pid false []).
Proof.
  intros Hd Hs Hspawn. cbv zeta. unfold run_piped, spawn. rewrite Hspawn.
  cbn [and_then result_map_err new_process into_split process_group in_stdin reader writer].
  unfold run_relays, serve_output, io_bind at 1. cbn [relay_output_piped andb io_ret].
  assert (∀ i, i_reader i = MkReader (data_wire data ++ rest) None → i_stdin i = stdin →
    ∃ i', await_input (input_task (relay_input_piped (Some pid)) (MkInputPlan stdin 0 (Some 0%nat))) i = (i', false))
    as Hawait.
  { intros [r o del szs] Hr Ho. cbn in Hr, Ho. subst r o.
    unfold await_input, input_task, io_bind. cbn [relay_input_piped relay_input in_rounds in_stall].
    unfold held_up, io_bind, io_try, from_channel, io_zoom, io_ret. cbn [i_reader].
    rewrite next_event_data by done. cbn [i_stdin remaining].
    assert (Z.min (Z.of_nat 0) (byte_len data) = 0) as -> by (unfold byte_len; lia).
    destruct (copy_limit_reliable (Some 0) (MkReader (data ++ rest) None) stdin Hs
      (or_introl eq_refl)) as ([r' o'] & k & Hc & _).
    destruct (copy_limit_ok _ _ _ _ _ _ Hc) as (p & _ & _ & Hk & Hp). cbn in Hp. subst p k.
    unfold copying, io_zoom, copy_take. cbn [i_reader i_stdin]. rewrite Hc. by eexists. }
  destruct (Hawait (MkInput (MkReader (data_wire data ++ rest) None) stdin [] [])
    eq_refl eq_refl) as (i' & Hi).
  unfold signal_input_relay_stop. cbn [o_writer o_process]. rewrite Hi. by split.
Qed.

(** ** The relays end with their streams *)

(** The first step of a run that is not known to have returned; the cases in
    which it has not are closed. *)
Ltac first_run s1 a Hr :=
  unfold io_bind at 1;
  lazymatch goal with |- (let (_, _) := ?c in _).2 ≠ _ =>
    destruct c as [s1 [a|?|]] eqn:Hr; [|done..] end.

Section termination.
Context `{VarIntLaws, !IoCopy, !IoCopyLaws}.

Definition input_left (i : Input) : nat := reader_left (i_reader i).
Definition output_left (c : ClientOutput) : nat := reader_left (co_reader c).

Lemma on_notice_shrinks (T : Type) `{DecodeFrom T SessionCodecError} incoming (effect : T → Input → Input) :
  decoder (decode_from T) → (∀ req i, i_reader (effect req i) = i_reader i) →
  shrinks input_left (on_notice T incoming effect).
Proof.
  intros Hd He i i' b. unfold on_notice.
  intros (i1 & req & [Hr _]%io_try_ok & Hx)%io_bind_inv_ok.
  assert (input_left i1 ≤ input_left i)%nat.
  { revert Hr. unfold from_channel, io_zoom, notice_decode_payload.
    destruct (decode_from T (i_reader i)) as [r x] eqn:Hdx. intros. simplify_eq.
    destruct (dec_consumes Hd _ _ _ Hdx) as (_ & p & Hb). unfold input_left, reader_left. simpl.
    rewrite Hb, length_app. lia. }
  destruct req as [req|e|]; unfold io_ret, io_panic in Hx; simplify_eq; [|done].
  unfold input_left in *. by rewrite He.
Qed.

Lemma relay_input_ends handle rounds i :
  (∀ incoming, shrinks input_left (handle incoming)) → (input_left i < rounds)%nat →
  (relay_input handle rounds i).2 ≠ Ok false.
Proof.
  intros Hh. revert i. induction rounds as [|rounds IH]; intros i Hi; [lia|]. cbn [relay_input].
  first_run i1 ev Hev.
  apply io_try_ok in Hev as [Hev Hnp]. destruct ev as [ev|e|]; [|done..].
  assert (input_left i1 < input_left i)%nat as Hlt.
  { revert Hev. unfold from_channel, io_zoom. destruct (reader_next_event (i_reader i)) as [r x] eqn:Hr.
    intros. simplify_eq. by apply reader_next_event_progress in Hr. }
  destruct ev as [d|t d|n| | | |]; try done; try (apply IH; lia).
  - first_run i2 k Hc.
    apply io_try_ok in Hc as [Hc _]. destruct k as [k|e|]; [|done..]. apply IH.
    revert Hc. unfold copying, io_zoom.
    destruct (copy_take (remaining d) (i_reader i1, i_stdin i1)) as [s x] eqn:Hk. intros. simplify_eq.
    apply copy_take_shrinks in Hk. unfold input_left in *. simpl in *. lia.
  - first_run i2 more Hn. destruct more; [|done].
    apply Hh in Hn. apply IH. lia.
Qed.

Lemma copy_out_shrinks {E} (wrap : ErrorKind → E) d s s' a :
  (copy_out d <?> wrap) s = (s', Ok a) → (reader_left s'.1 ≤ reader_left s.1)%nat.
Proof.
  intros (s1 & k & Hk%copy_take_shrinks & Hf)%map_err_inv_ok%io_bind_inv_ok.
  revert Hf. unfold on_writer, io_zoom. destruct (flush s1.2). intros. by simplify_eq.
Qed.

Lemma on_exit_notice_shrinks name n decode c c' x :
  on_exit_notice name n = Some decode → decode c = (c', Ok x) → (output_left c' ≤ output_left c)%nat.
Proof.
  assert (∀ T (P : DecodeFrom T SessionCodecError) (wrap : SessionCodecError → RunError) k,
    decoder (decode_from T) →
    shrinks output_left (let! req := on_co_reader (notice_decode_payload T n <?> wrap) in io_ret (E := RunError) (k req : ExitResult)))
    as Hsh.
  { intros T P wrap k Hd. apply shrinks_bind; [|intros; apply shrinks_ret].
    apply shrinks_zoom; [done..|]. apply shrinks_map_err. by apply shrinks_decoder. }
  unfold on_exit_notice. repeat case_decide; intros [= <-]; (apply Hsh; apply wire_decoder).
Qed.

Lemma relay_output_ends fuel ex c :
  (output_left c < fuel)%nat → (relay_output fuel ex c).2 ≠ Ok None.
Proof.
  revert ex c. induction fuel as [|fuel IH]; intros ex c Hc; [lia|]. cbn [relay_output].
  first_run c1 ev Hev.
  apply io_try_ok in Hev as [Hev Hnp]. destruct ev as [ev|e|]; [| |done].
  2:{ destruct e as [[]| | | | | | | ], ex; done. }
  assert (output_left c1 < output_left c)%nat as Hlt.
  { revert Hev. unfold on_co_reader, io_zoom. destruct (reader_next_event (co_reader c)) as [r x] eqn:Hr.
    intros. simplify_eq. by apply reader_next_event_progress in Hr. }
  destruct ev as [d|t d|n| | | |]; try done; try (apply IH; lia).
  - first_run c2 k Hk. apply IH.
    revert Hk. unfold to_stdout, io_zoom. destruct ((copy_out d <?> _) (co_reader c1, co_stdout c1)) eqn:Hk.
    intros. simplify_eq. apply copy_out_shrinks in Hk. unfold output_left in *. simpl in *. lia.
  - first_run c2 k Hk. apply IH.
    revert Hk. unfold to_stderr, io_zoom. destruct ((copy_out d <?> _) (co_reader c1, co_stderr c1)) eqn:Hk.
    intros. simplify_eq. apply copy_out_shrinks in Hk. unfold output_left in *. simpl in *. lia.
  - destruct (on_exit_notice _ n) as [decode|] eqn:Hn; [|done].
    first_run c2 x Hx.
    apply (on_exit_notice_shrinks _ _ _ _ _ _ Hn) in Hx. apply IH. lia.
Qed.

Lemma relay_input_piped_ends pid i : (relay_input_piped pid (S (input_left i)) i).2 ≠ Ok false.
Proof.
  apply relay_input_ends; [|lia]. intros incoming.
  unfold handle_piped_notice. case_decide; [|apply shrinks_ret].
  apply on_notice_shrinks; [apply wire_decoder|].
  intros req j. unfold deliver_to_pid. by repeat case_match.
Qed.

Lemma relay_input_pty_ends pid i : (relay_input_pty pid (S (input_left i)) i).2 ≠ Ok false.
Proof.
  apply relay_input_ends; [|lia]. intros incoming.
  unfold handle_pty_notice. repeat case_decide; [| |apply shrinks_ret];
    (apply on_notice_shrinks; [apply wire_decoder|]); intros req j;
    unfold deliver_to_pid, resize; by repeat case_match.
Qed.
End termination.

(** ** Witnesses *)

#[local] Existing Instance quic_varint.
#[local] Existing Instance quic_varint_laws.
#[local] Existing Instance copy_once.
#[local] Existing Instance copy_once_laws.
#[local] Existing Instance linux_signals.

(** A process that exits with code 3. *)
Definition exits_3 : System := MkSystem (λ _, Ok None) (λ _, Ok 768) (λ _, 0) (λ _, None).
Definition sample_pipes : list PipedBranch :=
  [Stdout (Ok (str_bytes "he")); Stderr (Ok (str_bytes "oops")); ChildExited; Stdout (Ok (str_bytes "llo"));
   Stderr (Ok []); Stdout (Ok [])].

Lemma sample_pipes_ok : Forall piped_ok sample_pipes.
Proof. repeat constructor; vm_compute; discriminate. Qed.

Lemma session_output_carried_witness :
  let run := run_piped (sample_host exits_3) (new_channel (MkReader [] None) new_writer)
    (Shell (str_bytes "/bin/sh")) sample_user None [] (MkInputPlan new_writer 0 None) sample_pipes in
  ∃ p, sr_process run = Some p ∧ sr_end run = Returned (Ok (Some ())) ∧
    delivers new_writer (sr_writer run) 768 (str_bytes "hello") (str_bytes "oops") ∧ exit_result 768 = Status 3.
Proof.
  cbv zeta.
  destruct (proj1 (session_output_carried (sample_host exits_3) (MkReader [] None) new_writer
    (Shell (str_bytes "/bin/sh")) sample_user None [] (MkInputPlan new_writer 0 None) 4242 768
    eq_refl eq_refl eq_refl) sample_pipes sample_pipes_ok) as (p & Hr & He & _ & Hd);
    [by repeat (left || right)..|vm_compute; reflexivity|].
  exists p. split; [exact Hr|]. split; [exact He|]. split; [exact Hd|reflexivity].
Defined.

Definition sample_inputs : list ClientInput :=
  [Typed (Ok (str_bytes "ls")); Resized (Some (120, 40)); Typed (Ok (str_bytes " -l")); Resized None;
   Typed (Ok []); Typed (Ok (str_bytes "lost"))].
Lemma sample_inputs_ok : Forall input_ok sample_inputs.
Proof. repeat constructor; vm_compute; discriminate. Qed.

Lemma session_input_carried_witness :
  ∃ w' bs, relay_stdin_interactive sample_inputs new_writer = (w', Ok ()) ∧
    ∃ i, relay_input_pty None 7 (MkInput (MkReader (bs ++ []) None) new_writer [] []) = (i, Ok true) ∧
      wr_out (i_stdin i) = str_bytes "ls -l" ∧ i_sizes i = [MkWinsize 40 120 0 0].
Proof.
  destruct (session_input_carried sample_inputs None new_writer sample_inputs_ok eq_refl)
    as (w' & bs & Hr & _ & Hi).
  destruct (Hi 7%nat [] None new_writer ltac:(simpl; lia) eq_refl) as [(i & Hi1 & Ho & Hs & _) _].
  exists w', bs. split; [exact Hr|]. exists i. split; [exact Hi1|]. split; [exact Ho|exact Hs].
Defined.

Lemma extended_input_misread_witness :
  relay_input_piped None 2
    (MkInput (MkReader (extended_data_wire 1 (msg SSH_MSG_CHANNEL_CLOSE) ++ data_wire (str_bytes "ls")) None)
       new_writer [] [])
  = (MkInput (MkReader (data_wire (str_bytes "ls")) None) new_writer [] [], Ok true).
Proof.
  exact (extended_input_misread _ 0 1 (str_bytes "ls") None new_writer [] []
    ltac:(split; [lia|reflexivity]) ltac:(reflexivity)).
Defined.
