(* ===== verification/SessionTask.v ===== *)
(** * The task of a session channel ([run_session] and [send_motd] of [src/src/session/dispatcher.rs])

    What the dispatcher spawns for a session channel: the setup, the message of
    the day, and the command on pipes or on a terminal. *)
From Stdlib Require Import ZArith Lia Strings.Byte.
From stdpp Require Import base list strings gmap fin_maps relations.
From S2P Require Import Prelude Text Wire Codec Message ChannelErrors Channel SessionMsg.
From S2P Require Import Terminal Setup Accounts Command Process SessionRelay SessionClient.
Local Open Scope Z_scope.
Local Open Scope io_scope.

(** [hushlogin]: the file is in the home directory; [motd]: what reading
    /etc/motd gives. *)
Definition send_motd {E} `{VarIntCodec} (hushlogin : bool) (motd : result (list byte) ErrorKind)
    : Io SshChannel E () :=
  if hushlogin then io_ret ()
  else
    match motd with
    | Ok ((_ :: _) as bytes) => let! _ := io_try (channel_data bytes) in io_ret ()
    | _ => io_ret ()
    end.

(** What is run, and where. *)
Record Launch (Fd : Type) := MkLaunch {
  l_mode : CommandMode;
  l_pty : option (PtyPair Fd);
  l_term : option (list byte);
  l_env : list (list byte * list byte);
}.
Arguments MkLaunch {Fd}.
Arguments l_mode {Fd}.
Arguments l_pty {Fd}.
Arguments l_term {Fd}.
Arguments l_env {Fd}.

Section launch.
Context `{VarIntCodec} {Fd : Type} `{TermiosConstants}
  (openpty : winsize → result (Fd * Fd) Errno) (tcgetattr : Fd → result Termios Errno)
  (tcsetattr : Fd → Termios → result () Errno).
Context (user_shell : list byte) (hushlogin : bool) (motd : result (list byte) ErrorKind).

Definition session_launch : Io SshChannel SessionSetupError (option (Launch Fd)) :=
  let! setup := session_setup openpty tcgetattr tcsetattr in
  match setup with
  | None => io_ret None
  | Some s =>
    (if ss_is_shell s && bool_decide (is_Some (ss_pty s)) then send_motd hushlogin motd else io_ret ()) ;;;
    let mode := if ss_is_shell s then Shell user_shell else Exec user_shell (ss_command s) in
    io_ret (Some (MkLaunch mode (ss_pty s) (ss_term_type s) (ss_client_env s)))
  end.

End launch.

(** The task of an accepted channel, on the branches its relays take; a failed
    setup is logged. A shutdown before the command drops the channel. *)
Definition session_task `{VarIntCodec, IoCopy, SignalNumbers} {Fd : Type} `{TermiosConstants}
    (openpty : winsize → result (Fd * Fd) Errno) (tcgetattr : Fd → result Termios Errno)
    (tcsetattr : Fd → Termios → result () Errno) (hushlogin : bool) (motd : result (list byte) ErrorKind)
    (sh : SessionHost Fd) (config : UserInfo) (plan : InputPlan) (piped : list PipedBranch)
    (term : list PtyBranch) (channel : SshChannel) : SessionRun Fd :=
  match session_launch openpty tcgetattr tcsetattr (str_bytes (ui_shell config)) hushlogin motd channel with
  | (channel, Ok (Some l)) =>
    match l_pty l with
    | Some pty => run_pty sh channel (l_mode l) pty config (l_term l) (l_env l) plan term
    | None => run_piped sh channel (l_mode l) config (l_term l) (l_env l) plan piped
    end
  | (channel, _) => not_run None (writer channel) None (Ok ())
  end.

Section properties.
Context `{VarIntLaws, IoCopyLaws, SignalNumbers} {Fd : Type} `{TermiosConstants}
  (openpty : winsize → result (Fd * Fd) Errno) (tcgetattr : Fd → result Termios Errno)
  (tcsetattr : Fd → Termios → result () Errno).
Context (user_shell : list byte) (hushlogin : bool) (motd : result (list byte) ErrorKind).

Definition program_mode (p : Program) : CommandMode :=
  match p with Setup.Exec c => Exec user_shell c | Setup.Shell => Shell user_shell end.
(** The message of the day, for a shell on a terminal. *)
Definition motd_frames (p : Program) (pty : option (PtyPair Fd)) : list byte :=
  match p, pty, hushlogin, motd with
  | Setup.Shell, Some _, false, Ok ((_ :: _) as bytes) => data_wire bytes
  | _, _, _, _ => []
  end.

Lemma send_motd_run {E} ch :
  wr_plan (writer ch) = [] → (∀ bs, motd = Ok bs → byte_len bs < VARINT_LIMIT) →
  ∃ w', send_motd (E := E) hushlogin motd ch = (new_channel (reader ch) w', Ok ()) ∧
    wr_out w' = wr_out (writer ch) ++
      (match hushlogin, motd with false, Ok ((_ :: _) as bytes) => data_wire bytes | _, _ => [] end) ∧
    wr_plan w' = [].
Proof.
  intros Hw Hlen. unfold send_motd. destruct ch as [r w]. cbn [reader writer] in *.
  destruct hushlogin; [exists w; by rewrite app_nil_r|].
  destruct motd as [[|b bs]|e|]; try (exists w; by rewrite app_nil_r).
  destruct (writes_ok (data_writes (b :: bs) (Hlen _ eq_refl)) w Hw) as (w' & Hr & Ho & Hp).
  exists w'. unfold io_bind, io_try, channel_data. rewrite (with_writer_run _ (new_channel r w) _ _ Hr). done.
Qed.

(** The launch after any setup. *)
Lemma session_launch_run (ms : list (SetupMsg * bool)) (p : Program) (want : bool) rest fin w pty :
  Forall (λ m, setup_msg_ok m.1) ms → program_ok p → wr_plan w = [] →
  (∀ bs, motd = Ok bs → byte_len bs < VARINT_LIMIT) →
  let rq := foldl setup_msg_apply (MkRequested None None []) (map fst ms) in
  setup_pty openpty tcgetattr tcsetattr rq = Ok pty →
  ∃ w', session_launch openpty tcgetattr tcsetattr user_shell hushlogin motd
      (new_channel (MkReader (concat (map (λ m, setup_msg_wire m.1 m.2) ms) ++
                              program_wire p want ++ rest) fin) w)
    = (new_channel (MkReader rest fin) w',
       Ok (Some (MkLaunch (program_mode p) pty (rq_term rq) (rq_env rq)))) ∧
    wr_out w' = wr_out w ++ concat (map (λ m, setup_msg_reply m.1 m.2) ms) ++ program_reply want ++
                motd_frames p pty ∧
    wr_plan w' = [].
Proof.
  intros Hms Hp Hw Hmotd rq Hpty.
  destruct (session_setup_run openpty tcgetattr tcsetattr ms p want rest fin w Hms Hp Hw)
    as (w1 & Hr & Ho & Hp1). fold rq in Hr. rewrite Hpty in Hr.
  unfold session_launch. rewrite (io_bind_ok _ _ _ _ _ Hr). unfold motd_frames.
  destruct p as [c|]; cbn [ss_is_shell ss_pty andb program_mode].
  - exists w1. split; [done|]. rewrite app_nil_r. done.
  - destruct pty as [fds|].
    + destruct (send_motd_run (E := SessionSetupError) (new_channel (MkReader rest fin) w1) Hp1 Hmotd)
        as (w2 & Hr2 & Ho2 & Hp2).
      exists w2. rewrite bool_decide_eq_true_2 by done. rewrite (io_bind_ok _ _ _ _ _ Hr2).
      split; [done|]. split; [|done]. rewrite Ho2. cbn [writer]. rewrite Ho. by rewrite <- !(assoc_L (++)).
    + exists w1. rewrite bool_decide_eq_false_2 by (by intros [? ?]). split; [done|].
      rewrite app_nil_r. done.
Qed.
End properties.

Section end_to_end.
Context `{VarIntLaws, IoCopyLaws, SignalNumbers} {Fd : Type} `{TermiosConstants}
  (openpty : winsize → result (Fd * Fd) Errno) (tcgetattr : Fd → result Termios Errno)
  (tcsetattr : Fd → Termios → result () Errno).
Context (hushlogin : bool) (motd : result (list byte) ErrorKind) (sh : SessionHost Fd).

(** The reads of the process until its end, seen once, on pipes or a terminal. *)
Definition complete (pty : option (PtyPair Fd)) (piped : list PipedBranch) (term : list PtyBranch) : Prop :=
  match pty with
  | None => Forall piped_ok piped ∧ Stdout (Ok []) ∈ piped ∧ Stderr (Ok []) ∈ piped ∧ ChildExited ∈ piped
  | Some _ => Forall pty_ok term ∧ (Master (PtyData []) ∈ term ∨ Master PtyEio ∈ term) ∧ MasterExited ∈ term
  end.

(** How a child is attached: to pipes, in a process group of its own, or to the
    terminal, in a session of its own that it controls. *)
Definition attached (pty : option (PtyPair Fd)) (stdio : ChildStdio Fd) (pre_exec : list PreExec) : Prop :=
  match pty with
  | None => stdio = PipedStdio ∧ pre_exec = [Setpgid 0 0]
  | Some fds => ∃ stdout stderr, pty_descriptors sh fds stdout stderr ∧
      stdio = FdStdio (slave fds) stdout stderr ∧ pre_exec = [Setsid; SetControllingTty 0]
  end.

Definition program_args (p : Program) : list (list byte) :=
  match p with Setup.Exec c => [str_bytes "-c"; c] | Setup.Shell => [] end.
Definition input_relay (pty : option (PtyPair Fd)) : option Z → nat → Io Input Infallible bool :=
  match pty with None => relay_input_piped | Some _ => relay_input_pty end.

(** C6: A session does what its client asked for. Whatever requests for a
    terminal and for variables the client sends before its command or shell, and
    unknown ones without a payload, each is answered in order; then one program
    is started, the login shell with exactly that command, or by itself, with the
    environment of the user, those variables in their order and that terminal
    type, in the user's home directory, on a terminal when one was asked for,
    after the message of the day for a shell on a terminal. The bytes that follow
    are the input of that process. A client that reads on receives exactly the
    process's output and errors and how it ended; and the session returns, the
    process reaped, when its input relay is not held up. *)
Theorem session_serves (ms : list (SetupMsg * bool)) (p : Program) (want : bool) (rest : list byte)
    (fin : option ErrorKind) (w stdin : Writer) (rounds : nat) (config : UserInfo)
    (pty : option (PtyPair Fd)) (stdio : ChildStdio Fd) (pre_exec : list PreExec) (pid : Z)
    (status : ExitStatus) (piped : list PipedBranch) (term : list PtyBranch) :
  let rq := foldl setup_msg_apply (MkRequested None None []) (map fst ms) in
  let requests := concat (map (λ m, setup_msg_wire m.1 m.2) ms) in
  let shell := str_bytes (ui_shell config) in
  let cmd := MkChildCommand shell (argv0 (program_mode shell p)) (program_args p)
    (build_env (sh_host sh) config (rq_term rq) (rq_env rq)) (current_dir (sh_is_dir sh) config)
    stdio pre_exec in
  Forall (λ m, setup_msg_ok m.1) ms → program_ok p → wr_plan w = [] →
  (∀ bs, motd = Ok bs → byte_len bs < VARINT_LIMIT) →
  setup_pty openpty tcgetattr tcsetattr rq = Ok pty → attached pty stdio pre_exec →
  sh_spawn sh cmd = Ok (Some pid) → sys_wait (sh_process sh) [] = Ok status →
  complete pty piped term →
  ∃ w1 proc,
    let run := session_task openpty tcgetattr tcsetattr hushlogin motd sh config
      (MkInputPlan stdin rounds None) piped term
      (new_channel (MkReader (requests ++ program_wire p want ++ rest) fin) w) in
    sr_command run = Some cmd ∧
    sr_input run = Some (input_relay pty (Some pid) rounds (MkInput (MkReader rest fin) stdin [] [])).1 ∧
    wr_out w1 = wr_out w ++ concat (map (λ m, setup_msg_reply m.1 m.2) ms) ++ program_reply want ++
                motd_frames hushlogin motd p pty ∧
    delivers w1 (sr_writer run) status
      (match pty with None => piped_out false piped | Some _ => master_out term end)
      (match pty with None => piped_err false piped | Some _ => [] end) ∧
    sr_end run = Returned (Ok (Some ())) ∧
    sr_process run = Some proc ∧ process_group proc = pid ∧ reaped proc = true.
Proof.
  cbv zeta. intros Hms Hp Hw Hmotd Hpty Hatt Hspawn Hwait Hc.
  destruct (session_launch_run openpty tcgetattr tcsetattr (str_bytes (ui_shell config)) hushlogin motd
    ms p want rest fin w pty Hms Hp Hw Hmotd Hpty) as (w1 & Hr & Ho & Hp1).
  unfold session_task. rewrite Hr. cbn [l_pty l_mode l_term l_env].
  set (cmd := MkChildCommand _ _ _ _ _ _ _) in *. destruct pty as [fds|].
  - destruct Hatt as (so & se & Hfds & -> & ->). destruct Hc as (Hb & Hclosed & Hx).
    assert (cmd = pty_command (sh_host sh) (sh_is_dir sh) (program_mode (str_bytes (ui_shell config)) p)
      config (rq_term _) (rq_env _) (slave fds) so se) as Hcmd by by destruct p.
    rewrite Hcmd in Hspawn.
    destruct (run_pty_run sh (MkReader rest fin) w1 _ fds so se config _ _ (MkInputPlan stdin rounds None)
      pid status term Hp1 Hb Hclosed Hx Hfds Hspawn Hwait eq_refl)
      as (w2 & proc & l & -> & Hpid & Hreap & Hout & <- & Herr & Hex & Hl).
    exists w1, proc. rewrite Hcmd. split_and!; try done. rewrite <- Herr. by apply session_delivers.
  - destruct Hatt as (-> & ->). destruct Hc as (Hb & Hs & He & Hx).
    assert (cmd = piped_command (sh_host sh) (sh_is_dir sh) (program_mode (str_bytes (ui_shell config)) p)
      config (rq_term _) (rq_env _)) as Hcmd by by destruct p.
    rewrite Hcmd in Hspawn.
    destruct (run_piped_run sh (MkReader rest fin) w1 _ config _ _ (MkInputPlan stdin rounds None)
      pid status piped Hp1 Hb Hs He Hx Hspawn Hwait eq_refl)
      as (w2 & proc & l & -> & Hpid & Hreap & Hout & <- & <- & Hex & Hl).
    exists w1, proc. rewrite Hcmd. split_and!; try done. by apply session_delivers.
Qed.

(** C39: The loops of a session end with their streams. Whatever the peers send,
    setting up a session returns, with the setup or an error, and never for
    want of fuel, which is the length of the stream; the relay that feeds the
    process stops by itself within as many events as its stream has bytes,
    without being told to; and the client's output relay returns within as
    many, with the exit it was told of or an error: none of them can be kept
    busy by a stream that has ended. *)
Theorem session_loops_end (ch : SshChannel) (pid : option Z) (i : Input) (c : ClientOutput)
    (ex : option ExitResult) :
  (session_setup openpty tcgetattr tcsetattr ch).2 ≠ Ok None ∧
  (relay_input_piped pid (S (input_left i)) i).2 ≠ Ok false ∧
  (relay_input_pty pid (S (input_left i)) i).2 ≠ Ok false ∧
  (relay_output (S (output_left c)) ex c).2 ≠ Ok None.
Proof.
  split_and!; [apply session_setup_terminates|apply relay_input_piped_ends|apply relay_input_pty_ends|].
  apply relay_output_ends. lia.
Qed.
End end_to_end.

(** ** Witness *)

#[local] Existing Instance quic_varint.
#[local] Existing Instance quic_varint_laws.
#[local] Existing Instance copy_once.
#[local] Existing Instance copy_once_laws.
#[local] Existing Instance linux_signals.
#[local] Existing Instance linux_termios.

Definition only_env : list (SetupMsg * bool) := [(SEnv sample_env, true)].
Lemma only_env_ok : Forall (λ m : SetupMsg * bool, setup_msg_ok m.1) only_env.
Proof. repeat constructor; by apply from_static_ok. Qed.

Lemma session_serves_witness :
  ∃ w1 proc,
    let run := session_task sample_openpty sample_tcgetattr sample_tcsetattr false
      (Ok (str_bytes "welcome")) (sample_host exits_3) sample_user (MkInputPlan new_writer 1 None)
      sample_pipes []
      (new_channel (MkReader (concat (map (λ m, setup_msg_wire m.1 m.2) only_env) ++
                              program_wire (Setup.Exec (str_bytes "ls")) true ++ []) None) new_writer) in
    cc_program <$> sr_command run = Some (str_bytes "/bin/sh") ∧
    cc_args <$> sr_command run = Some [str_bytes "-c"; str_bytes "ls"] ∧
    (cc_env <$> sr_command run) ≫= env_get (str_bytes "LANG") = Some (str_bytes "C") ∧
    wr_out w1 = msg 99 ++ msg 99 ∧
    delivers w1 (sr_writer run) 768 (str_bytes "hello") (str_bytes "oops") ∧
    sr_process run = Some proc ∧ process_group proc = 4242 ∧ reaped proc = true.
Proof.
  destruct (session_serves sample_openpty sample_tcgetattr sample_tcsetattr false
    (Ok (str_bytes "welcome")) (sample_host exits_3) only_env (Setup.Exec (str_bytes "ls")) true [] None
    new_writer new_writer 1 sample_user None PipedStdio [Setpgid 0 0] 4242 768 sample_pipes [] only_env_ok)
    as (w1 & proc & Hc & _ & Ho & Hd & _ & Hp & Hg & Hr).
  - vm_compute. discriminate.
  - reflexivity.
  - intros bs [= <-]. reflexivity.
  - reflexivity.
  - by split.
  - vm_compute. reflexivity.
  - reflexivity.
  - split; [exact sample_pipes_ok|]. split; [by repeat (left || right)|].
    split; by repeat (left || right).
  - exists w1, proc. cbv zeta. rewrite Hc. split; [reflexivity|]. split; [reflexivity|].
    split; [vm_compute; reflexivity|]. split; [exact Ho|]. split; [exact Hd|].
    split; [exact Hp|]. split; [exact Hg|exact Hr].
Defined.

Lemma session_loops_end_witness :
  let r := MkReader (program_wire (Setup.Exec (str_bytes "ls")) true ++ msg SSH_MSG_CHANNEL_EOF) None in
  let i := MkInput r new_writer [] [] in
  let c := MkClientOutput r new_writer new_writer in
  (session_setup sample_openpty sample_tcgetattr sample_tcsetattr (new_channel r new_writer)).2 ≠ Ok None ∧
  (relay_input_piped None (S (input_left i)) i).2 ≠ Ok false ∧
  (relay_output (S (output_left c)) None c).2 ≠ Ok None.
Proof.
  intros r i c. destruct (session_loops_end sample_openpty sample_tcgetattr sample_tcsetattr
    (new_channel r new_writer) None i c None) as (H1 & H2 & _ & H4).
  split; [exact H1|]. split; [exact H2|exact H4].
Defined.
